(* ===== verification/_CoqProject ===== *)
-Q . S2P
Prelude.v
GoStrings.v
Contexts.v
Types.v
Config.v
Meta.v
CcFilename.v
CcArgs.v
CcArgsProps.v
CcArgsRemote.v
CcArgsOps.v
CcController.v
ExpirationHeap.v
ExpirationNotifier.v
Storage.v
Router.v
RouterSteps.v
Broker.v
BrokerProps.v
BrokerStreams.v
Monitor.v
MonitorProps.v
MonitorSteps.v
LocalStorage.v
Volatile.v
CacheServer.v
S3.v
Status.v
Pause.v
WorkerPool.v
SplitQueue.v
Telemetry.v
Toolchains.v
Consumerd.v
Agent.v
RequestClient.v
Tasks.v
StreamManager.v
Finders.v
MetricsClient.v
KeyedBuffer.v
SchedulerServer.v
Availability.v
Operator.v
OperatorProps.v
Setup.v
SetupProps.v
Servers.v
LineBuffer.v
Followers.v
DataSources.v
StatusDisplay.v
Prometheus.v
MonitorQueries.v
SchedulerStats.v
Tools.v
ToolchainWatcher.v
Recorder.v
