(* ===== verification/Prelude.v ===== *)
(** * kubecc: a distributed compiler, verified

    kubecc runs C and C++ compiles on a cluster. A build calls the _consumer_ under a
    compiler's name; it hands the command line to the _consumer daemon_ (consumerd) of the
    machine, which parses it, decides whether the compile may run elsewhere, preprocesses
    the source and sends a compile request to the _scheduler_. The scheduler routes it to
    an _agent_ with an equivalent compiler, possibly answers from the _cache server_, and
    sends the object back. All of them report to the _monitor_. An _operator_ runs the
    cluster, and _setup_ installs the client side on a machine. This development models
    the Go code of these components, file by file, as executable definitions, and proves
    what makes them correct. Paths below are under src/pkg, unless they say otherwise.

    ** How the code is modelled

    - A Go function is a function; one that can panic returns in the monad [go] of this
      file ([Ret] or [Panic]), an error is a value of [error], and integers whose
      wrap-around matters are [Z] with [wrap]. A Go map is a [gmap]; where the program
      iterates over one, the order is a parameter that is only known to be a permutation.
    - Pointers that are shared are numbers into a heap (routes, agents, toolchains).
    - Goroutines are program points in the state of a component; a labelled step of a step
      function is a channel operation, an atomic operation or a critical section, and
      [reach] closes it over all interleavings, with [run_labels] to execute a schedule.
      Where a file merges several of them into one step it says so. [Broker] merges the
      change from one table to the other with the send that follows, and the set-up of an
      agent. [Router] and [Monitor] define whole methods, as they run undisturbed;
      [RouterSteps] and [MonitorSteps] split them where the code can be interrupted, prove
      the properties there, and show that the whole methods are schedules of the parts.
      The cache server is a step relation, because its providers may forget anything.
    - Code outside the repository is a parameter: the compiler and the file system (record
      [Host], functions [stat] and [run]), the digest, protobuf and JSON encodings, the
      cache library (class [CCache] with its laws), the object store ([MinioClient],
      [MinioLaws]), the Kubernetes API ([ClusterApi], [ClusterLaws]), the struct merger and
      the decoders ([Mergo], [Decoders]), systemd and the user's answers ([Sys], [Prompts]).
      Each theorem with such a hypothesis has a witness that instantiates it.

    ** The files

    - [Prelude]: the monad, errors, machine integers, step systems, lists and sums.
      [GoStrings]: the functions of strings and path/filepath the program uses, and the
      laws of clean absolute paths. [Contexts] (run/task.go, util/context.go): contexts
      combined from others.
    - [Types] (types/functions.go, component.go, loghelpers.go): toolchains and their
      equivalence, requests, hashes, keys. [Config] (config/config.go, spec.go): the
      configuration, its global settings and where it is looked for. [Meta] (meta, identity, servers/grpc.go): the
      contexts of the program and their transport in the metadata of calls.
    - [CcFilename], [CcArgs] (cc/filename.go, cc/args.go): the argument parser.
      [CcArgsProps]: its type invariant, totality, equivalence of its index loops with
      list functions. [CcArgsRemote]: a command line judged remote is safe to run
      elsewhere. [CcArgsOps]: the operations on parsed arguments.
    - [CcController] (cc/compile.go, preprocess.go, controller): the tasks and request
      managers, local, sending and receiving. [Finders] (consumer/path_search.go,
      cc/finder.go, toolchains/query.go, discovery.go): the search for compilers and what
      they are asked. [Toolchains] (toolchains/store.go): the store of toolchains.
    - [Consumerd] (consumerd/server.go): a run request with its retry loop. [SplitQueue]
      (consumerd/queue.go, telemetry.go) over [WorkerPool] (run/workerpool.go) and
      [Pause] (util/pause.go): the queue that runs tasks locally or remotely.
      [Telemetry] (consumerd/telemetry.go): recorded entries. [RequestClient]
      (clients/scheduler.go): compile calls multiplexed over one stream. [Tasks]
      (run/task.go, command.go, store.go, executor.go, sleep/controller): task options,
      packaged requests, the runners of toolchains, the executors.
    - [Router], [RouterSteps], [Broker], [BrokerProps], [BrokerStreams], [SchedulerServer]
      (scheduler/router.go, broker.go, server.go): routes by toolchain, their methods and
      how the methods interleave, the life of a request, the registration of consumer
      daemons, stream counts.
    - [Agent] (agent/server.go): the agent, and the whole way of a compile.
    - [ExpirationHeap], [ExpirationNotifier], [Storage], [LocalStorage], [Volatile], [S3],
      [CacheServer] (storage, cachesrv/server.go): the heap of expiration dates and its
      goroutine, the class of storage providers with its contract, the chain, the disk,
      memory and S3 providers, the cache server.
    - [Monitor], [MonitorProps], [MonitorSteps] (monitor/server.go, store.go), [Status]
      (metrics/status.go), [StreamManager] (clients/stream.go), [MetricsClient]
      (clients/monitor.go), [KeyedBuffer] (clients/keyedbuffer.go), [Availability]
      (clients/availability.go): metrics, health and the clients that follow them.
    - [Operator], [OperatorProps] (resources/buildcluster, src/controllers,
      src/api/v1alpha1): the objects the operator wants in the cluster, and reconciliation.
    - [Servers] (the constructors in agent/server.go, consumerd/server.go,
      cachesrv/server.go, kubecc/components, host): the servers as the commands start them.
    - [Setup], [SetupProps] (kubecc/commands/setup.go, teardown.go): installation and
      removal on a machine of files and systemd units.
    - [Followers]: what handlers that keep a table of providers have in common; [Prometheus]
      (monitor/prometheus.go) and [DataSources] (ui/sources.go, table.go), the exporter and
      the tables of the status display, use it. [StatusDisplay] (ui/sources.go, tree.go):
      the totals and the routes. [MonitorQueries] (monitor/server.go,
      kubecc/commands/get.go): the monitor's metrics about itself, and the get commands over
      the class [MonitorClient]. [LineBuffer] (stream/ringlinebuffer.go, stream.go): the
      buffer of the last lines, over a heap of byte arrays that the scanner shares.
    - [SchedulerStats] (scheduler/optimizer.go, server.go, broker.go, clients/scheduler.go):
      the limit that the scheduler posts and the pool that follows it. [ToolchainWatcher]
      (scheduler/tcwatcher.go): the listener for toolchains, with the broker at its other
      end. [Recorder] (consumerd/telemetry.go, queue.go, server.go): the goroutines that
      sample the counters of the queue, and the metrics of the daemon. [Tools]
      (consumer/dispatch.go, kubecc/tools, kubecc/components/run.go): the wrapper and the
      commands.

    ** What is proved

    - A compile that succeeds is a compile. [CcArgsRemote.Parse_remote_sound]: nothing of
      a command line judged remote depends on the machine.
      [CcController.send_Process_refines]: the sender preprocesses once, sends the result
      only if that succeeded, and with one action flag leaves the arguments as they were.
      [Agent.compile_end_to_end]: success means that the written object is what a
      successful run of the agent's own equivalent compiler produced.
      [Consumerd.Run_local_only] and [Consumerd.Run_terminates]: a local request that is
      accepted runs one command, on the machine, and its outcome is the answer; the retry
      loop ends.
    - No request is lost or answered twice. [BrokerProps]: a request is in exactly one
      place, answered once and to its submitter, tokens are conserved.
      [RouterSteps.router_refcounts], [RouterSteps.Route_finds_agent]: counts and routes
      agree with the goroutines. [SplitQueue]: tasks are conserved, run on the right side
      and, as long as no pool shrinks, never stranded. [RequestClient]: responses reach
      their call. [Agent.agent_answers]: one handler and one answer for each request.
    - The cache is sound. [CacheServer.cache_pull_sound] holds for every provider with the
      contract of [Storage]; the disk and memory providers are proved to have it, the S3
      provider under the condition that its downloads do not fail ([S3.s3_Get_faults] is
      what happens otherwise). [S3.s3_put_get]: what was put is what is got, through any
      calls in between and whenever the download succeeds. [ExpirationHeap] and
      [ExpirationNotifier]: order, conservation, and no lost wake-up as long as calls of
      [Add] do not overlap ([notifier_lost_wakeup] is the overlap that loses one).
      [Volatile.volatile_accounting].
    - What is reported is so. [MonitorSteps.monitor_listeners_current]: listeners are
      current unless a key is written while one joins ([late_join_stale]).
      [MonitorProps.monitor_meta_bucket]: the meta bucket lists the providers.
      [MetricsClient.providers_follow]: one handler for each provider, and what becomes of
      them with each error of the stream.
      [StreamManager.stream_health] and [Status]: health follows connections.
      [KeyedBuffer.keyed_newest], [SchedulerServer.agents_condition]: with the schedules
      under which they hold; the theorems next to them show the races outside those.
      [Meta.identity_roundtrip]: the server knows its caller.
      [BrokerStreams.consumerds_registered]: the broker's table is the streams it serves.
    - The parts find each other. [OperatorProps.addresses_resolve]: the addresses in the
      configuration of the cluster are services that lead to pods that are deployed and
      listen there;
      [OperatorProps.roles_separated]: agents and control plane are kept apart;
      [OperatorProps.Reconcile_converges]: a reconciliation that ends without requeue has
      established every object. [SetupProps.installed_config_loads]: what setup writes is
      what [Config.Load] finds, and wrappers and daemon agree on the address;
      [SetupProps.setupToolchains_links], [SetupProps.service_recognised]: the links and
      the service are the intended ones. [Config.ApplyGlobals_spec].
    - What a user sees. [Tools.wrapper_transparent]: for a local command line the wrapper
      behaves like the compiler, except that every exit code that is not 0 becomes 1.
      [LineBuffer.line_buffer_refines]: the log shows the last lines.
      [DataSources.records_follow], [DataSources.update_shown],
      [Prometheus.gauges_current], [Prometheus.exporter_table],
      [MonitorQueries.get_component_lists], [MonitorQueries.get_health_lists]: tables, gauges
      and listings agree with the monitor, under the schedules that the theorems name.
      [SchedulerStats.preferred_limits],
      [SchedulerStats.pool_follows]: the limits are in range and followed.
      [Recorder.recorder_history], [Recorder.posts_true]: what is recorded and posted was so.
      [ToolchainWatcher.watched_values] and [ToolchainWatcher.update_not_applied]: the broker
      works with toolchains that the daemon posted, but does not notice when they change.
    - Compilers are found. [Finders.FindToolchains_spec]: the finder finds exactly the files
      that are named like compilers and answer; [Toolchains.UpdateIfNeeded_spec]: an entry
      is updated exactly when its executable changed.
    - Tasks and contexts. [Contexts.pair_is_CancelAny]: two implementations of combined
      contexts agree. [Tasks.packaged_once]: a packaged request is answered once.
      [Servers.agent_limit]: an agent reports the processors it has.
    - Faults of the code are theorems too, each next to the property it limits (names in
      _bugs, _faults, _races, _panics, _leaks and the like): they exhibit a schedule or an
      input, with its outcome.

    ** Bounds

    The fuel is that of the retry loop ([Consumerd.run_loop]; [Run_terminates] gives
    the number of attempts that is enough) and of the eviction loop ([LocalStorage.evict];
    one unit more than there are entries, and [evict_terminates] shows that it suffices)
    and that of the scanner ([LineBuffer.write_fuel]; [Write_returns] shows that it suffices).
    Loops that wait for the world (the bucket setup of [S3.setup_goroutine], the questions
    of [Setup.choose_dir] and [Setup.check_sourced]) take the number of rounds, and say
    when they have not ended; [SetupProps.install_dir_loops] shows one that never does.
    Everything else is structural. Queue capacities are those of the code.

    Numbers of type float64 are integers or rationals rounded to 53 bits after each
    operation; none of them comes near overflow or underflow.

    ** Not modelled

    Logging, tracing, the moments at which timers fire, and gRPC itself. The numeric
    library calls of telemetry.go (EWMA, LinearRegression) and the optimizer for agents,
    which nobody calls. The HTTP endpoint of the exporter, the drawing of the terminal user
    interface and its source for the cache, which formats floating-point sizes. Flags and
    declarations of commands, the dialing of servers, the validation of typed addresses and
    the change of user under sudo in setup. Generated code and test support. Objects in the
    storage chain are values: that a provider writes an object's managed fields through the
    caller's pointer is not visible in the contract, which is about data. What remains is
    configuration of libraries, or loops that wait for a context and call operations that
    are modelled. *)
From Stdlib Require Export ZArith Lia Ascii.
From stdpp Require Export base gmap sets list numbers option strings.

(** ** Scopes, hint database *)

Declare Scope go_scope.
Delimit Scope go_scope with go.
Create HintDb kubecc.
Create Rewrite HintDb kubecc.

#[global] Open Scope Z_scope.

(** ** Go results: normal return or run-time panic

    A Go function that can index out of range, convert a nil pointer or call
    [panic] is modelled in this monad.  Returned [error] values are ordinary
    data (type [error] below) and never use [Panic]. *)

Inductive go (A : Type) : Type :=
  | Ret (a : A)
  | Panic (why : string).
Arguments Ret {_} _.
Arguments Panic {_} _.

#[export] Instance go_ret : MRet go := @Ret.
#[export] Instance go_bind : MBind go := λ A B f m,
  match m with
  | Ret a => f a
  | Panic w => Panic w
  end.
#[export] Instance go_fmap : FMap go := λ A B f m,
  match m with
  | Ret a => Ret (f a)
  | Panic w => Panic w
  end.

Definition is_ret {A} (m : go A) : bool :=
  match m with
  | Ret _ => true
  | Panic _ => false
  end.

Lemma go_bind_ret {A B} (f : A → go B) (a : A) : (Ret a ≫= f) = f a.
Proof. done. Qed.

Lemma go_bind_Ret_inv {A B} (f : A → go B) (m : go A) (b : B) :
  (m ≫= f) = Ret b → ∃ a, m = Ret a ∧ f a = Ret b.
Proof. destruct m as [a|w]; cbn; [by eauto | done]. Qed.

Lemma go_bind_assoc {A B C} (m : go A) (f : A → go B) (g : B → go C) :
  ((m ≫= f) ≫= g) = (m ≫= λ a, f a ≫= g).
Proof. by destruct m. Qed.

Lemma is_ret_Ret {A} (m : go A) : is_ret m = true ↔ ∃ a, m = Ret a.
Proof. by destruct m; cbn; split; [eauto | intros [? [=]] | | intros [? [=]]]; eauto. Qed.

(** A loop [for i, a := range l] whose body may panic. *)
Fixpoint go_foldi {A St} (f : nat → A → St → go St) (i : nat) (l : list A) (s : St) : go St :=
  match l with
  | [] => Ret s
  | a :: l => s ← f i a s; go_foldi f (S i) l s
  end.

Lemma go_foldi_app {A St} (f : nat → A → St → go St) i l1 l2 s :
  go_foldi f i (l1 ++ l2) s = (s ← go_foldi f i l1 s; go_foldi f (i + length l1)%nat l2 s).
Proof.
  revert i s. induction l1 as [|a l1 IH]; intros i s; cbn.
  - by rewrite Nat.add_0_r.
  - destruct (f i a s); cbn; [|done]. rewrite IH. f_equal.
    replace (S i + length l1)%nat with (i + S (length l1))%nat by lia. done.
Qed.

(** Invariant rule for [go_foldi]: [P i s] holds before element [i]. *)
Lemma go_foldi_inv {A St} (P : nat → St → Prop) (f : nat → A → St → go St) l i s s' :
  P i s →
  (∀ j a s1 s2, l !! j = Some a → P (i + j)%nat s1 → f (i + j)%nat a s1 = Ret s2 →
     P (1 + (i + j))%nat s2) →
  go_foldi f i l s = Ret s' →
  P (i + length l)%nat s'.
Proof.
  revert i s. induction l as [|a l IH]; intros i s HP Hstep Hrun; cbn in *.
  - injection Hrun as <-. by rewrite Nat.add_0_r.
  - apply go_bind_Ret_inv in Hrun as (s1 & Hf & Hrun).
    replace (i + S (length l))%nat with (S i + length l)%nat by lia.
    eapply (IH (S i) s1); [| |done].
    + specialize (Hstep 0%nat a s s1 eq_refl). rewrite !Nat.add_0_r in Hstep. auto.
    + intros j b t1 t2 Hj. specialize (Hstep (S j) b t1 t2 Hj).
      by rewrite !Nat.add_succ_r in Hstep.
Qed.

(** The loop returns when every iteration returns from a state satisfying [P]. *)
Lemma go_foldi_total {A St} (P : nat → St → Prop) (f : nat → A → St → go St) l i s :
  P i s →
  (∀ j a s1, l !! j = Some a → P (i + j)%nat s1 →
     ∃ s2, f (i + j)%nat a s1 = Ret s2 ∧ P (1 + (i + j))%nat s2) →
  ∃ s', go_foldi f i l s = Ret s' ∧ P (i + length l)%nat s'.
Proof.
  revert i s. induction l as [|a l IH]; intros i s HP Hstep; cbn.
  - exists s. by rewrite Nat.add_0_r.
  - destruct (Hstep 0%nat a s eq_refl) as (s2 & Hf & HP2); [by rewrite Nat.add_0_r|].
    rewrite !Nat.add_0_r in Hf, HP2. rewrite Hf. cbn.
    replace (i + S (length l))%nat with (S i + length l)%nat by lia.
    apply (IH (S i)); [done|].
    intros j b t1 Hj. specialize (Hstep (S j) b t1 Hj).
    by rewrite !Nat.add_succ_r in Hstep.
Qed.

(** ** Errors as values: gRPC status codes and plain errors *)

Inductive code : Set :=
  | OK | Canceled | Unknown | InvalidArgument | DeadlineExceeded | NotFound
  | AlreadyExists | FailedPrecondition | Aborted | Unimplemented | Internal
  | Unavailable.
#[export] Instance code_eq_dec : EqDecision code.
Proof. solve_decision. Defined.

Inductive error : Set :=
  | StatusError (c : code) (msg : string)
  | PlainError (msg : string)
  | CompilerError (text : string).
#[export] Instance error_eq_dec : EqDecision error.
Proof. solve_decision. Defined.

(** [status.Code(err)] with [nil] as [None]. *)
Definition status_code (err : option error) : code :=
  match err with
  | None => OK
  | Some (StatusError c _) => c
  | Some (PlainError _) | Some (CompilerError _) => Unknown
  end.

Definition code_name (c : code) : string :=
  match c with
  | OK => "OK" | Canceled => "Canceled" | Unknown => "Unknown"
  | InvalidArgument => "InvalidArgument" | DeadlineExceeded => "DeadlineExceeded"
  | NotFound => "NotFound" | AlreadyExists => "AlreadyExists"
  | FailedPrecondition => "FailedPrecondition" | Aborted => "Aborted"
  | Unimplemented => "Unimplemented" | Internal => "Internal" | Unavailable => "Unavailable"
  end.

(** [err.Error()]. *)
Definition error_text (err : error) : string :=
  match err with
  | StatusError c msg => "rpc error: code = " +:+ code_name c +:+ " desc = " +:+ msg
  | PlainError msg => msg
  | CompilerError text => text
  end.

(** ** Machine integers *)

Definition wrap (w : Z) (z : Z) : Z := (z + 2 ^ (w - 1)) mod 2 ^ w - 2 ^ (w - 1).
Abbreviation wrap32 := (wrap 32).
Abbreviation wrap64 := (wrap 64).

(** The zero [time.Time], in nanoseconds since 1970. *)
Definition zero_time : Z := -62135596800000000000.

Definition in_range (w : Z) (z : Z) : Prop := - 2 ^ (w - 1) ≤ z < 2 ^ (w - 1).

Lemma wrap_range w z : 0 < w → in_range w (wrap w z).
Proof.
  intros Hw. unfold in_range, wrap.
  assert (2 ^ w = 2 * 2 ^ (w - 1)) as E.
  { rewrite <- Z.pow_succ_r by lia. f_equal. lia. }
  pose proof (Z.mod_pos_bound (z + 2 ^ (w - 1)) (2 ^ w)).
  assert (0 < 2 ^ (w - 1)) by (apply Z.pow_pos_nonneg; lia). lia.
Qed.

Lemma wrap_id w z : 0 < w → in_range w z → wrap w z = z.
Proof.
  intros Hw [H1 H2]. unfold wrap.
  assert (2 ^ w = 2 * 2 ^ (w - 1)) as E.
  { rewrite <- Z.pow_succ_r by lia. f_equal. lia. }
  rewrite Z.mod_small by lia. lia.
Qed.

(** Wrapping is compatible with addition. *)
Lemma wrap_add w a b : 0 < w → wrap w (wrap w a + b) = wrap w (a + b).
Proof.
  intros Hw. unfold wrap. f_equal.
  replace ((a + 2 ^ (w - 1)) mod 2 ^ w - 2 ^ (w - 1) + b + 2 ^ (w - 1))
    with ((a + 2 ^ (w - 1)) mod 2 ^ w + b) by lia.
  rewrite Zplus_mod_idemp_l. f_equal. lia.
Qed.

Lemma wrap_sub w a b : 0 < w → wrap w (wrap w a - b) = wrap w (a - b).
Proof. apply wrap_add. Qed.

(** ** Labelled transition systems

    Concurrent components are partial functions [step] from a label and a state to the
    next state; [reach] closes them over all interleavings of the labels in [P]. *)

Section lts.
Context {St Lb : Type} (step : Lb → St → option St) (init : St → Prop).

Inductive reach (P : Lb → Prop) : St → Prop :=
  | reach_init s : init s → reach P s
  | reach_step s l s' : reach P s → P l → step l s = Some s' → reach P s'.

Fixpoint run_labels (ls : list Lb) (s : St) : option St :=
  match ls with
  | [] => Some s
  | l :: ls => s ← step l s; run_labels ls s
  end.

Lemma reach_run P ls s s' :
  reach P s → Forall P ls → run_labels ls s = Some s' → reach P s'.
Proof.
  revert s. induction ls as [|l ls IH]; intros s Hr HF; cbn; [by intros [= <-]|].
  inversion_clear HF. intros (s1 & Hs & Hn)%bind_Some. eapply IH; [|done..]. by econstructor.
Qed.

Lemma run_labels_app ls1 ls2 s s' :
  run_labels (ls1 ++ ls2) s = Some s' →
  ∃ s1, run_labels ls1 s = Some s1 ∧ run_labels ls2 s1 = Some s'.
Proof.
  revert s. induction ls1 as [|l ls1 IH]; intros s; cbn; [by eauto|].
  intros (s1 & -> & H)%bind_Some. cbn. by apply IH.
Qed.

(** Rule induction: an invariant holds initially and is kept by every allowed step. *)
Lemma reach_inv P (I : St → Prop) s :
  (∀ s, init s → I s) →
  (∀ s l s', I s → P l → step l s = Some s' → I s') → reach P s → I s.
Proof. intros H0 Hs. induction 1 as [|m l m' _ IH HP Hst]; [by apply H0|]. by eapply Hs. Qed.

(** The state after a run from [s], or [s] when the run is not possible. *)
Definition after_run (s : St) (ls : list Lb) : St := default s (run_labels ls s).

Lemma after_run_reach (P : Lb → Prop) s ls :
  init s → Forall P ls → reach P (after_run s ls).
Proof.
  intros Hi HF. unfold after_run. destruct (run_labels ls s) eqn:E; [|by constructor].
  eapply reach_run; [by constructor|done|done].
Qed.
End lts.

(** ** Decision helpers *)

(** [simp_decide] evaluates closed [bool_decide] and [decide] tests, splits the
    open ones and closes contradictory branches. *)
Ltac simp_decide :=
  repeat match goal with
  | H : context [bool_decide ?P] |- _ =>
      destruct (bool_decide_reflect P); simplify_eq/=
  | |- context [bool_decide ?P] =>
      destruct (bool_decide_reflect P); simplify_eq/=
  end.

(** [inv_ret] inverts [m ≫= f = Ret b] and [Ret a = Ret b] hypotheses. *)
Ltac inv_ret :=
  repeat match goal with
  | H : (_ ≫= _) = Ret _ |- _ =>
      apply go_bind_Ret_inv in H as (? & ? & ?)
  | H : Ret _ = Ret _ |- _ => injection H as H; subst
  | H : Panic _ = Ret _ |- _ => discriminate H
  end.

(** A guarded step that was taken. *)
Lemma andb_if {A} (p q : bool) (x : option A) (y : A) :
  (if p && q then x else None) = Some y → p = true ∧ q = true ∧ x = Some y.
Proof. by destruct p, q. Qed.

(** ** List lemmas shared by the components *)

Lemma lookup_lt_Z {A} (l : list A) (i : Z) :
  0 ≤ i < Z.of_nat (length l) → is_Some (l !! Z.to_nat i).
Proof. intros H. apply lookup_lt_is_Some. lia. Qed.

(** Swapping two cells of a list is a permutation of it. *)
Lemma list_swap_Permutation {A} (l : list A) i j x y :
  l !! i = Some x → l !! j = Some y → <[i:=y]> (<[j:=x]> l) ≡ₚ l.
Proof.
  intros Hi Hj. destruct (decide (i = j)) as [->|Hne].
  { simplify_eq. by rewrite list_insert_insert_eq, list_insert_id. }
  pose proof (lookup_lt_Some _ _ _ Hi). pose proof (lookup_lt_Some _ _ _ Hj).
  apply Permutation_inj. rewrite !length_insert. split; [done|].
  exists (λ k, if decide (k = i) then j else if decide (k = j) then i else k). split.
  - intros a b. repeat case_decide; congruence.
  - intros k. repeat case_decide; subst.
    + by rewrite Hj, list_lookup_insert_eq by (rewrite length_insert; lia).
    + rewrite list_lookup_insert_ne, list_lookup_insert_eq by done. done.
    + by rewrite !list_lookup_insert_ne by done.
Qed.

(** Removes the first occurrence of an element. *)
Fixpoint remove_one {A} `{EqDecision A} (x : A) (l : list A) : list A :=
  match l with
  | [] => []
  | y :: l => if decide (x = y) then l else y :: remove_one x l
  end.

Lemma remove_one_Permutation {A} `{EqDecision A} (x : A) l :
  x ∈ l → l ≡ₚ x :: remove_one x l.
Proof.
  induction l as [|y l IH]; [by intros ?%not_elem_of_nil|]. cbn. case_decide as E; [by subst|].
  intros [?|Hx]%elem_of_cons; [done|]. rewrite (IH Hx) at 1. constructor.
Qed.

Lemma remove_one_subset {A} `{EqDecision A} (x y : A) l : y ∈ remove_one x l → y ∈ l.
Proof.
  induction l as [|z l IH]; cbn; [done|]. case_decide; [by right|].
  intros [->|?]%elem_of_cons; [left|right; auto].
Qed.

(** The number of elements satisfying a test. *)
Definition count {A} (p : A → bool) (l : list A) : Z := Z.of_nat (length (List.filter p l)).

Lemma count_cons {A} (p : A → bool) x l : count p (x :: l) = (if p x then 1 else 0) + count p l.
Proof. unfold count. cbn. destruct (p x); cbn; lia. Qed.

Lemma count_Permutation {A} (p : A → bool) l k : l ≡ₚ k → count p l = count p k.
Proof.
  induction 1 as [|x l k _ IH|x y l|l k m _ IH1 _ IH2]; rewrite ?count_cons; lia || done.
Qed.

Lemma count_remove_one {A} `{EqDecision A} (p : A → bool) x l :
  x ∈ l → count p (remove_one x l) = count p l - (if p x then 1 else 0).
Proof. intros H. rewrite (count_Permutation p _ _ (remove_one_Permutation x l H)), count_cons. lia. Qed.

Lemma count_nonneg {A} (p : A → bool) l : 0 ≤ count p l.
Proof. unfold count. lia. Qed.

Lemma count_pos {A} (p : A → bool) l : 0 < count p l ↔ ∃ x, x ∈ l ∧ p x = true.
Proof.
  induction l as [|y l IH]; [unfold count; cbn; split; [lia|intros (? & ?%not_elem_of_nil & _); done]|].
  rewrite count_cons. pose proof (count_nonneg p l). destruct (p y) eqn:E.
  - split; [intros _; exists y; by split; [left|]|lia].
  - rewrite Z.add_0_l, IH. split; intros (x & Hx & Hp).
    + exists x. by split; [right|].
    + apply elem_of_cons in Hx as [->|Hx]; [congruence|by exists x].
Qed.

(** ** Sums over a list

    Counting arguments on the cells of a table (workers, channels): a cell that is
    overwritten changes the sum by the difference of its two values. *)

Definition lsum {A} (f : A → nat) (l : list A) : nat := sum_list_with f l.
Arguments lsum {A} f l : simpl never.

Lemma lsum_app {A} (f : A → nat) l k : lsum f (l ++ k) = (lsum f l + lsum f k)%nat.
Proof. apply sum_list_with_app. Qed.

Lemma lsum_cons {A} (f : A → nat) x l : lsum f (x :: l) = (f x + lsum f l)%nat.
Proof. done. Qed.

Lemma lsum_snoc {A} (f : A → nat) l x : lsum f (l ++ [x]) = (lsum f l + f x)%nat.
Proof. rewrite lsum_app. unfold lsum. cbn. lia. Qed.

Lemma lsum_zero {A} (l : list A) : lsum (λ _, 0%nat) l = 0%nat.
Proof. induction l as [|x l IH]; [done|]. by rewrite lsum_cons. Qed.

Lemma lsum_insert {A} (f : A → nat) l i x y :
  l !! i = Some x → (lsum f (<[i:=y]> l) + f x = lsum f l + f y)%nat.
Proof.
  revert i. induction l as [|z l IH]; intros [|i] H; simplify_eq/=; unfold lsum in *; cbn.
  - lia.
  - specialize (IH i H). lia.
Qed.

Lemma lsum_lookup {A} (f : A → nat) l i x : l !! i = Some x → (f x ≤ lsum f l)%nat.
Proof.
  revert i. induction l as [|z l IH]; intros [|i] H; simplify_eq/=; unfold lsum in *; cbn; [lia|].
  specialize (IH i H). lia.
Qed.

Lemma lsum_pos {A} (f : A → nat) l : (0 < lsum f l)%nat → ∃ i x, l !! i = Some x ∧ (0 < f x)%nat.
Proof.
  induction l as [|z l IH]; unfold lsum in *; cbn; [lia|]. intros H.
  destruct (decide (0 < f z)%nat); [by exists 0%nat, z|].
  destruct IH as (i & x & ? & ?); [lia|]. by exists (S i), x.
Qed.

Lemma lsum_remove_one {A} `{EqDecision A} (f : A → nat) x l :
  x ∈ l → lsum f l = (f x + lsum f (remove_one x l))%nat.
Proof.
  induction l as [|y l IH]; [by intros ?%not_elem_of_nil|]. unfold lsum in *. cbn.
  case_decide as E; [by subst|]. intros [?|Hx]%elem_of_cons; [done|]. cbn. rewrite IH by done. lia.
Qed.

#[export] Hint Resolve lookup_lt_Some list_elem_of_lookup_2 : kubecc.
#[export] Hint Rewrite @length_insert @length_app @length_fmap : kubecc.
