(* ===== verification/GoStrings.v ===== *)
(** * Go's [strings], [path] and [path/filepath] as kubecc uses them

    Go strings are byte sequences, modelled by [string].  The scanning loops of
    the Go functions run over the byte list; the ones that scan from the end run
    over the reversed list. *)
From S2P Require Import Prelude.

Definition chars (s : string) : list ascii := String.list_ascii_of_string s.
Definition of_chars (l : list ascii) : string := String.string_of_list_ascii l.

Lemma chars_of_chars l : chars (of_chars l) = l.
Proof. apply String.list_ascii_of_string_of_list_ascii. Qed.

Lemma of_chars_chars s : of_chars (chars s) = s.
Proof. apply String.string_of_list_ascii_of_string. Qed.

Lemma append_cons c s t : String c s +:+ t = String c (s +:+ t).
Proof. done. Qed.

Lemma append_nil_l t : "" +:+ t = t.
Proof. done. Qed.

Lemma chars_app s t : chars (s +:+ t) = chars s ++ chars t.
Proof.
  induction s as [|c s IH]; [done|].
  rewrite append_cons. change (c :: chars (s +:+ t) = c :: (chars s ++ chars t)).
  by rewrite IH.
Qed.

Lemma of_chars_app l k : of_chars (l ++ k) = of_chars l +:+ of_chars k.
Proof.
  induction l as [|c l IH]; [done|].
  change (String c (of_chars (l ++ k)) = String c (of_chars l) +:+ of_chars k).
  by rewrite IH, append_cons.
Qed.

#[export] Instance chars_inj : Inj (=) (=) chars.
Proof. intros s t E. by rewrite <- (of_chars_chars s), E, of_chars_chars. Qed.

(** [len(s)] *)
Definition slen (s : string) : Z := Z.of_nat (String.length s).

Lemma length_chars s : length (chars s) = String.length s.
Proof. induction s as [|c s IH]; [done|]. cbn. f_equal. exact IH. Qed.

(** ** [strings.HasPrefix], [strings.Contains], [strings.Split], [strings.SplitN] *)

Definition has_prefix (s p : string) : bool := String.prefix p s.

Fixpoint contains (s sub : string) : bool :=
  has_prefix s sub || match s with
                      | EmptyString => false
                      | String _ s => contains s sub
                      end.

Fixpoint split_on (sep : ascii) (l : list ascii) : list (list ascii) :=
  match l with
  | [] => [[]]
  | c :: l => if decide (c = sep) then [] :: split_on sep l
              else match split_on sep l with
                   | w :: ws => (c :: w) :: ws
                   | [] => [[c]]
                   end
  end.

(** [strings.Split(s, sep)] for a one-byte separator *)
Definition split (s : string) (sep : ascii) : list string :=
  of_chars <$> split_on sep (chars s).

(** [strings.SplitN(s, sep, 2)] for a one-byte separator *)
Fixpoint split2 (sep : ascii) (l : list ascii) : list (list ascii) :=
  match l with
  | [] => [[]]
  | c :: l => if decide (c = sep) then [[]; l]
              else match split2 sep l with
                   | w :: ws => (c :: w) :: ws
                   | [] => [[c]]
                   end
  end.

Definition splitN2 (s : string) (sep : ascii) : list string :=
  of_chars <$> split2 sep (chars s).

(** [strings.Join] *)
Definition join (sep : string) (l : list string) : string := String.concat sep l.

(** ** [filepath.Ext], [filepath.Base] *)

Definition slash : ascii := "/"%char.
Definition dot : ascii := "."%char.

Fixpoint take_while (p : ascii → bool) (l : list ascii) : list ascii :=
  match l with
  | [] => []
  | c :: l => if p c then c :: take_while p l else []
  end.

Fixpoint drop_while (p : ascii → bool) (l : list ascii) : list ascii :=
  match l with
  | [] => []
  | c :: l => if p c then drop_while p l else c :: l
  end.

(** [for i := len(path) - 1; i >= 0 && path[i] != '/'; i--]
    [{ if path[i] == '.' { return path[i:] } }]; [acc] is [path[i+1:]]. *)
Fixpoint ext_loop (rev_path acc : list ascii) : list ascii :=
  match rev_path with
  | [] => []
  | c :: r => if decide (c = slash) then []
              else if decide (c = dot) then c :: acc
              else ext_loop r (c :: acc)
  end.

Definition ext (path : string) : string := of_chars (ext_loop (rev (chars path)) []).

Definition base (path : string) : string :=
  match path with
  | EmptyString => "."
  | _ =>
      let stripped := drop_while (λ c, bool_decide (c = slash)) (rev (chars path)) in
      let elem := rev (take_while (λ c, bool_decide (c ≠ slash)) stripped) in
      match elem with
      | [] => "/"
      | _ => of_chars elem
      end
  end.

(** ** [path.Clean], [path.Dir], [path.Join], [filepath.IsAbs] *)

Definition is_abs (path : string) : bool := has_prefix path "/".

(** One path element against the stack of kept elements (last one first). *)
Definition clean_elem (rooted : bool) (stack : list (list ascii)) (e : list ascii) :
    list (list ascii) :=
  if decide (e = [] ∨ e = [dot]) then stack
  else if decide (e = [dot; dot]) then
    match stack with
    | top :: below => if decide (top = [dot; dot]) then e :: stack else below
    | [] => if rooted then [] else [e]
    end
  else e :: stack.

Definition clean (path : string) : string :=
  let rooted := is_abs path in
  let stack := foldl (clean_elem rooted) [] (split_on slash (chars path)) in
  let body := join "/" (of_chars <$> rev stack) in
  let out := if rooted then "/" +:+ body else body in
  match out with
  | EmptyString => "."
  | _ => out
  end.

(** [dir, _ := Split(path)]: everything up to and including the last slash. *)
Definition dir (path : string) : string :=
  clean (of_chars (rev (drop_while (λ c, bool_decide (c ≠ slash)) (rev (chars path))))).

Definition path_join (elems : list string) : string :=
  match filter (λ e, e ≠ "") elems with
  | [] => ""
  | es => clean (join "/" es)
  end.

Example ext_ex1 : ext "src/test.tar.o" = ".o". Proof. reflexivity. Qed.
Example ext_ex2 : ext "a.b/c" = "". Proof. reflexivity. Qed.
Example base_ex : base "src/lib//" = "lib". Proof. reflexivity. Qed.
Example clean_ex : clean "a//b/../c/./d" = "a/c/d". Proof. reflexivity. Qed.
Example clean_ex2 : clean "/../../x" = "/x". Proof. reflexivity. Qed.
Example dir_ex : dir "src/lib/test.c" = "src/lib". Proof. reflexivity. Qed.
Example dir_ex2 : dir "test.c" = ".". Proof. reflexivity. Qed.
Example join_ex : path_join ["/root"; ""; "ab"; "abcd"] = "/root/ab/abcd". Proof. reflexivity. Qed.

(** ** Lemmas *)

Lemma has_prefix_spec s p : has_prefix s p = true ↔ ∃ t, s = p +:+ t.
Proof.
  unfold has_prefix. revert s. induction p as [|c p IH]; intros s.
  - split; [by exists s | by destruct s].
  - destruct s as [|d s]; cbn.
    { split; [done|]. intros [t Ht]. done. }
    destruct (ascii_dec c d) as [->|Hne].
    + rewrite IH. split; intros [t Ht]; exists t.
      * by rewrite Ht, append_cons.
      * rewrite append_cons in Ht. by injection Ht.
    + split; [done|]. intros [t Ht]. rewrite append_cons in Ht. by injection Ht as ->.
Qed.

Lemma split_on_cons_ne sep l : ∃ w ws, split_on sep l = w :: ws.
Proof.
  induction l as [|c l (w & ws & E)]; cbn; [by eauto|].
  case_decide; [by eauto|]. rewrite E. by eauto.
Qed.

(** Characters before the first separator, then the rest. *)
Lemma split2_app sep l k :
  sep ∉ l → split2 sep (l ++ sep :: k) = [l; k].
Proof.
  induction l as [|c l IH]; cbn; intros Hn.
  - by rewrite decide_True.
  - rewrite decide_False by set_solver. rewrite IH by set_solver. done.
Qed.

Lemma split2_none sep l : sep ∉ l → split2 sep l = [l].
Proof.
  induction l as [|c l IH]; cbn; intros Hn; [done|].
  rewrite decide_False by set_solver. rewrite IH by set_solver. done.
Qed.

Lemma split2_two sep l w k :
  split2 sep l = [w; k] → l = w ++ sep :: k ∧ sep ∉ w.
Proof.
  revert w. induction l as [|c l IH]; intros w; cbn; [done|].
  case_decide as Hc.
  - intros [= <- <-]. subst. split; [done | by apply not_elem_of_nil].
  - destruct (split2 sep l) as [|w' ws] eqn:E; [done|].
    intros [= <- ->]. destruct (IH w' eq_refl) as [-> Hw]. split; [done|].
    apply not_elem_of_cons. by split.
Qed.

Lemma split2_length sep l : length (split2 sep l) = 1%nat ∨ length (split2 sep l) = 2%nat.
Proof.
  induction l as [|c l IH]; cbn; [by left|].
  case_decide; [by right|]. destruct (split2 sep l); [by left | exact IH].
Qed.

Lemma contains_spec s sub : contains s sub = true ↔ ∃ a b, s = a +:+ sub +:+ b.
Proof.
  induction s as [|c s IH].
  - change (contains "" sub) with (has_prefix "" sub || false). rewrite orb_true_iff, has_prefix_spec. split; [intros [[t ->]|]; [by exists "", t|done]|].
    intros (a & b & E). destruct a; [|done]. left. by exists b.
  - change (contains (String c s) sub) with (has_prefix (String c s) sub || contains s sub).
    rewrite orb_true_iff, has_prefix_spec, IH. split.
    + intros [[t E]|(a & b & ->)]; [by exists "", t|]. by exists (String c a), b.
    + intros (a & b & E). destruct a as [|d a]; [left; by exists b|]. right. exists a, b.
      rewrite append_cons in E. by injection E.
Qed.

Lemma take_while_all p l : Forall (λ c, p c = true) (take_while p l).
Proof. induction l as [|c l IH]; cbn; [done|]. destruct (p c) eqn:E; by constructor. Qed.

(** [filepath.Base] returns a name without a slash, or the slash itself. *)
Lemma base_slash path : contains (base path) "/" = true → base path = "/".
Proof.
  intros (a & b & E)%contains_spec. unfold base in *. destruct path as [|c path]; [exfalso|].
  { apply (f_equal chars) in E. rewrite !chars_app in E.
    assert (slash ∈ chars ".") as H by (rewrite E; apply elem_of_app; right; by left).
    by apply list_elem_of_singleton in H. }
  destruct (rev _) as [|d l] eqn:EL; [done|].
  apply (f_equal chars) in E. rewrite chars_of_chars, !chars_app in E.
  assert (slash ∈ d :: l) as H by (rewrite E; apply elem_of_app; right; by left).
  rewrite <- EL in H. apply list_elem_of_In, in_rev, list_elem_of_In in H.
  match type of H with _ ∈ take_while ?p ?k => pose proof (take_while_all p k) as HF end.
  rewrite Forall_forall in HF. by apply HF, bool_decide_eq_true in H.
Qed.

(** ** Clean absolute paths *)

Lemma append_assoc (a b c : string) : (a +:+ b) +:+ c = a +:+ (b +:+ c).
Proof. apply chars_inj. by rewrite !chars_app, (assoc_L (++)). Qed.

Lemma split_on_app sep l k : split_on sep (l ++ sep :: k) = split_on sep l ++ split_on sep k.
Proof.
  induction l as [|c l IH]; cbn; [by rewrite decide_True|]. case_decide; cbn; [by rewrite IH|].
  rewrite IH. destruct (split_on_cons_ne sep l) as (x & xs & ->). done.
Qed.

Lemma split_on_none sep l : sep ∉ l → split_on sep l = [l].
Proof.
  induction l as [|c l IH]; cbn; intros Hn; [done|].
  rewrite decide_False by set_solver. by rewrite IH by set_solver.
Qed.

Lemma split_on_first sep l k : sep ∉ l → split_on sep (l ++ sep :: k) = l :: split_on sep k.
Proof. intros Hn. by rewrite split_on_app, split_on_none. Qed.

Lemma join_cons sep x y l : join sep (x :: y :: l) = x +:+ sep +:+ join sep (y :: l).
Proof. done. Qed.

Lemma join_app sep l k :
  l ≠ [] → k ≠ [] → join sep (l ++ k) = join sep l +:+ sep +:+ join sep k.
Proof.
  intros Hl Hk. induction l as [|x [|y l] IH]; [done| |].
  - cbn [app]. destruct k; [done|]. by rewrite join_cons.
  - cbn [app] in *. rewrite !join_cons, IH by done. by rewrite !append_assoc.
Qed.

(** [strings.Split] undoes [strings.Join] on parts without the separator. *)
Lemma split_join c l :
  l ≠ [] → Forall (λ e, c ∉ chars e) l → split (join (String c "") l) c = l.
Proof.
  unfold split. induction l as [|x [|y l] IH]; intros Hl HF; [done| |].
  - rewrite Forall_singleton in HF. change (join _ [x]) with x.
    rewrite split_on_none by done. rewrite fmap_cons. by rewrite of_chars_chars.
  - apply Forall_cons in HF as [Hx HF]. rewrite join_cons, !chars_app. cbn [chars].
    change (chars (String c "")) with [c]. cbn [app]. rewrite split_on_first by done.
    rewrite fmap_cons, IH by done. by rewrite of_chars_chars.
Qed.
(** ... and [strings.Join] always undoes [strings.Split]. *)
Lemma join_split c s : join (String c "") (split s c) = s.
Proof.
  unfold split. rewrite <- (of_chars_chars s) at 2. induction (chars s) as [|d l IH]; [done|].
  cbn [split_on]. destruct (split_on_cons_ne c l) as (w & ws & E). rewrite E in *.
  case_decide as Hd.
  - subst d. rewrite !fmap_cons, join_cons. rewrite <- fmap_cons, IH. done.
  - rewrite fmap_cons in *. destruct (of_chars <$> ws) as [|v vs] eqn:Ev.
    + change (of_chars w = of_chars l) in IH.
      change (String d (of_chars w) = String d (of_chars l)). by rewrite IH.
    + rewrite join_cons in *. change (of_chars (d :: w)) with (String d (of_chars w)).
      rewrite append_cons, IH. done.
Qed.

(** A path element that [path.Clean] keeps. *)
Definition elem_ok (e : string) : Prop := e ≠ "" ∧ e ≠ "." ∧ e ≠ ".." ∧ slash ∉ chars e.
#[export] Instance elem_ok_dec e : Decision (elem_ok e).
Proof. unfold elem_ok. apply _. Defined.

Definition abs_path (es : list string) : string := "/" +:+ join "/" es.

Lemma clean_elems rooted es st :
  Forall (λ e, e = "" ∨ elem_ok e) es →
  foldl (clean_elem rooted) st (chars <$> es) = rev (chars <$> filter (λ e, e ≠ "") es) ++ st.
Proof.
  revert st. induction es as [|e es IH]; intros st HF; [done|].
  apply Forall_cons in HF as [He HF]. cbn [fmap list_fmap foldl]. rewrite IH by done.
  destruct He as [->|(H0 & H1 & H2 & _)].
  - rewrite filter_cons_False by naive_solver. unfold clean_elem. cbn. done.
  - rewrite filter_cons_True by done. cbn [fmap list_fmap rev].
    rewrite <- (assoc_L (++)). f_equal. unfold clean_elem.
    rewrite decide_False, decide_False; [done| |].
    + intros E. apply H2. apply chars_inj. rewrite E. done.
    + intros [E|E]; [apply H0|apply H1]; apply chars_inj; rewrite E; done.
Qed.

Lemma clean_abs es :
  es ≠ [] → Forall (λ e, e = "" ∨ elem_ok e) es →
  clean (abs_path es) = abs_path (filter (λ e, e ≠ "") es).
Proof.
  intros Hne HF. unfold clean, abs_path. rewrite chars_app.
  change (split_on slash (chars "/" ++ ?k)) with ([] :: split_on slash k).
  assert (split_on slash (chars (join "/" es)) = chars <$> es) as ->.
  { pose proof (split_join slash es Hne) as E. unfold split in E.
    rewrite <- E at 2.
    - rewrite <- list_fmap_compose. symmetry. erewrite list_fmap_ext; [apply list_fmap_id|].
      intros i x _. apply chars_of_chars.
    - eapply Forall_impl; [exact HF|]. intros e [->|(_ & _ & _ & H)]; [apply not_elem_of_nil|done]. }
  assert (is_abs ("/" +:+ join "/" es) = true) as ->
    by (apply has_prefix_spec; eauto). cbn [foldl].
  change (clean_elem true [] []) with (@nil (list ascii)). rewrite clean_elems by done.
  rewrite app_nil_r, rev_involutive, <- list_fmap_compose.
  erewrite list_fmap_ext; [|intros i x _; apply of_chars_chars]. by rewrite list_fmap_id.
Qed.

Lemma elem_ok_filter es : Forall elem_ok es → filter (λ e, e ≠ "") es = es.
Proof.
  induction 1 as [|e es (H & _) _ IH]; [done|]. by rewrite filter_cons_True, IH.
Qed.

Lemma elem_ok_weak es : Forall elem_ok es → Forall (λ e, e = "" ∨ elem_ok e) es.
Proof. intros HF. eapply Forall_impl; [exact HF|]. by right. Qed.

(** [path.Join] of a clean absolute path and a relative one, with or without a leading
    slash. *)
Lemma path_join_abs es rs :
  es ≠ [] → rs ≠ [] → Forall elem_ok es → Forall elem_ok rs →
  path_join [abs_path es; join "/" rs] = abs_path (es ++ rs)
  ∧ path_join [abs_path es; abs_path rs] = abs_path (es ++ rs).
Proof.
  intros He Hr HFe HFr.
  assert (join "/" rs ≠ "") as Hn.
  { destruct rs as [|r [|r' rs]]; [done| |]; apply Forall_cons in HFr as [(H & _) _];
      [done|]. rewrite join_cons. by destruct r. }
  unfold path_join. rewrite !filter_cons_True, filter_nil by done. split; cbn [join String.concat].
  - change (clean (abs_path es +:+ "/" +:+ join "/" rs) = abs_path (es ++ rs)).
    unfold abs_path at 1. rewrite append_assoc, <- join_app by done.
    fold (abs_path (es ++ rs)).
    rewrite clean_abs by (by apply elem_ok_weak, Forall_app || by destruct es).
    by rewrite elem_ok_filter by by apply Forall_app.
  - change (clean (abs_path es +:+ "/" +:+ ("/" +:+ join "/" rs)) = abs_path (es ++ rs)).
    assert ("/" +:+ join "/" rs = join "/" ("" :: rs)) as -> by by destruct rs.
    unfold abs_path at 1. rewrite append_assoc, <- join_app by done.
    fold (abs_path (es ++ "" :: rs)). rewrite clean_abs; [|by destruct es|].
    + rewrite filter_app, filter_cons_False by naive_solver. by rewrite !elem_ok_filter.
    + apply Forall_app. split; [by apply elem_ok_weak|]. constructor; [by left|by apply elem_ok_weak].
Qed.

Lemma drop_while_app p l k c :
  Forall (λ c, p c = true) l → p c = false → drop_while p (l ++ c :: k) = c :: k.
Proof. induction 1 as [|x l Hx _ IH]; cbn; [by intros ->|]. intros Hc. by rewrite Hx, IH. Qed.

(** [path.Dir] drops the last element. *)
Lemma dir_abs es n :
  es ≠ [] → Forall elem_ok es → slash ∉ chars n → dir (abs_path (es ++ [n])) = abs_path es.
Proof.
  intros He HF Hn. unfold dir, abs_path. rewrite join_app by done.
  rewrite !chars_app. cbn [join String.concat]. change (chars "/") with [slash].
  rewrite !rev_app_distr, <- !(assoc_L (++)). cbn [rev app].
  rewrite drop_while_app; cycle 1.
  { apply Forall_forall. intros c Hc. apply bool_decide_eq_true. intros ->.
    by apply Hn, list_elem_of_In, in_rev, list_elem_of_In. }
  { apply bool_decide_eq_false_2. auto. }
  cbn [rev]. rewrite rev_app_distr, rev_involutive. cbn [rev app].
  transitivity (clean (abs_path (es ++ [""]))).
  - f_equal. apply chars_inj. rewrite chars_of_chars. unfold abs_path.
    rewrite join_app, !chars_app by done.
    change (chars (join "/" [""])) with (@nil ascii). by rewrite app_nil_r.
  - rewrite clean_abs; [|by destruct es|].
    + rewrite filter_app, filter_cons_False by naive_solver.
      by rewrite filter_nil, app_nil_r, elem_ok_filter.
    + apply Forall_app. split; [by apply elem_ok_weak|]. constructor; [by left|done].
Qed.

(** ** Binary strings, an encoding for the examples *)

Fixpoint bits (p : positive) : string :=
  match p with
  | xH => ""
  | xO p => String "0" (bits p)
  | xI p => String "1" (bits p)
  end.
Fixpoint unbits (s : string) : positive :=
  match s with
  | EmptyString => xH
  | String c s => if decide (c = "0"%char) then xO (unbits s) else xI (unbits s)
  end.

Lemma unbits_bits p : unbits (bits p) = p.
Proof.
  induction p as [p IH|p IH|]; cbn [bits unbits]; [| |done];
    [rewrite decide_False by done|rewrite decide_True by done]; by rewrite IH.
Qed.
