(* ===== verification/Contexts.v ===== *)
(** * Combined contexts: [PairContext] of [pkg/run/task.go], [CancelAny] of [pkg/util/context.go]

    A request is bound to the context of the server and to that of the client.
    [PairContext] combines two contexts and [CancelAny] any number; both are shown to be
    contexts again (their channel is closed when, and only when, they have an error), and the
    pair to be the combination of its two parts. *)
From stdpp Require Import sorting.
From S2P Require Import Prelude.

(** ** Contexts at one moment *)

Section contexts.
Context {V : Type}.

(** What the methods of a context return at one moment. *)
Record Context := mkContext {
  Deadline : option Z;
  Err : option error;
  Value : string → option V;
}.

Definition Background : Context := mkContext None None (λ _, None).
Definition Canceled_error : error := StatusError Canceled "context canceled".

(** *** [PairContext] *)

Record PairContext := mkPair { ServerContext : Context; ClientContext : Context }.

Definition pair_Deadline (pc : PairContext) : option Z :=
  match Deadline (ClientContext pc), Deadline (ServerContext pc) with
  | Some timeA, Some timeB => if bool_decide (timeA < timeB) then Some timeA else Some timeB
  | Some timeA, None => Some timeA
  | None, Some timeB => Some timeB
  | None, None => None
  end.

Definition pair_Err (pc : PairContext) : option error :=
  match Err (ServerContext pc) with
  | Some err => Some err
  | None => Err (ClientContext pc)
  end.

Definition pair_Value (pc : PairContext) (key : string) : option V :=
  match Value (ServerContext pc) key with
  | Some value => Some value
  | None => Value (ClientContext pc) key
  end.

Definition pair_context (pc : PairContext) : Context :=
  mkContext (pair_Deadline pc) (pair_Err pc) (pair_Value pc).

(** *** [cancelAny] *)

(** The deadlines are collected and sorted; the first one is taken. *)
Definition any_Deadline (ctxs : list Context) : option Z :=
  head (merge_sort Z.le (omap Deadline ctxs)).

Fixpoint any_Err (ctxs : list Context) : option error :=
  match ctxs with
  | [] => None
  | ctx :: ctxs => match Err ctx with Some err => Some err | None => any_Err ctxs end
  end.

Fixpoint any_Value (ctxs : list Context) (key : string) : option V :=
  match ctxs with
  | [] => None
  | ctx :: ctxs => match Value ctx key with Some val => Some val | None => any_Value ctxs key end
  end.

Definition CancelAny (ctxs : list Context) : Context :=
  match ctxs with
  | [] => mkContext None (Some Canceled_error) (λ _, None)
  | _ => mkContext (any_Deadline ctxs) (any_Err ctxs) (any_Value ctxs)
  end.

(** Two contexts that no caller can tell apart. *)
#[global] Instance context_equiv : Equiv Context := λ c d,
  Deadline c = Deadline d ∧ Err c = Err d ∧ ∀ key, Value c key = Value d key.
#[global] Instance context_equivalence : Equivalence (≡@{Context}).
Proof.
  split; [done|by intros c d (? & ? & ?)|].
  intros c d e (E1 & E2 & H) (E3 & E4 & H').
  split; [congruence|]. split; [congruence|]. intros k. by rewrite H, H'.
Qed.

#[global] Instance pair_context_proper :
  Proper ((≡) ==> (≡) ==> (≡)) (λ s c, pair_context (mkPair s c)).
Proof.
  intros s s' (H1 & H2 & H3) c c' (H4 & H5 & H6). unfold pair_context, pair_Deadline, pair_Err.
  split; [cbn; by rewrite H1, H4|]. split; [cbn; by rewrite H2, H5|].
  intros key. unfold pair_Value. cbn. by rewrite H3, H6.
Qed.

(** *** The earliest deadline *)

Lemma any_Deadline_spec ctxs t :
  any_Deadline ctxs = Some t ↔
  (∃ c, c ∈ ctxs ∧ Deadline c = Some t) ∧ ∀ c t', c ∈ ctxs → Deadline c = Some t' → t ≤ t'.
Proof.
  unfold any_Deadline. set (l := omap Deadline ctxs).
  assert (∀ x, x ∈ l ↔ ∃ c, c ∈ ctxs ∧ Deadline c = Some x) as Hl.
  { intros x. unfold l. by rewrite list_elem_of_omap. }
  assert (merge_sort Z.le l ≡ₚ l) as Hp by apply merge_sort_Permutation.
  assert (StronglySorted Z.le (merge_sort Z.le l)) as Hs
    by (apply StronglySorted_merge_sort; [intros ???; lia|intros ??; lia]).
  assert (∀ x, x ∈ l ↔ x ∈ merge_sort Z.le l) as Hin by (intros x; by rewrite Hp).
  destruct (merge_sort Z.le l) as [|y k] eqn:E; cbn.
  - split; [done|]. intros [(c & Hc & Ht) _]. exfalso.
    by apply (not_elem_of_nil t), Hin, Hl; exists c.
  - inversion_clear Hs as [|?? _ HF]. rewrite Forall_forall in HF. split.
    + intros [= <-]. split; [by apply Hl, Hin; left|].
      intros c t' Hc Ht. assert (t' ∈ y :: k) as Hy by (by apply Hin, Hl; exists c).
      apply elem_of_cons in Hy as [->|Hy]; [lia|by apply HF].
    + intros [Ht Hmin]. apply Hl, Hin, elem_of_cons in Ht as [->|Ht]; [done|].
      assert (y ∈ l) as (c & Hc & Hy)%Hl by (apply Hin; left).
      pose proof (Hmin c y Hc Hy). pose proof (HF t Ht). f_equal. lia.
Qed.

Lemma any_Deadline_None ctxs : any_Deadline ctxs = None ↔ ∀ c, c ∈ ctxs → Deadline c = None.
Proof.
  split.
  - intros Hn c Hc. destruct (Deadline c) as [t|] eqn:E; [|done].
    assert (omap Deadline ctxs ≠ []) as Hne.
    { intros Hnil. apply (not_elem_of_nil t). rewrite <- Hnil. apply list_elem_of_omap. eauto. }
    unfold any_Deadline in Hn. destruct (merge_sort Z.le (omap Deadline ctxs)) eqn:Em; [|done].
    pose proof (merge_sort_Permutation Z.le (omap Deadline ctxs)) as Hp. rewrite Em in Hp.
    by apply Permutation_nil_l in Hp.
  - intros Hn. assert (omap Deadline ctxs = []) as E.
    { induction ctxs as [|c ctxs IH]; [done|]. cbn. rewrite (Hn c) by left.
      apply IH. intros d ?. apply Hn. by right. }
    unfold any_Deadline. by rewrite E.
Qed.

End contexts.
Arguments Context : clear implicits.
Arguments PairContext : clear implicits.

(** A pair of contexts is the combination of its two parts: for every caller
    [PairContext] behaves as [CancelAny] of the server's and the client's context. *)
Theorem pair_is_CancelAny {V} (s c : Context V) :
  pair_context (mkPair s c) ≡ CancelAny [s; c].
Proof.
  split; [|split]; cbn.
  - unfold pair_Deadline. cbn. symmetry. destruct (Deadline c) as [a|] eqn:Ec, (Deadline s) as [b|] eqn:Es.
    + assert (∀ t, (t = a ∨ t = b) → t ≤ a → t ≤ b → any_Deadline [s; c] = Some t) as Hmin.
      { intros t Ht Ha Hb. apply any_Deadline_spec. split.
        - destruct Ht as [->| ->]; [exists c|exists s]; (split; [|done]); set_solver.
        - intros d t' Hd. rewrite !elem_of_cons in Hd. destruct Hd as [->|[->|Hn]];
            [congruence..|by apply not_elem_of_nil in Hn]. }
      case_bool_decide; apply Hmin; auto; lia.
    + apply any_Deadline_spec. split; [exists c; set_solver|]. intros d t'.
      rewrite !elem_of_cons. intros [->|[->|[]%not_elem_of_nil]]; [congruence|].
      rewrite Ec. intros [= ->]. lia.
    + apply any_Deadline_spec. split; [exists s; set_solver|]. intros d t'.
      rewrite !elem_of_cons. intros [->|[->|[]%not_elem_of_nil]]; [|congruence].
      rewrite Es. intros [= ->]. lia.
    + apply any_Deadline_None. intros d. rewrite !elem_of_cons.
      by intros [->|[->|[]%not_elem_of_nil]].
  - unfold pair_Err. cbn. by destruct (Err s), (Err c).
  - intros key. unfold pair_Value. cbn. by destruct (Value s key), (Value c key).
Qed.

(** ** The channel of a combined context

    [Done] makes a channel and a goroutine that closes it when one of the contexts is done.
    The members may be cancelled at any time and stay cancelled. *)

Record DoneState := mkDone {
  errs : list (option error);   (** [Err] of each member *)
  closed : bool;
}.
Inductive done_label : Set := DCancel (i : nat) (err : error) | DClose.

Definition done_step (l : done_label) (s : DoneState) : option DoneState :=
  match l with
  | DCancel i err =>
      match errs s !! i with
      | Some None => Some (mkDone (<[i := Some err]> (errs s)) (closed s))
      | _ => None
      end
  | DClose => if negb (closed s) && existsb (λ e, bool_decide (is_Some e)) (errs s)
              then Some (mkDone (errs s) true) else None
  end.

Definition called_Done (s : DoneState) : Prop := closed s = false.

(** The combination of contexts with these errors. *)
Definition err_of (s : DoneState) : option error :=
  any_Err ((λ e, mkContext (V:=unit) None e (λ _, None)) <$> errs s).

Lemma err_of_Some s : is_Some (err_of s) ↔ existsb (λ e, bool_decide (is_Some e)) (errs s) = true.
Proof.
  unfold err_of. induction (errs s) as [|[e|] l IH]; cbn; [by split; [intros []|]| |done].
  split; eauto.
Qed.

Lemma err_of_cancel s i err : is_Some (err_of s) → is_Some (err_of (mkDone (<[i := Some err]> (errs s)) (closed s))).
Proof.
  rewrite !err_of_Some. cbn. revert i. induction (errs s) as [|e l IH]; intros [|i]; cbn; auto.
  rewrite !orb_true_iff. intros [?|?]; [by left|right; auto].
Qed.

(** A combined context keeps the contract of contexts: its channel is closed only when it
    has an error, when it has one the goroutine can close the channel at once, and it never
    loses its error. *)
Theorem done_contract (s s' : DoneState) (l : done_label) :
  reach done_step called_Done (λ _, True) s →
  (closed s = true → is_Some (err_of s))
  ∧ (is_Some (err_of s) → closed s = true ∨ is_Some (done_step DClose s))
  ∧ (done_step l s = Some s' → is_Some (err_of s) → is_Some (err_of s')).
Proof.
  intros Hr. split; [|split].
  - revert Hr. apply (reach_inv _ _ _ (λ s, closed s = true → is_Some (err_of s)));
      [by intros ? ->|]. clear. intros s l s' IH _ Hs Hc.
    destruct l; cbn in Hs.
    + destruct (errs s !! i) as [[]|]; try done. injection Hs as <-. by apply err_of_cancel, IH.
    + destruct (negb (closed s) && _) eqn:E; [|done]. injection Hs as <-.
      apply andb_true_iff in E as [_ E]. by apply err_of_Some.
  - intros He%err_of_Some. cbn. rewrite He. destruct (closed s); [by left|right]. by eexists.
  - intros Hs He. destruct l; cbn in Hs.
    + destruct (errs s !! i) as [[]|]; try done. injection Hs as <-. by apply err_of_cancel.
    + destruct (_ && _); [|done]. injection Hs as <-. done.
Qed.

(** But the error may change: when the server's context ends after the client's, [Err] of the
    pair returns another error than before, which the documentation of contexts excludes. *)
Theorem pair_Err_changes :
  let client := mkContext (V:=unit) None (Some Canceled_error) (λ _, None) in
  let deadline := StatusError DeadlineExceeded "context deadline exceeded" in
  pair_Err (mkPair Background client) = Some Canceled_error
  ∧ pair_Err (mkPair (mkContext None (Some deadline) (λ _, None)) client) = Some deadline.
Proof. done. Qed.

Definition one_cancelled : DoneState := mkDone [None; Some Canceled_error] true.
Lemma done_contract_witness : is_Some (err_of one_cancelled).
Proof.
  refine (proj1 (done_contract one_cancelled one_cancelled DClose _) eq_refl).
  apply (reach_run done_step called_Done (λ _, True) [DCancel 1 Canceled_error; DClose]
    (mkDone [None; None] false)); [by apply reach_init|by repeat constructor|reflexivity].
Defined.
