(* ===== verification/Types.v ===== *)
(** * The shared data types of [pkg/types] and [pkg/identity]

    Toolchains, compile requests and responses, metric keys, components, with
    the functions of [functions.go], [loghelpers.go], [component.go] and the
    metadata providers of [identity/providers.go].  Protobuf message pointers
    that may be nil are [option]s; the generated getters return the zero value
    on nil.  MD5 and UUID parsing are third-party code: the hash functions here
    return the byte stream written to the hasher, and [FormatShortID] takes the
    UUID test as an argument. *)
From S2P Require Import Prelude GoStrings.

(** ** Enumerations *)

Inductive ToolchainKind : Set :=
  | ToolchainKind_Unknown | Gnu | Clang | TestToolchain | Sleep.
#[export] Instance ToolchainKind_eq_dec : EqDecision ToolchainKind.
Proof. solve_decision. Defined.

Inductive ToolchainLang : Set :=
  | ToolchainLang_Unknown | C | CXX | Multi.
#[export] Instance ToolchainLang_eq_dec : EqDecision ToolchainLang.
Proof. solve_decision. Defined.

Inductive Component : Set :=
  | Component_Unknown | Agent | Scheduler | Controller | Consumer | Consumerd
  | Make | TestComponent | Dashboard | CLI | Monitor | Cache.
#[export] Instance Component_eq_dec : EqDecision Component.
Proof. solve_decision. Defined.

Inductive StorageLocation : Set :=
  | StorageLocation_Unknown | Memory | Disk | S3.
#[export] Instance StorageLocation_eq_dec : EqDecision StorageLocation.
Proof. solve_decision. Defined.

Inductive RetryAction : Set := RetryAction_Unknown | Retry | DoNotRetry.
#[export] Instance RetryAction_eq_dec : EqDecision RetryAction.
Proof. solve_decision. Defined.

Inductive CompileResult : Set :=
  | CompileResponse_Success | CompileResponse_Fail | CompileResponse_InternalError
  | CompileResponse_Defunct | CompileResponse_Retry.
#[export] Instance CompileResult_eq_dec : EqDecision CompileResult.
Proof. solve_decision. Defined.

(** ** Messages *)

Record Toolchain := mkToolchain {
  Kind : ToolchainKind;
  Lang : ToolchainLang;
  Executable : string;
  TargetArch : string;
  Version : string;
  PicDefault : bool;
  PieDefault : bool;
}.
#[export] Instance Toolchain_eq_dec : EqDecision Toolchain.
Proof. solve_decision. Defined.

(** [PreprocessedSource] is a byte string; [ComputedHash] is the only managed
    field ([None] when [ManagedFields] is nil). *)
Record CompileRequest := mkCompileRequest {
  RequestID : string;
  ReqToolchain : option Toolchain;
  ReqArgs : list string;
  PreprocessedSource : string;
  ManagedFields : option string;
}.
#[export] Instance CompileRequest_eq_dec : EqDecision CompileRequest.
Proof. solve_decision. Defined.

Inductive ResponseData : Set :=
  | DataNone
  | DataError (e : string)
  | DataCompiledSource (d : string)
  | DataRetryAction (a : RetryAction).
#[export] Instance ResponseData_eq_dec : EqDecision ResponseData.
Proof. solve_decision. Defined.

Record CompileResponse := mkCompileResponse {
  RespRequestID : string;
  RespResult : CompileResult;
  RespData : ResponseData;
}.
#[export] Instance CompileResponse_eq_dec : EqDecision CompileResponse.
Proof. solve_decision. Defined.

Inductive RunCompiler : Set :=
  | CompilerUnset
  | RunRequest_Path (p : string)
  | RunRequest_Toolchain (tc : option Toolchain).

Record RunRequest := mkRunRequest {
  Compiler : RunCompiler;
  RunArgs : list string;
  UID : Z;
  GID : Z;
  WorkDir : string;
  Env : list string;
  Stdin : string;
}.

Definition RunRequest_GetToolchain (req : RunRequest) : option Toolchain :=
  match Compiler req with
  | RunRequest_Toolchain tc => tc
  | _ => None
  end.

Record RunResponse := mkRunResponse {
  ReturnCode : Z;
  Stdout : string;
  Stderr : string;
}.

Definition GetError (r : CompileResponse) : string :=
  match RespData r with DataError e => e | _ => "" end.
Definition GetCompiledSource (r : CompileResponse) : string :=
  match RespData r with DataCompiledSource d => d | _ => "" end.
Definition GetRetryAction (r : CompileResponse) : RetryAction :=
  match RespData r with DataRetryAction a => a | _ => RetryAction_Unknown end.

(** ** functions.go *)

Definition GetKind (tc : option Toolchain) : ToolchainKind :=
  from_option Kind ToolchainKind_Unknown tc.
Definition GetLang (tc : option Toolchain) : ToolchainLang :=
  from_option Lang ToolchainLang_Unknown tc.
Definition GetTargetArch (tc : option Toolchain) : string := from_option TargetArch "" tc.
Definition GetVersion (tc : option Toolchain) : string := from_option Version "" tc.

Definition EquivalentTo (tc other : option Toolchain) : bool :=
  bool_decide (GetKind tc = GetKind other) &&
  bool_decide (GetLang tc = GetLang other) &&
  bool_decide (GetTargetArch tc = GetTargetArch other) &&
  bool_decide (GetVersion tc = GetVersion other).

Record Key := mkKey { Bucket : string; Name : string }.
#[export] Instance Key_eq_dec : EqDecision Key.
Proof. solve_decision. Defined.

Definition Canonical (k : Key) : string := Bucket k +:+ "." +:+ Name k.

Definition ToolchainKind_name (k : ToolchainKind) : string :=
  match k with
  | ToolchainKind_Unknown => "ToolchainKind_Unknown"
  | Gnu => "ToolchainKind_Gnu"
  | Clang => "ToolchainKind_Clang"
  | TestToolchain => "ToolchainKind_Test"
  | Sleep => "ToolchainKind_Sleep"
  end.

Definition ToolchainLang_name (l : ToolchainLang) : string :=
  match l with
  | ToolchainLang_Unknown => "ToolchainLang_Unknown"
  | C => "ToolchainLang_C"
  | CXX => "ToolchainLang_CXX"
  | Multi => "ToolchainLang_Multi"
  end.

(** The bytes [Toolchain.Hash] writes to the hasher. *)
Definition Toolchain_Hash (tc : Toolchain) : string :=
  TargetArch tc +:+ ToolchainKind_name (Kind tc) +:+ ToolchainLang_name (Lang tc) +:+ Version tc.

(** The bytes [CompileRequest.Hash] writes; a nil toolchain is dereferenced. *)
Definition CompileRequest_Hash (req : CompileRequest) : go string :=
  match ReqToolchain req with
  | None => Panic "nil pointer dereference"
  | Some tc => Ret (Toolchain_Hash tc +:+ PreprocessedSource req +:+ join "" (ReqArgs req))
  end.

Definition ErrInvalidFormat : error :=
  PlainError "Invalid key format, should be of the form bucket.name".

Definition ParseKey (canonical : string) : error + Key :=
  match splitN2 canonical dot with
  | [b; n] => inr (mkKey b n)
  | _ => inl ErrInvalidFormat
  end.

Definition CommonNames (tc : Toolchain) : list string :=
  match Kind tc with
  | Clang =>
      match Lang tc with
      | C => ["clang"]
      | CXX => ["clang++"]
      | Multi => ["clang"; "clang++"]
      | ToolchainLang_Unknown => []
      end
  | Gnu =>
      match Lang tc with
      | C => ["gcc"; "cc"]
      | CXX => ["g++"; "c++"]
      | Multi => ["gcc"; "cc"; "g++"; "c++"]
      | ToolchainLang_Unknown => []
      end
  | _ => []
  end.

(** ** loghelpers.go *)

(** Go slice expressions [s[:n]] and [s[n:]]. *)
Definition slice_to (s : string) (n : Z) : go string :=
  if bool_decide (0 ≤ n ≤ slen s) then Ret (String.substring 0 (Z.to_nat n) s)
  else Panic "slice bounds out of range".
Definition slice_from (s : string) (n : Z) : go string :=
  if bool_decide (0 ≤ n ≤ slen s)
  then Ret (String.substring (Z.to_nat n) (String.length s - Z.to_nat n) s)
  else Panic "slice bounds out of range".

Inductive ElideLocation : Set := ElideCenter | ElideLeft | ElideRight.

Definition FormatShortID (uuid_ok : string → bool) (id : string) (length : Z)
    (elide : ElideLocation) : go string :=
  if negb (uuid_ok id) then Ret id
  else match elide with
       | ElideCenter =>
           l ← slice_to id (Z.quot length 2);
           r ← slice_from id (slen id - Z.quot length 2);
           Ret (l +:+ ".." +:+ r)
       | ElideLeft =>
           r ← slice_from id (slen id - length + 1);
           Ret (".." +:+ r)
       | ElideRight =>
           l ← slice_to id length;
           Ret (l +:+ "..")
       end.

Definition Key_ShortID (uuid_ok : string → bool) (k : Key) : go string :=
  b ← FormatShortID uuid_ok (Bucket k) 6 ElideCenter;
  Ret (b +:+ "." +:+ Name k).

(** ** component.go *)

Definition Component_Name (c : Component) : string :=
  match c with
  | Agent => "Agent" | Scheduler => "Scheduler" | Controller => "Controller"
  | Consumer => "Consumer" | Consumerd => "Consumerd" | Make => "Make"
  | CLI => "CLI" | Monitor => "Monitor" | Dashboard => "Dashboard"
  | Cache => "Cache" | TestComponent => "Test"
  | Component_Unknown => "Unknown"
  end.

Definition ShortName (c : Component) : string :=
  match c with
  | Agent => "agent" | Scheduler => "sched" | Controller => "contr"
  | Consumer => "consu" | Consumerd => "consd" | Make => "$make"
  | CLI => "cli" | Monitor => "monit" | Dashboard => "dashb"
  | Cache => "cache" | TestComponent => "testc"
  | Component_Unknown => "<unk>"
  end.

(** ** identity/providers.go: the component metadata provider *)

Definition Component_name (c : Component) : string :=
  match c with
  | Component_Unknown => "Component_Unknown" | Agent => "Component_Agent"
  | Scheduler => "Component_Scheduler" | Controller => "Component_Controller"
  | Consumer => "Component_Consumer" | Consumerd => "Component_Consumerd"
  | Make => "Component_Make" | TestComponent => "Component_Test"
  | Dashboard => "Component_Dashboard" | CLI => "Component_CLI"
  | Monitor => "Component_Monitor" | Cache => "Component_Cache"
  end.

Definition all_components : list Component :=
  [Component_Unknown; Agent; Scheduler; Controller; Consumer; Consumerd; Make;
   TestComponent; Dashboard; CLI; Monitor; Cache].

Definition componentMDP_Marshal (c : Component) : string := Component_name c.

(** A name missing from [Component_value] maps to 0, the unknown component. *)
Definition componentMDP_Unmarshal (s : string) : Component :=
  default Component_Unknown
    (List.find (λ c, bool_decide (Component_name c = s)) all_components).

(** ** Properties *)

Lemma EquivalentTo_spec tc other :
  EquivalentTo tc other = true ↔
  GetKind tc = GetKind other ∧ GetLang tc = GetLang other ∧
  GetTargetArch tc = GetTargetArch other ∧ GetVersion tc = GetVersion other.
Proof. unfold EquivalentTo. rewrite !andb_true_iff, !bool_decide_eq_true. tauto. Qed.

#[export] Instance EquivalentTo_equivalence :
  Equivalence (λ tc other, EquivalentTo tc other = true).
Proof.
  split.
  - intros tc. by apply EquivalentTo_spec.
  - intros x y. rewrite !EquivalentTo_spec. by intros (-> & -> & -> & ->).
  - intros x y z. rewrite !EquivalentTo_spec. by intros (-> & -> & -> & ->).
Qed.

Lemma elem_of_chars_append c s t : c ∈ chars (s +:+ t) ↔ c ∈ chars s ∨ c ∈ chars t.
Proof. rewrite chars_app. apply elem_of_app. Qed.

(** The first occurrence of a separator splits a stream in only one way. *)
Lemma first_sep_inj (sep : ascii) l1 l2 k1 k2 :
  sep ∉ l1 → sep ∉ l2 → l1 ++ sep :: k1 = l2 ++ sep :: k2 → l1 = l2 ∧ k1 = k2.
Proof.
  intros H1 H2 E. pose proof (split2_app sep l1 k1 H1) as S1.
  rewrite E, split2_app in S1 by done. by simplify_eq.
Qed.

Definition kind_tail (k : ToolchainKind) : list ascii := tl (chars (ToolchainKind_name k)).

Lemma kind_name_T k : chars (ToolchainKind_name k) = "T"%char :: kind_tail k.
Proof. by destruct k. Qed.

(** Kind and language names followed by a version are uniquely readable when the
    version does not start with [X] ("ToolchainLang_C" is a prefix of
    "ToolchainLang_CXX"). *)
Lemma kind_lang_version_inj k1 k2 l1 l2 v1 v2 :
  head v1 ≠ Some "X"%char → head v2 ≠ Some "X"%char →
  kind_tail k1 ++ chars (ToolchainLang_name l1) ++ v1 =
    kind_tail k2 ++ chars (ToolchainLang_name l2) ++ v2 →
  k1 = k2 ∧ l1 = l2 ∧ v1 = v2.
Proof.
  intros H1 H2 E.
  destruct k1, k2; cbn in E; try discriminate E;
    destruct l1, l2; cbn in E; try discriminate E;
    injection E as E; subst; cbn in *; try done.
Qed.

(** On toolchains whose target architecture contains no 'T' and whose version
    does not start with 'X', [Toolchain.Hash] feeds the hasher the same bytes for
    two toolchains exactly when [EquivalentTo] holds of them, so routing by hash
    and comparing with [EquivalentTo] agree: executable path and PIC/PIE defaults
    never matter, and kind, language, architecture and version always do. *)
Theorem Toolchain_Hash_equivalent (tc other : Toolchain)
    (Harch : "T"%char ∉ chars (TargetArch tc) ∧ "T"%char ∉ chars (TargetArch other))
    (Hver : head (chars (Version tc)) ≠ Some "X"%char ∧
            head (chars (Version other)) ≠ Some "X"%char) :
  Toolchain_Hash tc = Toolchain_Hash other ↔ EquivalentTo (Some tc) (Some other) = true.
Proof.
  rewrite EquivalentTo_spec. unfold Toolchain_Hash. cbn. split.
  - intros E. apply (f_equal chars) in E. rewrite !chars_app, !kind_name_T in E.
    cbn in E. apply first_sep_inj in E as [Ea E]; [|by destruct Harch..].
    apply kind_lang_version_inj in E as (? & ? & Ev); [|by destruct Hver..].
    by apply (inj chars) in Ea; apply (inj chars) in Ev.
  - by intros (-> & -> & -> & ->).
Qed.

Definition gcc10 : Toolchain := mkToolchain Gnu C "/usr/bin/gcc" "x86_64" "10" true false.
Definition gcc10_local : Toolchain := mkToolchain Gnu C "/opt/gcc" "x86_64" "10" false false.

Lemma Toolchain_Hash_equivalent_witness : Toolchain_Hash gcc10 = Toolchain_Hash gcc10_local.
Proof.
  apply (Toolchain_Hash_equivalent gcc10 gcc10_local).
  - split; by apply (bool_decide_unpack _).
  - split; by apply (bool_decide_unpack _).
  - vm_compute. reflexivity.
Defined.

(** [ParseKey] inverts [Canonical]: it accepts a string exactly when the
    string is the canonical form of the returned key and the key's bucket has no
    '.', so canonical names (the keys of the monitor's listener table) identify
    keys with dot-free buckets uniquely. *)
Theorem ParseKey_Canonical (s : string) (k : Key) :
  ParseKey s = inr k ↔ s = Canonical k ∧ dot ∉ chars (Bucket k).
Proof.
  unfold ParseKey, splitN2, Canonical. split.
  - destruct (split2 dot (chars s)) as [|w [|n [|]]] eqn:E; cbn; try done.
    intros [= <-]. cbn. apply split2_two in E as [E Hw].
    rewrite chars_of_chars. split; [|done].
    apply (inj chars). rewrite E, !chars_app, !chars_of_chars. done.
  - intros [-> Hb]. rewrite !chars_app. cbn.
    rewrite split2_app by done. cbn. rewrite !of_chars_chars. by destruct k.
Qed.

(** The cache key of a compile request does not separate its parts:
    [CompileRequest.Hash] writes the arguments back to back, so two requests with
    different argument lists (here [-DX 1] and [-DX1]) feed the hasher the same
    bytes and share one cache entry. *)
Theorem CompileRequest_Hash_not_injective :
  ∃ r1 r2, ReqArgs r1 ≠ ReqArgs r2 ∧ CompileRequest_Hash r1 = CompileRequest_Hash r2 ∧
           is_ret (CompileRequest_Hash r1) = true.
Proof.
  exists (mkCompileRequest "a" (Some gcc10) ["-DX"; "1"] "int x;" None),
         (mkCompileRequest "b" (Some gcc10) ["-DX1"] "int x;" None).
  split_and!; done.
Qed.

(** A component survives the metadata round trip: unmarshalling the
    marshalled form gives the component back, and every name that is not a
    component's unmarshals to the unknown component. *)
Theorem componentMDP_roundtrip :
  (∀ c, componentMDP_Unmarshal (componentMDP_Marshal c) = c) ∧
  (∀ s, s ∉ (Component_name <$> all_components) →
        componentMDP_Unmarshal s = Component_Unknown).
Proof.
  split; [by intros [] |].
  intros s Hs. unfold componentMDP_Unmarshal.
  destruct (List.find _ _) as [c|] eqn:E; [|done].
  apply List.find_some in E as [Hin Hc]. apply bool_decide_eq_true in Hc.
  exfalso. apply Hs. rewrite <- Hc. apply list_elem_of_fmap_2.
  by apply list_elem_of_In.
Qed.

(** The expectations of [loghelpers_test.go] on one identifier. *)
Definition test_uuid : string := "01234567-89ab-cdef-0123-456789abcdef".
Example FormatShortID_center :
  FormatShortID (λ _, true) test_uuid 6 ElideCenter = Ret "012..def".
Proof. reflexivity. Qed.
Example FormatShortID_left :
  FormatShortID (λ _, true) test_uuid 6 ElideLeft = Ret "..bcdef".
Proof. reflexivity. Qed.
Example FormatShortID_right :
  FormatShortID (λ _, true) test_uuid 6 ElideRight = Ret "012345..".
Proof. reflexivity. Qed.
Example FormatShortID_other :
  FormatShortID (λ _, false) "meta" 6 ElideRight = Ret "meta".
Proof. reflexivity. Qed.
