(* ===== verification/Config.v ===== *)
(** * Configuration: [pkg/config/config.go], [pkg/config/spec.go], [pkg/kubecc/internal/config.go]

    The configuration structures, the inheritance of global settings ([ApplyGlobals]) and
    the search for a configuration file.  The merge of two structs (mergo), the decoders
    (JSON, YAML) and the file system are parameters. *)
From S2P Require Import Prelude GoStrings.

(** ** The structures of [spec.go] *)

Record GlobalSpec := mkGlobal { LogLevel : string; LogFile : string }.

Record UsageLimitsSpec := mkUsageLimitsSpec { Spec_ConcurrentProcessLimit : Z }.

(** A nil receiver stands for -1, "choose automatically". *)
Definition GetConcurrentProcessLimit (ul : option UsageLimitsSpec) : Z :=
  match ul with
  | None => -1
  | Some ul => Spec_ConcurrentProcessLimit ul
  end.

Record StorageLimitsSpec := mkStorageLimits { Limit_Memory : string; Limit_Disk : string }.
Record LocalStorageSpec := mkLocalStorageSpec {
  Local_Limits : StorageLimitsSpec; Local_Path : string }.
Record VolatileStorageSpec := mkVolatileStorageSpec { Volatile_Limits : StorageLimitsSpec }.
Record RemoteStorageSpec := mkRemoteStorageSpec {
  Endpoint : string;
  AccessKey : string;
  SecretKey : string;
  TLS : bool;
  CertPath : string;
  RemoteBucket : string;
  Region : string;
  ExpirationDays : Z;
}.

Record AgentSpec := mkAgentSpec {
  Agent_Global : GlobalSpec;
  Agent_UsageLimits : option UsageLimitsSpec;
  Agent_SchedulerAddress : string;
  Agent_MonitorAddress : string;
}.
Record ConsumerSpec := mkConsumerSpec {
  Consumer_Global : GlobalSpec;
  ConsumerdAddress : string;
}.
Record ConsumerdSpec := mkConsumerdSpec {
  Consumerd_Global : GlobalSpec;
  Consumerd_UsageLimits : option UsageLimitsSpec;
  Consumerd_SchedulerAddress : string;
  Consumerd_MonitorAddress : string;
  Consumerd_ListenAddress : string;
  Consumerd_DisableTLS : bool;
}.
Record SchedulerSpec := mkSchedulerSpec {
  Scheduler_Global : GlobalSpec;
  Scheduler_MonitorAddress : string;
  Scheduler_CacheAddress : string;
  Scheduler_ListenAddress : string;
}.
Record MonitorSpec := mkMonitorSpec {
  Monitor_Global : GlobalSpec;
  Monitor_ListenAddress : string;
  ServePrometheusMetrics : bool;
}.
Record CacheSpec := mkCacheSpec {
  Cache_Global : GlobalSpec;
  VolatileStorage : option VolatileStorageSpec;
  LocalStorage : option LocalStorageSpec;
  RemoteStorage : option RemoteStorageSpec;
  Cache_ListenAddress : string;
  Cache_MonitorAddress : string;
}.
Record KcctlSpec := mkKcctlSpec {
  Kcctl_Global : GlobalSpec;
  Kcctl_MonitorAddress : string;
  Kcctl_SchedulerAddress : string;
  Kcctl_DisableTLS : bool;
}.

Record KubeccSpec := mkKubeccSpec {
  Global : GlobalSpec;
  Agent : AgentSpec;
  Consumer : ConsumerSpec;
  Consumerd : ConsumerdSpec;
  Scheduler : SchedulerSpec;
  Monitor : MonitorSpec;
  Cache : CacheSpec;
  Kcctl : KcctlSpec;
}.

(** The zero values. *)
Definition zero_Global : GlobalSpec := mkGlobal "" "".
Definition zero_KubeccSpec : KubeccSpec := {|
  Global := zero_Global;
  Agent := mkAgentSpec zero_Global None "" "";
  Consumer := mkConsumerSpec zero_Global "";
  Consumerd := mkConsumerdSpec zero_Global None "" "" "" false;
  Scheduler := mkSchedulerSpec zero_Global "" "" "";
  Monitor := mkMonitorSpec zero_Global "" false;
  Cache := mkCacheSpec zero_Global None None None "" "";
  Kcctl := mkKcctlSpec zero_Global "" "" false;
|}.

(** The embedded [GlobalSpec] of each component, in the order of the fields. *)
Definition globals (cfg : KubeccSpec) : list GlobalSpec :=
  [Agent_Global (Agent cfg); Consumer_Global (Consumer cfg); Consumerd_Global (Consumerd cfg);
   Scheduler_Global (Scheduler cfg); Monitor_Global (Monitor cfg); Cache_Global (Cache cfg);
   Kcctl_Global (Kcctl cfg)].

(** [LogLevelString.Level]; [set] is the parser of the logging library. *)
Definition Level {lvl : Type} (set : string → option lvl) (str : string) : go lvl :=
  match set str with
  | Some l => Ret l
  | None => Panic ("Could not parse log level string " +:+ str)
  end.

(** ** Inheriting the global settings *)

(** [mergo.Merge(dst, src)] on [GlobalSpec]: the new [dst] and the error.  The documented
    behaviour is that fields of [dst] that are empty are taken from [src]. *)
Class Mergo := { mergo_Merge : GlobalSpec → GlobalSpec → GlobalSpec * option error }.

Definition or_default (s d : string) : string := if bool_decide (s = "") then d else s.

Class MergoLaws `{Mergo} := {
  merge_ok : ∀ dst src, snd (mergo_Merge dst src) = None;
  merge_level : ∀ dst src,
    LogLevel (fst (mergo_Merge dst src)) = or_default (LogLevel dst) (LogLevel src);
  merge_file : ∀ dst src,
    LogFile (fst (mergo_Merge dst src)) = or_default (LogFile dst) (LogFile src);
}.

Section globals.
Context `{Mergo}.

(** [override.Merge(global)]. *)
Definition Merge (override global : GlobalSpec) : go GlobalSpec :=
  match mergo_Merge override global with
  | (g, None) => Ret g
  | (_, Some err) => Panic (error_text err)
  end.

(** The walk over the fields of [KubeccSpec] meets one embedded [GlobalSpec] in each
    component and skips the top-level one. *)
Definition ApplyGlobals (cfg : KubeccSpec) : go KubeccSpec :=
  let g := Global cfg in
  a ← Merge (Agent_Global (Agent cfg)) g;
  c ← Merge (Consumer_Global (Consumer cfg)) g;
  d ← Merge (Consumerd_Global (Consumerd cfg)) g;
  s ← Merge (Scheduler_Global (Scheduler cfg)) g;
  m ← Merge (Monitor_Global (Monitor cfg)) g;
  k ← Merge (Cache_Global (Cache cfg)) g;
  t ← Merge (Kcctl_Global (Kcctl cfg)) g;
  Ret {|
    Global := g;
    Agent := mkAgentSpec a (Agent_UsageLimits (Agent cfg)) (Agent_SchedulerAddress (Agent cfg))
      (Agent_MonitorAddress (Agent cfg));
    Consumer := mkConsumerSpec c (ConsumerdAddress (Consumer cfg));
    Consumerd := mkConsumerdSpec d (Consumerd_UsageLimits (Consumerd cfg))
      (Consumerd_SchedulerAddress (Consumerd cfg)) (Consumerd_MonitorAddress (Consumerd cfg))
      (Consumerd_ListenAddress (Consumerd cfg)) (Consumerd_DisableTLS (Consumerd cfg));
    Scheduler := mkSchedulerSpec s (Scheduler_MonitorAddress (Scheduler cfg))
      (Scheduler_CacheAddress (Scheduler cfg)) (Scheduler_ListenAddress (Scheduler cfg));
    Monitor := mkMonitorSpec m (Monitor_ListenAddress (Monitor cfg))
      (ServePrometheusMetrics (Monitor cfg));
    Cache := mkCacheSpec k (VolatileStorage (Cache cfg)) (LocalStorage (Cache cfg))
      (RemoteStorage (Cache cfg)) (Cache_ListenAddress (Cache cfg))
      (Cache_MonitorAddress (Cache cfg));
    Kcctl := mkKcctlSpec t (Kcctl_MonitorAddress (Kcctl cfg)) (Kcctl_SchedulerAddress (Kcctl cfg))
      (Kcctl_DisableTLS (Kcctl cfg));
  |}.
End globals.

(** ** Loading *)

(** The decoders: the struct after decoding into the zero value, and the error. *)
Class Decoders := {
  json_Unmarshal : string → KubeccSpec * option error;
  yaml_Unmarshal : string → KubeccSpec * option error;
}.

(** The file system as the loader sees it: [os.ReadFile] and [os.Stat] (which may succeed
    where reading fails), and the home directory. *)
Record ConfigHost := mkConfigHost {
  ReadFile : string → error + string;
  exists_ : string → bool;
  HomeDir : string;
}.

(** What [Load] does: returns, or ends the process. *)
Inductive load_result := Loaded (cfg : KubeccSpec) | Exit (status : Z).

Definition has_suffix (s p : string) : bool :=
  bool_decide (of_chars (drop (length (chars s) - length (chars p)) (chars s)) = p)
  && bool_decide (String.length p ≤ String.length s)%nat.

Section load.
Context `{Mergo} `{Decoders} (h : ConfigHost).

(** Errors are printed, not returned: the file is then taken to be empty, or the struct is
    what the decoder left. *)
Definition LoadFile (path : string) : go KubeccSpec :=
  let contents := match ReadFile h path with inr c => c | inl _ => "" end in
  let cfg := if has_suffix path ".json" then fst (json_Unmarshal contents)
             else fst (yaml_Unmarshal contents) in
  ApplyGlobals cfg.

Definition config_paths : list string := ["/etc/kubecc"; path_join [HomeDir h; ".kubecc"]].
Definition config_filenames : list string := ["config.yaml"; "config.yml"; "config.json"].

(** The two nested loops, as the list of paths they visit. *)
Definition candidates : list string :=
  p ← config_paths; f ← config_filenames; [path_join [p; f]].

Definition Load : go load_result :=
  match List.find (exists_ h) candidates with
  | Some abs => cfg ← LoadFile abs; Ret (Loaded cfg)
  | None => Ret (Exit 1)
  end.

(** The command line's loader: [ConfigPath] is the flag. *)
Definition cli_Load (ConfigPath : string) : go load_result :=
  if bool_decide (ConfigPath = "") then Load
  else cfg ← LoadFile ConfigPath; Ret (Loaded cfg).
End load.

(** ** Lemmas *)

Section laws.
Context `{MergoLaws}.

Definition inherit_global (own g : GlobalSpec) : GlobalSpec :=
  mkGlobal (or_default (LogLevel own) (LogLevel g)) (or_default (LogFile own) (LogFile g)).

Lemma Merge_spec own g : Merge own g = Ret (inherit_global own g).
Proof.
  unfold Merge, inherit_global. pose proof (merge_ok own g) as E.
  rewrite <- merge_level, <- merge_file.
  destruct (mergo_Merge own g) as [[l f] err]. cbn in *. by subst.
Qed.

Lemma or_default_idem s d : or_default (or_default s d) d = or_default s d.
Proof. unfold or_default. by repeat case_bool_decide. Qed.

Lemma inherit_global_idem own g : inherit_global (inherit_global own g) g = inherit_global own g.
Proof. unfold inherit_global. cbn. by rewrite !or_default_idem. Qed.
End laws.

(** What [ApplyGlobals] changes, on each component. *)
Lemma ApplyGlobals_eq `{MergoLaws} cfg cfg' :
  ApplyGlobals cfg = Ret cfg' →
  Global cfg' = Global cfg ∧
  globals cfg' = (λ own, inherit_global own (Global cfg)) <$> globals cfg.
Proof.
  unfold ApplyGlobals. rewrite !Merge_spec. cbn [mbind go_bind]. intros [= <-]. done.
Qed.

Lemma ApplyGlobals_ret `{MergoLaws} cfg : ∃ cfg', ApplyGlobals cfg = Ret cfg'.
Proof. unfold ApplyGlobals. rewrite !Merge_spec. cbn. by eexists. Qed.

(** After [ApplyGlobals] each component has its own log level and file where it set
    one and the global ones elsewhere; nothing else changes, and applying it again changes
    nothing. *)
Theorem ApplyGlobals_spec `{MergoLaws} (cfg : KubeccSpec) :
  ∃ cfg', ApplyGlobals cfg = Ret cfg' ∧ Global cfg' = Global cfg
    ∧ globals cfg' = (λ own, inherit_global own (Global cfg)) <$> globals cfg
    ∧ ApplyGlobals cfg' = Ret cfg'.
Proof.
  eexists. split; [unfold ApplyGlobals; rewrite !Merge_spec; reflexivity|].
  split; [done|]. split; [done|]. unfold ApplyGlobals. rewrite !Merge_spec. cbn.
  by rewrite !inherit_global_idem.
Qed.

(** A merge as the library documents it. *)
#[export] Instance fill_empty : Mergo := {
  mergo_Merge dst src := (inherit_global dst src, None) }.
#[export] Instance fill_empty_laws : MergoLaws.
Proof. by split. Qed.

Definition sample_cfg : KubeccSpec :=
  {| Global := mkGlobal "info" "/var/log/kubecc";
     Agent := mkAgentSpec (mkGlobal "debug" "") None "" "";
     Consumer := Consumer zero_KubeccSpec; Consumerd := Consumerd zero_KubeccSpec;
     Scheduler := Scheduler zero_KubeccSpec; Monitor := Monitor zero_KubeccSpec;
     Cache := Cache zero_KubeccSpec; Kcctl := Kcctl zero_KubeccSpec |}.
Lemma ApplyGlobals_spec_witness : ∃ cfg', ApplyGlobals sample_cfg = Ret cfg'
  ∧ Agent_Global (Agent cfg') = mkGlobal "debug" "/var/log/kubecc"
  ∧ Monitor_Global (Monitor cfg') = mkGlobal "info" "/var/log/kubecc".
Proof.
  destruct (ApplyGlobals_spec sample_cfg) as (cfg' & E & _ & Hg & _). exists cfg'.
  split; [exact E|]. unfold globals in Hg. cbn in Hg. injection Hg as -> _ _ _ -> _ _. done.
Defined.

(** The file in /etc/kubecc wins over the one in the home directory, and within a
    directory .yaml over .yml over .json; without a file the process ends with status 1. *)
Theorem Load_order `{MergoLaws} `{Decoders} (h : ConfigHost) :
  (∀ i abs, candidates h !! i = Some abs → exists_ h abs = true →
     (∀ j abs', (j < i)%nat → candidates h !! j = Some abs' → exists_ h abs' = false) →
     ∃ cfg, LoadFile h abs = Ret cfg ∧ Load h = Ret (Loaded cfg))
  ∧ ((∀ abs, abs ∈ candidates h → exists_ h abs = false) → Load h = Ret (Exit 1)).
Proof.
  unfold Load. split.
  - intros i abs Hi He Hj. assert (List.find (exists_ h) (candidates h) = Some abs) as ->.
    { revert i Hi Hj. induction (candidates h) as [|a l IH]; intros i Hi Hj; [done|].
      cbn. destruct i as [|i]; [cbn in Hi; simplify_eq; by rewrite He|].
      rewrite (Hj 0%nat a) by (done || lia). apply (IH i Hi).
      intros j abs' Hlt. apply (Hj (S j) abs'). lia. }
    assert (∃ cfg, LoadFile h abs = Ret cfg) as [cfg E] by apply ApplyGlobals_ret.
    exists cfg. rewrite E. done.
  - intros Hn. assert (List.find (exists_ h) (candidates h) = None) as ->; [|done].
    induction (candidates h) as [|a l IH]; [done|]. cbn.
    rewrite (Hn a) by (left). apply IH. intros abs ?. apply Hn. by right.
Qed.

(** A file that exists but cannot be read (or decoded) is not an error: the program goes on
    with an empty configuration, so with empty addresses. *)
Theorem LoadFile_ignores_errors `{MergoLaws} `{Decoders} (h : ConfigHost) path err :
  ReadFile h path = inl err →
  yaml_Unmarshal "" = (zero_KubeccSpec, None) → has_suffix path ".json" = false →
  LoadFile h path = Ret zero_KubeccSpec.
Proof.
  intros Hr Hy Hs. unfold LoadFile. rewrite Hr, Hs, Hy. unfold ApplyGlobals.
  by rewrite !Merge_spec.
Qed.

#[export] Instance no_decoders : Decoders := {
  json_Unmarshal _ := (zero_KubeccSpec, None);
  yaml_Unmarshal _ := (zero_KubeccSpec, None);
}.
Definition no_files : ConfigHost := mkConfigHost (λ _, inl (PlainError "denied")) (λ _, true) "/root".
Lemma LoadFile_ignores_errors_witness :
  LoadFile no_files "/etc/kubecc/config.yaml" = Ret zero_KubeccSpec.
Proof. by apply (LoadFile_ignores_errors no_files _ (PlainError "denied")). Defined.

Example Load_order_example :
  candidates no_files = ["/etc/kubecc/config.yaml"; "/etc/kubecc/config.yml";
    "/etc/kubecc/config.json"; "/root/.kubecc/config.yaml"; "/root/.kubecc/config.yml";
    "/root/.kubecc/config.json"].
Proof. by vm_compute. Qed.
