(* ===== verification/Meta.v ===== *)
(** * Identity on the wire: [pkg/meta], [pkg/identity], [pkg/servers/grpc.go]

    A context of kubecc carries values of metadata providers: the component and UUID of a
    process, its system information, its logger and tracer. Interceptors export them into
    the metadata of each outgoing call and import them on the other side, where the
    logger and tracer are those of the server. gRPC delivers metadata unchanged; the JSON
    encoding of the system information is a parameter. *)
From S2P Require Import Prelude GoStrings Types.

(** The providers of the program, each with a key of its own. *)
Inductive Provider : Set := PComponent | PUUID | PSystemInfo | PLogger | PTracer.
#[export] Instance Provider_eq_dec : EqDecision Provider.
Proof. solve_decision. Defined.
Definition provider_code (p : Provider) : nat :=
  match p with PComponent => 0 | PUUID => 1 | PSystemInfo => 2 | PLogger => 3 | PTracer => 4 end.
#[export] Instance provider_code_inj : Inj (=) (=) provider_code.
Proof. by intros [] []. Qed.
#[export] Instance Provider_countable : Countable Provider :=
  inj_countable' provider_code
    (λ n, match n with 0 => PComponent | 1 => PUUID | 2 => PSystemInfo | 3 => PLogger | _ => PTracer end%nat)
    ltac:(by intros []).

(** [Key().String()] *)
Definition key_string (p : Provider) : string :=
  match p with
  | PComponent => "kubecc-component"
  | PUUID => "kubecc-uuid"
  | PSystemInfo => "kubecc-systeminfo"
  | PLogger => "kubecc-log"
  | PTracer => "kubecc-tracing"
  end.

(** [CpuThreads] is an int32 and [SystemMemory] a uint64; nothing computes with them here. *)
Record SystemInfo := mkSystemInfo { Arch : string; CpuThreads : Z; SystemMemory : Z; Hostname : string }.

(** The dynamic types of [interface{}] values of contexts; loggers and tracers by name. *)
Inductive value :=
  | VNil
  | VComponent (c : Component)
  | VString (s : string)
  | VSystemInfo (i : SystemInfo)
  | VLogger (n : nat)
  | VTracer (n : nat).

Definition bad_assertion : string := "interface conversion: interface {} has another type".

Record contextImpl := mkContext {
  providers : gset Provider;
  values : gmap Provider value;
  parent : Provider → value;      (** [Value] of the parent context *)
}.

Definition Value (c : contextImpl) (p : Provider) : value := default (parent c p) (values c !! p).

Section meta.
Context (json_Marshal : SystemInfo → error + string) (json_Unmarshal : string → error + SystemInfo).

Definition uuidMDP_Marshal (v : value) : go string :=
  match v with VString s => Ret s | _ => Panic bad_assertion end.
Definition uuidMDP_Unmarshal (s : string) : error + value := inr (VString s).

Definition systemInfoProvider_Marshal (v : value) : go string :=
  match v with
  | VSystemInfo i =>
      match json_Marshal i with
      | inr data => Ret data
      | inl err => Panic ("Could not marshal SystemInfo: " +:+ error_text err)
      end
  | _ => Panic bad_assertion
  end.
Definition systemInfoProvider_Unmarshal (s : string) : error + value :=
  match json_Unmarshal s with inl e => inl e | inr i => inr (VSystemInfo i) end.

(** Loggers and tracers do not travel. *)
Definition logProvider_Marshal (v : value) : go string := Ret "".
Definition logProvider_Unmarshal (s : string) : error + value := inr VNil.
Definition tracingProvider_Marshal (v : value) : go string := Ret "".
Definition tracingProvider_Unmarshal (s : string) : error + value := inr VNil.

(** The interface [Provider]. *)
Definition Marshal (p : Provider) (v : value) : go string :=
  match p with
  | PComponent => match v with VComponent c => Ret (componentMDP_Marshal c) | _ => Panic bad_assertion end
  | PUUID => uuidMDP_Marshal v
  | PSystemInfo => systemInfoProvider_Marshal v
  | PLogger => logProvider_Marshal v
  | PTracer => tracingProvider_Marshal v
  end.

Definition Unmarshal (p : Provider) (s : string) : error + value :=
  match p with
  | PComponent => inr (VComponent (componentMDP_Unmarshal s))
  | PUUID => uuidMDP_Unmarshal s
  | PSystemInfo => systemInfoProvider_Unmarshal s
  | PLogger => logProvider_Unmarshal s
  | PTracer => tracingProvider_Unmarshal s
  end.

(** [NewContextWithParent]; each initializer sees the context made so far. *)
Definition NewContextWithParent (parent : Provider → value)
    (inits : list (Provider * (contextImpl → value))) : contextImpl :=
  foldl (λ c i, mkContext (providers c) (<[i.1 := i.2 c]> (values c)) (Meta.parent c))
    (mkContext (list_to_set inits.*1) ∅ parent) inits.

(** Metadata: the key-value pairs in the order they were appended. *)
Definition md_Get (md : list (string * string)) (key : string) : list string :=
  (List.filter (λ kv, bool_decide (kv.1 = key)) md).*2.

(** [ExportToOutgoing]: appends a pair for each provider, in the order of the map. *)
Fixpoint export (c : contextImpl) (ps : list Provider) (md : list (string * string)) :
    go (list (string * string)) :=
  match ps with
  | [] => Ret md
  | p :: ps => s ← Marshal p (Value c p); export c ps (md ++ [(key_string p, s)])
  end.
Definition ExportToOutgoing (order : gset Provider → list Provider) (c : contextImpl)
    (md : list (string * string)) : go (list (string * string)) :=
  export c (order (providers c)) md.

Record ImportOptions := mkImportOptions {
  Required : list Provider;
  Optional : list Provider;
  Inherit : option (contextImpl * list Provider);
}.

Definition put_value (p : Provider) (v : value) (c : contextImpl) : contextImpl :=
  mkContext ({[p]} ∪ providers c) (<[p := v]> (values c)) (parent c).

(** [addProvider] *)
Definition addProvider (md : list (string * string)) (p : Provider) (c : contextImpl) :
    contextImpl * option error :=
  match md_Get md (key_string p) with
  | s :: _ =>
      match Unmarshal p s with
      | inl e => (put_value p VNil c, Some (StatusError Internal
                   ("Failed to unmarshal required metadata for provider: " +:+ error_text e)))
      | inr v => (put_value p v c, None)
      end
  | [] => (c, Some (StatusError InvalidArgument "Expected metadata provider was not found"))
  end.

Fixpoint import_required (md : list (string * string)) (ps : list Provider) (c : contextImpl) :
    error + contextImpl :=
  match ps with
  | [] => inr c
  | p :: ps =>
      match addProvider md p c with
      | (_, Some e) => inl e
      | (c, None) => import_required md ps c
      end
  end.

Fixpoint import_optional (md : list (string * string)) (ps : list Provider) (c : contextImpl) :
    error + contextImpl :=
  match ps with
  | [] => inr c
  | p :: ps =>
      let '(c, err) := addProvider md p c in
      match err with
      | Some e => if bool_decide (status_code (Some e) = Internal) then inl e else import_optional md ps c
      | None => import_optional md ps c
      end
  end.

Definition inherit (from : contextImpl) (ps : list Provider) (c : contextImpl) : contextImpl :=
  foldl (λ c p, put_value p (default VNil (values from !! p)) c) c ps.

(** [ImportFromIncoming] on a context with incoming metadata and the values of [up]. *)
Definition ImportFromIncoming (md : list (string * string)) (up : Provider → value) (o : ImportOptions) :
    error + contextImpl :=
  match import_required md (Required o) (mkContext ∅ ∅ up) with
  | inl e => inl e
  | inr c =>
      match import_optional md (Optional o) c with
      | inl e => inl e
      | inr c =>
          match Inherit o with
          | Some (from, ps) => inr (inherit from ps c)
          | None => inr c
          end
      end
  end.

(** The import options of [NewServer]. *)
Definition server_options (ctx : contextImpl) : ImportOptions :=
  mkImportOptions [PComponent; PUUID] [PSystemInfo] (Some (ctx, [PLogger; PTracer])).

Definition is_nil (v : value) : bool := match v with VNil => true | _ => false end.

Definition CheckContext (c : contextImpl) : option error :=
  if is_nil (Value c PComponent) || is_nil (Value c PUUID)
  then Some (StatusError InvalidArgument
               "Context is not a meta.Context (are you using the correct interceptors?)")
  else None.

(** ** Properties *)

(** The exported pairs: one for each provider, with its marshalled value. *)
Lemma export_spec c ps md :
  (∀ p, p ∈ ps → ∃ s, Marshal p (Value c p) = Ret s) → NoDup ps →
  ∃ md', export c ps md = Ret md' ∧
    ∀ p, md_Get md' (key_string p) = md_Get md (key_string p) ++
      (if bool_decide (p ∈ ps) then match Marshal p (Value c p) with Ret s => [s] | _ => [] end else []).
Proof.
  revert md. induction ps as [|q ps IH]; intros md HM HN; cbn.
  { exists md. split; [done|]. intros p. by rewrite app_nil_r. }
  apply NoDup_cons in HN as [Hq HN]. destruct (HM q ltac:(by left)) as [s Hs]. rewrite Hs. cbn.
  destruct (IH (md ++ [(key_string q, s)])) as (md' & HE & HG); [intros p Hp; apply HM; by right|done|].
  exists md'. split; [done|]. intros p. rewrite HG. unfold md_Get. rewrite List.filter_app, fmap_app. cbn.
  rewrite <- app_assoc. f_equal. destruct (decide (p = q)) as [->|Hne].
  - rewrite (bool_decide_true (key_string q = _)), (bool_decide_false (q ∈ ps)), (bool_decide_true (q ∈ q :: ps))
      by (done || by left). by rewrite Hs, app_nil_r.
  - rewrite (bool_decide_false (key_string q = _)) by (by destruct p, q). cbn.
    by rewrite (bool_decide_ext (p ∈ q :: ps) (p ∈ ps)) by set_solver.
Qed.

Lemma Value_put p v q c : Value (put_value p v c) q = if decide (p = q) then v else Value c q.
Proof.
  unfold Value. cbn. case_decide as E; [subst; by rewrite lookup_insert_eq|by rewrite lookup_insert_ne].
Qed.

(** C14: The server knows who calls: a client's component, UUID and system information,
    exported in whatever order the map is iterated over, are what the handler on the other
    side finds in its context, which passes [CheckContext] and has the server's own
    logger and tracer. (The JSON encoder accepts the system information and the decoder
    returns it; one that is refused makes the export panic.) *)
Theorem identity_roundtrip (order : gset Provider → list Provider) (c srv : contextImpl) (up : Provider → value)
    (comp : Component) (uuid : string) (info : SystemInfo)
    (HO : ∀ X, order X ≡ₚ elements X) (HJ : ∃ data, json_Marshal info = inr data ∧ json_Unmarshal data = inr info)
    (HP : {[PComponent; PUUID; PSystemInfo]} ⊆ providers c)
    (HC : Value c PComponent = VComponent comp) (HU : Value c PUUID = VString uuid)
    (HI : Value c PSystemInfo = VSystemInfo info) :
  ∃ md s, ExportToOutgoing order c [] = Ret md ∧
    ImportFromIncoming md up (server_options srv) = inr s ∧ CheckContext s = None ∧
    Value s PComponent = VComponent comp ∧ Value s PUUID = VString uuid ∧
    Value s PSystemInfo = VSystemInfo info ∧
    Value s PLogger = default VNil (values srv !! PLogger) ∧
    Value s PTracer = default VNil (values srv !! PTracer).
Proof.
  destruct HJ as (data & HJ1 & HJ2). unfold ExportToOutgoing.
  destruct (export_spec c (order (providers c)) []) as (md & HE & HG).
  { intros [] _; cbn; rewrite ?HC, ?HU, ?HI; cbn; rewrite ?HJ1; eauto. }
  { rewrite HO. apply NoDup_elements. }
  assert (∀ p, p ∈ ({[PComponent; PUUID; PSystemInfo]} : gset Provider) →
    md_Get md (key_string p) = match Marshal p (Value c p) with Ret s => [s] | _ => [] end) as HG'.
  { intros p Hp. rewrite HG, bool_decide_true; [done|]. rewrite HO, elem_of_elements. by apply HP. }
  exists md. unfold ImportFromIncoming, server_options. cbn. unfold addProvider.
  rewrite !HG' by set_solver. rewrite HC, HU, HI. cbn. rewrite HJ1. cbn. unfold systemInfoProvider_Unmarshal. rewrite HJ2.
  eexists. split; [done|]. split; [done|]. unfold CheckContext. rewrite !Value_put.
  split_and!; by destruct comp.
Qed.

(** Whatever a peer sends, a handler behind the interceptors runs with an identity: the
    call is refused, or its context passes [CheckContext]. *)
Lemma import_checked md up srv s :
  ImportFromIncoming md up (server_options srv) = inr s → CheckContext s = None.
Proof.
  unfold ImportFromIncoming, server_options. cbn. unfold addProvider. cbn. unfold systemInfoProvider_Unmarshal.
  destruct (md_Get md "kubecc-component") as [|s1 l1]; [done|]. cbn.
  destruct (md_Get md "kubecc-uuid") as [|s2 l2]; [done|]. cbn. intros H.
  destruct (md_Get md "kubecc-systeminfo") as [|s3 l3]; cbn in H; [|destruct (json_Unmarshal s3)];
    cbn in H; try (case_bool_decide; try discriminate H); injection H as <-;
    unfold CheckContext; rewrite !Value_put; cbn; by rewrite ?Value_put.
Qed.
End meta.

(** ** Witness *)

Definition json_demo (i : SystemInfo) : error + string :=
  inr (bits (encode (Arch i, CpuThreads i, SystemMemory i, Hostname i))).
Definition unjson_demo (s : string) : error + SystemInfo :=
  match decode (unbits s) with
  | Some (a, t, m, h) => inr (mkSystemInfo a t m h)
  | None => inl (PlainError "invalid character")
  end.
Lemma json_demo_roundtrip i : ∃ data, json_demo i = inr data ∧ unjson_demo data = inr i.
Proof. eexists. split; [reflexivity|]. unfold unjson_demo. rewrite unbits_bits, decode_encode. by destruct i. Qed.

Definition agent_context : contextImpl :=
  NewContextWithParent (λ _, VNil)
    [(PComponent, λ _, VComponent Agent); (PUUID, λ _, VString "uuid"); (PLogger, λ _, VLogger 1);
     (PSystemInfo, λ _, VSystemInfo (mkSystemInfo "amd64" 8 1024 ""))].
Definition scheduler_context : contextImpl :=
  NewContextWithParent (λ _, VNil) [(PLogger, λ _, VLogger 2); (PTracer, λ _, VTracer 2)].

Lemma identity_roundtrip_witness :
  ∃ md s, ExportToOutgoing json_demo elements agent_context [] = Ret md ∧
    ImportFromIncoming unjson_demo md (λ _, VNil) (server_options scheduler_context) = inr s ∧
    Value s PUUID = VString "uuid" ∧ Value s PLogger = VLogger 2.
Proof.
  destruct (identity_roundtrip json_demo unjson_demo elements agent_context scheduler_context (λ _, VNil)
    Agent "uuid" (mkSystemInfo "amd64" 8 1024 "") ltac:(done) (json_demo_roundtrip _)) as
    (md & s & H1 & H2 & _ & _ & H3 & _ & H4 & _).
  - apply (bool_decide_unpack _). vm_compute. exact I.
  - reflexivity.
  - reflexivity.
  - reflexivity.
  - exists md, s. split; [exact H1|]. split; [exact H2|]. split; [exact H3|exact H4].
Defined.
