(* ===== verification/CcFilename.v ===== *)
(** * Source file names: [pkg/cc/filename.go] *)
From S2P Require Import Prelude GoStrings.

(** [sourceExtensions]: extension, language. *)
Definition sourceExtensions : list (string * string) :=
  [ (".i", "c"); (".ii", "c++"); (".c", "c"); (".cc", "c++"); (".cpp", "c++");
    (".CPP", "c++"); (".cxx", "c++"); (".cp", "c++"); (".c++", "c++"); (".C", "c++");
    (".m", "objective-c"); (".mm", "objective-c++"); (".mi", "objective-c");
    (".mii", "objective-c++"); (".M", "objective-c++"); (".s", "assembler");
    (".S", "assembler"); (".go", "go"); (".h", "c-header"); (".H", "c++-header");
    (".hpp", "c++-header"); (".hp", "c++-header"); (".hxx", "c++-header");
    (".h++", "c++-header"); (".HPP", "c++-header"); (".tcc", "c++-header");
    (".hh", "c++-header") ].

Fixpoint assoc (k : string) (l : list (string * string)) : option string :=
  match l with
  | [] => None
  | (k', v) :: l => if decide (k = k') then Some v else assoc k l
  end.

Definition knownCmakeTestFiles : list string :=
  [ "DummyCXXFile.cxx"; "TestForAnsiForScope.cxx"; "TestForANSIStreamHeaders.cxx";
    "TestForSSTREAM.cxx"; "TestForSTDNamespace.cxx"; "CMakeCXXCompilerABI.cpp";
    "CheckForPthreads.c"; "CheckFunctionExists.c"; "CheckVariableExists.c";
    "CMakeCCompilerABI.c"; "CMakeTestGNU.c" ].

Definition IsSourceFile (f : string) : bool := bool_decide (is_Some (assoc (ext f) sourceExtensions)).

Definition SourceFileLanguage (f : string) : error + string :=
  match assoc (ext f) sourceExtensions with
  | Some lang => inr lang
  | None => inl (PlainError "Unknown source file extension")
  end.

Definition ShouldRunLocal (f : string) : bool :=
  let basename := base f in
  has_prefix basename "conftest." ||
  has_prefix basename "tmp.conftest." ||
  contains f "CMakeTmp/src." ||
  bool_decide (basename ∈ knownCmakeTestFiles).

(** [path[:len(path)-len(ext)] + newExt]; an extension is a suffix of its path, so
    the slice never leaves the string. *)
Definition ReplaceExtension (path newExt : string) : string :=
  of_chars (take (length (chars path) - length (chars (ext path))) (chars path)) +:+ newExt.

(** ** Lemmas on extensions *)

Lemma ext_loop_suffix r acc e :
  ext_loop r acc = e → e = [] ∨ ∃ pre, rev r ++ acc = pre ++ e.
Proof.
  revert acc. induction r as [|c r IH]; intros acc; cbn.
  - intros <-. by left.
  - case_decide; [intros <-; by left|]. case_decide.
    + intros <-. right. exists (rev r). by rewrite <- app_assoc.
    + intros E. destruct (IH _ E) as [|[pre Hp]]; [by left|].
      right. exists pre. by rewrite <- app_assoc.
Qed.

(** [ext path] is a suffix of [path]. *)
Lemma ext_suffix path : ∃ pre, chars path = pre ++ chars (ext path).
Proof.
  unfold ext. rewrite chars_of_chars.
  destruct (ext_loop_suffix (rev (chars path)) [] _ eq_refl) as [->|[pre E]].
  - exists (chars path). by rewrite app_nil_r.
  - exists pre. by rewrite rev_involutive, app_nil_r in E.
Qed.

(** A non-empty extension starts with a dot and contains no slash or further dot. *)
Lemma ext_loop_shape r acc :
  dot ∉ acc → slash ∉ acc →
  ext_loop r acc = [] ∨ ∃ t, ext_loop r acc = dot :: t ∧ dot ∉ t ∧ slash ∉ t.
Proof.
  revert acc. induction r as [|c r IH]; intros acc Hd Hs; cbn; [by left|].
  case_decide; [by left|]. case_decide.
  - subst. right. by exists acc.
  - apply IH; rewrite not_elem_of_cons; auto.
Qed.

Lemma ext_shape path :
  ext path = "" ∨ ∃ t, chars (ext path) = dot :: t ∧ dot ∉ t ∧ slash ∉ t.
Proof.
  unfold ext. rewrite chars_of_chars.
  destruct (ext_loop_shape (rev (chars path)) []) as [->|H];
    [apply not_elem_of_nil.. | by left | by right].
Qed.

Lemma ext_loop_find pre e acc :
  dot ∉ e → slash ∉ e → ext_loop (rev e ++ dot :: pre) acc = dot :: e ++ acc.
Proof.
  revert acc. induction e as [|c e IH] using rev_ind; intros acc Hd Hs.
  - done.
  - rewrite rev_app_distr. cbn.
    rewrite not_elem_of_app, list_elem_of_singleton in Hd, Hs.
    destruct Hd as [Hd Hd'], Hs as [Hs Hs'].
    rewrite decide_False, decide_False by congruence.
    rewrite IH by done. by rewrite <- app_assoc.
Qed.

(** Appending [.e] to any string gives a path with extension [.e]. *)
Lemma ext_append s e :
  dot ∉ chars e → slash ∉ chars e → ext (s +:+ String dot e) = String dot e.
Proof.
  intros Hd Hs. unfold ext. apply (inj chars). rewrite chars_of_chars, chars_app.
  change (chars (String dot e)) with (dot :: chars e).
  rewrite rev_app_distr. cbn [rev]. rewrite <- app_assoc. cbn.
  by rewrite ext_loop_find, app_nil_r.
Qed.

Lemma take_before_suffix {A} (l pre suf : list A) :
  l = pre ++ suf → take (length l - length suf) l = pre.
Proof. intros ->. by rewrite length_app, Nat.add_sub, take_app_length. Qed.

Lemma of_chars_eq_empty l : of_chars l = "" → l = [].
Proof. by destruct l. Qed.

Lemma append_eq_empty s t : s +:+ t = "" → t = "".
Proof. by destruct s. Qed.

(** [ReplaceExtension] keeps the path up to its extension and ends it with the
    new one: for a new extension [.e], the result's extension is [.e] and replacing
    again with the old extension restores the path. *)
Theorem ReplaceExtension_spec (path e : string)
    (He : dot ∉ chars e ∧ slash ∉ chars e) :
  ext (ReplaceExtension path (String dot e)) = String dot e ∧
  ReplaceExtension (ReplaceExtension path (String dot e)) (ext path) = path.
Proof.
  destruct He as [Hd Hs]. destruct (ext_suffix path) as [pre Hp].
  assert (∀ x, ReplaceExtension path x = of_chars pre +:+ x) as HR.
  { intros x. unfold ReplaceExtension. by rewrite (take_before_suffix _ _ _ Hp). }
  rewrite HR, ext_append by done. split; [done|].
  unfold ReplaceExtension. rewrite ext_append, chars_app, chars_of_chars by done.
  rewrite (take_before_suffix _ _ _ eq_refl).
  apply (inj chars). by rewrite chars_app, chars_of_chars, <- Hp.
Qed.

Lemma ReplaceExtension_spec_witness :
  ReplaceExtension "src/a.b.c" ".o" = "src/a.b.o" ∧ ext "src/a.b.o" = ".o".
Proof.
  split; [reflexivity|].
  apply (ReplaceExtension_spec "src/a.b.c" "o").
  split; by apply (bool_decide_unpack _).
Defined.
