(* ===== verification/CcArgs.v ===== *)
(** * The GCC argument parser: [pkg/cc/args.go]

    [ArgParser] holds the argument list and what [Parse] learned about it: the run
    mode, the indexes of the input and output arguments ([-1] when absent) and the
    index of each recorded flag.  Methods on the pointer receiver return the new
    [ArgParser]; methods that return an [error] return the pair.  Log output is not
    modelled. *)
From S2P Require Import Prelude GoStrings Types CcFilename.

Inductive RunMode : Set := Unset | RunLocal | RunRemote.
#[export] Instance RunMode_eq_dec : EqDecision RunMode.
Proof. solve_decision. Defined.

Definition RunMode_String (rm : RunMode) : string :=
  match rm with
  | Unset => "RunError"
  | RunLocal => "RunLocal"
  | RunRemote => "RunRemote"
  end.

(** ** Flag tables *)

Definition ProfileArgs : list string :=
  ["-fprofile-arcs"; "-ftest-coverage"; "--coverage"; "-fprofile-correction"].
Definition ProfilePrefixArgs : list string :=
  ["-fprofile-generate"; "-fprofile-use"; "-fauto-profile"].
Definition LocalArgsWithValues : list string :=
  ["-D"; "-I"; "-U"; "-L"; "-l"; "-MF"; "-MT"; "-MQ"; "-include"; "-imacros"; "-iprefix";
   "-iwithprefix"; "-isystem"; "-imultilib"; "-iplugindir"; "-iquote"; "-isysroot";
   "-iwithprefixbefore"; "-idirafter"].
Definition LocalArgsNoValues : list string :=
  ["-undef"; "-nostdinc"; "-nostdinc++"; "-MD"; "-MMD"; "-MG"; "-MP"].
Definition PICArgs : list string :=
  ["-fPIC"; "-fPIE"; "-fpic"; "-fpie"; "-fno-pic"; "-fno-pie"; "-fno-PIC"; "-fno-PIE"].
Definition LocalPrefixArgs : list string :=
  ["-Wp,"; "-Wl,"; "-D"; "-U"; "-I"; "-l"; "-L"; "-MF"; "-MT"; "-MQ"; "-isystem"; "-stdlib"].

Definition in_set (s : list string) (a : string) : bool := bool_decide (a ∈ s).
Definition any_prefix (ps : list string) (a : string) : bool := existsb (has_prefix a) ps.

Inductive ActionOpt : Set := Compile | Preprocess | GenAssembly | None_.
#[export] Instance ActionOpt_eq_dec : EqDecision ActionOpt.
Proof. solve_decision. Defined.

Definition ActionOpt_String (opt : ActionOpt) : string :=
  match opt with
  | Compile => "-c"
  | Preprocess => "-E"
  | GenAssembly => "-S"
  | None_ => ""
  end.

Definition IsActionOpt (str : string) : bool :=
  bool_decide (str = ActionOpt_String Compile) ||
  bool_decide (str = ActionOpt_String Preprocess) ||
  bool_decide (str = ActionOpt_String GenAssembly).

(** ** State *)

Record ArgParser := mkArgParser {
  Args : list string;
  Mode : RunMode;
  InputArgIndex : Z;
  OutputArgIndex : Z;
  FlagIndexMap : gmap string nat;
}.

Definition CanRunRemote (ap : ArgParser) : bool := bool_decide (Mode ap = RunRemote).

Definition NewArgParser (args : list string) : ArgParser := mkArgParser args Unset 0 0 ∅.

Definition set_Args (args : list string) (ap : ArgParser) : ArgParser :=
  mkArgParser args (Mode ap) (InputArgIndex ap) (OutputArgIndex ap) (FlagIndexMap ap).

(** ** Preparing the argument list *)

(** The first argument of the form [-o/path] becomes the two arguments [-o /path]. *)
Fixpoint standardize (args : list string) : list string :=
  match args with
  | [] => []
  | a :: args =>
      if has_prefix a "-o/" then "-o" :: of_chars (drop 2 (chars a)) :: args
      else a :: standardize args
  end.

Definition unsupported (a : string) : bool :=
  bool_decide (a = "-Wpedantic") || bool_decide (a = "-pedantic-errors") ||
  bool_decide (a = "-pedantic") || has_prefix a "-flto".

(** The index loop of [stripUnsupportedArgs]: deleting element [i] keeps [i] where it
    is ([i--] and then the loop's [i++]).  One unit of fuel per iteration. *)
Fixpoint strip_loop (fuel i : nat) (args : list string) : list string :=
  match fuel with
  | O => args
  | S fuel =>
      match args !! i with
      | None => args
      | Some a =>
          if unsupported a then strip_loop fuel i (take i args ++ drop (S i) args)
          else strip_loop fuel (S i) args
      end
  end.

Definition stripUnsupportedArgs (args : list string) : list string :=
  strip_loop (S (length args)) 0 args.

(** ** Parse *)

(** The variables of the scanning loop: [skip], [seenOptC], [seenOptS], [seenOptE],
    [inputArg], [outputArg] and the fields of [ap] the loop assigns. *)
Record PState := mkPState {
  p_skip : bool;
  seenOptC : bool;
  seenOptS : bool;
  seenOptE : bool;
  inputArg : string;
  outputArg : string;
  p_Mode : RunMode;
  p_Input : Z;
  p_Output : Z;
  p_Flags : gmap string nat;
}.

Definition p_init (mode : RunMode) : PState :=
  mkPState false false false false "" "" mode (-1) (-1) ∅.

Definition with_skip (b : bool) (st : PState) : PState :=
  mkPState b (seenOptC st) (seenOptS st) (seenOptE st) (inputArg st) (outputArg st)
    (p_Mode st) (p_Input st) (p_Output st) (p_Flags st).
Definition with_Mode (m : RunMode) (st : PState) : PState :=
  mkPState (p_skip st) (seenOptC st) (seenOptS st) (seenOptE st) (inputArg st) (outputArg st)
    m (p_Input st) (p_Output st) (p_Flags st).
Definition with_flag (k : string) (i : nat) (st : PState) : PState :=
  mkPState (p_skip st) (seenOptC st) (seenOptS st) (seenOptE st) (inputArg st) (outputArg st)
    (p_Mode st) (p_Input st) (p_Output st) (<[k := i]> (p_Flags st)).
Definition with_C (st : PState) : PState :=
  mkPState (p_skip st) true (seenOptS st) (seenOptE st) (inputArg st) (outputArg st)
    (p_Mode st) (p_Input st) (p_Output st) (p_Flags st).
Definition with_S (st : PState) : PState :=
  mkPState (p_skip st) (seenOptC st) true (seenOptE st) (inputArg st) (outputArg st)
    (p_Mode st) (p_Input st) (p_Output st) (p_Flags st).
Definition with_E (st : PState) : PState :=
  mkPState (p_skip st) (seenOptC st) (seenOptS st) true (inputArg st) (outputArg st)
    (p_Mode st) (p_Input st) (p_Output st) (p_Flags st).
Definition with_input (a : string) (i : Z) (st : PState) : PState :=
  mkPState (p_skip st) (seenOptC st) (seenOptS st) (seenOptE st) a (outputArg st)
    (p_Mode st) i (p_Output st) (p_Flags st).
Definition with_output (a : string) (i : Z) (st : PState) : PState :=
  mkPState (p_skip st) (seenOptC st) (seenOptS st) (seenOptE st) (inputArg st) a
    (p_Mode st) (p_Input st) i (p_Flags st).

(** The [-o] case of the switch: [break] leaves the switch without touching [skip]. *)
Definition parse_output (args : list string) (i : nat) (st : PState) : PState :=
  let st := with_flag "-o" i st in
  match args !! S i with
  | None => with_Mode RunLocal st
  | Some next =>
      let e := ext next in
      let st :=
        if bool_decide (e = ".o") then
          if bool_decide (outputArg st ≠ "") then with_Mode RunLocal st else st
        else if bool_decide (e = "") then with_Mode RunLocal st
        else st in
      with_skip true (with_output next (Z.of_nat (S i)) st)
  end.

(** The [-x] case of the switch. *)
Definition parse_lang (args : list string) (i : nat) (a : string) (st : PState) : PState :=
  let st :=
    match args !! S i with
    | Some next =>
        if negb (has_prefix next "c") && negb (has_prefix next "c++") &&
           negb (has_prefix next "objective-c") && negb (has_prefix next "objective-c++") &&
           negb (has_prefix next "go")
        then with_Mode RunLocal st else st
    | None => st
    end in
  if bool_decide (a = "-x") then with_skip true st else st.

(** The switch over an option argument, cases in the source's order. *)
Definition parse_option (args : list string) (i : nat) (a : string) (st : PState) : PState :=
  if bool_decide (a = "-E") then with_E (with_Mode RunLocal (with_flag a i st))
  else if bool_decide (a = "-MD") || bool_decide (a = "-MMD") then with_flag a i st
  else if bool_decide (a = "-MG") || bool_decide (a = "-MP") then with_flag a i st
  else if has_prefix a "-MF" || has_prefix a "-MT" || has_prefix a "-MQ" then
    with_flag (String.substring 0 3 a) i
      (if bool_decide (slen a = 3) then with_skip true st else st)
  else if has_prefix a "-M" then with_Mode RunLocal (with_flag a i st)
  else if bool_decide (a = "-march=native") then with_Mode RunLocal st
  else if bool_decide (a = "-mtune=native") then with_Mode RunLocal st
  else if in_set PICArgs a then with_flag a i st
  else if has_prefix a "-Wa," then
    let st := with_flag "-Wa" i st in
    if contains a ",-a" || contains a "--MD" then with_Mode RunLocal st else st
  else if has_prefix a "-specs=" then with_Mode RunLocal st
  else if bool_decide (a = "-S") then with_S (with_flag a i st)
  else if in_set ProfileArgs a then with_Mode RunLocal st
  else if any_prefix ProfilePrefixArgs a then with_Mode RunLocal st
  else if bool_decide (a = "-frepo") then with_Mode RunLocal st
  else if has_prefix a "-x" then parse_lang args i a st
  else if has_prefix a "-dr" then with_Mode RunLocal st
  else if in_set LocalArgsWithValues a then with_skip true st
  else if bool_decide (a = "-c") then with_C (with_flag a i st)
  else if bool_decide (a = "-o") then parse_output args i st
  else st.

(** A non-option argument: a source file, or [-] for standard input. *)
Definition parse_input (i : nat) (a : string) (st : PState) : PState :=
  if IsSourceFile a || bool_decide (a = "-") then
    with_input a (Z.of_nat i)
      (if bool_decide (inputArg st ≠ "") then with_Mode RunLocal st else st)
  else st.

(** One iteration of [for i, a := range ap.Args].  [a[0]] panics on an empty argument. *)
Definition parse_arg (args : list string) (i : nat) (a : string) (st : PState) : go PState :=
  if p_skip st then Ret (with_skip false st)
  else match a with
       | EmptyString => Panic "index out of range"
       | String c rest =>
           if bool_decide (c = "-"%char) && bool_decide (rest ≠ "")
           then Ret (parse_option args i a st)
           else Ret (parse_input i a st)
       end.

(** The mode corrections after the loop. *)
Definition parse_checks (st : PState) : PState :=
  let st := if negb (seenOptC st) && negb (seenOptS st) && bool_decide (p_Input st = -1)
            then with_Mode RunLocal st else st in
  let st := if bool_decide (p_Input st = -1) then with_Mode RunLocal st else st in
  if ShouldRunLocal (inputArg st) then with_Mode RunLocal st else st.

(** Adding an output argument when none was given. *)
Definition parse_default_output (args : list string) (st : PState) : list string * PState :=
  if bool_decide (outputArg st = "") then
    if seenOptC st || seenOptS st then
      let out := if seenOptS st then ReplaceExtension (inputArg st) ".s"
                 else ReplaceExtension (inputArg st) ".o" in
      if bool_decide (out ≠ "") then
        let args := args ++ ["-o"; out] in
        (args, with_output out (Z.of_nat (length args) - 1) st)
      else (args, st)
    else if bool_decide (inputArg st ≠ "") && negb (seenOptE st) then
      let args := args ++ ["-o"; "a.out"] in
      (args, with_Mode RunLocal (with_output (outputArg st) (Z.of_nat (length args) - 1) st))
    else (args, st)
  else (args, st).

Definition Parse (ap : ArgParser) : go ArgParser :=
  let args := stripUnsupportedArgs (standardize (Args ap)) in
  st ← go_foldi (parse_arg args) 0 args (p_init (Mode ap));
  let '(args, st) := parse_default_output args (parse_checks st) in
  let mode := if bool_decide (p_Mode st = Unset) then RunRemote else p_Mode st in
  Ret (mkArgParser args mode (p_Input st) (p_Output st) (p_Flags st)).

(** ** Operations on a parsed argument list *)

(** [xs[i] = v] on a slice. *)
Definition slice_set (xs : list string) (i : Z) (v : string) : go (list string) :=
  if bool_decide (0 ≤ i < Z.of_nat (length xs)) then Ret (<[Z.to_nat i := v]> xs)
  else Panic "index out of range".
Definition slice_get (xs : list string) (i : Z) : go string :=
  if bool_decide (0 ≤ i) then
    match xs !! Z.to_nat i with
    | Some a => Ret a
    | None => Panic "index out of range"
    end
  else Panic "index out of range".

(** The closure [replace] of [SetActionOpt]. *)
Definition replace_action (opt : ActionOpt) (i : nat) (oldOpt : ActionOpt) (ap : ArgParser) :
    go ArgParser :=
  args ← slice_set (Args ap) (Z.of_nat i) (ActionOpt_String opt);
  Ret (mkArgParser args (Mode ap) (InputArgIndex ap) (OutputArgIndex ap)
         (<[ActionOpt_String opt := i]> (delete (ActionOpt_String oldOpt) (FlagIndexMap ap)))).

Definition SetActionOpt (opt : ActionOpt) (ap : ArgParser) : go (ArgParser * option error) :=
  match FlagIndexMap ap !! ActionOpt_String Compile with
  | Some i => ap ← replace_action opt i Compile ap; Ret (ap, None)
  | None =>
      match FlagIndexMap ap !! ActionOpt_String GenAssembly with
      | Some i => ap ← replace_action opt i GenAssembly ap; Ret (ap, None)
      | None =>
          match FlagIndexMap ap !! ActionOpt_String Preprocess with
          | Some i => ap ← replace_action opt i Preprocess ap; Ret (ap, None)
          | None => Ret (ap, Some (PlainError "No -c -S or -E args found"))
          end
      end
  end.

Definition ActionOpt_of (ap : ArgParser) : ActionOpt :=
  if bool_decide (is_Some (FlagIndexMap ap !! ActionOpt_String Compile)) then Compile
  else if bool_decide (is_Some (FlagIndexMap ap !! ActionOpt_String GenAssembly)) then GenAssembly
  else if bool_decide (is_Some (FlagIndexMap ap !! ActionOpt_String Preprocess)) then Preprocess
  else None_.

Definition ReplaceOutputPath (newPath : string) (ap : ArgParser) : go (ArgParser * option error) :=
  if bool_decide (OutputArgIndex ap ≠ -1) then
    args ← slice_set (Args ap) (OutputArgIndex ap) newPath;
    Ret (set_Args args ap, None)
  else Ret (ap, Some (PlainError "No -o arg found")).

Definition ReplaceInputPath (newPath : string) (ap : ArgParser) : go (ArgParser * option error) :=
  if bool_decide (InputArgIndex ap ≠ -1) then
    old ← slice_get (Args ap) (InputArgIndex ap);
    if bool_decide (old = newPath) then Ret (ap, None)
    else
      args ← slice_set (Args ap) (InputArgIndex ap) newPath;
      if bool_decide (newPath = "-") then Panic "no longer supported"
      else Ret (set_Args (args ++ ["-ffile-prefix-map=" +:+ dir newPath +:+ "=" +:+ dir old]) ap,
                None)
  else Ret (ap, Some (PlainError "No input arg found")).

(** The inner loop of [ConfigurePreprocessorOptions] over the parts of one [-Wp] argument:
    [split = append(split[:ii+1], split[ii:]...)] doubles element [ii], the copy becomes
    [-MF], and [ii] moves past both.  One unit of fuel per iteration. *)
Fixpoint mf_loop (fuel ii : nat) (split : list string) : go (list string) :=
  match fuel with
  | O => Ret split
  | S fuel =>
      match split !! ii with
      | None => Ret split
      | Some str =>
          if bool_decide (str = "-MD") || bool_decide (str = "-MMD") then
            match split !! S ii with
            | None => mf_loop fuel (S ii) split
            | Some EmptyString => Panic "index out of range"
            | Some (String c _) =>
                if bool_decide (c = "-"%char) then mf_loop fuel (S ii) split
                else mf_loop fuel (S (S ii))
                       (<[S ii := "-MF"]> (take (S ii) split ++ drop ii split))
            end
          else mf_loop fuel (S ii) split
      end
  end.

(** The outer loop: a [-Wp,...] argument is replaced by its parts and the scan resumes
    after them.  One unit of fuel per iteration. *)
Fixpoint wp_loop (fuel i : nat) (args : list string) : go (list string) :=
  match fuel with
  | O => Ret args
  | S fuel =>
      match args !! i with
      | None => Ret args
      | Some arg =>
          if negb (has_prefix arg "-Wp") then wp_loop fuel (S i) args
          else
            let parts := tl (split arg ","%char) in
            parts ← mf_loop (S (length parts)) 0 parts;
            let left := take i args ++ parts in
            wp_loop fuel (length left) (left ++ drop (S i) args)
      end
  end.

Definition ConfigurePreprocessorOptions (ap : ArgParser) : go ArgParser :=
  args ← wp_loop (S (length (Args ap))) 0 (Args ap);
  Parse (set_Args args ap).

(** The filtering loop of [RemoveLocalArgs]; [i++] skips the value of an option that
    takes one. *)
Fixpoint remove_local (args : list string) : list string :=
  match args with
  | [] => []
  | arg :: args =>
      if in_set LocalArgsWithValues arg then
        match args with
        | [] => []
        | _ :: args => remove_local args
        end
      else if any_prefix LocalPrefixArgs arg || in_set LocalArgsNoValues arg
      then remove_local args
      else arg :: remove_local args
  end.

Definition RemoveLocalArgs (ap : ArgParser) : go ArgParser :=
  Parse (set_Args (remove_local (Args ap)) ap).

Definition has_flag (ap : ArgParser) (f : string) : bool :=
  bool_decide (is_Some (FlagIndexMap ap !! f)).

Definition PrependExplicitPICArgs (tc : Toolchain) (ap : ArgParser) : go ArgParser :=
  let args := Args ap in
  let args :=
    if PicDefault tc then
      if negb (has_flag ap "-fno-pic") && negb (has_flag ap "-fno-PIC") &&
         negb (has_flag ap "-fPIC") && negb (has_flag ap "-fpic")
      then "-fPIC" :: args else args
    else args in
  let args :=
    if PieDefault tc then
      if negb (has_flag ap "-fno-pie") && negb (has_flag ap "-fno-PIE") &&
         negb (has_flag ap "-fPIE") && negb (has_flag ap "-fpie")
      then "-fPIE" :: args else args
    else args in
  Parse (set_Args args ap).

Definition PrependLanguageFlag (input : string) (ap : ArgParser) : go (ArgParser * option error) :=
  match SourceFileLanguage input with
  | inl err => Ret (ap, Some err)
  | inr lang => ap ← Parse (set_Args ("-x" :: lang :: Args ap) ap); Ret (ap, None)
  end.

(** Copies the slice and the map; a value copy in the model. *)
Definition DeepCopy (ap : ArgParser) : ArgParser :=
  mkArgParser (Args ap) (Mode ap) (InputArgIndex ap) (OutputArgIndex ap) (FlagIndexMap ap).

(** ** The expectations of [args_test.go] *)

Definition test_args : list string :=
  ["-Werror"; "-g"; "-O2"; "-MD"; "-W"; "-Wall"; "-o"; "src/test.o"; "-c"; "src/test.c"].

Definition parsed (args : list string) : option (list string * RunMode * Z * Z * ActionOpt) :=
  match Parse (NewArgParser args) with
  | Ret ap => Some (Args ap, Mode ap, InputArgIndex ap, OutputArgIndex ap, ActionOpt_of ap)
  | Panic _ => None
  end.

Example Parse_basic : parsed test_args = Some (test_args, RunRemote, 9, 7, Compile).
Proof. vm_compute. reflexivity. Qed.

Example ConfigurePreprocessorOptions_ex :
  (Args <$> (ap ← Parse (NewArgParser ["-g"; "-Wp,-X"; "-Wp,-MD,path"; "-c"; "test.c"; "-o"; "t.o"]);
             ConfigurePreprocessorOptions ap))
  = Ret ["-g"; "-X"; "-MD"; "-MF"; "path"; "-c"; "test.c"; "-o"; "t.o"].
Proof. vm_compute. reflexivity. Qed.
