(* ===== verification/CcArgsProps.v ===== *)
(** * Properties of the argument parser

    Totality and the invariant of [Parse], soundness of the remote decision, the
    action-option round trip, and the equivalence of the index loops with list
    functions. *)
From S2P Require Import Prelude GoStrings Types CcFilename CcArgs.

(** ** The index loops *)

Lemma strip_loop_filter fuel pre suf :
  (length suf < fuel)%nat →
  Forall (λ a, unsupported a = false) pre →
  strip_loop fuel (length pre) (pre ++ suf) = pre ++ filter (λ a, unsupported a = false) suf.
Proof.
  revert pre suf. induction fuel as [|fuel IH]; intros pre suf Hf Hpre; [lia|]. cbn.
  destruct suf as [|a suf]; cbn in Hf.
  { rewrite lookup_ge_None_2 by (rewrite app_nil_r; lia). done. }
  rewrite list_lookup_middle by done.
  destruct (unsupported a) eqn:Ea.
  - rewrite filter_cons_False by congruence.
    rewrite take_app_length, cons_middle, app_assoc, drop_app_length'
      by (rewrite length_app; cbn; lia).
    apply IH; [lia|done].
  - rewrite filter_cons_True by done.
    rewrite cons_middle, (app_assoc pre).
    replace (S (length pre)) with (length (pre ++ [a])) by (rewrite length_app; cbn; lia).
    rewrite IH; [by rewrite <- app_assoc | lia |].
    apply Forall_app. by repeat constructor.
Qed.

Lemma strip_filter args :
  stripUnsupportedArgs args = filter (λ a, unsupported a = false) args.
Proof. apply (strip_loop_filter _ []); [lia|constructor]. Qed.

(** What one [-Wp] argument expands to: [-MF] goes in front of the path that follows
    [-MD] or [-MMD]. *)
Fixpoint insert_mf (parts : list string) : go (list string) :=
  match parts with
  | [] => Ret []
  | str :: rest =>
      if bool_decide (str = "-MD") || bool_decide (str = "-MMD") then
        match rest with
        | [] => Ret [str]
        | EmptyString :: _ => Panic "index out of range"
        | String c _ :: _ =>
            if bool_decide (c = "-"%char) then cons str <$> insert_mf rest
            else (λ r, str :: "-MF" :: r) <$> insert_mf rest
        end
      else cons str <$> insert_mf rest
  end.

Fixpoint expand_wp (args : list string) : go (list string) :=
  match args with
  | [] => Ret []
  | arg :: rest =>
      if has_prefix arg "-Wp" then
        parts ← insert_mf (tl (split arg ","%char));
        rest ← expand_wp rest;
        Ret (parts ++ rest)
      else cons arg <$> expand_wp rest
  end.

Lemma lookup_middle_S {A} (pre : list A) a suf :
  (pre ++ a :: suf) !! S (length pre) = head suf.
Proof.
  rewrite lookup_app_r by lia. replace (S (length pre) - length pre)%nat with 1%nat by lia.
  by destruct suf.
Qed.

Lemma mf_step (pre : list string) str rest :
  <[S (length pre) := "-MF"]>
    (take (S (length pre)) (pre ++ str :: rest) ++ drop (length pre) (pre ++ str :: rest))
  = (pre ++ [str; "-MF"]) ++ rest.
Proof.
  induction pre as [|x pre IH]; [done|]. exact (f_equal (cons x) IH).
Qed.

Lemma mf_loop_insert fuel pre parts :
  (length parts < fuel)%nat →
  mf_loop fuel (length pre) (pre ++ parts) = app pre <$> insert_mf parts.
Proof.
  revert pre parts. induction fuel as [|fuel IH]; intros pre parts Hf; [lia|]. cbn.
  destruct parts as [|str rest]; cbn in Hf.
  { rewrite lookup_ge_None_2 by (rewrite app_nil_r; lia). done. }
  assert (mf_loop fuel (S (length pre)) (pre ++ str :: rest) =
          app pre <$> (cons str <$> insert_mf rest)) as Hskip.
  { rewrite cons_middle, app_assoc.
    replace (S (length pre)) with (length (pre ++ [str])) by (rewrite length_app; cbn; lia).
    rewrite IH by lia. destruct (insert_mf rest); cbn; [|done]. by rewrite <- app_assoc. }
  rewrite list_lookup_middle, lookup_middle_S by done. cbn [insert_mf].
  case_match; [|done].
  destruct rest as [|[|c w] rest]; cbn [head]; [|done|].
  - rewrite Hskip. done.
  - case_match; [done|]. rewrite mf_step.
    replace (S (S (length pre))) with (length (pre ++ [str; "-MF"]))
      by (rewrite length_app; cbn; lia).
    rewrite IH by lia. destruct (insert_mf _); cbn; [|done]. by rewrite <- app_assoc.
Qed.

Lemma wp_loop_expand fuel pre args :
  (length args < fuel)%nat →
  wp_loop fuel (length pre) (pre ++ args) = app pre <$> expand_wp args.
Proof.
  revert pre args. induction fuel as [|fuel IH]; intros pre args Hf; [lia|].
  cbn [wp_loop].
  destruct args as [|arg rest]; cbn in Hf.
  { rewrite lookup_ge_None_2 by (rewrite app_nil_r; lia). done. }
  rewrite list_lookup_middle by done. cbn [expand_wp].
  destruct (has_prefix arg "-Wp"); cbn [negb].
  - pose proof (mf_loop_insert (S (length (tl (split arg ",")))) [] (tl (split arg ","))) as Hm.
    cbn [length app] in Hm. rewrite Hm by lia.
    destruct (insert_mf _) as [parts|]; cbn; [|done].
    rewrite take_app_length, cons_middle, app_assoc, drop_app_length'
      by (rewrite length_app; cbn; lia).
    rewrite IH by lia. destruct (expand_wp rest); cbn; [|done]. by rewrite <- app_assoc.
  - rewrite cons_middle, app_assoc.
    replace (S (length pre)) with (length (pre ++ [arg])) by (rewrite length_app; cbn; lia).
    rewrite IH by lia. destruct (expand_wp rest); cbn; [|done]. by rewrite <- app_assoc.
Qed.

(** C40: The in-place index loops of the parser compute list functions:
    [stripUnsupportedArgs] is a filter, and [ConfigurePreprocessorOptions] parses the
    list in which each [-Wp,...] argument is replaced by its comma-separated parts
    with [-MF] inserted before a dependency-file path ([expand_wp]), including the
    run-time panic on an empty part after [-MD].  The loops therefore terminate
    within their fuel. *)
Theorem index_loops_equiv :
  (∀ args, stripUnsupportedArgs args = filter (λ a, unsupported a = false) args) ∧
  (∀ ap, ConfigurePreprocessorOptions ap =
         (args ← expand_wp (Args ap); Parse (set_Args args ap))).
Proof.
  split; [exact strip_filter|]. intros ap. unfold ConfigurePreprocessorOptions.
  pose proof (wp_loop_expand (S (length (Args ap))) [] (Args ap)) as Hw.
  cbn [length app] in Hw. rewrite Hw by lia. by destruct (expand_wp _).
Qed.

(** ** Totality *)

Lemma standardize_nonempty args : "" ∉ args → "" ∉ standardize args.
Proof.
  induction args as [|a args IH]; cbn; [done|]. rewrite !not_elem_of_cons. intros [Ha Hargs].
  destruct (has_prefix a "-o/") eqn:E; rewrite !not_elem_of_cons; [|by eauto].
  apply has_prefix_spec in E as [t ->]. split_and!; [done| |done]. by destruct t.
Qed.

Lemma parse_arg_total args i a st : a ≠ "" → ∃ st', parse_arg args i a st = Ret st'.
Proof. unfold parse_arg. intros Ha. destruct a; [done|]. repeat case_match; by eauto. Qed.

Lemma parse_loop_total args l i st :
  "" ∉ l → ∃ st', go_foldi (parse_arg args) i l st = Ret st'.
Proof.
  intros Hl. destruct (go_foldi_total (λ _ _, True) (parse_arg args) l i st) as (st' & ? & _);
    [done| |by eauto].
  intros j a s1 Hj _. destruct (parse_arg_total args (i + j)%nat a s1) as [s2 ?]; [|by eauto].
  intros ->. apply Hl. by eapply list_elem_of_lookup_2.
Qed.

(** [Parse] returns normally on every argument list without an empty argument,
    whatever the parser's previous mode and indexes were. *)
Theorem Parse_total (ap : ArgParser) (Hne : "" ∉ Args ap) : ∃ ap', Parse ap = Ret ap'.
Proof.
  unfold Parse. rewrite strip_filter.
  destruct (parse_loop_total (filter (λ a, unsupported a = false) (standardize (Args ap)))
    (filter (λ a, unsupported a = false) (standardize (Args ap))) 0 (p_init (Mode ap)))
    as [st ->].
  - rewrite list_elem_of_filter. intros [_ H]. by apply standardize_nonempty in H.
  - cbn. destruct (parse_default_output _ _). by eauto.
Qed.

Lemma Parse_total_witness : ∃ ap', Parse (NewArgParser test_args) = Ret ap'.
Proof. apply (Parse_total (NewArgParser test_args)). by apply (bool_decide_unpack _). Defined.

(** An empty argument that is not the value of a preceding option crashes the
    parser: [a[0]] is evaluated before the length is known. *)
Theorem Parse_empty_arg_panics :
  Parse (NewArgParser ["-c"; ""; "test.c"]) = Panic "index out of range".
Proof. vm_compute. reflexivity. Qed.

(** ** The invariant of a parsed argument list *)

(** Argument [a] is what index-map key [k] was recorded for: the flag itself, or one of
    the flags stored by prefix. *)
Definition flag_at (k a : string) : Prop :=
  a = k ∨ (k ∈ ["-MF"; "-MT"; "-MQ"; "-Wa"] ∧ has_prefix a k = true).

Definition flags_ok (args : list string) (m : gmap string nat) : Prop :=
  ∀ k i, m !! k = Some i → ∃ a, args !! i = Some a ∧ flag_at k a.

Definition input_ok (args : list string) (i : Z) : Prop :=
  i = -1 ∨ 0 ≤ i ∧ ∃ a, args !! Z.to_nat i = Some a ∧ (IsSourceFile a = true ∨ a = "-").

Definition output_ok (args : list string) (i : Z) : Prop :=
  i = -1 ∨ 1 ≤ i ∧ args !! Z.to_nat (i - 1) = Some "-o" ∧ is_Some (args !! Z.to_nat i).

Record wf (ap : ArgParser) : Prop := {
  wf_mode : Mode ap ≠ Unset;
  wf_flags : flags_ok (Args ap) (FlagIndexMap ap);
  wf_input : input_ok (Args ap) (InputArgIndex ap);
  wf_output : output_ok (Args ap) (OutputArgIndex ap);
}.

Definition loop_ok (args : list string) (st : PState) : Prop :=
  flags_ok args (p_Flags st) ∧ input_ok args (p_Input st) ∧ output_ok args (p_Output st).

Section loop_ok.
Context (args : list string).

Lemma loop_ok_init m : loop_ok args (p_init m).
Proof. split_and!; [by intros k i ? | by left..]. Qed.
Lemma loop_ok_skip b st : loop_ok args st → loop_ok args (with_skip b st).
Proof. done. Qed.
Lemma loop_ok_Mode m st : loop_ok args st → loop_ok args (with_Mode m st).
Proof. done. Qed.
Lemma loop_ok_C st : loop_ok args st → loop_ok args (with_C st).
Proof. done. Qed.
Lemma loop_ok_S st : loop_ok args st → loop_ok args (with_S st).
Proof. done. Qed.
Lemma loop_ok_E st : loop_ok args st → loop_ok args (with_E st).
Proof. done. Qed.
Lemma loop_ok_flag k i a st :
  args !! i = Some a → flag_at k a → loop_ok args st → loop_ok args (with_flag k i st).
Proof.
  intros Ha Hk (Hf & ? & ?). split_and!; [|done..]. cbn. intros k' i'.
  rewrite lookup_insert_Some. intros [[<- <-]|[_ Hk']]; [by eauto | by apply Hf].
Qed.
Lemma loop_ok_input a i st :
  args !! i = Some a → IsSourceFile a = true ∨ a = "-" →
  loop_ok args st → loop_ok args (with_input a (Z.of_nat i) st).
Proof.
  intros Ha Hs (? & _ & ?). split_and!; [done| |done]. right. split; [cbn; lia|].
  exists a. cbn. by rewrite Nat2Z.id.
Qed.
Lemma loop_ok_output s a i st :
  args !! i = Some "-o" → args !! S i = Some a →
  loop_ok args st → loop_ok args (with_output s (Z.of_nat (S i)) st).
Proof.
  intros Hi Ha (? & ? & _). split_and!; [done..|]. right. cbn [p_Output with_output].
  replace (Z.of_nat (S i) - 1) with (Z.of_nat i) by lia.
  rewrite !Nat2Z.id, Ha. split_and!; [lia|done|by eauto].
Qed.
End loop_ok.

Lemma flag_at_refl a : flag_at a a.
Proof. by left. Qed.

Lemma flag_at_prefix3 a :
  has_prefix a "-MF" || has_prefix a "-MT" || has_prefix a "-MQ" = true →
  flag_at (String.substring 0 3 a) a.
Proof.
  rewrite !orb_true_iff. intros [[H|H]|H]; pose proof H as H';
    apply has_prefix_spec in H' as [t ->]; right;
    rewrite !append_cons, append_nil_l in *;
    (destruct t; (split; [by apply (bool_decide_unpack _) | done])).
Qed.

Lemma flag_at_Wa a : has_prefix a "-Wa," = true → flag_at "-Wa" a.
Proof.
  intros [t ->]%has_prefix_spec. right.
  split; [by apply (bool_decide_unpack _)|]. apply has_prefix_spec. exists (String "," t). done.
Qed.
#[local] Hint Resolve flag_at_refl flag_at_prefix3 flag_at_Wa : kubecc.

(** Peels the [with_*] updates off a [loop_ok] goal. *)
Ltac solve_loop_ok :=
  repeat match goal with
  | H : ?P |- ?P => exact H
  | |- loop_ok _ (with_skip _ _) => apply loop_ok_skip
  | |- loop_ok _ (with_Mode _ _) => apply loop_ok_Mode
  | |- loop_ok _ (with_C _) => apply loop_ok_C
  | |- loop_ok _ (with_S _) => apply loop_ok_S
  | |- loop_ok _ (with_E _) => apply loop_ok_E
  | |- loop_ok _ (with_flag _ _ _) =>
      eapply loop_ok_flag; [eassumption | solve [auto with kubecc] |]
  end.

Lemma parse_output_ok args i st :
  args !! i = Some "-o" → loop_ok args st → loop_ok args (parse_output args i st).
Proof.
  intros Hi Hst. unfold parse_output.
  assert (loop_ok args (with_flag "-o" i st)). { by solve_loop_ok. }
  destruct (args !! S i) eqn:E; [|by solve_loop_ok].
  eapply loop_ok_skip, loop_ok_output; [done..|]. repeat case_match; solve_loop_ok.
Qed.

Lemma parse_option_ok args i a st :
  args !! i = Some a → loop_ok args st → loop_ok args (parse_option args i a st).
Proof.
  intros Hi Hst. unfold parse_option, parse_lang.
  repeat case_match; solve_loop_ok.
  match goal with H : bool_decide (a = "-o") = true |- _ =>
    apply bool_decide_eq_true in H as -> end.
  by apply parse_output_ok.
Qed.

Lemma parse_arg_ok args i a st st' :
  args !! i = Some a → loop_ok args st → parse_arg args i a st = Ret st' → loop_ok args st'.
Proof.
  intros Hi Hst. unfold parse_arg. destruct (p_skip st); [by intros [= <-]|].
  destruct a as [|c rest]; [done|]. case_match; intros [= <-].
  - by apply parse_option_ok.
  - unfold parse_input.
    destruct (IsSourceFile _ || _) eqn:Hsrc; [|done].
    rewrite orb_true_iff, bool_decide_eq_true in Hsrc.
    apply loop_ok_input; [done|done|]. by case_match.
Qed.

Lemma parse_loop_ok args m st :
  go_foldi (parse_arg args) 0 args (p_init m) = Ret st → loop_ok args st.
Proof.
  apply (go_foldi_inv (λ _, loop_ok args)); [apply loop_ok_init|].
  intros j a s1 s2 Hj Hok Hs. by eapply parse_arg_ok.
Qed.

(** Growing the argument list at the end keeps what was recorded about it. *)
Lemma loop_ok_app args k st : loop_ok args st → loop_ok (args ++ k) st.
Proof.
  intros (Hf & Hi & Ho). split_and!.
  - intros f i Hk. destruct (Hf f i Hk) as (a & Ha & ?). exists a.
    split; [by apply lookup_app_l_Some | done].
  - destruct Hi as [?|(? & a & Ha & ?)]; [by left|right]. split; [done|]. exists a.
    split; [by apply lookup_app_l_Some | done].
  - destruct Ho as [?|(? & Ha & [b Hb])]; [by left|right]. split; [done|].
    split; [by apply lookup_app_l_Some|]. exists b. by apply lookup_app_l_Some.
Qed.

Lemma loop_ok_new_output args s out st :
  loop_ok args st →
  loop_ok (args ++ ["-o"; out])
    (with_output s (Z.of_nat (length (args ++ ["-o"; out])) - 1) st).
Proof.
  intros Hok. replace (Z.of_nat (length (args ++ ["-o"; out])) - 1)
    with (Z.of_nat (S (length args))) by (rewrite length_app; cbn; lia).
  apply (loop_ok_output _ _ out); [by apply list_lookup_middle| |by apply loop_ok_app].
  by rewrite lookup_middle_S.
Qed.

Lemma parse_checks_ok args st : loop_ok args st → loop_ok args (parse_checks st).
Proof. intros Hok. unfold parse_checks. repeat case_match; done. Qed.

Lemma parse_default_output_ok args st args' st' :
  loop_ok args st → parse_default_output args st = (args', st') → loop_ok args' st'.
Proof.
  intros Hok. unfold parse_default_output.
  repeat case_match; intros [= <- <-]; try done;
    try apply loop_ok_Mode; by apply loop_ok_new_output.
Qed.

Lemma Parse_wf ap ap' : Parse ap = Ret ap' → wf ap'.
Proof.
  unfold Parse. intros H. inv_ret.
  match goal with H : go_foldi _ _ _ _ = Ret ?st |- _ => rename st into st; rename H into Hl end.
  apply parse_loop_ok, parse_checks_ok in Hl.
  destruct (parse_default_output _ _) as [args' st'] eqn:E.
  apply parse_default_output_ok in E as (? & ? & ?); [|done].
  inv_ret. split; cbn; [|done..]. by case_bool_decide.
Qed.

(** C39: After every [Parse] that returns, the parser is well formed: the mode is
    decided, each recorded flag index points at that flag (or, for -MF, -MT, -MQ and
    -Wa, at an argument with that prefix), the input index is -1 or points at a source
    file or [-], and the output index is -1 or points at the argument after an [-o]. *)
Theorem Parse_invariant (ap ap' : ArgParser) (HP : Parse ap = Ret ap') : wf ap'.
Proof. by eapply Parse_wf. Qed.

Lemma Parse_invariant_witness :
  wf (mkArgParser test_args RunRemote 9 7
        {["-MD" := 3%nat; "-o" := 6%nat; "-c" := 8%nat]}).
Proof. apply (Parse_invariant (NewArgParser test_args)). vm_compute. reflexivity. Defined.
