(* ===== verification/CcArgsRemote.v ===== *)
(** * When a compile may run remotely

    What the run mode decided by [Parse] ([pkg/cc/args.go]) promises: an argument list
    accepted for a remote compile has exactly one input, no option that ties it to the
    local machine, and an output argument. *)
From S2P Require Import Prelude GoStrings Types CcFilename CcArgs CcArgsProps.

(** An argument the scan treats as an option. *)
Definition is_option (a : string) : bool := has_prefix a "-" && bool_decide (a ≠ "-").

(** An argument the scan takes as the input. *)
Definition is_input (a : string) : bool :=
  negb (is_option a) && (IsSourceFile a || bool_decide (a = "-")).

(** Options whose value is the next argument. *)
Definition takes_value (a : string) : bool :=
  in_set LocalArgsWithValues a || bool_decide (a = "-x") || bool_decide (a = "-o").

(** The arguments the scan looks at: the values of options are skipped. *)
Fixpoint examined (args : list string) : list string :=
  match args with
  | [] => []
  | a :: args =>
      a :: (if takes_value a then match args with [] => [] | _ :: args => examined args end
            else examined args)
  end.

(** Options that can only be handled by the local compiler. *)
Definition forces_local (a : string) : bool :=
  bool_decide (a = "-E") ||
  (has_prefix a "-M" &&
   negb (in_set ["-MD"; "-MMD"; "-MG"; "-MP"] a || any_prefix ["-MF"; "-MT"; "-MQ"] a)) ||
  in_set ["-march=native"; "-mtune=native"; "-frepo"] a ||
  (has_prefix a "-Wa," && (contains a ",-a" || contains a "--MD")) ||
  has_prefix a "-specs=" ||
  in_set ProfileArgs a || any_prefix ProfilePrefixArgs a ||
  has_prefix a "-dr".

(** Turns boolean tests on an argument into equations on it and evaluates the rest. *)
Ltac arg_cases :=
  repeat match goal with
  | H : _ || _ = true |- _ => apply orb_true_iff in H as [H|H]
  | H : _ && _ = true |- _ => apply andb_true_iff in H as [H ?]
  | H : bool_decide _ = true |- _ => apply bool_decide_eq_true in H
  | H : in_set _ _ = true |- _ => unfold in_set in H
  | H : _ ∈ _ :: _ |- _ => apply elem_of_cons in H as [H|H]
  | H : _ ∈ [] |- _ => by apply not_elem_of_nil in H
  | H : _ ∈ ?l |- _ => progress unfold l in H
  | H : has_prefix ?a _ = true |- _ => is_var a; apply has_prefix_spec in H as [? ->]
  | H : ?a = _ |- _ => is_var a; subst a
  end.

Lemma forces_local_Wa a :
  has_prefix a "-Wa," = true → forces_local a = contains a ",-a" || contains a "--MD".
Proof.
  intros [t ->]%has_prefix_spec. unfold forces_local.
  generalize (contains ("-Wa," +:+ t) ",-a" || contains ("-Wa," +:+ t) "--MD").
  intros []; destruct t; by vm_compute.
Qed.

Lemma in_set_cons x l a : in_set (x :: l) a = bool_decide (a = x) || in_set l a.
Proof.
  unfold in_set. rewrite <- bool_decide_or. apply bool_decide_ext, elem_of_cons.
Qed.

(** Evaluates a test on a string whose first characters are known. *)
Ltac eval_tail := try match goal with x : string |- _ => destruct x end; by vm_compute.

(** Closes a goal from a boolean test that evaluates to a contradiction. *)
Ltac bad_test := solve [match goal with H : _ = _ :> bool |- _ => by vm_compute in H end].

Lemma parse_option_mode args i a st :
  p_Mode (parse_option args i a st) = RunLocal ∨
  p_Mode (parse_option args i a st) = p_Mode st ∧ forces_local a = false.
Proof.
  unfold parse_option, parse_lang, parse_output.
  repeat case_match; try by left.
  all: right; split; [done|].
  all: try match goal with
    | H : has_prefix ?b "-Wa," = true |- forces_local ?b = _ => by rewrite forces_local_Wa
    | H : _ = true |- _ => clear -H; arg_cases; eval_tail
    end.
  unfold forces_local. rewrite !in_set_cons.
  repeat match goal with H : _ = false |- _ => rewrite H; clear H end. done.
Qed.

Lemma takes_value_elem a : takes_value a = true → a ∈ LocalArgsWithValues ++ ["-x"; "-o"].
Proof.
  unfold takes_value, in_set. rewrite !orb_true_iff, !bool_decide_eq_true.
  rewrite elem_of_app, !elem_of_cons. tauto.
Qed.

(** What the option switch leaves alone: it never touches the input, and it skips the
    next argument exactly for the options that take a value. *)
Lemma parse_option_frame args i a st :
  p_skip st = false → is_Some (args !! S i) ∨ a ≠ "-o" →
  p_skip (parse_option args i a st) = takes_value a ∧
  inputArg (parse_option args i a st) = inputArg st ∧
  p_Input (parse_option args i a st) = p_Input st.
Proof.
  intros Hskip Ho.
  enough (p_skip (parse_option args i a st) = takes_value a ∧
          (inputArg (parse_option args i a st), p_Input (parse_option args i a st)) =
          (inputArg st, p_Input st)) as [? [=]] by done.
  assert (a ≠ "-o" → takes_value a = in_set LocalArgsWithValues a || bool_decide (a = "-x"))
    as Hno by (intros ?; unfold takes_value; by rewrite (bool_decide_false (a = "-o")),
      orb_false_r by done).
  unfold parse_option, parse_lang, parse_output.
  repeat case_match; (split; [|done]); cbn; rewrite ?Hskip.
  all: try match goal with
    | H : _ = true |- _ => clear -H; arg_cases; eval_tail
    end.
  1: repeat match goal with H : _ = false |- _ => clear H end; arg_cases;
      match goal with x : string |- _ => destruct x; [by vm_compute|] end;
      match goal with H : slen _ = 3 |- _ => 
        unfold slen in H; rewrite !append_cons, append_nil_l in H; cbn in H end; lia.
  all: symmetry; apply not_true_is_false; intros HT%takes_value_elem; cbn in HT;
    repeat (apply elem_of_cons in HT as [->|HT]);
    first [bad_test | by apply not_elem_of_nil in HT | destruct Ho as [[? ?]|?]; congruence].
Qed.

(** The arguments still to be examined, given whether the next one is a value. *)
Definition pending (skip : bool) (l : list string) : list string :=
  examined (if skip then tail l else l).

Lemma is_option_String c rest :
  is_option (String c rest) = bool_decide (c = "-"%char) && bool_decide (rest ≠ "").
Proof.
  unfold is_option. destruct (has_prefix _ _) eqn:E.
  - apply has_prefix_spec in E as [t Et]. rewrite append_cons, append_nil_l in Et.
    injection Et as -> ->. rewrite (bool_decide_true ("-"%char = _)) by done. cbn.
    apply bool_decide_ext. split; intros H E; apply H; congruence.
  - destruct (bool_decide_reflect (c = "-"%char)) as [->|]; [by destruct rest|done].
Qed.

Lemma is_input_not_empty a : is_input a = true → a ≠ "".
Proof. by intros H ->. Qed.

(** One examined argument: either the compile is local from here on, or the argument
    does not force it and is recorded as the input when it is one. *)
Lemma parse_arg_mode args i a st st' :
  args !! i = Some a → p_skip st = false → parse_arg args i a st = Ret st' →
  p_Mode st' = RunLocal ∨
  p_Mode st' = p_Mode st ∧ (is_option a = true → forces_local a = false) ∧
  p_skip st' = takes_value a ∧
  (is_input a = true ∧ inputArg st = "" ∧ inputArg st' = a ∨
   is_input a = false ∧ inputArg st' = inputArg st).
Proof.
  intros Ha Hs. unfold parse_arg. rewrite Hs. destruct a as [|c rest]; [done|].
  unfold is_input. rewrite is_option_String.
  destruct (bool_decide (c = "-"%char) && bool_decide (rest ≠ "")) eqn:Eo; intros [= <-].
  - destruct (decide (is_Some (args !! S i) ∨ String c rest ≠ "-o")) as [Ho|Ho].
    + destruct (parse_option_mode args i (String c rest) st) as [?|[? ?]]; [by left|right].
      pose proof (parse_option_frame args i _ _ Hs Ho) as (? & ? & ?).
      split_and!; [done..|by right].
    + apply Decidable.not_or in Ho as [Hn Hq]. left.
      assert (String c rest = "-o") as E by (destruct (decide (String c rest = "-o")); tauto).
      rewrite E. apply eq_None_not_Some in Hn.
      change (p_Mode (parse_output args i st) = RunLocal). unfold parse_output. by rewrite Hn.
  - assert (takes_value (String c rest) = false) as Et.
    { apply not_true_is_false. intros HT%takes_value_elem. cbn in HT.
      rewrite <- is_option_String in Eo.
      repeat (apply elem_of_cons in HT as [E|HT]; [by rewrite E in Eo|]).
      by apply not_elem_of_nil in HT. }
    unfold parse_input. cbn [negb andb]. destruct (IsSourceFile _ || _).
    + destruct (bool_decide_reflect (inputArg st ≠ "")) as [?|E]; [by left|right].
      apply dec_stable in E. rewrite Et. split_and!; [done..|by left].
    + right. rewrite Et. split_and!; [done..|by right].
Qed.

Definition not_tied (l : list string) : Prop :=
  Forall (λ a, is_option a = true → forces_local a = false) l.

(** Once local, always local. *)
Lemma parse_loop_local args l i st st' :
  p_Mode st = RunLocal → go_foldi (parse_arg args) i l st = Ret st' → p_Mode st' = RunLocal.
Proof.
  intros HL. apply (go_foldi_inv (λ _ s, p_Mode s = RunLocal)); [done|].
  intros j a s1 s2 _ Hm. unfold parse_arg. destruct (p_skip s1); [by intros [= <-]|].
  destruct a as [|c rest]; [done|]. case_match; intros [= <-].
  - destruct (parse_option_mode args (i + j) (String c rest) s1) as [?|[-> _]]; done.
  - unfold parse_input. repeat case_match; done.
Qed.

Lemma parse_loop_mode args l i st st' :
  drop i args = l → go_foldi (parse_arg args) i l st = Ret st' →
  p_Mode st' ≠ RunLocal →
  p_Mode st' = p_Mode st ∧ not_tied (pending (p_skip st) l) ∧
  (filter is_input (pending (p_skip st) l) = [] ∧ inputArg st' = inputArg st ∨
   inputArg st = "" ∧ filter is_input (pending (p_skip st) l) = [inputArg st']).
Proof.
  revert i st. induction l as [|a l IH]; intros i st Hd Hrun HL.
  { injection Hrun as <-. unfold pending. destruct (p_skip st); cbn; (split; [done|]);
      (split; [apply Forall_nil_2|by left]). }
  assert (args !! i = Some a ∧ drop (S i) args = l) as [Ha Hd'].
  { rewrite <- (Nat.add_0_r i), <- lookup_drop, Hd. split; [done|].
    replace (S (i + 0)) with (i + 1)%nat by lia. by rewrite <- drop_drop, Hd. }
  cbn in Hrun. apply go_bind_Ret_inv in Hrun as (st1 & Hs & Hrun).
  destruct (p_skip st) eqn:Esk.
  { unfold parse_arg in Hs. rewrite Esk in Hs. injection Hs as <-.
    by apply (IH _ _ Hd') in Hrun. }
  pose proof Hrun as Hrun'. apply (IH _ _ Hd') in Hrun as (Hm & Ht & Hi); [|done].
  destruct (parse_arg_mode _ _ _ _ _ Ha Esk Hs) as [Hl|(Hm1 & Hf & Hsk & Hc)].
  { by apply parse_loop_local in Hrun'. }
  assert (pending false (a :: l) = a :: pending (p_skip st1) l) as ->.
  { rewrite Hsk. unfold pending. cbn. by destruct (takes_value a), l. }
  split; [congruence|]. split; [by constructor|]. rewrite filter_cons.
  destruct Hc as [(Hin & He & Hi1)|[Hin Hi1]]; rewrite Hin; cbn; [right|by rewrite Hi1 in Hi].
  split; [done|]. apply is_input_not_empty in Hin.
  destruct Hi as [[-> ->]|[Hbad _]]; [by rewrite Hi1|congruence].
Qed.

(** ** The recorded input and output *)

(** The recorded input is the argument at its index, a non-empty recorded output has an
    index, and [-E] makes the compile local. *)
Definition linked (args : list string) (st : PState) : Prop :=
  (p_Input st = -1 ∧ inputArg st = "" ∨
   0 ≤ p_Input st ∧ args !! Z.to_nat (p_Input st) = Some (inputArg st) ∧ inputArg st ≠ "") ∧
  (outputArg st ≠ "" → p_Output st ≠ -1) ∧
  (seenOptE st = true → p_Mode st = RunLocal).

Lemma linked_output args i st : linked args st → linked args (parse_output args i st).
Proof.
  unfold linked, parse_output. intros (? & ? & ?).
  repeat case_match; cbn -[Z.of_nat]; split_and!; try done; intros _; lia.
Qed.

Lemma linked_option args i a st : linked args st → linked args (parse_option args i a st).
Proof.
  intros H. unfold parse_option. repeat case_match; try by apply linked_output.
  all: unfold parse_lang; repeat case_match; destruct H as (? & ? & ?); by split_and!.
Qed.

Lemma linked_loop args st m :
  go_foldi (parse_arg args) 0 args (p_init m) = Ret st → linked args st.
Proof.
  apply (go_foldi_inv (λ _, linked args)); [split_and!; [by left|done..]|].
  intros j a s1 s2 Hj Hl. unfold parse_arg. destruct (p_skip s1); [by intros [= <-]|].
  destruct a as [|c rest]; [done|]. case_match; intros [= <-]; [by apply linked_option|].
  destruct Hl as (? & ? & ?). unfold parse_input.
  repeat case_match; split_and!; try done; right; cbn -[Z.of_nat];
    rewrite Nat2Z.id; (split_and!; [lia|done..]).
Qed.

Lemma ReplaceExtension_not_empty path c e : ReplaceExtension path (String c e) ≠ "".
Proof. unfold ReplaceExtension. by destruct (of_chars _). Qed.

(** The corrections after the loop only ever make the compile local. *)
Lemma parse_checks_remote st :
  p_Mode (parse_checks st) ≠ RunLocal →
  parse_checks st = st ∧ p_Input st ≠ -1 ∧ ShouldRunLocal (inputArg st) = false.
Proof.
  unfold parse_checks. repeat case_match; simp_decide; try done.
Qed.

Lemma parse_default_output_remote args st args' st' :
  linked args st → inputArg st ≠ "" →
  parse_default_output args st = (args', st') → p_Mode st' ≠ RunLocal →
  p_Mode st' = p_Mode st ∧ p_Input st' = p_Input st ∧ p_Output st' ≠ -1 ∧
  (args' = args ∨ ∃ out, args' = args ++ ["-o"; out]).
Proof.
  intros (_ & Ho & HE) Hi. unfold parse_default_output.
  pose proof (ReplaceExtension_not_empty (inputArg st) "." "o").
  pose proof (ReplaceExtension_not_empty (inputArg st) "." "s").
  repeat case_match; intros [= <- <-] HL; simp_decide; cbn in *; try done.
  1-2: rewrite length_app; cbn; split_and!; [done..|lia|by eauto].
  all: split_and!; [done..| |by left].
  1: match goal with H : negb _ = false |- _ => apply negb_false_iff in H; naive_solver end.
  naive_solver.
Qed.

Lemma parse_default_output_local args st args' st' :
  p_Mode st = RunLocal → parse_default_output args st = (args', st') → p_Mode st' = RunLocal.
Proof. intros H. unfold parse_default_output. repeat case_match; by intros [= _ <-]. Qed.

(** C1: When [Parse] decides that a compile can run remotely, the prepared argument
    list contains no examined option that ties the compile to the local machine and
    exactly one input; that input is the argument at [InputArgIndex] and is not a
    configure-test file, and [OutputArgIndex] is set. *)
Theorem Parse_remote_sound (ap ap' : ArgParser)
    (HP : Parse ap = Ret ap') (HR : CanRunRemote ap' = true) :
  let args := stripUnsupportedArgs (standardize (Args ap)) in
  ∃ input,
    not_tied (examined args) ∧
    filter is_input (examined args) = [input] ∧
    Args ap' !! Z.to_nat (InputArgIndex ap') = Some input ∧
    ShouldRunLocal input = false ∧
    0 ≤ InputArgIndex ap' ∧ 0 < OutputArgIndex ap'.
Proof.
  unfold CanRunRemote in HR. apply bool_decide_eq_true in HR.
  pose proof (wf_output _ (Parse_wf _ _ HP)) as Hout. intros args.
  unfold Parse in HP. fold args in HP. clearbody args. inv_ret.
  match goal with H : go_foldi _ _ _ _ = Ret ?s |- _ => rename s into st, H into Hl end.
  pose proof (linked_loop _ _ _ Hl) as Hk.
  destruct (parse_default_output _ _) as [args' st'] eqn:E.
  match goal with H : Ret _ = Ret _ |- _ => injection H as <- end. cbn in *.
  assert (p_Mode st' ≠ RunLocal) as Hm' by (intros Hx; by rewrite Hx in HR).
  assert (p_Mode (parse_checks st) ≠ RunLocal) as Hm.
  { intros Hx. by apply (parse_default_output_local _ _ _ _ Hx) in E. }
  destruct (parse_checks_remote _ Hm) as (Hc & Hi & Hs). rewrite Hc in *.
  pose proof Hk as [[[? _]|(Hi0 & Hin & Hne)] _]; [done|].
  eapply parse_default_output_remote in E as (HM & HI & HO & Hargs); [|done..].
  apply (parse_loop_mode args args 0 _ _ eq_refl) in Hl as (_ & Ht & Hf); [|done].
  destruct Hf as [[_ Hf]|[_ Hf]]; [by rewrite Hf in Hne|].
  exists (inputArg st). rewrite HI. split_and!; [done..| |done|done|].
  - destruct Hargs as [->|[out ->]]; [done|]. by apply lookup_app_l_Some.
  - destruct Hout as [?|(? & _)]; [done|lia].
Qed.

Lemma Parse_remote_sound_witness :
  filter is_input (examined test_args) = ["src/test.c"].
Proof.
  destruct (Parse_remote_sound (NewArgParser test_args)
    (mkArgParser test_args RunRemote 9 7 {["-MD" := 3%nat; "-o" := 6%nat; "-c" := 8%nat]}))
    as (input & _ & H & Hin & _).
  - vm_compute. reflexivity.
  - reflexivity.
  - vm_compute in Hin. injection Hin as <-. exact H.
Defined.
