(* ===== verification/CcArgsOps.v ===== *)
(** * Rewriting a parsed argument list

    Properties of the operations of [ArgParser] ([pkg/cc/args.go]) that the remote
    compile path applies in sequence: switching the action flag and back, replacing the
    output path and back, and removing the arguments only the local machine understands. *)
From S2P Require Import Prelude GoStrings Types CcFilename CcArgs CcArgsProps CcArgsRemote.

(** ** Switching the action *)

(** [opt] is the only action flag that was recorded, at index [i]. *)
Definition only_action (ap : ArgParser) (opt : ActionOpt) (i : nat) : Prop :=
  opt ≠ None_ ∧ FlagIndexMap ap !! ActionOpt_String opt = Some i ∧
  ∀ o, o ≠ None_ → o ≠ opt → FlagIndexMap ap !! ActionOpt_String o = None.

Lemma ActionOpt_String_inj o1 o2 : ActionOpt_String o1 = ActionOpt_String o2 → o1 = o2.
Proof. by destruct o1, o2. Qed.

(** An action flag is recorded at an index that holds exactly that flag. *)
Lemma action_at ap opt i :
  wf ap → opt ≠ None_ → FlagIndexMap ap !! ActionOpt_String opt = Some i →
  Args ap !! i = Some (ActionOpt_String opt).
Proof.
  intros Hwf Ho Hi. destruct (wf_flags _ Hwf _ _ Hi) as (a & Ha & [->|[Hk _]]); [done|].
  destruct opt; try done; exfalso; revert Hk; by apply (bool_decide_unpack _).
Qed.

Lemma SetActionOpt_only ap opt i o :
  only_action ap opt i → (i < length (Args ap))%nat →
  SetActionOpt o ap =
    Ret (mkArgParser (<[i := ActionOpt_String o]> (Args ap)) (Mode ap) (InputArgIndex ap)
           (OutputArgIndex ap)
           (<[ActionOpt_String o := i]> (delete (ActionOpt_String opt) (FlagIndexMap ap))), None).
Proof.
  intros (Ho & Hi & Hno) Hlt. unfold SetActionOpt.
  assert (∀ o', replace_action o i o' ap =
    Ret (mkArgParser (<[i := ActionOpt_String o]> (Args ap)) (Mode ap) (InputArgIndex ap)
      (OutputArgIndex ap) (<[ActionOpt_String o := i]>
        (delete (ActionOpt_String o') (FlagIndexMap ap))))) as HR.
  { intros o'. unfold replace_action, slice_set. rewrite bool_decide_true by lia.
    by rewrite Nat2Z.id. }
  destruct opt; [| | |done]; rewrite ?(Hno Compile), ?(Hno GenAssembly) by done; by rewrite Hi, HR.
Qed.

Lemma only_action_switch ap opt i o args :
  only_action ap opt i → o ≠ None_ →
  only_action (mkArgParser args (Mode ap) (InputArgIndex ap) (OutputArgIndex ap)
    (<[ActionOpt_String o := i]> (delete (ActionOpt_String opt) (FlagIndexMap ap)))) o i.
Proof.
  intros (Ho & Hi & Hno) Hne. split_and!; cbn; [done|by rewrite lookup_insert_eq|].
  intros o' Ho' Hoo. rewrite lookup_insert_ne by (by intros H%ActionOpt_String_inj).
  destruct (decide (o' = opt)) as [->|Hx]; [apply lookup_delete_eq|].
  rewrite lookup_delete_ne by (by intros H%ActionOpt_String_inj). by apply Hno.
Qed.

Lemma only_action_of ap opt i : only_action ap opt i → ActionOpt_of ap = opt.
Proof.
  intros (Ho & Hi & Hno). unfold ActionOpt_of.
  destruct opt; [| | |done]; rewrite ?(Hno Compile), ?(Hno GenAssembly) by done; by rewrite Hi.
Qed.

Lemma SetActionOpt_switch_back ap opt i o :
  wf ap → only_action ap opt i → o ≠ None_ →
  ∃ ap1, SetActionOpt o ap = Ret (ap1, None) ∧ ActionOpt_of ap1 = o ∧
    Args ap1 = <[i := ActionOpt_String o]> (Args ap) ∧
    OutputArgIndex ap1 = OutputArgIndex ap ∧ SetActionOpt opt ap1 = Ret (ap, None).
Proof.
  intros Hwf Ha Hne. pose proof Ha as (Ho & Hi & Hno).
  pose proof (action_at _ _ _ Hwf Ho Hi) as Hat. pose proof (lookup_lt_Some _ _ _ Hat) as Hlt.
  eexists. rewrite (SetActionOpt_only _ _ _ _ Ha Hlt). split; [done|].
  pose proof (only_action_switch ap opt i o (<[i:=ActionOpt_String o]> (Args ap)) Ha Hne) as Hb.
  split_and!; [by eapply only_action_of|done|done|].
  rewrite (SetActionOpt_only _ _ _ _ Hb) by (cbn; by rewrite length_insert).
  destruct ap as [args m inp out f]. cbn in *. do 3 f_equal.
  - by rewrite list_insert_insert_eq, list_insert_id.
  - destruct (decide (o = opt)) as [->|Hx].
    + by rewrite delete_insert_eq, delete_delete_eq, insert_delete_id.
    + rewrite delete_insert_id, insert_delete_id; [done|done|].
      rewrite lookup_delete_ne by (by intros H%ActionOpt_String_inj). by apply Hno.
Qed.

(** ** The local arguments *)

Definition is_local (a : string) : bool :=
  in_set LocalArgsWithValues a || any_prefix LocalPrefixArgs a || in_set LocalArgsNoValues a.

(** Induction over the scan of [remove_local], which may consume two arguments. *)
Lemma remove_local_ind (P : list string → list string → Prop) :
  P [] [] →
  (∀ a, in_set LocalArgsWithValues a = true → P [a] []) →
  (∀ a b l, in_set LocalArgsWithValues a = true → P l (remove_local l) →
     P (a :: b :: l) (remove_local l)) →
  (∀ a l, is_local a = true → P l (remove_local l) → P (a :: l) (remove_local l)) →
  (∀ a l, is_local a = false → P l (remove_local l) → P (a :: l) (a :: remove_local l)) →
  ∀ l, P l (remove_local l).
Proof.
  intros Hnil Hone Hval Hdrop Hkeep l.
  induction l as [l IH] using (induction_ltof1 _ (@length string)). unfold ltof in IH.
  destruct l as [|a l]; [done|]. cbn [remove_local].
  destruct (in_set LocalArgsWithValues a) eqn:Ev.
  { destruct l as [|b l]; [by apply Hone|]. apply Hval; [done|]. apply IH. cbn. lia. }
  assert (P l (remove_local l)) by (apply IH; cbn; lia).
  destruct (any_prefix LocalPrefixArgs a || in_set LocalArgsNoValues a) eqn:El.
  - apply Hdrop; [|done]. unfold is_local. by rewrite <- orb_assoc, El, orb_true_r.
  - apply Hkeep; [|done]. unfold is_local. by rewrite Ev, <- orb_assoc, El.
Qed.

Lemma remove_local_keeps l : Forall (λ a, is_local a = false) l → remove_local l = l.
Proof.
  induction 1 as [|a l Ha _ IH]; [done|]. cbn [remove_local]. unfold is_local in Ha.
  rewrite <- orb_assoc in Ha. apply orb_false_iff in Ha as [-> ->]. by rewrite IH.
Qed.

Lemma remove_local_clean l : Forall (λ a, is_local a = false) (remove_local l).
Proof. pattern l, (remove_local l). apply remove_local_ind; auto. Qed.

Lemma remove_local_sublist l : remove_local l `sublist_of` l.
Proof.
  pattern l, (remove_local l). apply remove_local_ind; intros; try constructor; auto.
  by constructor.
Qed.

(** [RemoveLocalArgs] keeps a subsequence of the arguments, none of which is a
    preprocessor, linker or dependency option of the local machine, and filtering the
    result again changes nothing. *)
Theorem remove_local_spec (args : list string) :
  remove_local args `sublist_of` args ∧
  Forall (λ a, is_local a = false) (remove_local args) ∧
  remove_local (remove_local args) = remove_local args.
Proof.
  split_and!; [apply remove_local_sublist | apply remove_local_clean |].
  apply remove_local_keeps, remove_local_clean.
Qed.

(** ** Parsing again keeps local arguments out *)

Lemma has_prefix_is_option a p :
  has_prefix a p = true → is_option p = true → is_option a = true.
Proof.
  intros [t ->]%has_prefix_spec. destruct p as [|c p]; [done|].
  rewrite append_cons, !is_option_String. rewrite !andb_true_iff, !bool_decide_eq_true.
  intros [-> Hp]. split; [done|]. destruct p; [done|]. by rewrite append_cons.
Qed.

Lemma is_local_is_option a : is_local a = true → is_option a = true.
Proof.
  unfold is_local, in_set, any_prefix.
  rewrite !orb_true_iff, !bool_decide_eq_true, existsb_exists.
  intros [[H|(p & Hp & Ha)]|H].
  - revert a H. apply Forall_forall. by apply (bool_decide_unpack _).
  - eapply has_prefix_is_option; [done|]. apply list_elem_of_In in Hp.
    clear Ha. revert p Hp. apply Forall_forall. by apply (bool_decide_unpack _).
  - revert a H. apply Forall_forall. by apply (bool_decide_unpack _).
Qed.

Lemma not_option_not_local a : is_option a = false → is_local a = false.
Proof. intros Ha. apply not_true_is_false. intros H%is_local_is_option. congruence. Qed.

(** The name of a default output is never mistaken for a local option. *)
Lemma ReplaceExtension_not_local input e :
  is_option input = false → e = ".o" ∨ e = ".s" →
  is_local (ReplaceExtension input e) = false.
Proof.
  intros Hi Hoe. destruct (decide (input = "-")) as [->|Hd].
  { destruct Hoe as [-> | ->]; by vm_compute. }
  apply not_option_not_local. unfold ReplaceExtension.
  destruct input as [|c r]; [by destruct Hoe as [-> | ->]|].
  rewrite is_option_String in Hi.
  assert (c ≠ "-"%char) as Hc.
  { intros ->. apply andb_false_iff in Hi as [Hi|Hi]; [done|].
    apply bool_decide_eq_false in Hi. apply Hd. f_equal. by apply dec_stable. }
  destruct (_ - _)%nat as [|n]; [by destruct Hoe as [-> | ->]|].
  change (of_chars (take (S n) (chars (String c r))))
    with (String c (of_chars (take n (chars r)))).
  rewrite append_cons, is_option_String. by rewrite bool_decide_false.
Qed.

Lemma parse_option_inputArg args i a st : inputArg (parse_option args i a st) = inputArg st.
Proof. unfold parse_option, parse_lang, parse_output. by repeat case_match. Qed.

Lemma parse_loop_inputArg args m st :
  go_foldi (parse_arg args) 0 args (p_init m) = Ret st → is_option (inputArg st) = false.
Proof.
  apply (go_foldi_inv (λ _ s, is_option (inputArg s) = false)); [done|].
  intros j a s1 s2 _ Hs. unfold parse_arg. destruct (p_skip s1); [by intros [= <-]|].
  destruct a as [|c rest]; [done|]. rewrite <- is_option_String.
  destruct (is_option (String c rest)) eqn:Eo; intros [= <-]; [by rewrite parse_option_inputArg|].
  unfold parse_input. by repeat case_match.
Qed.

Lemma parse_checks_inputArg st : inputArg (parse_checks st) = inputArg st.
Proof. unfold parse_checks. by repeat case_match. Qed.

Lemma strip_not_local l :
  Forall (λ a, is_local a = false) l → Forall (λ a, is_local a = false) (stripUnsupportedArgs l).
Proof.
  rewrite strip_filter, !Forall_forall. intros H a [_ Ha]%list_elem_of_filter. by apply H.
Qed.

Lemma standardize_not_local l :
  Forall (λ a, is_local a = false) l → Forall (λ a, is_local a = false) (standardize l).
Proof.
  induction 1 as [|a l Ha Hl IH]; [done|]. cbn. destruct (has_prefix a "-o/") eqn:E.
  - constructor; [done|]. constructor; [|done]. apply not_option_not_local.
    by apply has_prefix_spec in E as [t ->].
  - by constructor.
Qed.

Lemma Parse_not_local ap ap' :
  Forall (λ a, is_local a = false) (Args ap) → Parse ap = Ret ap' →
  Forall (λ a, is_local a = false) (Args ap').
Proof.
  intros HF%standardize_not_local%strip_not_local. unfold Parse. intros H. inv_ret.
  match goal with H : go_foldi _ _ _ _ = Ret ?s |- _ =>
    rename s into st; apply parse_loop_inputArg in H; rename H into Hi end.
  rewrite <- parse_checks_inputArg in Hi. revert HF Hi H0.
  generalize (stripUnsupportedArgs (standardize (Args ap))) (parse_checks st).
  intros args s HF Hi. unfold parse_default_output.
  repeat case_match; simplify_eq/=; intros; simplify_eq/=; inv_ret; cbn; try done.
  all: apply Forall_app; split; [done|].
  all: repeat constructor; try apply ReplaceExtension_not_local; auto.
Qed.

(** ** Input and output are different arguments *)

(** Before argument [i] is looked at: the input is before it, the output at most at it, and
    then it is skipped. *)
Definition apart (i : nat) (st : PState) : Prop :=
  -1 ≤ p_Input st < Z.of_nat i ∧ -1 ≤ p_Output st ≤ Z.of_nat i ∧
  (p_Output st = Z.of_nat i → p_skip st = true) ∧ (p_Input st ≠ -1 → p_Input st ≠ p_Output st).

Lemma apart_option args i a st : p_skip st = false → apart i st → apart (S i) (parse_option args i a st).
Proof.
  intros Hs (H1 & H2 & H3 & H4). rewrite Hs in H3.
  assert (p_Output st ≠ Z.of_nat i) by (intros E; by specialize (H3 E)).
  unfold parse_option, parse_output, parse_lang, apart.
  repeat case_match; cbn -[Z.of_nat]; split_and!; intros; first [done | lia].
Qed.

Lemma apart_loop args m st :
  go_foldi (parse_arg args) 0 args (p_init m) = Ret st → apart (length args) st.
Proof.
  change (apart (length args) st) with (apart (0 + length args) st).
  refine (go_foldi_inv apart _ _ _ _ _ _ _); [by repeat split|].
  intros j a s1 s2 Hj Ha. unfold parse_arg. destruct (p_skip s1) eqn:Es.
  { intros [= <-]. destruct Ha as (H1 & H2 & H3 & H4). unfold apart. cbn -[Z.of_nat]. split_and!; try lia; done. }
  destruct a as [|c rest]; [done|]. case_match; intros [= <-]; [by apply apart_option|].
  destruct Ha as (H1 & H2 & H3 & H4). rewrite Es in H3.
  assert (p_Output s1 ≠ Z.of_nat (0 + j)) by (intros E; by specialize (H3 E)).
  unfold parse_input, apart. repeat case_match; cbn -[Z.of_nat]; split_and!; try lia; intros; try done; lia.
Qed.

(** The default output is a new last argument. *)
Lemma apart_default args st args' st' :
  apart (length args) st → parse_default_output args st = (args', st') → p_Input st' ≠ -1 → p_Input st' ≠ p_Output st'.
Proof.
  intros (H1 & H2 & H3 & H4). unfold parse_default_output.
  destruct (bool_decide (outputArg st = "")); [|by intros [= <- <-]].
  destruct (seenOptC st || seenOptS st); [|destruct (bool_decide _ && _); [|by intros [= <- <-]]].
  - generalize (if seenOptS st then ReplaceExtension (inputArg st) ".s" else ReplaceExtension (inputArg st) ".o").
    intros out. destruct (bool_decide (out ≠ "")); [|by intros [= <- <-]].
    intros [= <- <-]. cbn -[Z.of_nat]. rewrite length_app. cbn. lia.
  - intros [= <- <-]. cbn -[Z.of_nat]. rewrite length_app. cbn. lia.
Qed.

Lemma apart_checks n st : apart n st → apart n (parse_checks st).
Proof.
  intros H. unfold parse_checks. cbn zeta. destruct (ShouldRunLocal _), (_ && _ && _); cbn; by repeat case_bool_decide.
Qed.

Lemma Parse_apart ap ap' : Parse ap = Ret ap' → InputArgIndex ap' ≠ -1 → InputArgIndex ap' ≠ OutputArgIndex ap'.
Proof.
  unfold Parse. intros H. apply go_bind_Ret_inv in H as (st & Hst%apart_loop%apart_checks & H). revert Hst H.
  generalize (stripUnsupportedArgs (standardize (Args ap))) (parse_checks st). intros args s Hs.
  destruct (parse_default_output args s) as [args' s'] eqn:E. intros [= <-]. cbn. by apply (apart_default args s args').
Qed.
