(* ===== verification/CcController.v ===== *)
(** * Running compiles: [pkg/cc/compile.go], [pkg/cc/preprocess.go], [pkg/cc/controller]

    The tasks that run the compiler and the three request managers of the C/C++
    toolchain controller: [localRunnerManager] runs a request in place,
    [sendRemoteRunnerManager] preprocesses locally and sends the result to the
    scheduler, [recvRemoteRunnerManager] compiles a received request on an agent.
    Processes, temporary files and the scheduler connection are the operations of a
    [Host]; the order in which a manager uses them is recorded as a list of [event]s. *)
From S2P Require Import Prelude GoStrings Types CcFilename CcArgs CcArgsProps CcArgsRemote CcArgsOps.

(** ** The host *)

Record Cmd := mkCmd {
  Path : string;
  CmdArgs : list string;
  CmdEnv : list string;
  CmdDir : string;
  CmdStdin : string;
}.

(** The outcome of [cmd.Start] followed by [cmd.Wait]; errors of the operating system are
    their texts. *)
Inductive ExecOutcome : Set :=
  | StartFailed (err : string)
  | Exited (stdout stderr : string) (err : option string).

Record Host := mkHost {
  exec : Cmd → ExecOutcome;
  stat : string → option string;
  mkdirAll : string → option string;
  mkdirTemp : string → string → string + string;
  createTemp : string → string → string + string;
  create : string → option string;
  copy_to : string → string → option string;
  readFile : string → string + string;
  openFile : string → option string;
  remoteCompile : CompileRequest → error + CompileResponse;
}.

Inductive event : Set :=
  | EvRun (c : Cmd)
  | EvSend (req : CompileRequest)
  | EvOpen (path : string)
  | EvWrite (path data : string)
  | EvRemove (path : string).

(** ** Helpers: [pkg/util] and [pkg/run/errors.go] *)

Definition IsCompilerError (err : error) : bool :=
  match err with
  | CompilerError _ => true
  | _ => false
  end.

(** [Error()] of an error value. *)
Definition ErrNoAgentsRetry : error :=
  PlainError "No agents available to handle the request; retrying".
Definition ErrNoAgentsRunLocal : error :=
  PlainError "No agents available to handle the request; running locally".

Definition AnalyzeErrors (msg : string) : option error :=
  if contains msg "collect2" || contains msg "undefined reference"
  then Some (PlainError "*** BUG! Linker invoked on remote agent ***")
  else None.

(** [init] of [pkg/util/fs.go]: the second assignment is unconditional. *)
Definition PreferredTempDirectory (h : Host) : string :=
  let dir := match stat h "/dev/shm" with None => "/dev/shm" | Some _ => "" end in
  let dir := "/tmp" in
  dir.

Definition TopLevelTempDir (h : Host) : error + string :=
  let dir := path_join [PreferredTempDirectory h; "kubecc-build"] in
  match stat h dir with
  | None => inr dir
  | Some _ =>
      match mkdirAll h dir with
      | Some err => inl (PlainError err)
      | None => inr dir
      end
  end.

(** ** Tasks *)

(** The options of [run.TaskOptions] a compile uses. *)
Record TaskOptions := mkTaskOptions {
  opt_Env : list string;
  opt_WorkDir : string;
  opt_Stdin : string;
  opt_OutputWriter : bool;
  opt_NoTempFile : bool;
}.

(** What a task leaves behind: the argument parser it mutated, what it wrote to the
    output writer and the output streams, the commands it ran and its error. *)
Record TaskResult := mkTaskResult {
  t_ap : ArgParser;
  t_output : string;
  t_stdout : string;
  t_stderr : string;
  t_events : list event;
  t_err : option error;
}.

Definition exe (tc : option Toolchain) : go string :=
  match tc with
  | Some tc => Ret (Executable tc)
  | None => Panic "nil pointer dereference"
  end.

(** The extension of the temporary output file. *)
Definition temp_ext (out : string) : string :=
  if bool_decide (ext out = "") && bool_decide (out = "-") then ".o" else ext out.

(** The part of [compileTask.Run] before the command: replacing the output path by a
    temporary file.  [inl] is a task error. *)
Definition compile_output (h : Host) (o : TaskOptions) (ap : ArgParser) :
    go (error + (ArgParser * string)) :=
  if bool_decide (OutputArgIndex ap ≠ -1) && negb (opt_NoTempFile o) then
    out ← slice_get (Args ap) (OutputArgIndex ap);
    match TopLevelTempDir h with
    | inl err => Ret (inl err)
    | inr topLevelDir =>
        match createTemp h topLevelDir ("kubecc_*" +:+ temp_ext out) with
        | inl err => Ret (inl (PlainError err))
        | inr tmp =>
            '(ap, err) ← ReplaceOutputPath tmp ap;
            match err with
            | Some err => Ret (inl err)
            | None => Ret (inr (ap, tmp))
            end
        end
    end
  else Ret (inr (ap, "")).

Definition compileTask_Run (h : Host) (tc : option Toolchain) (o : TaskOptions) (ap : ArgParser) :
    go TaskResult :=
  _ ← exe tc;
  prep ← compile_output h o ap;
  match prep with
  | inl err => Ret (mkTaskResult ap "" "" "" [] (Some err))
  | inr (ap, tmpFileName) =>
      path ← exe tc;
      let cmd := mkCmd path (Args ap) (opt_Env o) (opt_WorkDir o) (opt_Stdin o) in
      match exec h cmd with
      | StartFailed err => Ret (mkTaskResult ap "" "" "" [EvRun cmd] (Some (PlainError err)))
      | Exited out err (Some _) =>
          Ret (mkTaskResult ap "" out err [EvRun cmd] (Some (CompilerError err)))
      | Exited out err None =>
          let written := if opt_OutputWriter o && negb (opt_NoTempFile o)
                         then tmpFileName else "" in
          Ret (mkTaskResult ap written out err [EvRun cmd] None)
      end
  end.

(** [preprocessTask.Run]; the deferred call restores the output path on every exit. *)
Definition preprocessTask_Run (h : Host) (tc : option Toolchain) (o : TaskOptions)
    (ap : ArgParser) : go TaskResult :=
  '(ap, restore) ←
    (if bool_decide (OutputArgIndex ap ≠ -1) then
       old ← slice_get (Args ap) (OutputArgIndex ap);
       '(ap, _) ← ReplaceOutputPath "-" ap;
       Ret (ap, Some old)
     else Ret (ap, None));
  path ← exe tc;
  let cmd := mkCmd path (Args ap) (opt_Env o) (opt_WorkDir o) "" in
  let '(out, err, res) :=
    match exec h cmd with
    | StartFailed err => ("", "", Some (PlainError err))
    | Exited out err (Some _) => (out, err, Some (CompilerError err))
    | Exited out err None => (out, err, None)
    end in
  ap ← match restore with
       | Some old => '(ap, _) ← ReplaceOutputPath old ap; Ret ap
       | None => Ret ap
       end;
  Ret (mkTaskResult ap out "" err [EvRun cmd] res).

(** ** Request managers *)

(** [localRunnerManager.Process]. *)
Definition local_Process (h : Host) (ap : ArgParser) (req : RunRequest) :
    go (list event * (error + RunResponse)) :=
  r ← compileTask_Run h (RunRequest_GetToolchain req)
        (mkTaskOptions (Env req) (WorkDir req) (Stdin req) false true) ap;
  Ret (t_events r,
    match t_err r with
    | None => inr (mkRunResponse 0 (t_stdout r) (t_stderr r))
    | Some err =>
        if IsCompilerError err then inr (mkRunResponse 1 (t_stdout r) (t_stderr r))
        else inl err
    end).

(** [runPreprocessor]: the preprocessed source, or the response to return. *)
Definition runPreprocessor (h : Host) (ap : ArgParser) (req : RunRequest) :
    go (ArgParser * list event * (RunResponse + string)) :=
  r ← preprocessTask_Run h (RunRequest_GetToolchain req)
        (mkTaskOptions (Env req) (WorkDir req) "" true false) ap;
  Ret (t_ap r, t_events r,
    match t_err r with
    | Some _ => inl (mkRunResponse 1 (t_stdout r) (t_stderr r))
    | None => inr (t_output r)
    end).

(** What [Process] does with the response of the remote compile. *)
Definition remote_response (h : Host) (outputPath : string) (resp : CompileResponse) :
    list event * (error + RunResponse) :=
  match RespResult resp with
  | CompileResponse_Success =>
      match openFile h outputPath with
      | Some err => ([], inl (PlainError err))
      | None =>
          match copy_to h outputPath (GetCompiledSource resp) with
          | Some err => ([EvOpen outputPath], inl (PlainError err))
          | None => ([EvOpen outputPath; EvWrite outputPath (GetCompiledSource resp)],
                     inr (mkRunResponse 0 "" (GetError resp)))
          end
      end
  | CompileResponse_Fail =>
      match AnalyzeErrors (GetError resp) with
      | Some _ => ([], inl (StatusError Internal "Internal error"))
      | None => ([], inr (mkRunResponse 1 "" (GetError resp)))
      end
  | CompileResponse_Retry =>
      match GetRetryAction resp with
      | Retry => ([], inl ErrNoAgentsRetry)
      | DoNotRetry => ([], inl ErrNoAgentsRunLocal)
      | _ => ([], inl (StatusError Internal "Bad response from server"))
      end
  | _ => ([], inl (StatusError Internal "Bad response from server"))
  end.

(** The argument list sent to the agent, from the parser after preprocessing. *)
Definition remote_args (tc : option Toolchain) (ap : ArgParser) : go ArgParser :=
  ap ← RemoveLocalArgs ap;
  match tc with
  | Some tc => PrependExplicitPICArgs tc ap
  | None => Panic "nil pointer dereference"
  end.

(** The second half of [sendRemoteRunnerManager.Process]: the remote compile of the
    preprocessed [source]; [ev] is what happened before and [id] the fresh request id. *)
Definition send_compile (h : Host) (id : string) (ap : ArgParser) (req : RunRequest)
    (ev : list event) (source : string) : go (list event * (error + RunResponse)) :=
  if bool_decide (0 ≤ OutputArgIndex ap) &&
     bool_decide (OutputArgIndex ap < Z.of_nat (length (Args ap))) then
    outputPath ← slice_get (Args ap) (OutputArgIndex ap);
    let outputPath := if is_abs outputPath then outputPath
                      else path_join [WorkDir req; outputPath] in
    ap ← remote_args (RunRequest_GetToolchain req) ap;
    let creq := mkCompileRequest id (RunRequest_GetToolchain req) (Args ap) source None in
    match remoteCompile h creq with
    | inl err => Ret (ev ++ [EvSend creq], inl err)
    | inr resp =>
        let '(ev', res) := remote_response h outputPath resp in
        Ret (ev ++ [EvSend creq] ++ ev', res)
    end
  else Ret (ev, inl (StatusError InvalidArgument "No output path given")).

(** [sendRemoteRunnerManager.Process]. *)
Definition send_Process (h : Host) (id : string) (ap : ArgParser) (req : RunRequest) :
    go (list event * (error + RunResponse)) :=
  ap ← ConfigurePreprocessorOptions ap;
  let opt := ActionOpt_of ap in
  '(ap, _) ← SetActionOpt Preprocess ap;
  '(ap, ev, pre) ← runPreprocessor h ap req;
  match pre with
  | inl resp => Ret (ev, inr resp)
  | inr source =>
      '(ap, _) ← SetActionOpt opt ap;
      send_compile h id ap req ev source
  end.

(** The temporary input file of [recvRemoteRunnerManager.Process]. *)
Definition recv_input (h : Host) (inputFilename source : string) : error + string :=
  match TopLevelTempDir h with
  | inl err => inl err
  | inr topLevelDir =>
      match mkdirTemp h topLevelDir "*" with
      | inl err => inl (PlainError err)
      | inr tmpDir =>
          let tmp := path_join [tmpDir; base inputFilename] in
          match create h tmp with
          | Some err => inl (StatusError Internal err)
          | None =>
              match copy_to h tmp source with
              | Some err => inl (StatusError Internal err)
              | None => inr tmp
              end
          end
      end
  end.

(** [recvRemoteRunnerManager.Process]. *)
Definition recv_Process (h : Host) (req : CompileRequest) :
    go (list event * (error + CompileResponse)) :=
  ap ← Parse (NewArgParser (ReqArgs req));
  inputFilename ← slice_get (Args ap) (InputArgIndex ap);
  match recv_input h inputFilename (PreprocessedSource req) with
  | inl err => Ret ([], inl err)
  | inr tmp =>
      '(ap, err) ← ReplaceInputPath tmp ap;
      match err with
      | Some err => Ret ([EvRemove (dir tmp)], inl (StatusError Internal (error_text err)))
      | None =>
          r ← compileTask_Run h (ReqToolchain req) (mkTaskOptions [] "" "" true false) ap;
          let done := EvRemove (dir tmp) in
          match t_err r with
          | Some err =>
              if IsCompilerError err
              then Ret (t_events r ++ [done],
                        inr (mkCompileResponse (RequestID req) CompileResponse_Fail
                               (DataError (t_stderr r))))
              else Ret (t_events r ++ [done], inl (StatusError Internal (error_text err)))
          | None =>
              match readFile h (t_output r) with
              | inl err => Ret (t_events r ++ [done], inl (StatusError Internal err))
              | inr data =>
                  let ev := t_events r ++ [EvRemove (t_output r); done] in
                  if bool_decide (data = "")
                  then Ret (ev, inl (StatusError Internal "Compiled object is empty"))
                  else Ret (ev, inr (mkCompileResponse (RequestID req) CompileResponse_Success
                                       (DataCompiledSource data)))
              end
          end
      end
  end.

(** ** Properties *)

(** Replacing the output path and putting the old one back changes nothing. *)
Lemma ReplaceOutputPath_swap ap s :
  output_ok (Args ap) (OutputArgIndex ap) → OutputArgIndex ap ≠ -1 →
  ∃ old, slice_get (Args ap) (OutputArgIndex ap) = Ret old ∧
    ReplaceOutputPath s ap = Ret (set_Args (<[Z.to_nat (OutputArgIndex ap) := s]> (Args ap)) ap, None) ∧
    ReplaceOutputPath old (set_Args (<[Z.to_nat (OutputArgIndex ap) := s]> (Args ap)) ap) =
      Ret (ap, None).
Proof.
  intros [?|(Hi & _ & [old Hold])] Hne; [done|]. exists old.
  pose proof (lookup_lt_Some _ _ _ Hold).
  unfold ReplaceOutputPath, slice_get, slice_set. cbn.
  rewrite length_insert, !(bool_decide_true (_ ≠ _)), !bool_decide_true, Hold by (done || lia). cbn.
  split_and!; [done..|]. rewrite list_insert_insert_eq, list_insert_id by done. by destruct ap.
Qed.

(** The command line the preprocessor is run with. *)
Definition preprocess_args (ap : ArgParser) : list string :=
  if decide (OutputArgIndex ap = -1) then Args ap
  else <[Z.to_nat (OutputArgIndex ap) := "-"]> (Args ap).

Definition preprocess_result (o : ExecOutcome) : string + string :=
  match o with
  | StartFailed _ => inl ""
  | Exited _ err (Some _) => inl err
  | Exited out _ None => inr out
  end.

Lemma runPreprocessor_spec h ap req tc :
  output_ok (Args ap) (OutputArgIndex ap) → RunRequest_GetToolchain req = Some tc →
  let cmd := mkCmd (Executable tc) (preprocess_args ap) (Env req) (WorkDir req) "" in
  runPreprocessor h ap req =
    Ret (ap, [EvRun cmd],
         match preprocess_result (exec h cmd) with
         | inl err => inl (mkRunResponse 1 "" err)
         | inr out => inr out
         end).
Proof.
  intros Hok Htc. unfold runPreprocessor, preprocessTask_Run, preprocess_args. rewrite Htc.
  destruct (decide (OutputArgIndex ap = -1)) as [E|E].
  - rewrite bool_decide_false by tauto. cbn. by destruct (exec h _) as [|? ? []].
  - rewrite bool_decide_true by done.
    destruct (ReplaceOutputPath_swap ap "-" Hok E) as (old & -> & -> & Hback). cbn in *.
    by destruct (exec h _) as [|? ? []]; cbn; rewrite Hback.
Qed.

Lemma output_ok_switch ap i o opt :
  output_ok (Args ap) (OutputArgIndex ap) → Args ap !! i = Some (ActionOpt_String opt) →
  output_ok (<[i := ActionOpt_String o]> (Args ap)) (OutputArgIndex ap).
Proof.
  intros [?|(Hi & Ho & [v Hv])] Ha; [by left|right]. split; [done|]. split.
  - rewrite list_lookup_insert_ne; [done|]. intros ->. rewrite Ha in Ho. by destruct opt.
  - apply lookup_lt_is_Some. rewrite length_insert. by eapply lookup_lt_Some.
Qed.

(** C2: For a request whose parsed arguments have one action flag (at index [i]), the
    sender runs the compiler exactly once, with that flag replaced by [-E] and the output
    replaced by [-]; when that fails its stderr is returned with code 1, and when it
    succeeds the remote half runs on the unchanged argument parser with the compiler's
    standard output as source. *)
Theorem send_Process_refines (h : Host) (id : string) (ap ap1 : ArgParser) (req : RunRequest)
    (tc : Toolchain) (opt : ActionOpt) (i : nat)
    (HC : ConfigurePreprocessorOptions ap = Ret ap1)
    (Hopt : only_action ap1 opt i)
    (Htc : RunRequest_GetToolchain req = Some tc) :
  let args := <[i := "-E"]> (Args ap1) in
  let cmd := mkCmd (Executable tc) (preprocess_args (set_Args args ap1))
               (Env req) (WorkDir req) "" in
  send_Process h id ap req =
    match preprocess_result (exec h cmd) with
    | inl err => Ret ([EvRun cmd], inr (mkRunResponse 1 "" err))
    | inr source => send_compile h id ap1 req [EvRun cmd] source
    end.
Proof.
  intros args cmd. unfold send_Process. rewrite HC, go_bind_ret. subst cmd args.
  apply go_bind_Ret_inv in HC as (args & _ & HP%Parse_wf).
  destruct (SetActionOpt_switch_back ap1 opt i Preprocess HP Hopt) as
    (ap2 & HS & _ & HA & HO & Hback); [done|].
  pose proof (only_action_of _ _ _ Hopt) as ->. rewrite HS. cbn.
  rewrite (runPreprocessor_spec h ap2 req tc); [|rewrite HA, HO|done].
  - assert (preprocess_args ap2 = preprocess_args (set_Args (<[i:="-E"]> (Args ap1)) ap1)) as ->.
    { unfold preprocess_args. by rewrite HA, HO. }
    cbn. destruct (preprocess_result _); cbn; [done|]. by rewrite Hback.
  - destruct Hopt as (Hne & Hi & _). apply (output_ok_switch _ _ Preprocess opt).
    + apply wf_output, HP.
    + by eapply action_at.
Qed.

(** A host whose compiler prints a fixed text and whose agents return an object. *)
Definition ok_host : Host :=
  mkHost (λ _, Exited "int x;" "" None) (λ _, None) (λ _, None)
    (λ d _, inr (d +:+ "/1")) (λ d _, inr (d +:+ "/kubecc_1.o")) (λ _, None) (λ _ _, None)
    (λ path, if bool_decide (path = "") then inl "open : no such file or directory" else inr "OBJ") (λ _, None)
    (λ r, inr (mkCompileResponse (RequestID r) CompileResponse_Success (DataCompiledSource "OBJ"))).

Definition gcc : Toolchain := mkToolchain Gnu C "/usr/bin/gcc" "x86_64" "10" true false.

Definition test_request (args : list string) : RunRequest :=
  mkRunRequest (RunRequest_Toolchain (Some gcc)) args 0 0 "/work" [] "".

Lemma send_Process_refines_witness :
  send_Process ok_host "id" (NewArgParser test_args) (test_request test_args) =
  send_compile ok_host "id"
    (mkArgParser test_args RunRemote 9 7 {["-MD" := 3%nat; "-o" := 6%nat; "-c" := 8%nat]})
    (test_request test_args)
    [EvRun (mkCmd "/usr/bin/gcc"
       ["-Werror"; "-g"; "-O2"; "-MD"; "-W"; "-Wall"; "-o"; "-"; "-E"; "src/test.c"] [] "/work" "")]
    "int x;".
Proof.
  assert (only_action (mkArgParser test_args RunRemote 9 7
    {["-MD" := 3%nat; "-o" := 6%nat; "-c" := 8%nat]}) Compile 8) as Hopt.
  { split_and!; [done | reflexivity |]. by intros []. }
  pose proof (send_Process_refines ok_host "id" (NewArgParser test_args) _
    (test_request test_args) gcc Compile 8 ltac:(vm_compute; reflexivity) Hopt eq_refl) as H.
  rewrite H. vm_compute. reflexivity.
Defined.

(** ** What is sent and what is written *)

#[export] Instance Cmd_eq_dec : EqDecision Cmd.
Proof. solve_decision. Defined.
#[export] Instance event_eq_dec : EqDecision event.
Proof. solve_decision. Defined.

Lemma remote_args_not_local tc ap ap' :
  remote_args tc ap = Ret ap' → Forall (λ a, is_local a = false) (Args ap').
Proof.
  unfold remote_args. intros H. inv_ret. destruct tc as [tc|]; [|done].
  match goal with H : RemoveLocalArgs _ = _ |- _ =>
    apply Parse_not_local in H; [|apply remove_local_clean] end.
  unfold PrependExplicitPICArgs in *.
  eapply Parse_not_local; [|done]. cbn. by repeat case_match; repeat constructor.
Qed.

Lemma runPreprocessor_events h ap req ap' ev pre :
  runPreprocessor h ap req = Ret (ap', ev, pre) →
  ∃ c, ev = [EvRun c] ∧ exe (RunRequest_GetToolchain req) = Ret (Path c) ∧
    ∀ source, pre = inr source → ∃ err, exec h c = Exited source err None.
Proof.
  unfold runPreprocessor, preprocessTask_Run. intros (r & Hr & [= <- <- <-])%go_bind_Ret_inv.
  apply go_bind_Ret_inv in Hr as ([ap1 restore] & _ & Hr).
  apply go_bind_Ret_inv in Hr as (path & Hpath & Hr). set (c := mkCmd _ _ _ _ _) in Hr.
  exists c. assert (Path c = path) as -> by done.
  destruct (exec h c) as [e|out e [x|]] eqn:E; apply go_bind_Ret_inv in Hr as (ap2 & _ & [= <-]); cbn;
    (split; [done|]); (split; [done|]); intros source [=]; subst; eauto.
Qed.

(** The remote half: one request, then what its response calls for. *)
Lemma send_compile_inv h id ap req ev source ev' res :
  send_compile h id ap req ev source = Ret (ev', res) →
  (ev' = ev ∧ res = inl (StatusError InvalidArgument "No output path given")) ∨
  ∃ creq out, RequestID creq = id ∧ PreprocessedSource creq = source ∧
    ReqToolchain creq = RunRequest_GetToolchain req ∧
    Forall (λ a, is_local a = false) (ReqArgs creq) ∧
    match remoteCompile h creq with
    | inl err => ev' = ev ++ [EvSend creq] ∧ res = inl err
    | inr resp => ev' = ev ++ EvSend creq :: (remote_response h out resp).1 ∧
                  res = (remote_response h out resp).2
    end.
Proof.
  unfold send_compile. case_match; [|by intros [= <- <-]; left]. clear H. intros H. right.
  apply go_bind_Ret_inv in H as (out & _ & H).
  apply go_bind_Ret_inv in H as (ap' & Ha%remote_args_not_local & H).
  eexists (mkCompileRequest id _ (Args ap') source None), _.
  split_and!; [done..|]. cbn. destruct (remoteCompile _ _); [by simplify_eq|].
  destruct (remote_response _ _ _) eqn:E. simplify_eq. by rewrite E.
Qed.

(** A run: the preprocessor, then possibly the remote half. *)
Lemma send_Process_inv h id ap req ev res :
  send_Process h id ap req = Ret (ev, res) →
  ∃ c, exe (RunRequest_GetToolchain req) = Ret (Path c) ∧
    ((ev = [EvRun c] ∧ ∃ r, res = inr r ∧ ReturnCode r = 1) ∨
     ∃ ap' source err, exec h c = Exited source err None ∧
       send_compile h id ap' req [EvRun c] source = Ret (ev, res)).
Proof.
  unfold send_Process. intros H. apply go_bind_Ret_inv in H as (ap1 & _ & H).
  apply go_bind_Ret_inv in H as ([ap2 err2] & _ & H).
  apply go_bind_Ret_inv in H as ([[ap3 ev3] pre] & Hp & H).
  pose proof (runPreprocessor_events _ _ _ _ _ _ Hp) as (c & -> & Hc & Hs). exists c. split; [done|].
  destruct pre as [r|source]; simplify_eq.
  - left. split; [done|]. exists r. split; [done|].
    unfold runPreprocessor in Hp. inv_ret. repeat case_match; by simplify_eq/=.
  - right. destruct (Hs source eq_refl) as [err Hx]. apply go_bind_Ret_inv in H as ([ap4 err4] & _ & H). eauto.
Qed.

(** A request handed to the scheduler by the sender carries the caller's toolchain
    and the given id, and none of its arguments is a preprocessor, linker or dependency
    option of the local machine. *)
Theorem send_Process_request (h : Host) (id : string) (ap : ArgParser) (req : RunRequest)
    (ev : list event) (res : error + RunResponse) (creq : CompileRequest)
    (HP : send_Process h id ap req = Ret (ev, res)) (Hin : EvSend creq ∈ ev) :
  RequestID creq = id ∧ ReqToolchain creq = RunRequest_GetToolchain req ∧
  Forall (λ a, is_local a = false) (ReqArgs creq).
Proof.
  apply send_Process_inv in HP as (c & _ & [[-> _]|(ap' & src & err0 & _ & H)]); [set_solver|].
  apply send_compile_inv in H as [[-> _]|(creq' & out & H1 & _ & H2 & H3 & H)]; [set_solver|].
  enough (creq = creq') as -> by auto.
  destruct (remoteCompile h creq') as [err|resp]; destruct H as [-> _]; [set_solver|].
  unfold remote_response in Hin. repeat case_match; set_solver.
Qed.

(** The sender reports success exactly when it has written the object returned by
    the agent to the output file, and it writes nothing else. *)
Theorem send_Process_success (h : Host) (id : string) (ap : ArgParser) (req : RunRequest)
    (ev : list event) (res : error + RunResponse)
    (HP : send_Process h id ap req = Ret (ev, res)) :
  (∃ r, res = inr r ∧ ReturnCode r = 0) ↔
  ∃ path data creq resp, EvWrite path data ∈ ev ∧ EvSend creq ∈ ev ∧
    remoteCompile h creq = inr resp ∧ RespResult resp = CompileResponse_Success ∧
    data = GetCompiledSource resp ∧ (∀ p d, EvWrite p d ∈ ev → p = path ∧ d = data).
Proof.
  apply send_Process_inv in HP as (c & _ & [[-> (r & -> & Hr)]|(ap' & src & err0 & _ & H)]).
  { split; [intros (? & [= <-] & ?); congruence|set_solver]. }
  apply send_compile_inv in H as [[-> ->]|(creq & out & _ & _ & _ & _ & H)].
  { split; [naive_solver|set_solver]. }
  destruct (remoteCompile h creq) as [err|resp] eqn:E; destruct H as [-> ->].
  { split; [naive_solver|set_solver]. }
  unfold remote_response. repeat case_match; cbn; (split; [|try set_solver]);
    intros (? & [=] & Hc); subst; try discriminate Hc.
  eexists out, (GetCompiledSource resp), creq, resp. split_and!; [..|done|done|done|]; set_solver.
Qed.

Definition test_run : list event * (error + RunResponse) :=
  match send_Process ok_host "id" (NewArgParser test_args) (test_request test_args) with
  | Ret r => r
  | Panic _ => ([], inl (PlainError ""))
  end.

Definition test_creq : CompileRequest :=
  mkCompileRequest "id" (Some gcc)
    ["-fPIC"; "-Werror"; "-g"; "-O2"; "-W"; "-Wall"; "-o"; "src/test.o"; "-c"; "src/test.c"]
    "int x;" None.

Lemma send_Process_request_witness :
  Forall (λ a, is_local a = false) (ReqArgs test_creq).
Proof.
  apply (send_Process_request ok_host "id" (NewArgParser test_args) (test_request test_args)
    test_run.1 test_run.2 test_creq).
  - vm_compute. reflexivity.
  - apply (bool_decide_unpack _). vm_compute. exact I.
Defined.

Lemma send_Process_success_witness :
  ∃ path data creq resp, EvWrite path data ∈ test_run.1 ∧ EvSend creq ∈ test_run.1 ∧
    remoteCompile ok_host creq = inr resp ∧ RespResult resp = CompileResponse_Success ∧
    data = GetCompiledSource resp ∧ (∀ p d, EvWrite p d ∈ test_run.1 → p = path ∧ d = data).
Proof.
  apply (send_Process_success ok_host "id" (NewArgParser test_args) (test_request test_args)
    test_run.1 test_run.2).
  - vm_compute. reflexivity.
  - eexists. vm_compute. split; reflexivity.
Defined.

(** ** The receiving side *)

Lemma slice_set_lookup xs i v xs' :
  slice_set xs i v = Ret xs' → xs' !! Z.to_nat i = Some v ∧ 0 ≤ i < Z.of_nat (length xs).
Proof.
  unfold slice_set. case_match; [|done]. intros [= <-]. simp_decide.
  split; [apply list_lookup_insert_eq; lia|done].
Qed.

Lemma ReplaceInputPath_at tmp ap ap' :
  ReplaceInputPath tmp ap = Ret (ap', None) →
  Args ap' !! Z.to_nat (InputArgIndex ap) = Some tmp ∧
  InputArgIndex ap' = InputArgIndex ap ∧ OutputArgIndex ap' = OutputArgIndex ap.
Proof.
  unfold ReplaceInputPath. case_match; [|done]. intros (old & Hold & Hk)%go_bind_Ret_inv.
  revert Hk. case_match.
  - intros [= <-]. unfold slice_get in Hold. repeat case_match; simplify_eq; simp_decide. done.
  - intros (args & [Ha _]%slice_set_lookup & H')%go_bind_Ret_inv. revert H'.
    case_match; [done|]. intros [= <-]. cbn. split; [|done]. by apply lookup_app_l_Some.
Qed.

Lemma compile_output_frame h o ap ap' tmp :
  compile_output h o ap = Ret (inr (ap', tmp)) →
  length (Args ap') = length (Args ap) ∧
  ∀ j, Z.of_nat j ≠ OutputArgIndex ap → Args ap' !! j = Args ap !! j.
Proof.
  unfold compile_output. case_match; [|by intros [= <- _]].
  intros (out & _ & Hk)%go_bind_Ret_inv. repeat case_match; try done.
  apply go_bind_Ret_inv in Hk as ([ap2 err] & Hr & Hk). destruct err; [done|].
  injection Hk as -> ->. unfold ReplaceOutputPath in Hr. case_match; [|done].
  apply go_bind_Ret_inv in Hr as (args & Hs & [= <-]). unfold slice_set in Hs.
  case_match; [|done]. injection Hs as <-. cbn. rewrite length_insert. split; [done|].
  intros j Hj. apply list_lookup_insert_ne. simp_decide. lia.
Qed.

Lemma compile_output_err h o ap e :
  compile_output h o ap = Ret (inl e) → IsCompilerError e = false.
Proof.
  unfold compile_output, TopLevelTempDir. case_match; [|done].
  intros (out & _ & Hk)%go_bind_Ret_inv. repeat case_match; simplify_eq; try done.
  all: apply go_bind_Ret_inv in Hk as ([ap2 err] & Hr & Hk); destruct err; simplify_eq.
  all: unfold ReplaceOutputPath in Hr; case_match; [inv_ret|]; by simplify_eq.
Qed.

(** The output of a task is the file after [-o] in its command, or the empty name. *)
Lemma compile_output_at h o ap ap' out :
  output_ok (Args ap) (OutputArgIndex ap) → compile_output h o ap = Ret (inr (ap', out)) →
  out = "" ∨ ∃ k, OutputArgIndex ap = Z.of_nat (S k) ∧ Args ap' !! k = Some "-o" ∧ Args ap' !! S k = Some out.
Proof.
  intros HO H. pose proof (compile_output_frame _ _ _ _ _ H) as [_ Hfr]. unfold compile_output in H.
  destruct (bool_decide_reflect (OutputArgIndex ap ≠ -1)) as [Hne|];
    [|by injection H as _ <-; left]. destruct (negb (opt_NoTempFile o)); [|by injection H as _ <-; left].
  destruct HO as [?|(Hi & Ho & Hsome)]; [done|]. cbn in H. apply go_bind_Ret_inv in H as (x & _ & H).
  destruct (TopLevelTempDir h); [done|]. destruct (createTemp h _ _) as [|tmp]; [done|].
  apply go_bind_Ret_inv in H as ([ap2 [e|]] & Hr & H); [done|]. injection H as -> ->. right.
  unfold ReplaceOutputPath in Hr. rewrite bool_decide_true in Hr by done.
  apply go_bind_Ret_inv in Hr as (args & [Hat _]%slice_set_lookup & [= <-]). cbn [set_Args Args] in *.
  exists (Z.to_nat (OutputArgIndex ap - 1)). rewrite Hfr, Ho by lia.
  replace (S (Z.to_nat (OutputArgIndex ap - 1))) with (Z.to_nat (OutputArgIndex ap)) by lia.
  split_and!; [lia|done|done].
Qed.

(** Replacing the input leaves the output where it was. *)
Lemma ReplaceInputPath_output tmp ap ap' :
  wf ap → ReplaceInputPath tmp ap = Ret (ap', None) → output_ok (Args ap') (OutputArgIndex ap').
Proof.
  intros Hwf. unfold ReplaceInputPath. destruct (bool_decide_reflect (InputArgIndex ap ≠ -1)); [|done].
  intros (old & _ & Hk)%go_bind_Ret_inv.
  pose proof (wf_output _ Hwf) as HO. pose proof (wf_input _ Hwf) as HIn.
  destruct (bool_decide (old = tmp)); [by injection Hk as <-|]. apply go_bind_Ret_inv in Hk as (args & Hs & Hk).
  destruct (bool_decide (tmp = "-")); [done|]. injection Hk as <-. cbn. destruct HO as [?|(Hi & Ho & [v Hv])]; [by left|right].
  destruct HIn as [?|(Hp & x & Hx & Hsrc)]; [done|]. unfold slice_set in Hs. case_match; [|done]. injection Hs as <-.
  split; [done|]. split.
  - apply lookup_app_l_Some. rewrite list_lookup_insert_ne; [done|]. intros E. rewrite E, Ho in Hx. injection Hx as <-.
    by destruct Hsrc as [Hsrc|Hsrc]; [vm_compute in Hsrc|].
  - apply lookup_lt_is_Some. rewrite length_app, length_insert. apply lookup_lt_Some in Hv. cbn. lia.
Qed.

(** The command compiled the source: it was given a file that holds it, and the output
    file after [-o]. *)
Definition compiled (h : Host) (source inp : string) (cmd : Cmd) (out : string) : Prop :=
  ∃ i k, CmdArgs cmd !! i = Some inp ∧ copy_to h inp source = None ∧ i ≠ S k ∧
    CmdArgs cmd !! k = Some "-o" ∧ CmdArgs cmd !! S k = Some out.

Lemma recv_input_copied h name source tmp : recv_input h name source = inr tmp → copy_to h tmp source = None.
Proof. unfold recv_input. intros. repeat case_match; by simplify_eq. Qed.

(** What [recv_Process] did when it returned a response: one run of the compiler of the
    requested toolchain, on a file with the received source; a failure carries the
    compiler's stderr, a success what the compiler left in the output file (a file with an
    empty name cannot be read). *)
Theorem recv_Process_sound (h : Host) (req : CompileRequest) (tc : Toolchain) (ev : list event)
    (resp : CompileResponse) (HN : ∃ e, readFile h "" = inl e) (HT : ReqToolchain req = Some tc)
    (HP : recv_Process h req = Ret (ev, inr resp)) :
  RespRequestID resp = RequestID req ∧
  ∃ cmd inp, Path cmd = Executable tc ∧
    match exec h cmd with
    | StartFailed _ => False
    | Exited _ err (Some _) => ev = [EvRun cmd; EvRemove (dir inp)] ∧
        RespResult resp = CompileResponse_Fail ∧ RespData resp = DataError err
    | Exited _ _ None => ∃ out data, ev = [EvRun cmd; EvRemove out; EvRemove (dir inp)] ∧
        compiled h (PreprocessedSource req) inp cmd out ∧ readFile h out = inr data ∧ data ≠ "" ∧
        RespResult resp = CompileResponse_Success ∧ RespData resp = DataCompiledSource data
    end.
Proof.
  unfold recv_Process in HP. apply go_bind_Ret_inv in HP as (ap & HA & HP).
  pose proof (Parse_wf _ _ HA) as Hwf. pose proof (Parse_apart _ _ HA) as Hio.
  apply go_bind_Ret_inv in HP as (name & _ & HP).
  destruct (recv_input h name (PreprocessedSource req)) as [|tmp] eqn:Et; [done|].
  apply go_bind_Ret_inv in HP as ([ap1 err] & Hr & HP). destruct err; [done|].
  assert (InputArgIndex ap ≠ -1) as Hne.
  { intros E. unfold ReplaceInputPath in Hr. by rewrite E in Hr. }
  pose proof (ReplaceInputPath_output _ _ _ Hwf Hr) as HO1.
  apply ReplaceInputPath_at in Hr as (Hin1 & Hi1 & Ho1). rewrite HT in HP.
  apply go_bind_Ret_inv in HP as (r & Hrun & HP). unfold compileTask_Run in Hrun. cbn [exe] in Hrun.
  rewrite go_bind_ret in Hrun. apply go_bind_Ret_inv in Hrun as (prep & Hprep & Hrun).
  assert (∀ e, prep = inl e → IsCompilerError e = false) as Hce.
  { intros e ->. by eapply compile_output_err. }
  destruct prep as [err|[ap2 out]].
  { injection Hrun as <-. cbn in HP. by rewrite (Hce err) in HP. }
  pose proof (compile_output_frame _ _ _ _ _ Hprep) as [_ Hfr].
  apply compile_output_at in Hprep; [|done]. rewrite go_bind_ret in Hrun.
  set (cmd := mkCmd _ _ _ _ _) in Hrun.
  assert (CmdArgs cmd !! Z.to_nat (InputArgIndex ap) = Some tmp) as Hc.
  { cbn. rewrite Hfr; [done|]. rewrite Ho1. specialize (Hio Hne). pose proof (wf_input _ Hwf) as [?|[? _]]; [done|]. lia. }
  assert (∀ k, Args ap2 !! k = CmdArgs cmd !! k) as Hargs by done.
  assert (Path cmd = Executable tc) as Hpath by done. clearbody cmd.
  destruct (exec h cmd) as [e|o e [x|]] eqn:Ex; simplify_eq/=.
  - split; [done|]. exists cmd, tmp. by rewrite Ex.
  - destruct (readFile h out) as [|data] eqn:Er; [done|]. case_match; [done|]. simplify_eq/=. simp_decide.
    split; [done|]. exists cmd, tmp. rewrite Ex. split; [done|]. exists out, data. split_and!; try done.
    destruct Hprep as [->|(k & Hk & Ho & Hout)]; [destruct HN; congruence|]. rewrite !Hargs in *.
    exists (Z.to_nat (InputArgIndex ap)), k. split_and!; [done|by eapply recv_input_copied| |done|done].
    specialize (Hio Hne). lia.
Qed.

Lemma ok_host_empty : ∃ e, readFile ok_host "" = inl e.
Proof. by eexists. Qed.

Lemma recv_Process_sound_witness :
  RespRequestID (mkCompileResponse "id" CompileResponse_Success (DataCompiledSource "OBJ")) =
  RequestID test_creq.
Proof.
  refine (proj1 (recv_Process_sound ok_host test_creq gcc _ _ ok_host_empty eq_refl _)).
  vm_compute. reflexivity.
Defined.

(** The receiver indexes the argument list at the input index without a check: a
    request whose arguments hold no source file makes the agent panic. *)
Theorem recv_Process_no_input_panics (h : Host) (req : CompileRequest) (ap : ArgParser)
    (HA : Parse (NewArgParser (ReqArgs req)) = Ret ap) (Hi : InputArgIndex ap = -1) :
  recv_Process h req = Panic "index out of range".
Proof. unfold recv_Process. by rewrite HA, go_bind_ret, Hi. Qed.

Lemma recv_Process_no_input_panics_witness :
  recv_Process ok_host (mkCompileRequest "id" (Some gcc) ["-v"] "" None) =
  Panic "index out of range".
Proof.
  apply (recv_Process_no_input_panics ok_host _ (mkArgParser ["-v"] RunLocal (-1) (-1) ∅)).
  - vm_compute. reflexivity.
  - reflexivity.
Defined.

(** The commands run and the argument lists sent for a command line. *)
Definition trace (args : list string) : list (list string) :=
  match send_Process ok_host "id" (NewArgParser args) (test_request args) with
  | Ret (ev, _) => omap (λ e, match e with
                              | EvRun c => Some (CmdArgs c)
                              | EvSend r => Some (ReqArgs r)
                              | _ => None
                              end) ev
  | Panic _ => []
  end.

(** Two command lines that [Parse] accepts for remote execution and that the sender
    then handles wrongly.  With both [-c] and [-S], switching to [-E] and back leaves the
    [-E] in place, so the agent is asked to preprocess.  A link from source with an
    explicit output ([-shared -o libfoo.so foo.c]) has no action flag to switch, so the
    local "preprocessor" run and the remote compile both link. *)
Theorem send_Process_action_bugs :
  trace ["-c"; "-S"; "-o"; "a.s"; "a.c"] =
    [["-E"; "-S"; "-o"; "-"; "a.c"]; ["-fPIC"; "-E"; "-c"; "-o"; "a.s"; "a.c"]] ∧
  trace ["-shared"; "-o"; "libfoo.so"; "foo.c"] =
    [["-shared"; "-o"; "-"; "foo.c"]; ["-fPIC"; "-shared"; "-o"; "libfoo.so"; "foo.c"]] ∧
  Mode <$> Parse (NewArgParser ["-c"; "-S"; "-o"; "a.s"; "a.c"]) = Ret RunRemote ∧
  Mode <$> Parse (NewArgParser ["-shared"; "-o"; "libfoo.so"; "foo.c"]) = Ret RunRemote.
Proof. vm_compute. split_and!; reflexivity. Qed.
