(* ===== verification/ExpirationHeap.v ===== *)
(** * The expiration heap: [pkg/storage/local.go]

    [ExpirationHeap] is a binary min-heap of entries by expiration date.  The slice is a
    list; dates are nanoseconds ([time.Time.Before] is [<]).  The lock makes each method
    atomic. *)
From S2P Require Import Prelude.
From Stdlib Require Import Sorting.Sorted.

Record ExpirationEntry := mkEntry { Hash : string; Date : Z }.
#[export] Instance ExpirationEntry_eq_dec : EqDecision ExpirationEntry.
Proof. solve_decision. Defined.

Abbreviation heap := (list ExpirationEntry).

Definition NewExpirationHeap : heap := [].

(** [h.heap[a].Date.Before(h.heap[b].Date)]; both indexes are in range where it is used. *)
Definition before (h : heap) (a b : nat) : bool :=
  match h !! a, h !! b with
  | Some x, Some y => bool_decide (Date x < Date y)
  | _, _ => false
  end.

(** [swap m n]; both indexes are in range where it is used. *)
Definition swap (h : heap) (m n : nat) : heap :=
  match h !! m, h !! n with
  | Some x, Some y => <[m := y]> (<[n := x]> h)
  | _, _ => h
  end.

(** The smallest of [i] and its children: [m] after the two tests of [siftDown]. *)
Definition smallest (h : heap) (i : nat) : nat :=
  let l := (2 * i + 1)%nat in
  let r := (2 * i + 2)%nat in
  let m := i in
  let m := if bool_decide (l < length h)%nat && before h l m then l else m in
  if bool_decide (r < length h)%nat && before h r m then r else m.

(** The loop of [siftDown], one unit of fuel per iteration. *)
Fixpoint siftDown_loop (fuel : nat) (h : heap) (i : nat) : heap :=
  match fuel with
  | O => h
  | S fuel =>
      let m := smallest h i in
      if bool_decide (m ≠ i) then siftDown_loop fuel (swap h m i) m else h
  end.

Definition siftDown (h : heap) (i : nat) : heap := siftDown_loop (S (length h)) h i.

(** [for i := len(h.heap) / 2; i >= 0; i-- { h.siftDown(i) }]. *)
Fixpoint heapify_loop (i : nat) (h : heap) : heap :=
  let h := siftDown h i in
  match i with
  | O => h
  | S i => heapify_loop i h
  end.

Definition heapify (h : heap) : heap := heapify_loop (length h / 2) h.

Definition Push (hash : string) (expirationDate : Z) (h : heap) : heap :=
  let h := h ++ [mkEntry hash expirationDate] in
  heapify (swap h (length h - 1) 0).

Definition Peek (h : heap) : string * Z :=
  match h with
  | [] => ("", zero_time)
  | e :: _ => (Hash e, Date e)
  end.

Definition Len (h : heap) : nat := length h.

Definition Pop (h : heap) : option ExpirationEntry * heap :=
  match h, last h with
  | e :: _, Some z => (Some e, heapify (take (length h - 1) (<[0%nat := z]> h)))
  | _, _ => (None, h)
  end.

Example Pop_ex :
  Pop (Push "b" 2 (Push "a" 1 (Push "c" 3 NewExpirationHeap))) =
  (Some (mkEntry "a" 1), [mkEntry "b" 2; mkEntry "c" 3]).
Proof. vm_compute. reflexivity. Qed.

(** ** The heap order *)

(** The date at an index. *)
Definition dt (h : heap) (i : nat) : Z := from_option Date 0 (h !! i).

Definition child (p c : nat) : Prop := c = (2 * p + 1)%nat ∨ c = (2 * p + 2)%nat.

(** Every entry at or after [k] is no later than its children. *)
Definition heap_from (k : nat) (h : heap) : Prop :=
  ∀ p c, (k ≤ p)%nat → child p c → (c < length h)%nat → dt h p ≤ dt h c.

Definition is_heap (h : heap) : Prop := heap_from 0 h.

(** [heap_from k] with a hole at [i]: the entry at [i] may be too late. *)
Definition heap_except (k i : nat) (h : heap) : Prop :=
  (∀ p c, (k ≤ p)%nat → p ≠ i → child p c → (c < length h)%nat → dt h p ≤ dt h c) ∧
  (∀ p c, (k ≤ p)%nat → child p i → child i c → (c < length h)%nat → dt h p ≤ dt h c).

Lemma is_heap_nil : is_heap [].
Proof. by intros ? ? ? ? ?%Nat.nlt_0_r. Qed.

Lemma before_dt h a b :
  (a < length h)%nat → (b < length h)%nat → before h a b = bool_decide (dt h a < dt h b).
Proof.
  intros [x Hx]%lookup_lt_is_Some [y Hy]%lookup_lt_is_Some.
  unfold before, dt. by rewrite Hx, Hy.
Qed.

Lemma smallest_spec h i :
  let m := smallest h i in
  (m = i ∨ child i m ∧ (m < length h)%nat ∧ dt h m < dt h i) ∧
  ∀ c, child i c → (c < length h)%nat → dt h m ≤ dt h c.
Proof.
  unfold smallest, child.
  destruct (bool_decide_reflect (2 * i + 1 < length h)%nat) as [Hl|Hl]; cbn [andb].
  2: { rewrite bool_decide_false by lia. cbn [andb]. split; [by left|]. lia. }
  rewrite (before_dt h (2 * i + 1) i) by lia.
  destruct (bool_decide_reflect (dt h (2 * i + 1) < dt h i)).
  all: destruct (bool_decide_reflect (2 * i + 2 < length h)%nat) as [Hr|Hr]; cbn [andb];
    [rewrite before_dt by lia; case_bool_decide|].
  all: cbv zeta; split; [lia|]; intros c [-> | ->] ?; lia.
Qed.

Lemma length_swap h m n : length (swap h m n) = length h.
Proof. unfold swap. repeat case_match; by rewrite ?length_insert. Qed.

Lemma dt_swap h m n j :
  (m < length h)%nat → (n < length h)%nat →
  dt (swap h m n) j = if decide (j = m) then dt h n else if decide (j = n) then dt h m else dt h j.
Proof.
  intros Hm Hn. pose proof Hm as [x Hx]%lookup_lt_is_Some. pose proof Hn as [y Hy]%lookup_lt_is_Some.
  unfold swap, dt. rewrite Hx, Hy. repeat case_decide; subst.
  - rewrite list_lookup_insert_eq by (rewrite length_insert; lia). done.
  - rewrite list_lookup_insert_ne, list_lookup_insert_eq by done. done.
  - by rewrite !list_lookup_insert_ne by done.
Qed.

Lemma swap_Permutation h m n : swap h m n ≡ₚ h.
Proof.
  unfold swap. repeat case_match; try done. by apply list_swap_Permutation.
Qed.

(** Moving the entry at the hole below its smallest child moves the hole there. *)
Lemma heap_except_step k i h m :
  (k ≤ i)%nat → heap_except k i h → child i m → (m < length h)%nat → dt h m < dt h i →
  (∀ c, child i c → (c < length h)%nat → dt h m ≤ dt h c) →
  heap_except k m (swap h m i).
Proof.
  intros Hki [H1 H2] Hm Hlt Hd Hmin. unfold heap_except, child in *.
  split; intros p c; rewrite length_swap; intros.
  - rewrite !dt_swap by lia. specialize (H1 p c). specialize (H2 p m).
    repeat case_decide; subst; try lia; apply Hmin; lia.
  - assert (p = i) as -> by lia. rewrite !dt_swap by lia. specialize (H1 m c).
    repeat case_decide; subst; lia.
Qed.

Lemma siftDown_loop_heap fuel k i h :
  (length h < fuel + i)%nat → (k ≤ i)%nat → heap_except k i h →
  heap_from k (siftDown_loop fuel h i).
Proof.
  revert i h. induction fuel as [|fuel IH]; intros i h Hf Hk He; cbn [siftDown_loop].
  - intros p c Hp Hc Hlt. apply (proj1 He); [done| |done|done]. unfold child in Hc. lia.
  - destruct (smallest_spec h i) as [Hm Hmin]. case_bool_decide as E.
    + destruct Hm as [?|(Hc & Hlt & Hd)]; [done|]. unfold child in Hc.
      apply IH; [rewrite length_swap; lia|lia|]. by apply heap_except_step.
    + rewrite E in Hmin. intros p c Hp Hc Hlt.
      destruct (decide (p = i)) as [->|]; [by apply Hmin|]. by apply (proj1 He).
Qed.

Lemma siftDown_heap k h : heap_from (S k) h → heap_from k (siftDown h k).
Proof.
  intros Hh. apply siftDown_loop_heap; [lia|done|]. unfold heap_from, heap_except, child in *.
  split; intros; [apply Hh; lia|lia].
Qed.

Lemma siftDown_loop_Permutation fuel h i : siftDown_loop fuel h i ≡ₚ h.
Proof.
  revert h i. induction fuel as [|fuel IH]; intros h i; [done|]. cbn [siftDown_loop].
  case_bool_decide; [|done]. by rewrite IH, swap_Permutation.
Qed.

Lemma siftDown_Permutation h i : siftDown h i ≡ₚ h.
Proof. apply siftDown_loop_Permutation. Qed.

Lemma heapify_loop_heap i h : heap_from (S i) h → is_heap (heapify_loop i h).
Proof.
  revert h. induction i as [|i IH]; intros h Hh; cbn; [by apply siftDown_heap|].
  by apply IH, siftDown_heap.
Qed.

Lemma heapify_heap h : is_heap (heapify h).
Proof.
  apply heapify_loop_heap. unfold heap_from, child. intros p c Hp Hc Hlt.
  pose proof (Nat.div_mod (length h) 2). pose proof (Nat.mod_upper_bound (length h) 2). lia.
Qed.

Lemma heapify_Permutation h : heapify h ≡ₚ h.
Proof.
  unfold heapify. generalize (length h / 2)%nat. intros i. revert h.
  induction i as [|i IH]; intros h; cbn [heapify_loop]; [apply siftDown_Permutation|].
  rewrite IH. apply siftDown_Permutation.
Qed.

Lemma Push_Permutation hash d h : Push hash d h ≡ₚ mkEntry hash d :: h.
Proof.
  unfold Push. rewrite heapify_Permutation, swap_Permutation. by rewrite Permutation_app_comm.
Qed.

Lemma Push_heap hash d h : is_heap (Push hash d h).
Proof. apply heapify_heap. Qed.

Lemma Pop_Permutation h e h' : Pop h = (Some e, h') → h ≡ₚ e :: h'.
Proof.
  unfold Pop. destruct h as [|x h]; [done|]. destruct (last (x :: h)) as [z|] eqn:Hl; [|done].
  intros [= <- <-]. apply last_Some in Hl as [t Ht]. rewrite heapify_Permutation.
  destruct t as [|y t]; simplify_eq/=; [done|].
  replace (length (t ++ [z]) - 0)%nat with (S (length t)) by (rewrite length_app; cbn; lia).
  cbn. rewrite take_app_length. rewrite Permutation_app_comm. done.
Qed.

Lemma Pop_heap h e h' : Pop h = (Some e, h') → is_heap h'.
Proof. unfold Pop. repeat case_match; intros; simplify_eq. apply heapify_heap. Qed.

(** The root of a heap is a minimum. *)
Lemma heap_root_min h i : is_heap h → (i < length h)%nat → dt h 0 ≤ dt h i.
Proof.
  intros Hh. induction i as [i IH] using lt_wf_ind. intros Hi.
  destruct (decide (i = 0%nat)) as [->|Hne]; [done|].
  pose proof (Nat.div_mod (i - 1) 2). pose proof (Nat.mod_upper_bound (i - 1) 2).
  trans (dt h ((i - 1) / 2)); [apply IH; lia|].
  apply Hh; [lia| |done]. unfold child. lia.
Qed.

Lemma heap_head_min h e t x : is_heap h → h = e :: t → x ∈ h → Date e ≤ Date x.
Proof.
  intros Hh -> [i Hi]%list_elem_of_lookup_1.
  pose proof (heap_root_min _ i Hh (lookup_lt_Some _ _ _ Hi)) as H.
  unfold dt in H. by rewrite Hi in H.
Qed.

(** Whatever the heap held before, [Push] leaves a heap holding the old entries and
    the new one. *)
Theorem Push_spec (hash : string) (d : Z) (h : heap) :
  is_heap (Push hash d h) ∧ Push hash d h ≡ₚ mkEntry hash d :: h.
Proof. split; [apply Push_heap | apply Push_Permutation]. Qed.

(** On a non-empty heap [Pop] returns the entry [Peek] shows, no entry expires before
    it, and the rest is a heap of exactly the other entries. *)
Theorem Pop_spec (h : heap) (Hh : is_heap h) (Hne : h ≠ []) :
  ∃ e h', Pop h = (Some e, h') ∧ Peek h = (Hash e, Date e) ∧ is_heap h' ∧
    h ≡ₚ e :: h' ∧ ∀ x, x ∈ h → Date e ≤ Date x.
Proof.
  destruct h as [|e t]; [done|]. destruct (last_is_Some (e :: t)) as [_ [z Hz]]; [done|].
  eexists e, _. split; [unfold Pop; rewrite Hz; reflexivity|].
  assert (Pop (e :: t) = (Some e, (Pop (e :: t)).2)) as HP by (unfold Pop; by rewrite Hz).
  replace (heapify _) with ((Pop (e :: t)).2) by (unfold Pop; by rewrite Hz).
  split_and!; [done|by eapply Pop_heap|by eapply Pop_Permutation|].
  intros x. by eapply heap_head_min.
Qed.

Lemma Pop_spec_witness :
  ∃ e h', Pop [mkEntry "a" 1; mkEntry "c" 3; mkEntry "b" 2] = (Some e, h') ∧ e = mkEntry "a" 1 ∧
    is_heap h'.
Proof.
  destruct (Pop_spec [mkEntry "a" 1; mkEntry "c" 3; mkEntry "b" 2])
    as (e & h' & H & _ & Hh & _); [|done|].
  - intros p c _ [-> | ->]; destruct p; cbn; lia.
  - exists e, h'. split; [exact H|]. split; [|exact Hh].
    vm_compute in H. by injection H as <- _.
Defined.

(** Popping [n] times. *)
Fixpoint drain (n : nat) (h : heap) : list ExpirationEntry :=
  match n with
  | O => []
  | S n =>
      match Pop h with
      | (Some e, h) => e :: drain n h
      | (None, _) => []
      end
  end.

Lemma Pop_cons h : h ≠ [] → ∃ h', Pop h = (head h, h').
Proof.
  intros Hne. destruct h as [|e t]; [done|].
  destruct (last_is_Some (e :: t)) as [_ [z Hz]]; [done|]. unfold Pop. rewrite Hz. by eexists.
Qed.

(** Entries pushed in any order are popped in order of expiration, all of them. *)
Theorem drain_sorted (es : list ExpirationEntry) :
  let h := foldr (λ e, Push (Hash e) (Date e)) NewExpirationHeap es in
  drain (length es) h ≡ₚ es ∧ StronglySorted (λ a b, Date a ≤ Date b) (drain (length es) h).
Proof.
  intros h. assert (h ≡ₚ es) as Hp.
  { subst h. induction es as [|[a d] es IH]; [done|].
    cbn [foldr Hash Date]. rewrite Push_Permutation. by constructor. }
  assert (is_heap h) as Hh by (destruct es; [apply is_heap_nil|apply Push_heap]).
  clearbody h. revert h Hp Hh. remember (length es) as n eqn:Hn. revert es Hn.
  induction n as [|n IH]; intros es Hn h Hp Hh.
  { destruct es; [|done]. by split; [|constructor]. }
  assert (h ≠ []) as Hne by (intros ->; apply Permutation_length in Hp; by rewrite <- Hn in Hp).
  destruct (Pop_cons h Hne) as [h' HP]. destruct h as [|e t] eqn:Eh; [done|].
  cbn [drain]. rewrite HP. pose proof (Pop_Permutation _ _ _ HP) as Hpp.
  destruct (IH h') with (h := h') as [HA HB]; [|done|by eapply Pop_heap|].
  { apply Permutation_length in Hpp, Hp. cbn in *. lia. }
  cbn [head]. split; [rewrite HA, <- Hp; by symmetry|]. constructor; [done|]. apply Forall_forall.
  intros x. rewrite HA. intros Hx. eapply (heap_head_min (e :: t)); [done..|].
  rewrite Hpp. by right.
Qed.
