(* ===== verification/ExpirationNotifier.v ===== *)
(** * The expiration notifier: [pkg/storage/local.go]

    [ExpirationNotifier] runs one goroutine ([Monitor]) that waits for the earliest entry
    of the heap and sends its hash on [expirationChan]; any goroutine may [Add] entries.
    The heap locks itself, so a call of one of its methods is a step; everything that makes
    two of them, or a call and a channel operation, is several steps: the goroutine is a
    program counter, and so is each call of [Add] in progress. *)
From S2P Require Import Prelude ExpirationHeap.

(** Where the [Monitor] goroutine is. *)
Inductive pc : Set :=
  | AtAll                       (** the loop condition of [WaitAll] *)
  | AtScan                      (** the label [rescan] of [WaitOne] *)
  | AtPeek                      (** before [NextExpiration] *)
  | AtWait (hash : string) (date : Z)  (** the select of [WaitOne] *)
  | AtPop (hash : string)       (** a timer or force case, before [heap.Pop] *)
  | AtSend (hash : string)      (** [e.expirationChan <- hash] *)
  | AtIdle                      (** the select of [Monitor] *)
  | Stopped.
#[export] Instance pc_eq_dec : EqDecision pc.
Proof. solve_decision. Defined.

(** Where a call of [Add] is, after its [Push]. *)
Inductive adder : Set :=
  | APeek (hash : string)       (** before [Peek] *)
  | ARescan                     (** before the send on [rescanChan] *)
  | ALen                        (** before [Len] *)
  | AWake.                      (** before the send on [addChan] *)
#[export] Instance adder_eq_dec : EqDecision adder.
Proof. solve_decision. Defined.

(** History of a [Pop]: the hash that is announced, the entry removed, and whether something
    was pushed since the goroutine looked at the heap. *)
Record popped := mkPopped { announced : string; removed : ExpirationEntry; disturbed : bool }.

Record Notifier := mkNotifier {
  n_heap : heap;
  expirationChan : list string;   (** buffered, capacity 1000 *)
  rescanChan : bool;              (** capacity 1 *)
  addChan : bool;                 (** capacity 1 *)
  n_pc : pc;
  n_adders : list adder;          (** calls of [Add] in progress *)
  n_now : Z;                      (** the clock *)
  n_added : list ExpirationEntry; (** history: entries added *)
  n_pushed : bool;                (** history: a push since the goroutine looked *)
  n_popped : list popped;         (** history: entries removed *)
  n_sent : list (string * Z);     (** history: hashes sent, with the time *)
  n_received : list string;       (** history: hashes the provider received *)
}.

Definition NewExpirationNotifier (now : Z) : Notifier :=
  mkNotifier NewExpirationHeap [] false false AtAll [] now [] false [] [] [].

(** The first step of [Add]. *)
Definition Add (hash : string) (date : Z) (n : Notifier) : Notifier :=
  mkNotifier (Push hash date (n_heap n)) (expirationChan n) (rescanChan n) (addChan n) (n_pc n)
    (APeek hash :: n_adders n) (n_now n) (mkEntry hash date :: n_added n) true (n_popped n) (n_sent n) (n_received n).

(** The others: wake the goroutine when the new entry is the first, or the only one. A send on
    a full channel of capacity 1 is dropped ([default] case). *)
Definition set_adders (rescan add : bool) (l : list adder) (n : Notifier) : Notifier :=
  mkNotifier (n_heap n) (expirationChan n) rescan add (n_pc n) l (n_now n) (n_added n) (n_pushed n)
    (n_popped n) (n_sent n) (n_received n).
Definition Add_step (a : adder) (n : Notifier) : Notifier :=
  let rest := remove_one a (n_adders n) in
  match a with
  | APeek hash =>
      set_adders (rescanChan n) (addChan n)
        ((if bool_decide ((Peek (n_heap n)).1 = hash) then ARescan else ALen) :: rest) n
  | ARescan => set_adders true (addChan n) (ALen :: rest) n
  | ALen =>
      set_adders (rescanChan n) (addChan n)
        (if bool_decide (Len (n_heap n) = 1%nat) then AWake :: rest else rest) n
  | AWake => set_adders (rescanChan n) true rest n
  end.

Definition NextExpiration (n : Notifier) : string * Z := Peek (n_heap n).

Definition goto (p : pc) (n : Notifier) : Notifier :=
  mkNotifier (n_heap n) (expirationChan n) (rescanChan n) (addChan n) p (n_adders n) (n_now n)
    (n_added n) (n_pushed n) (n_popped n) (n_sent n) (n_received n).

Inductive label : Set :=
  | LAdd (hash : string) (date : Z)
  | LAdder (a : adder)
  | LTick (d : Z)
  | LRun        (** the goroutine's next local step *)
  | LTimer      (** [time.After] fires *)
  | LForce      (** [ForceExpiration] *)
  | LRescan     (** receive from [rescanChan] *)
  | LWake       (** receive from [addChan] *)
  | LRecv       (** the storage provider receives from [Notify()] *)
  | LDone.      (** [ctx.Done()] *)

Definition step (l : label) (n : Notifier) : option Notifier :=
  match l, n_pc n with
  | LAdd hash date, _ => Some (Add hash date n)
  | LAdder a, _ => if bool_decide (a ∈ n_adders n) then Some (Add_step a n) else None
  | LTick d, _ =>
      if bool_decide (0 ≤ d) then
        Some (mkNotifier (n_heap n) (expirationChan n) (rescanChan n) (addChan n) (n_pc n) (n_adders n)
                (n_now n + d) (n_added n) (n_pushed n) (n_popped n) (n_sent n) (n_received n))
      else None
  | LRun, AtAll => Some (goto (if bool_decide (0 < Len (n_heap n))%nat then AtScan else AtIdle) n)
  | LRun, AtScan => Some (goto (if bool_decide (Len (n_heap n) = 0%nat) then AtAll else AtPeek) n)
  | LRun, AtPeek =>
      let '(hash, date) := NextExpiration n in
      Some (mkNotifier (n_heap n) (expirationChan n) (rescanChan n) (addChan n) (AtWait hash date) (n_adders n)
              (n_now n) (n_added n) false (n_popped n) (n_sent n) (n_received n))
  | LRun, AtPop hash =>
      match Pop (n_heap n) with
      | (Some e, h) =>
          Some (mkNotifier h (expirationChan n) (rescanChan n) (addChan n) (AtSend hash) (n_adders n) (n_now n)
                  (n_added n) (n_pushed n) (n_popped n ++ [mkPopped hash e (n_pushed n)]) (n_sent n) (n_received n))
      | (None, h) =>
          Some (mkNotifier h (expirationChan n) (rescanChan n) (addChan n) (AtSend hash) (n_adders n) (n_now n)
                  (n_added n) (n_pushed n) (n_popped n) (n_sent n) (n_received n))
      end
  | LRun, AtSend hash =>
      if bool_decide (length (expirationChan n) < 1000)%nat then
        Some (mkNotifier (n_heap n) (expirationChan n ++ [hash]) (rescanChan n) (addChan n) AtAll (n_adders n)
                (n_now n) (n_added n) (n_pushed n) (n_popped n) (n_sent n ++ [(hash, n_now n)]) (n_received n))
      else None
  | LTimer, AtWait hash date =>
      if bool_decide (date ≤ n_now n) then Some (goto (AtPop hash) n) else None
  | LForce, AtWait hash _ => Some (goto (AtPop hash) n)
  | LRescan, AtWait _ _ =>
      if rescanChan n then Some (goto AtScan (set_adders false (addChan n) (n_adders n) n)) else None
  | LWake, AtIdle =>
      if addChan n then Some (goto AtAll (set_adders (rescanChan n) false (n_adders n) n)) else None
  | LRecv, _ =>
      match expirationChan n with
      | [] => None
      | hash :: out =>
          Some (mkNotifier (n_heap n) out (rescanChan n) (addChan n) (n_pc n) (n_adders n) (n_now n)
                  (n_added n) (n_pushed n) (n_popped n) (n_sent n) (n_received n ++ [hash]))
      end
  | LDone, AtAll | LDone, AtWait _ _ | LDone, AtIdle => Some (goto Stopped n)
  | _, _ => None
  end.

(** Notifiers reachable by steps whose labels satisfy [P]. *)
Definition is_new (n : Notifier) : Prop := ∃ now, n = NewExpirationNotifier now.
Definition reachable : (label → Prop) → Notifier → Prop := reach step is_new.

(** ** Every entry is accounted for *)

(** The hash that is announced but not sent yet. *)
Definition in_hand (p : pc) : list string := match p with AtSend hash => [hash] | _ => [] end.

Lemma Push_not_empty hash d h : Push hash d h ≠ [].
Proof. intros H. pose proof (Push_Permutation hash d h) as HP. rewrite H in HP. by apply Permutation_nil_cons in HP. Qed.

Lemma length_Push hash d h : length (Push hash d h) = S (length h).
Proof. by rewrite (Permutation_length (Push_Permutation hash d h)). Qed.

(** The goroutine found the heap not empty; if nothing was pushed since it looked, the first
    entry is still the one it found. *)
Definition busy_ok (n : Notifier) : Prop :=
  match n_pc n with
  | AtPeek => n_heap n ≠ []
  | AtWait hash _ | AtPop hash => n_heap n ≠ [] ∧ (n_pushed n = false → (Peek (n_heap n)).1 = hash)
  | _ => True
  end.

(** The hashes in flight are those of entries that were added. *)
Definition known (n : Notifier) (hash : string) : Prop := ∃ d, mkEntry hash d ∈ n_added n.

Record conserved (n : Notifier) : Prop := {
  cons_busy : busy_ok n;
  cons_added : n_added n ≡ₚ n_heap n ++ (removed <$> n_popped n);
  cons_sent : announced <$> n_popped n = (n_sent n).*1 ++ in_hand (n_pc n);
  cons_received : (n_sent n).*1 = n_received n ++ expirationChan n;
  cons_popped : Forall (λ p, known n (announced p) ∧ (disturbed p = false → announced p = Hash (removed p))) (n_popped n);
  cons_known : match n_pc n with AtWait hash _ | AtPop hash => known n hash | _ => True end;
}.

Lemma known_Add hash d n h : known n h → known (Add hash d n) h.
Proof. intros [d' Hd]. exists d'. by right. Qed.

Lemma conserved_Add hash d n : conserved n → conserved (Add hash d n).
Proof.
  intros [Hb Ha Hs Hr Hp Hk]. split; cbn -[Push]; [| |done|done| |].
  - unfold busy_ok in *. cbn -[Push]. destruct (n_pc n); try done; [apply Push_not_empty|split; [apply Push_not_empty|done]..].
  - rewrite Push_Permutation. cbn. by constructor.
  - eapply Forall_impl; [exact Hp|]. cbn. intros p [? ?]. split; [by apply known_Add|done].
  - destruct (n_pc n); try done; by apply known_Add.
Qed.

(** A step that touches neither the heap nor the history. *)
Lemma conserved_frame n n' :
  conserved n → n_heap n' = n_heap n → n_added n' = n_added n → n_popped n' = n_popped n → n_sent n' = n_sent n →
  n_received n' = n_received n → expirationChan n' = expirationChan n → in_hand (n_pc n') = in_hand (n_pc n) → busy_ok n' →
  match n_pc n' with AtWait hash _ | AtPop hash => known n hash | _ => True end → conserved n'.
Proof.
  intros [Hb Ha Hs Hr Hp Hk] E1 E2 E3 E4 E5 E6 E7 Hb' Hk'.
  split; rewrite ?E1, ?E2, ?E3, ?E4, ?E5, ?E6, ?E7; try done.
  - unfold known. by rewrite E2.
  - unfold known. rewrite E2. by destruct (n_pc n').
Qed.

Lemma conserved_Pop hash n e h :
  conserved n → n_pc n = AtPop hash → Pop (n_heap n) = (Some e, h) →
  conserved (mkNotifier h (expirationChan n) (rescanChan n) (addChan n) (AtSend hash) (n_adders n) (n_now n)
    (n_added n) (n_pushed n) (n_popped n ++ [mkPopped hash e (n_pushed n)]) (n_sent n) (n_received n)).
Proof.
  intros [Hb Ha Hs Hr Hp Hk] Hpc HP. unfold busy_ok in Hb. rewrite Hpc in Hb, Hk, Hs. destruct Hb as [Hne Hroot].
  destruct (Pop_cons _ Hne) as [h' HP']. rewrite HP in HP'. injection HP' as He ->. split; cbn; [done| | |done| |done].
  - rewrite Ha, (Pop_Permutation _ _ _ HP), fmap_app. cbn. rewrite (assoc (++)), <- Permutation_cons_append. done.
  - rewrite fmap_app, Hs. by rewrite app_nil_r.
  - apply Forall_app. split; [done|]. constructor; [|done]. split; [done|]. cbn. intros Hd. rewrite <- (Hroot Hd).
    destruct (n_heap n) as [|x t]; [done|]. cbn in He |- *. by injection He as ->.
Qed.

Lemma conserved_step l n n' : conserved n → step l n = Some n' → conserved n'.
Proof.
  intros I Hs. destruct l as [hash d|a|d| | | | | | |]; unfold step in Hs.
  - injection Hs as <-. by apply conserved_Add.
  - case_bool_decide; [|done]. injection Hs as <-. apply (conserved_frame n); try done; destruct a; cbn; try done;
      first [apply I|apply (cons_known n I)].
  - case_bool_decide; [|done]. injection Hs as <-. apply (conserved_frame n); try done; apply I.
  - destruct (n_pc n) as [| | |hash date|hash|hash| |] eqn:Hpc; try done.
    + injection Hs as <-. apply (conserved_frame n); try done; cbn; rewrite ?Hpc; unfold busy_ok; cbn; by case_bool_decide.
    + injection Hs as <-. apply (conserved_frame n); try done; cbn; rewrite ?Hpc; unfold busy_ok; cbn; case_bool_decide; try done.
      unfold Len in *. intros E. by rewrite E in *.
    + pose proof (cons_busy n I) as Hb. unfold busy_ok in Hb. rewrite Hpc in Hb. unfold NextExpiration in Hs.
      destruct (Peek (n_heap n)) as [hash date] eqn:Ep. injection Hs as <-. apply (conserved_frame n); try done; cbn; rewrite ?Hpc; try done.
      * unfold busy_ok. cbn. by rewrite Ep.
      * destruct (n_heap n) as [|[h d] t] eqn:Eh; [done|]. injection Ep as <- <-. exists d. rewrite (cons_added n I), Eh. by left.
    + destruct (Pop (n_heap n)) as [[e|] h] eqn:EP; injection Hs as <-; [by apply conserved_Pop|].
      pose proof (cons_busy n I) as Hb. unfold busy_ok in Hb. rewrite Hpc in Hb. destruct Hb as [Hne _].
      destruct (Pop_cons _ Hne) as [h' HP']. rewrite EP in HP'. by destruct (n_heap n).
    + case_bool_decide; [|done]. injection Hs as <-. destruct I as [Hb Ha Hse Hr Hp Hk]. rewrite Hpc in Hse.
      split; cbn; try done; rewrite ?fmap_app; cbn; [by rewrite app_nil_r|by rewrite Hr, (assoc (++))].
  - destruct (n_pc n) as [| | |hash date| | | |] eqn:Hpc; try done. case_bool_decide; [|done]. injection Hs as <-.
    pose proof (cons_busy n I) as Hb. pose proof (cons_known n I) as Hk. unfold busy_ok in Hb. rewrite Hpc in Hb, Hk.
    apply (conserved_frame n); try done; cbn; by rewrite ?Hpc.
  - destruct (n_pc n) as [| | |hash date| | | |] eqn:Hpc; try done. injection Hs as <-.
    pose proof (cons_busy n I) as Hb. pose proof (cons_known n I) as Hk. unfold busy_ok in Hb. rewrite Hpc in Hb, Hk.
    apply (conserved_frame n); try done; cbn; by rewrite ?Hpc.
  - destruct (n_pc n) as [| | |hash date| | | |] eqn:Hpc; try done. destruct (rescanChan n); [|done]. injection Hs as <-.
    apply (conserved_frame n); try done; cbn; by rewrite ?Hpc.
  - destruct (n_pc n) as [| | |hash date| | | |] eqn:Hpc; try done. destruct (addChan n); [|done]. injection Hs as <-.
    apply (conserved_frame n); try done; cbn; by rewrite ?Hpc.
  - destruct (expirationChan n) as [|hash out] eqn:Ec; [by destruct (n_pc n)|]. assert (Hs' := Hs). 
    destruct I as [Hb Ha Hse Hr Hp Hk]. injection Hs as <-. split; cbn; try done. by rewrite Hr, Ec, <- (assoc (++)).
  - assert (n' = goto Stopped n ∧ in_hand (n_pc n) = []) as [-> Hi] by (destruct (n_pc n); try done; by injection Hs as <-).
    by apply (conserved_frame n).
Qed.

(** C24: However the steps of the calls of [Add], the timers and the forced expirations
    interleave, every entry is accounted for: the entries added are exactly those in the heap
    and those the goroutine removed; for each removed entry one hash is announced, and the
    hashes announced are, in order, the ones received by the provider, the ones in the
    channel, and the one the goroutine is about to send; each of them is the hash of an entry
    that was added, and it is the hash of the very entry removed unless something was pushed
    between looking at the heap and removing ([notifier_race] is such a case: then another
    entry is removed and its hash is not announced). *)
Theorem notifier_conserves (n : Notifier) (Hr : reachable (λ _, True) n) :
  n_added n ≡ₚ n_heap n ++ (removed <$> n_popped n) ∧
  announced <$> n_popped n = n_received n ++ expirationChan n ++ in_hand (n_pc n) ∧
  (∀ p, p ∈ n_popped n → (∃ d, mkEntry (announced p) d ∈ n_added n) ∧
     (disturbed p = false → announced p = Hash (removed p))).
Proof.
  enough (conserved n) as [_ Ha Hs Hrc Hp _].
  { split_and!; [done|by rewrite Hs, Hrc, (assoc (++))|]. by apply Forall_forall. }
  revert Hr. apply reach_inv; [by intros ? [now ->]|]. intros m l m' HI _. by apply conserved_step.
Qed.

(** ** No lost wake-up, when additions do not overlap *)

(** A call of [Add] starts only when no other is in progress. *)
Definition serial_step (l : label) (n : Notifier) : option Notifier :=
  match l with
  | LAdd _ _ => if bool_decide (n_adders n = []) then step l n else None
  | _ => step l n
  end.

(** A waiting goroutine waits for the earliest entry unless a rescan is pending or will be
    asked for; an idle one has nothing to wait for unless a wake-up is pending or will be
    sent. *)
Definition awake (n : Notifier) : Prop :=
  is_heap (n_heap n) ∧ (length (n_adders n) ≤ 1)%nat ∧
  match n_pc n with
  | AtWait _ d =>
      rescanChan n = true ∨ (∀ e, e ∈ n_heap n → d ≤ Date e) ∨ n_adders n = [ARescan] ∨
      n_adders n = [APeek (Peek (n_heap n)).1]
  | AtIdle =>
      addChan n = true ∨ n_heap n = [] ∨
      (length (n_heap n) = 1%nat ∧ n_adders n ≠ [])
  | _ => True
  end.

(** The new entry is first, or the first one was there before. *)
Lemma Push_root hash d h :
  (Peek (Push hash d h)).1 = hash ∨
  ∃ e, e ∈ h ∧ ∀ x, x ∈ Push hash d h → Date e ≤ Date x.
Proof.
  destruct (Push hash d h) as [|e t] eqn:E; [by apply Push_not_empty in E|].
  assert (e ∈ mkEntry hash d :: h) as He by (rewrite <- Push_Permutation, E; left).
  apply elem_of_cons in He as [-> | He]; [by left|right]. exists e. split; [done|].
  intros x Hx. eapply (heap_head_min (e :: t)); [|done..]. rewrite <- E. apply Push_heap.
Qed.

Lemma awake_Add hash d n : n_adders n = [] → awake n → awake (Add hash d n).
Proof.
  intros Hs (Hh & _ & Ha). split_and!; cbn -[Push]; [apply Push_heap|by rewrite Hs|]. rewrite Hs in *.
  destruct (n_pc n) as [| | |h' d'| | | |]; try done.
  - destruct (Push_root hash d (n_heap n)) as [Hp|(e & He & Hmin)]; [right; right; right; by rewrite Hp|].
    destruct Ha as [?|[Ha|[?|?]]]; [by left| |done|done]. right. left. intros x Hx. trans (Date e); [by apply Ha|by apply Hmin].
  - destruct Ha as [Hc|[Hc|[_ ?]]]; [by left| |done]. right. right. split; [by rewrite length_Push, Hc|done].
Qed.

(** In a list of at most one element. *)
Lemma one_adder (l : list adder) a : a ∈ l → (length l ≤ 1)%nat → l = [a].
Proof. destruct l as [|b [|c l]]; cbn; intros Ha HL; [by apply not_elem_of_nil in Ha| |lia]. by apply list_elem_of_singleton in Ha as ->. Qed.

Lemma awake_adder a n : a ∈ n_adders n → awake n → awake (Add_step a n).
Proof.
  intros Ha (Hh & Hl & Hw). pose proof (one_adder _ _ Ha Hl) as E. unfold awake, Add_step.
  destruct a as [hash| | |]; cbn [set_adders n_heap n_adders n_pc rescanChan addChan]; rewrite E in *; cbn [remove_one];
    rewrite ?decide_True by done; (split; [done|]).
  - split; [done|]. destruct (n_pc n) as [| | |h' d'| | | |]; try done.
    + destruct Hw as [?|[?|[?|[= ->]]]]; [by left|right; by left|done|]. rewrite bool_decide_true by done. right; right; by left.
    + destruct Hw as [?|[?|[? _]]]; [by left|right; by left|right; by right].
  - split; [done|]. destruct (n_pc n) as [| | |h' d'| | | |]; try done; [by left|].
    destruct Hw as [?|[?|[? _]]]; [by left|right; by left|right; by right].
  - split; [by case_bool_decide; cbn; lia|]. destruct (n_pc n) as [| | |h' d'| | | |]; try done.
    + destruct Hw as [?|[?|[?|?]]]; [by left|right; by left|done|done].
    + destruct Hw as [?|[?|[H1 _]]]; [by left|right; by left|]. right; right. unfold Len. by rewrite bool_decide_true.
  - split; [cbn; lia|]. destruct (n_pc n) as [| | |h' d'| | | |]; try done; [|by left].
    destruct Hw as [?|[?|[?|?]]]; [by left|right; by left|done|done].
Qed.

Lemma awake_step l n n' : awake n → serial_step l n = Some n' → awake n'.
Proof.
  intros Ha Hs. destruct l as [hash d|a| | | | | | | |]; cbn in Hs.
  { case_bool_decide; [|done]. injection Hs as <-. by apply awake_Add. }
  { case_bool_decide; [|done]. injection Hs as <-. by apply awake_adder. }
  all: destruct Ha as (Hh & Hl & Ha); unfold awake, step in *;
    destruct n as [hp ex rs ad p adr now added pu po sent rcv]; cbn in *;
    repeat (case_match; simplify_eq/=); simplify_eq/=; (split; [try done|split; [done|try done]]).
  - right. left. destruct hp; [done|]. simp_decide. cbn in *. lia.
  - right. left. intros e He. destruct hp as [|x t]; [by apply not_elem_of_nil in He|].
    unfold NextExpiration in *. simplify_eq/=. by eapply (heap_head_min (x :: t)).
  - by eapply Pop_heap.
  - destruct (decide (hp = [])) as [->|Hne]; [by simplify_eq/=|].
    destruct (Pop_cons hp Hne) as [h' HP]. destruct hp; [done|]. match goal with H : Pop _ = (None, _) |- _ => by rewrite H in HP end.
Qed.

(** C25: When calls of [Add] do not overlap, the goroutine never sleeps past an expiration:
    once the call is over, while the goroutine waits for a date every entry of the heap
    expires at that date or later, unless a rescan is already pending; and while it is idle
    the heap is empty, unless a wake-up is already pending. (Calls that do overlap can lose
    the wake-up: [notifier_lost_wakeup].) *)
Theorem notifier_no_lost_wakeup (n : Notifier) (Hr : reach serial_step is_new (λ _, True) n) (Hs : n_adders n = []) :
  (∀ hash d e, n_pc n = AtWait hash d → rescanChan n = false → e ∈ n_heap n → d ≤ Date e) ∧
  (n_pc n = AtIdle → addChan n = false → n_heap n = []).
Proof.
  enough (awake n) as (_ & _ & Ha).
  { rewrite Hs in Ha. split.
    - intros hash d e Hp Hre He. rewrite Hp in Ha. destruct Ha as [?|[Ha|[?|?]]]; [congruence|auto|done|done].
    - intros Hp Had. rewrite Hp in Ha. destruct Ha as [?|[?|[_ ?]]]; [congruence|done|done]. }
  revert Hr. apply reach_inv; [intros ? [now ->]; by split_and!; [apply is_heap_nil|cbn; lia|]|].
  intros m l m' HI _. by apply awake_step.
Qed.

(** ** No early expiration *)

(** An entry for [hash] that has expired by [t] was added. *)
Definition expired_by (added : list ExpirationEntry) (hash : string) (t : Z) : Prop :=
  ∃ d, mkEntry hash d ∈ added ∧ d ≤ t.

Definition timely (n : Notifier) : Prop :=
  n_heap n ⊆ n_added n ∧
  (∀ hash t, (hash, t) ∈ n_sent n → expired_by (n_added n) hash t) ∧
  match n_pc n with
  | AtWait hash d => mkEntry hash d ∈ n_added n
  | AtPop hash | AtSend hash => expired_by (n_added n) hash (n_now n)
  | _ => True
  end.

Lemma expired_by_mono added added' hash t t' :
  added ⊆ added' → t ≤ t' → expired_by added hash t → expired_by added' hash t'.
Proof. intros Hs Ht (d & Hd & ?). exists d. split; [by apply Hs|lia]. Qed.

Lemma timely_Add hash d n : timely n → timely (Add hash d n).
Proof.
  intros (Hs & Hl & Hp).
  assert (n_added n ⊆ mkEntry hash d :: n_added n) as Hsub by (intros x ?; by right).
  split_and!; cbn -[Push].
  - intros x. rewrite Push_Permutation. intros [-> | Hx]%elem_of_cons; [left|right; auto].
  - intros h t Ht. eapply expired_by_mono; [done|done|auto].
  - destruct (n_pc n); try done; [by right|by eapply expired_by_mono..].
Qed.

Lemma Pop_subseteq h e h' : Pop h = (e, h') → h' ⊆ h.
Proof.
  destruct (decide (h = [])) as [->|Hne]; [by intros [= _ <-]|]. intros HP. destruct (Pop_cons h Hne) as [h1 HP1].
  rewrite HP in HP1. destruct h as [|x t]; [done|]. injection HP1 as -> ->. intros y Hy. rewrite (Pop_Permutation _ _ _ HP). by right.
Qed.

Lemma timely_step l n n' : busy_ok n → timely n → l ≠ LForce → step l n = Some n' → timely n'.
Proof.
  intros Hb Ht Hl Hs. destruct l as [hash d|a|d| | | | | | |]; try done.
  { injection Hs as <-. by apply timely_Add. }
  { cbn in Hs. case_bool_decide; [|done]. injection Hs as <-. by destruct a. }
  all: destruct Ht as (Hsub & Hlog & Hp); unfold timely, step, NextExpiration, busy_ok in *;
    destruct n as [hp ex rs ad p adr now added pu po sent rcv]; cbn in *;
    repeat (case_match; simplify_eq/=); simplify_eq/=; split_and!; try done.
  1-2: simp_decide; apply (expired_by_mono added added _ now); [done|lia|done].
  - destruct hp as [|[a b] t]; [done|]. simplify_eq/=. apply Hsub. left.
  - etrans; [by eapply Pop_subseteq|done].
  - etrans; [by eapply Pop_subseteq|done].
  - intros h t [Ht|[= -> ->]%list_elem_of_singleton]%elem_of_app; auto.
  - simp_decide. by exists date.
Qed.

(** Unless an expiration is forced, a hash is sent only after the expiration date of
    an entry that was added for it. *)
Theorem notifier_not_early (n : Notifier) (Hr : reachable (λ l, l ≠ LForce) n)
    (hash : string) (t : Z) (Hin : (hash, t) ∈ n_sent n) :
  ∃ d, mkEntry hash d ∈ n_added n ∧ d ≤ t.
Proof.
  enough (conserved n ∧ timely n) as (_ & _ & Hl & _) by by apply Hl.
  revert Hr. apply (reach_inv step is_new _ (λ n, conserved n ∧ timely n));
    [by intros ? [now ->]; split; [|split_and!; [|intros ? ? ?%not_elem_of_nil|]]|].
  intros m l m' [HC HT] HP Hs. split; [by eapply conserved_step|]. eapply timely_step; [apply HC|done..].
Qed.

(** ** A run, and the race between a timer and an addition *)

(** An addition up to the end of its call, to an empty heap. *)
Definition first_add (hash : string) (d : Z) : list label :=
  [LAdd hash d; LAdder (APeek hash); LAdder ARescan; LAdder ALen; LAdder AWake].
(** The goroutine finds an entry to wait for. *)
Definition look : list label := [LRun; LRun; LRun].

Definition one_run : list label :=
  first_add "a" 10 ++ look ++ [LRescan; LRun; LRun; LTick 10; LTimer; LRun; LRun].

Definition race_run : list label :=
  first_add "a" 10 ++ look ++ [LRescan; LRun; LRun; LTick 10; LTimer; LAdd "b" 5; LRun; LRun].

Definition after : list label → Notifier := after_run step (NewExpirationNotifier 0).

Lemma after_reachable (P : label → Prop) ls : Forall P ls → reachable P (after ls).
Proof. intros HF. apply after_run_reach; [by exists 0|done]. Qed.

Lemma notifier_conserves_witness :
  n_popped (after one_run) = [mkPopped "a" (mkEntry "a" 10) false] ∧
  announced <$> n_popped (after one_run) = n_received (after one_run) ++ expirationChan (after one_run) ++ [] ∧
  expirationChan (after one_run) = ["a"%string].
Proof.
  split; [vm_compute; reflexivity|]. split; [|vm_compute; reflexivity].
  apply (notifier_conserves (after one_run)). apply after_reachable. by repeat constructor.
Defined.

Lemma notifier_no_lost_wakeup_witness :
  let n := after_run serial_step (NewExpirationNotifier 0) (first_add "a" 10 ++ look ++ [LRescan; LRun; LRun]) in
  n_pc n = AtWait "a" 10 ∧ ∀ e, e ∈ n_heap n → 10 ≤ Date e.
Proof.
  cbn zeta. split; [vm_compute; reflexivity|]. intros e.
  apply (proj1 (notifier_no_lost_wakeup
    (after_run serial_step (NewExpirationNotifier 0) (first_add "a" 10 ++ look ++ [LRescan; LRun; LRun]))
    ltac:(apply after_run_reach; [by exists 0|by repeat constructor]) ltac:(vm_compute; reflexivity)) "a"%string);
    vm_compute; reflexivity.
Defined.

Lemma notifier_not_early_witness : ∃ d, mkEntry "a" d ∈ n_added (after one_run) ∧ d ≤ 10.
Proof.
  apply (notifier_not_early (after one_run)).
  - apply after_reachable. by repeat constructor.
  - vm_compute. left.
Defined.

(** The entry popped need not be the one whose hash is sent: when an earlier entry is
    added between the timer of ["a"] and [heap.Pop], the hash ["a"] is sent while the
    entry of ["b"] is removed, so ["b"] is never notified and ["a"] is notified again. *)
Theorem notifier_race :
  reachable (λ l, l ≠ LForce) (after race_run) ∧
  n_sent (after race_run) = [("a"%string, 10)] ∧ n_heap (after race_run) = [mkEntry "a" 10].
Proof.
  split; [|split; vm_compute; reflexivity].
  apply after_reachable. by repeat constructor.
Qed.

(** Two additions to an empty heap that overlap: both find two entries, neither wakes the
    goroutine, and it sleeps with two entries in the heap and nothing that would wake it. *)
Theorem notifier_lost_wakeup :
  let n := after [LRun; LAdd "a" 10; LAdd "b" 20; LAdder (APeek "a"); LAdder (APeek "b"); LAdder ARescan; LAdder ALen; LAdder ALen] in
  n_pc n = AtIdle ∧ addChan n = false ∧ n_adders n = [] ∧ length (n_heap n) = 2%nat.
Proof. vm_compute. split_and!; reflexivity. Qed.
