(* ===== verification/Storage.v ===== *)
(** * Storage providers: [pkg/storage/provider.go], [pkg/storage/chain.go]

    [StorageProvider] is the interface of [provider.go]: the operations of a provider over
    its state, at a clock reading.  [StorageContract] states what the cache server relies
    on: a provider may forget objects, but what it holds under a key was stored under that
    key.  [ChainStorageProvider] is proved to keep the contract from the contract of its
    members alone. *)
From S2P Require Import Prelude GoStrings Types.

(** ** Cache objects *)

Record CacheObjectManaged := mkManaged {
  Size : Z;
  Timestamp : Z;
  Score : Z;
  ObjLocation : StorageLocation;
}.

Record CacheObjectMeta := mkMeta {
  Tags : gmap string string;
  ExpirationDate : Z;
  Managed : option CacheObjectManaged;
}.

Record CacheObject := mkObject {
  Data : string;
  Metadata : option CacheObjectMeta;
}.

Definition EmptyMeta : CacheObjectMeta := mkMeta ∅ 0 None.

(** The generated getters, with nil receivers as zero values. *)
Definition GetExpirationDate (m : option CacheObjectMeta) : Z := from_option ExpirationDate 0 m.
Definition GetManagedFields (m : option CacheObjectMeta) : option CacheObjectManaged :=
  m ≫= Managed.
Definition GetSize (f : option CacheObjectManaged) : Z := from_option Size 0 f.

Definition set_managed (f : CacheObjectManaged) (m : CacheObjectMeta) : CacheObjectMeta :=
  mkMeta (Tags m) (ExpirationDate m) (Some f).

(** ** The interface *)

Class StorageProvider (S : Type) := {
  Location : S → StorageLocation;
  Configure : S → S * option error;
  Put : Z → string → CacheObject → S → go (S * option error);
  Get : Z → string → S → go (S * (error + CacheObject));
  Query : Z → list string → S → go (S * (error + list (option CacheObjectMeta)));
}.

(** What a provider promises.  [holds s k d]: the provider has an object with data [d]
    under key [k].  Keys are restricted to [key_ok] ones. *)
Class StorageContract (S : Type) `{StorageProvider S} := {
  key_ok : string → Prop;
  holds : S → string → string → Prop;
  put_sound : ∀ now k o s s' err k' d,
    key_ok k → key_ok k' → Put now k o s = Ret (s', err) →
    holds s' k' d → k' = k ∧ d = Data o ∨ holds s k' d;
  get_sound : ∀ now k s s' o,
    Get now k s = Ret (s', inr o) → holds s k (Data o);
  get_frame : ∀ now k s s' r k' d,
    Get now k s = Ret (s', r) → holds s' k' d → holds s k' d;
  query_frame : ∀ now keys s s' r k d,
    Query now keys s = Ret (s', r) → holds s' k d → holds s k d;
}.

(** ** The chain *)

Section chain.
Context {S : Type} `{SP : StorageProvider S}.

(** [ChainStorageProvider] is the list of its providers, fastest first. *)
Abbreviation Chain := (list S).

Definition chain_Location (_ : Chain) : StorageLocation := Memory.

(** Stops at the first provider that fails; the earlier ones stay configured. *)
Fixpoint chain_Configure (ps : Chain) : Chain * option error :=
  match ps with
  | [] => ([], None)
  | p :: ps =>
      match Configure p with
      | (p, Some err) => (p :: ps, Some err)
      | (p, None) => let '(ps, err) := chain_Configure ps in (p :: ps, err)
      end
  end.

(** Stores in every provider in turn, stopping at the first error. *)
Fixpoint chain_Put (now : Z) (k : string) (o : CacheObject) (ps : Chain) :
    go (Chain * option error) :=
  match ps with
  | [] => Ret ([], None)
  | p :: ps =>
      '(p, err) ← Put now k o p;
      match err with
      | Some err => Ret (p :: ps, Some err)
      | None => '(ps, err) ← chain_Put now k o ps; Ret (p :: ps, err)
      end
  end.

(** The search loop of [Get]: the index of the provider that had the object.  With no
    provider, [object] and [err] stay nil. *)
Fixpoint chain_find (now : Z) (k : string) (i : nat) (err : option error) (ps : Chain) :
    go (Chain * (option error + nat * CacheObject)) :=
  match ps with
  | [] => Ret ([], inl err)
  | p :: ps =>
      '(p, r) ← Get now k p;
      match r with
      | inr o => Ret (p :: ps, inr (i, o))
      | inl err =>
          '(ps, r) ← chain_find now k (1 + i) (Some err) ps;
          Ret (p :: ps, r)
      end
  end.

(** What [Get] returns, and the goroutine it starts: store the object in the providers
    before index [i]. *)
Definition chain_Get (now : Z) (k : string) (ps : Chain) :
    go (Chain * (error + option CacheObject) * option (nat * CacheObject)) :=
  '(ps, r) ← chain_find now k 0 None ps;
  match r with
  | inr (i, o) => Ret (ps, inr (Some o), Some (i, o))
  | inl (Some err) => Ret (ps, inl err, None)
  | inl None => Ret (ps, inr None, None)
  end.

(** The goroutine: [for i--; i >= 0; i-- { ... }], stopping at the first error. *)
Fixpoint backfill (now : Z) (k : string) (o : CacheObject) (i : nat) (ps : Chain) : go Chain :=
  match i with
  | O => Ret ps
  | Datatypes.S i =>
      match ps !! i with
      | None => Panic "index out of range"
      | Some p =>
          '(p, err) ← Put now k o p;
          let ps := <[i := p]> ps in
          match err with
          | Some _ => Ret ps
          | None => backfill now k o i ps
          end
      end
  end.

(** One goroutine of [Query]: it asks provider [i], [i] being the index of the key, and
    takes the first result. *)
Fixpoint chain_query_key (now : Z) (keys : list string) (i n : nat)
    (result : option CacheObjectMeta) (ps : Chain) : go (Chain * option CacheObjectMeta) :=
  match n, result with
  | Datatypes.S n, None =>
      match ps !! i with
      | None => Panic "index out of range"
      | Some p =>
          '(p, r) ← Query now keys p;
          let r := match r with inr r => r | inl _ => [] end in
          match r with
          | [] => Panic "index out of range"
          | m :: _ => chain_query_key now keys i n m (<[i := p]> ps)
          end
      end
  | _, _ => Ret (ps, result)
  end.

(** The goroutines in key order. *)
Fixpoint chain_query_keys (now : Z) (keys : list string) (idxs : list nat) (ps : Chain) :
    go (Chain * list (option CacheObjectMeta)) :=
  match idxs with
  | [] => Ret (ps, [])
  | i :: idxs =>
      '(ps, r) ← chain_query_key now keys i (length ps) None ps;
      '(ps, rs) ← chain_query_keys now keys idxs ps;
      Ret (ps, r :: rs)
  end.

Definition chain_Query (now : Z) (keys : list string) (ps : Chain) :
    go (Chain * list (option CacheObjectMeta)) :=
  chain_query_keys now keys (seq 0 (length keys)) ps.
End chain.

(** ** The chain keeps the contract *)

Section chain_contract.
Context {S : Type} {SP : StorageProvider S} {SC : StorageContract S}.

(** Some provider of the chain holds [d] under [k]. *)
Definition chain_holds (ps : list S) (k d : string) : Prop := ∃ p, p ∈ ps ∧ holds p k d.

Lemma chain_holds_cons p ps k d : chain_holds (p :: ps) k d ↔ holds p k d ∨ chain_holds ps k d.
Proof. unfold chain_holds. set_solver. Qed.

Lemma chain_holds_insert ps i p k d :
  chain_holds (<[i := p]> ps) k d → holds p k d ∨ chain_holds ps k d.
Proof.
  intros (q & [j Hj]%list_elem_of_lookup_1 & Hd).
  apply list_lookup_insert_Some in Hj as [(_ & -> & _)|(_ & Hj)]; [by left|].
  right. exists q. split; [by eapply list_elem_of_lookup_2|done].
Qed.

Lemma chain_Put_holds now k o ps ps' err k' d :
  key_ok k → key_ok k' → chain_Put now k o ps = Ret (ps', err) →
  chain_holds ps' k' d → k' = k ∧ d = Data o ∨ chain_holds ps k' d.
Proof.
  intros Hk Hk'. revert ps' err. induction ps as [|p ps IH]; intros ps' err; cbn.
  { intros [= <- <-]. by right. }
  intros ([p1 e1] & Hp & H)%go_bind_Ret_inv. destruct e1 as [e1|].
  - injection H as <- <-. rewrite !chain_holds_cons. intros [Hh|Hh]; [|tauto].
    destruct (put_sound _ _ _ _ _ _ _ _ Hk Hk' Hp Hh); tauto.
  - apply go_bind_Ret_inv in H as ([ps1 e2] & Hps & [= <- <-]). rewrite !chain_holds_cons.
    intros [Hh|Hh]; [destruct (put_sound _ _ _ _ _ _ _ _ Hk Hk' Hp Hh); tauto|].
    destruct (IH _ _ Hps Hh); tauto.
Qed.

Lemma chain_find_holds now k i e ps ps' r :
  chain_find now k i e ps = Ret (ps', r) →
  (∀ k' d, chain_holds ps' k' d → chain_holds ps k' d) ∧
  (∀ j o, r = inr (j, o) → chain_holds ps k (Data o) ∧ (i ≤ j < i + length ps)%nat) ∧
  length ps' = length ps.
Proof.
  revert i e ps' r. induction ps as [|p ps IH]; intros i e ps' r; cbn.
  { intros [= <- <-]. split_and!; [done|by intros ? ? [=]|done]. }
  intros ([p1 r1] & Hp & H)%go_bind_Ret_inv. destruct r1 as [err|o].
  - apply go_bind_Ret_inv in H as ([ps1 r2] & Hps & [= <- <-]).
    apply IH in Hps as (H1 & H2 & H3). split_and!; [| |cbn; lia].
    + intros k' d. rewrite !chain_holds_cons. intros [Hh|Hh]; [left|right; auto].
      by eapply get_frame.
    + intros j o' Hj. destruct (H2 j o' Hj). rewrite chain_holds_cons. split; [tauto|lia].
  - injection H as <- <-. split_and!; [| |done].
    + intros k' d. rewrite !chain_holds_cons. intros [Hh|Hh]; [left|by right].
      by eapply get_frame.
    + intros j o' [= <- <-]. rewrite chain_holds_cons. split; [|lia].
      left. by eapply get_sound.
Qed.

Lemma backfill_holds now k o i ps ps' k' d :
  key_ok k → key_ok k' → backfill now k o i ps = Ret ps' →
  chain_holds ps' k' d → k' = k ∧ d = Data o ∨ chain_holds ps k' d.
Proof.
  intros Hk Hk'. revert ps. induction i as [|i IH]; intros ps; cbn; [by intros [= <-]; right|].
  destruct (ps !! i) as [p|] eqn:Hi; [|done].
  intros ([p1 e1] & Hp & H)%go_bind_Ret_inv.
  assert (chain_holds (<[i:=p1]> ps) k' d → k' = k ∧ d = Data o ∨ chain_holds ps k' d) as Hins.
  { intros [Hh|Hh]%chain_holds_insert; [|tauto].
    destruct (put_sound _ _ _ _ _ _ _ _ Hk Hk' Hp Hh); [tauto|].
    right. exists p. split; [|done]. by eapply list_elem_of_lookup_2. }
  destruct e1; [by injection H as <-|]. intros Hh. apply (IH _ H) in Hh as [?|?]; auto.
Qed.

Lemma chain_query_key_holds now keys i n r ps ps' r' k d :
  chain_query_key now keys i n r ps = Ret (ps', r') → chain_holds ps' k d → chain_holds ps k d.
Proof.
  revert r ps. induction n as [|n IH]; intros r ps; cbn; [by intros [= <- _]|].
  destruct r as [m|]; [by intros [= <- _]|]. destruct (ps !! i) as [p|] eqn:Ei; [|done].
  intros ([p1 r1] & Hq & H)%go_bind_Ret_inv.
  destruct (match r1 with inl _ => _ | inr _ => _ end) as [|m rs]; [done|].
  intros [Hh|Hh]%(IH _ _ H)%chain_holds_insert; [|done]. exists p.
  split; [by eapply list_elem_of_lookup_2|]. by eapply query_frame.
Qed.

Lemma chain_Query_holds now keys idxs ps ps' rs k d :
  chain_query_keys now keys idxs ps = Ret (ps', rs) → chain_holds ps' k d → chain_holds ps k d.
Proof.
  revert ps rs. induction idxs as [|i idxs IH]; intros ps rs; cbn; [by intros [= <- _]|].
  intros ([ps1 r] & H1 & H)%go_bind_Ret_inv. apply go_bind_Ret_inv in H as ([ps2 rs2] & H2 & [= <- _]).
  intros Hh%(IH _ _ H2). by eapply chain_query_key_holds.
Qed.

(** An object returned by the chain was held under its key by one of the
    providers, and neither the search nor the goroutine that copies the object into the
    faster providers makes any provider hold anything the chain did not hold before. *)
Theorem chain_Get_sound (now now' : Z) (k : string) (ps ps1 ps2 : list S) (o : CacheObject)
    (i : nat) (Hk : key_ok k)
    (HG : chain_Get now k ps = Ret (ps1, inr (Some o), Some (i, o)))
    (HB : backfill now' k o i ps1 = Ret ps2) :
  chain_holds ps k (Data o) ∧ (i < length ps)%nat ∧
  ∀ k' d, key_ok k' → chain_holds ps2 k' d → chain_holds ps k' d.
Proof.
  unfold chain_Get in HG. apply go_bind_Ret_inv in HG as ([ps1' r] & Hf & HG).
  destruct r as [[]|[i' o']]; simplify_eq. apply chain_find_holds in Hf as (H1 & H2 & _).
  destruct (H2 i o eq_refl) as [Hh Hi]. split_and!; [done|lia|].
  intros k' d Hk' Hd. destruct (backfill_holds _ _ _ _ _ _ _ _ Hk Hk' HB Hd) as [[-> ->]|?]; auto.
Qed.

(** After the chain stores an object, with or without an error, what it holds is
    what it held before and the stored object under its key. *)
Theorem chain_Put_sound (now : Z) (k : string) (o : CacheObject) (ps ps' : list S)
    (err : option error) (Hk : key_ok k) (HP : chain_Put now k o ps = Ret (ps', err))
    (k' d : string) (Hk' : key_ok k') (Hd : chain_holds ps' k' d) :
  k' = k ∧ d = Data o ∨ chain_holds ps k' d.
Proof. by eapply chain_Put_holds. Qed.
End chain_contract.

(** ** Queries through the chain *)

Section chain_query.
Context {S : Type} {SP : StorageProvider S}.

Lemma chain_query_key_length now keys i n r (ps ps' : list S) r' :
  chain_query_key now keys i n r ps = Ret (ps', r') → length ps' = length ps.
Proof.
  revert r ps. induction n as [|n IH]; intros r ps; cbn; [by intros [= <- _]|].
  destruct r as [m|]; [by intros [= <- _]|]. destruct (ps !! i); [|done].
  intros ([p1 r1] & _ & H)%go_bind_Ret_inv.
  destruct (match r1 with inl _ => _ | inr _ => _ end) as [|m rs]; [done|].
  apply IH in H. by rewrite length_insert in H.
Qed.

Lemma chain_query_keys_panics now keys idxs (ps : list S) :
  (0 < length ps)%nat → length ps ∈ idxs → is_ret (chain_query_keys now keys idxs ps) = false.
Proof.
  revert ps. induction idxs as [|i idxs IH]; intros ps Hne Hin; cbn; [by apply not_elem_of_nil in Hin|].
  apply elem_of_cons in Hin as [Hi|Hin].
  - destruct (length ps) as [|n] eqn:E; [lia|]. cbn. rewrite lookup_ge_None_2 by lia. done.
  - destruct (chain_query_key _ _ _ _ _ _) as [[ps1 r]|] eqn:E; [|done]. cbn.
    apply chain_query_key_length in E. rewrite <- E in Hne, Hin.
    specialize (IH ps1 Hne Hin). by destruct (chain_query_keys _ _ _ _).
Qed.

(** [Query] of the chain indexes the providers by the position of the key: a query
    for more keys than there are providers panics. *)
Theorem chain_Query_panics (now : Z) (keys : list string) (ps : list S)
    (Hps : ps ≠ []) (Hk : (length ps < length keys)%nat) :
  is_ret (chain_Query now keys ps) = false.
Proof.
  apply chain_query_keys_panics; [destruct ps; [done|cbn; lia]|].
  apply list_elem_of_In, in_seq. lia.
Qed.
End chain_query.

(** ** The reference provider: a map that never forgets *)

Module MapProvider.
Definition t : Type := gmap string CacheObject.

#[global] Instance provider : StorageProvider t := {
  Location _ := Memory;
  Configure m := (m, None);
  Put _ k o m := Ret (<[k := o]> m, None);
  Get _ k m := Ret (m, match m !! k with
                       | Some o => inr o
                       | None => inl (StatusError NotFound "Object not found")
                       end);
  Query _ keys m := Ret (m, inr ((λ k, (m !! k) ≫= Metadata) <$> keys));
}.

#[global] Program Instance contract : StorageContract t := {
  key_ok _ := True;
  holds m k d := ∃ o, m !! k = Some o ∧ Data o = d;
}.
Next Obligation.
  intros now k o m m' err k' d _ _ [= <- <-] (o' & [[-> ->]|[_ Hk]]%lookup_insert_Some & Hd); eauto.
Qed.
Next Obligation.
  intros now k m m' o. cbn. destruct (m !! k) eqn:E; intros [=]; subst; eauto.
Qed.
Next Obligation. intros now k m m' r k' d [= <- _]. done. Qed.
Next Obligation. intros now keys m m' r k d [= <- _]. done. Qed.
End MapProvider.

Lemma chain_Get_sound_witness :
  let o := mkObject "x" None in
  chain_holds (S := MapProvider.t) [∅; {["k" := o]}] "k" "x".
Proof.
  intros o. refine (proj1 (chain_Get_sound (S := MapProvider.t) 0 0 "k" [∅; {["k" := o]}]
    [∅; {["k" := o]}] [{["k" := o]}; {["k" := o]}] o 1 _ _ _)); [exact I|reflexivity|reflexivity].
Defined.

Lemma chain_Put_sound_witness :
  let o := mkObject "x" None in
  "k" = "k" ∧ "x" = Data o ∨ chain_holds (S := MapProvider.t) [∅; ∅] "k" "x".
Proof.
  intros o. apply (chain_Put_sound 0 "k" o [∅; ∅] [{["k" := o]}; {["k" := o]}] None);
    [exact I|reflexivity|exact I|].
  exists {["k" := o]}. split; [left|]. by exists o.
Defined.

Lemma chain_Query_panics_witness :
  is_ret (chain_Query 0 ["a"; "b"] [∅ : MapProvider.t]) = false.
Proof. apply chain_Query_panics; [done|cbn; lia]. Defined.
