(* ===== verification/Router.v ===== *)
(** * The request router: [pkg/scheduler/router.go]

    A [route] carries the requests for one toolchain from consumer daemons (senders) to
    agents (receivers).  Routes are heap objects: the router's map points at them, and so
    do the goroutines of the senders and receivers attached to them, which outlive the
    map entry.

    This file has the data, the methods, and [rstep], in which each method runs to its end
    without interference.  No mutex guarantees that: [routesMutex] is held only while a route
    is looked up, created or closed, and the reference counts are 32-bit atomics.  The
    interleavings of the methods' own steps are in [RouterSteps], which shows that the steps
    of [rstep] are among its schedules. *)
From S2P Require Import Prelude GoStrings Types.

Record route := mkRoute {
  rt_tc : Toolchain;
  rt_hash : string;
  rxRefCount : Z;
  txRefCount : Z;
  rt_senders : gset string;
  rt_receivers : gset string;
  rt_cancelled : bool;   (** [rt.cancel()] was called *)
  rt_closed : bool;      (** the cleanup goroutine closed [rt.C] *)
  rt_used : bool;        (** history: something was attached *)
}.

(** A goroutine started by [attachSender] or [attachReceiver] of the route at [rp]. *)
Inductive attachment : Set :=
  | GSender (rp : nat) (uuid : string)
  | GReceiver (rp : nat) (uuid : string).
#[export] Instance attachment_eq_dec : EqDecision attachment.
Proof. solve_decision. Defined.

(** [senders] maps a uuid to the toolchains of its [Consumerd]. *)
Record Router := mkRouter {
  senders : gmap string (list Toolchain);
  receivers : gset string;
  routes : gmap string nat;
  route_heap : gmap nat route;
  next_route : nat;
  attached : list attachment;
}.

Definition NewRouter : Router := mkRouter ∅ ∅ ∅ ∅ 0 [].

Definition set_routes (m : gmap string nat) (h : gmap nat route) (n : nat) (r : Router) : Router :=
  mkRouter (senders r) (receivers r) m h n (attached r).
Definition set_heap (h : gmap nat route) (r : Router) : Router :=
  mkRouter (senders r) (receivers r) (routes r) h (next_route r) (attached r).
Definition set_attached (l : list attachment) (r : Router) : Router :=
  mkRouter (senders r) (receivers r) (routes r) (route_heap r) (next_route r) l.
Definition set_senders (m : gmap string (list Toolchain)) (r : Router) : Router :=
  mkRouter m (receivers r) (routes r) (route_heap r) (next_route r) (attached r).

Definition set_receivers (m : gset string) (r : Router) : Router :=
  mkRouter (senders r) m (routes r) (route_heap r) (next_route r) (attached r).

(** ** Methods of a route *)

Definition CanSend (rt : route) : bool := bool_decide (0 < rxRefCount rt).

Definition cancel (rt : route) : route :=
  mkRoute (rt_tc rt) (rt_hash rt) (rxRefCount rt) (txRefCount rt) (rt_senders rt)
    (rt_receivers rt) true (rt_closed rt) (rt_used rt).

(** The atomic operations, on the receivers ([rx]) or on the senders: [Add] and [Remove] of
    the sets, [Inc] and [Dec] of the counts, which are 32 bits wide. *)
Definition set_users (rx : bool) (f : gset string → gset string) (rt : route) : route :=
  mkRoute (rt_tc rt) (rt_hash rt) (rxRefCount rt) (txRefCount rt)
    (if rx then rt_senders rt else f (rt_senders rt)) (if rx then f (rt_receivers rt) else rt_receivers rt)
    (rt_cancelled rt) (rt_closed rt) (rt_used rt).
Definition addUser (rx : bool) (uuid : string) : route → route := set_users rx (λ s, {[uuid]} ∪ s).
Definition removeUser (rx : bool) (uuid : string) : route → route := set_users rx (λ s, s ∖ {[uuid]}).
Definition refCount (rx : bool) (rt : route) : Z := if rx then rxRefCount rt else txRefCount rt.
Definition set_count (rx used : bool) (n : Z) (rt : route) : route :=
  mkRoute (rt_tc rt) (rt_hash rt) (if rx then n else rxRefCount rt) (if rx then txRefCount rt else n)
    (rt_senders rt) (rt_receivers rt) (rt_cancelled rt) (rt_closed rt) used.
Definition incCount (rx : bool) (rt : route) : route := set_count rx true (wrap32 (refCount rx rt + 1)) rt.
Definition decCount (rx : bool) (rt : route) : route := set_count rx (rt_used rt) (wrap32 (refCount rx rt - 1)) rt.

(** [decRxRefCount] or [decTxRefCount], and the set's [Remove]: the deferred calls of the
    goroutine of a receiver or sender. *)
Definition decRefCount (rx : bool) (uuid : string) (rt : route) : route :=
  let rt := decCount rx rt in
  removeUser rx uuid
    (if bool_decide (refCount rx rt ≤ 0) then
       if bool_decide (refCount (negb rx) rt ≤ 0) then cancel rt else rt
     else rt).
Definition decRxRefCount : string → route → route := decRefCount true.
Definition decTxRefCount : string → route → route := decRefCount false.

(** [rt.senders.Add(uuid); rt.incTxRefCount()]. *)
Definition incTxRefCount (uuid : string) (rt : route) : route := incCount false (addUser false uuid rt).

(** [rt.receivers.Add(uuid); rt.incRxRefCount()]. *)
Definition incRxRefCount (uuid : string) (rt : route) : route := incCount true (addUser true uuid rt).

Definition attachSender (rp : nat) (uuid : string) (r : Router) : Router :=
  set_attached (GSender rp uuid :: attached r)
    (set_heap (alter (incTxRefCount uuid) rp (route_heap r)) r).

Definition attachReceiver (rp : nat) (uuid : string) (r : Router) : Router :=
  set_attached (GReceiver rp uuid :: attached r)
    (set_heap (alter (incRxRefCount uuid) rp (route_heap r)) r).

(** ** Methods of the router *)

Inductive HookAction : Set := ProcessRequestNormally | RejectRequest | RequestIntercepted.

(** Outcome of [Route] up to the select on [rt.C] and the context. *)
Inductive RouteResult : Set :=
  | RouteError (err : error)
  | RouteDone                (** nil: intercepted by a hook, or sent *)
  | RouteBlocked (rp : nat). (** sending on the channel of the route *)

Definition ErrNoAgents : error := PlainError "No available agents can run this task".
Definition ErrRequestRejected : error := PlainError "The task has been rejected by the server".
Definition ErrInvalidToolchain : error := PlainError "Invalid or nil toolchain".

Section router.
Context (md5 : string → string).

Definition tcHash (tc : Toolchain) : string := md5 (Toolchain_Hash tc).

Definition newRoute (tc : Toolchain) (hash : string) : route :=
  mkRoute tc hash 0 0 ∅ ∅ false false false.

Definition routeForToolchain (tc : Toolchain) (r : Router) : Router * nat :=
  let hash := tcHash tc in
  match routes r !! hash with
  | Some rp => (r, rp)
  | None =>
      let rp := next_route r in
      (set_routes (<[hash := rp]> (routes r)) (<[rp := newRoute tc hash]> (route_heap r))
         (S rp) r, rp)
  end.

Fixpoint attach_all (attach : nat → string → Router → Router) (uuid : string)
    (tcs : list Toolchain) (r : Router) : Router :=
  match tcs with
  | [] => r
  | tc :: tcs =>
      let '(r, rp) := routeForToolchain tc r in
      attach_all attach uuid tcs (attach rp uuid r)
  end.

Definition AddSender (uuid : string) (tcs : list Toolchain) (r : Router) : Router :=
  attach_all attachSender uuid tcs (set_senders (<[uuid := tcs]> (senders r)) r).

Definition AddReceiver (uuid : string) (tcs : list Toolchain) (r : Router) : Router :=
  attach_all attachReceiver uuid tcs (set_receivers ({[uuid]} ∪ receivers r) r).

Definition equivalent_in (tc : Toolchain) (tcs : list Toolchain) : bool :=
  existsb (λ tc', EquivalentTo (Some tc) (Some tc')) tcs.

(** [for _, oldTc := range ... { if !stillExists { routeForToolchain(oldTc).cancel() } }]. *)
Fixpoint cancel_removed (old new : list Toolchain) (r : Router) : Router :=
  match old with
  | [] => r
  | tc :: old =>
      let r := if equivalent_in tc new then r
               else let '(r, rp) := routeForToolchain tc r in
                    set_heap (alter cancel rp (route_heap r)) r in
      cancel_removed old new r
  end.

(** [UpdateSenderToolchains].  The deferred closures share the loop variable [newTc], so
    each attaches the sender to the route of the last new toolchain. *)
Definition UpdateSenderToolchains (uuid : string) (new : list Toolchain) (r : Router) : Router :=
  match senders r !! uuid with
  | None => r
  | Some old =>
      let r := cancel_removed old new r in
      let added := filter (λ tc, equivalent_in tc old = false) new in
      let r := set_senders (<[uuid := new]> (senders r)) r in
      match last new with
      | None => r
      | Some tc => attach_all attachSender uuid (replicate (length added) tc) r
      end
  end.

(** [Route] with the actions its hooks return. *)
Fixpoint run_hooks (actions : list HookAction) : option RouteResult :=
  match actions with
  | [] => None
  | ProcessRequestNormally :: actions => run_hooks actions
  | RejectRequest :: _ => Some (RouteError ErrRequestRejected)
  | RequestIntercepted :: _ => Some RouteDone
  end.

Definition Route (actions : list HookAction) (tc : option Toolchain) (r : Router) :
    Router * RouteResult :=
  match tc with
  | None => (r, RouteError ErrInvalidToolchain)
  | Some tc =>
      let '(r, rp) := routeForToolchain tc r in
      match run_hooks actions with
      | Some res => (r, res)
      | None =>
          if bool_decide (from_option rxRefCount 0 (route_heap r !! rp) = 0)
          then (r, RouteError ErrNoAgents)
          else (r, RouteBlocked rp)
      end
  end.

Definition GetRoutes (r : Router) : list (Toolchain * gset string * gset string) :=
  omap (λ e, (λ rt, (rt_tc rt, rt_senders rt, rt_receivers rt)) <$> route_heap r !! e.2)
    (map_to_list (routes r)).

(** A sender or receiver goroutine ends: its context is done, or (for a receiver) the
    channel of its route is closed. *)
Definition detach (g : attachment) (r : Router) : Router :=
  let r := set_attached (remove_one g (attached r)) r in
  match g with
  | GSender rp uuid => set_heap (alter (decTxRefCount uuid) rp (route_heap r)) r
  | GReceiver rp uuid => set_heap (alter (decRxRefCount uuid) rp (route_heap r)) r
  end.

(** The goroutine of [newRoute] after [<-ctx.Done()]. *)
Definition cleanup (rp : nat) (r : Router) : Router :=
  match route_heap r !! rp with
  | None => r
  | Some rt =>
      set_routes (delete (rt_hash rt) (routes r))
        (<[rp := mkRoute (rt_tc rt) (rt_hash rt) (rxRefCount rt) (txRefCount rt) (rt_senders rt)
                   (rt_receivers rt) (rt_cancelled rt) true (rt_used rt)]> (route_heap r))
        (next_route r) r
  end.
End router.

(** ** Methods that run undisturbed *)

Inductive rlabel : Set :=
  | RAddSender (uuid : string) (tcs : list Toolchain)
  | RAddReceiver (uuid : string) (tcs : list Toolchain)
  | RUpdate (uuid : string) (tcs : list Toolchain)
  | RRoute (actions : list HookAction) (tc : option Toolchain)
  | RDetach (g : attachment)
  | RCleanup (rp : nat).

Definition may_cleanup (rp : nat) (r : Router) : bool :=
  match route_heap r !! rp with
  | Some rt => rt_cancelled rt && negb (rt_closed rt)
  | None => false
  end.

Definition rstep (md5 : string → string) (l : rlabel) (r : Router) : option Router :=
  match l with
  | RAddSender uuid tcs => Some (AddSender md5 uuid tcs r)
  | RAddReceiver uuid tcs => Some (AddReceiver md5 uuid tcs r)
  | RUpdate uuid tcs => Some (UpdateSenderToolchains md5 uuid tcs r)
  | RRoute actions tc => Some (Route md5 actions tc r).1
  | RDetach g => if bool_decide (g ∈ attached r) then Some (detach g r) else None
  | RCleanup rp => if may_cleanup rp r then Some (cleanup rp r) else None
  end.

Definition router_reachable (md5 : string → string) : Router → Prop :=
  reach (rstep md5) (λ r, r = NewRouter) (λ _, True).

(** ** A consumer daemon changes its toolchains *)

Definition tc_a : Toolchain := mkToolchain Gnu C "/usr/bin/gcc" "x86_64" "10" true false.
Definition tc_b : Toolchain := mkToolchain Clang C "/usr/bin/clang" "x86_64" "11" true false.
Definition tc_c : Toolchain := mkToolchain Clang CXX "/usr/bin/clang++" "x86_64" "11" true false.

(** An agent and two consumer daemons with toolchain [a]. *)
Definition shared_route : list rlabel :=
  [RAddReceiver "agent" [tc_a]; RAddSender "cd1" [tc_a]; RAddSender "cd2" [tc_a]].

Definition after_router : list rlabel → Router := after_run (rstep id) NewRouter.

Lemma after_router_reachable ls : router_reachable id (after_router ls).
Proof. apply after_run_reach; [done|]. by apply Forall_true. Qed.

(** When one consumer daemon drops a toolchain, the route of that toolchain is
    cancelled and closed for everyone: a request of another daemon that still has the
    toolchain no longer finds the agent that serves it.  And when a daemon gains two
    toolchains, it is attached to the route of the last of them only, twice. *)
Theorem UpdateSenderToolchains_bugs :
  (Route id [] (Some tc_a) (after_router shared_route)).2 = RouteBlocked 0 ∧
  (Route id [] (Some tc_a)
     (after_router (shared_route ++ [RUpdate "cd1" []; RCleanup 0; RDetach (GReceiver 0 "agent")]))).2
    = RouteError ErrNoAgents ∧
  attached (after_router [RAddSender "cd1" []; RUpdate "cd1" [tc_b; tc_c]]) =
    [GSender 0 "cd1"; GSender 0 "cd1"] ∧
  rt_tc <$> route_heap (after_router [RAddSender "cd1" []; RUpdate "cd1" [tc_b; tc_c]]) !! 0%nat
    = Some tc_c ∧
  routes (after_router [RAddSender "cd1" []; RUpdate "cd1" [tc_b; tc_c]]) !! tcHash id tc_b = None.
Proof. vm_compute. split_and!; reflexivity. Qed.
