(* ===== verification/RouterSteps.v ===== *)
(** * The router step by step: [pkg/scheduler/router.go]

    The methods of [Router] are called by many goroutines. Here each of them, and each
    goroutine that a method leaves behind, is a thread that stops before every operation
    another goroutine can see: a section under [routesMutex] (looking a route up or making
    it, closing it), an operation on one of the sets, an [Inc], [Dec] or [Load] of a count,
    a call of [cancel], the send on the channel of a route. [sendersMutex] and
    [receiversMutex] are held as the code holds them. The sets lock themselves. *)
From S2P Require Import Prelude GoStrings Types Router.

#[export] Instance HookAction_eq_dec : EqDecision HookAction.
Proof. solve_decision. Defined.

(** Where a goroutine is. [rx] tells receivers from senders. *)
Inductive thread : Set :=
  | TAttach (rx : bool) (uuid : string) (tcs : list Toolchain)          (** the loop of [AddSender], [AddReceiver] *)
  | TAdd (rx : bool) (rp : nat) (uuid : string) (tcs : list Toolchain)  (** attaching: before [Add] *)
  | TInc (rx : bool) (rp : nat) (uuid : string) (tcs : list Toolchain)  (** before [Inc] *)
  | TCheck (rx : bool) (rp : nat) (uuid : string)                       (** [Dec] gave 0 or less: before [Load] *)
  | TCancel (rx : bool) (rp : nat) (uuid : string)                      (** before [cancel] *)
  | TRemove (rx : bool) (rp : nat) (uuid : string)                      (** before [Remove] *)
  | TDrop (uuid : string) (old new rest : list Toolchain)               (** the first loop of [UpdateSenderToolchains] *)
  | TDropCancel (rp : nat) (uuid : string) (old new rest : list Toolchain)
  | TLookup (actions : list HookAction) (tc : Toolchain)                (** [Route] *)
  | THooks (rp : nat) (actions : list HookAction) (tc : Toolchain)
  | TLoad (rp : nat) (tc : Toolchain)
  | TSend (rp : nat) (tc : Toolchain).                                  (** the select *)
#[export] Instance thread_eq_dec : EqDecision thread.
Proof. solve_decision. Defined.

(** The router and its goroutines. A receiver that took a request is busy until the agent's
    stream takes it. The last three fields are history: what [AddSender], [AddReceiver] and
    [UpdateSenderToolchains] were called with, the requests handed to agents, the answers of
    [Route]. *)
Record RouterSys := mkSys {
  router : Router;
  threads : list thread;
  sendersMutex : bool;
  receiversMutex : bool;
  busy : list attachment;
  sys_done : bool;       (** the context of the router is done *)
  panicked : bool;
  added : list (bool * string * Toolchain);
  handed : list (Toolchain * string);
  answers : list (option Toolchain * RouteResult);
}.

Definition NewSys : RouterSys := mkSys NewRouter [] false false [] false false [] [] [].

Definition with_router (r : Router) (s : RouterSys) : RouterSys :=
  mkSys r (threads s) (sendersMutex s) (receiversMutex s) (busy s) (sys_done s) (panicked s) (added s) (handed s) (answers s).
Definition with_threads (l : list thread) (s : RouterSys) : RouterSys :=
  mkSys (router s) l (sendersMutex s) (receiversMutex s) (busy s) (sys_done s) (panicked s) (added s) (handed s) (answers s).
Definition with_mutex (rx b : bool) (s : RouterSys) : RouterSys :=
  mkSys (router s) (threads s) (if rx then sendersMutex s else b) (if rx then b else receiversMutex s) (busy s)
    (sys_done s) (panicked s) (added s) (handed s) (answers s).
Definition with_busy (l : list attachment) (s : RouterSys) : RouterSys :=
  mkSys (router s) (threads s) (sendersMutex s) (receiversMutex s) l (sys_done s) (panicked s) (added s) (handed s) (answers s).
Definition with_added (l : list (bool * string * Toolchain)) (s : RouterSys) : RouterSys :=
  mkSys (router s) (threads s) (sendersMutex s) (receiversMutex s) (busy s) (sys_done s) (panicked s) l (handed s) (answers s).
Definition with_handed (l : list (Toolchain * string)) (s : RouterSys) : RouterSys :=
  mkSys (router s) (threads s) (sendersMutex s) (receiversMutex s) (busy s) (sys_done s) (panicked s) (added s) l (answers s).
Definition with_answers (l : list (option Toolchain * RouteResult)) (s : RouterSys) : RouterSys :=
  mkSys (router s) (threads s) (sendersMutex s) (receiversMutex s) (busy s) (sys_done s) (panicked s) (added s) (handed s) l.
Definition shut_down (s : RouterSys) : RouterSys :=
  mkSys (router s) (threads s) (sendersMutex s) (receiversMutex s) (busy s) true (panicked s) (added s) (handed s) (answers s).
Definition crash (s : RouterSys) : RouterSys :=
  mkSys (router s) (threads s) (sendersMutex s) (receiversMutex s) (busy s) (sys_done s) true (added s) (handed s) (answers s).

(** Thread [t] goes on as [o], or ends. *)
Definition move (t : thread) (o : option thread) (s : RouterSys) : RouterSys :=
  with_threads (option_list o ++ remove_one t (threads s)) s.
Definition spawn (t : thread) (s : RouterSys) : RouterSys := with_threads (t :: threads s) s.
Definition answer (tc : option Toolchain) (res : RouteResult) (s : RouterSys) : RouterSys :=
  with_answers ((tc, res) :: answers s) s.
Definition on_route (f : route → route) (rp : nat) (s : RouterSys) : RouterSys :=
  with_router (set_heap (alter f rp (route_heap (router s))) (router s)) s.
Definition user (rx : bool) (rp : nat) (uuid : string) : attachment :=
  if rx then GReceiver rp uuid else GSender rp uuid.
Definition count_of (rx : bool) (rp : nat) (s : RouterSys) : Z :=
  from_option (refCount rx) 0 (route_heap (router s) !! rp).

Section steps.
Context (md5 : string → string).

(** The deferred closures of [UpdateSenderToolchains]: the route of the last new toolchain,
    once for each toolchain that is new. *)
Definition deferred (old new : list Toolchain) : list Toolchain :=
  match last new with
  | None => []
  | Some tc => replicate (length (filter (λ tc, equivalent_in tc old = false) new)) tc
  end.

(** Look the route of [tc] up, or make it, and go on with it. *)
Definition lookup_route (t : thread) (tc : Toolchain) (k : nat → thread) (s : RouterSys) : RouterSys :=
  let '(r, rp) := routeForToolchain md5 tc (router s) in move t (Some (k rp)) (with_router r s).

Definition thread_step (t : thread) (s : RouterSys) : option RouterSys :=
  match t with
  | TAttach rx uuid [] => Some (with_mutex rx false (move t None s))
  | TAttach rx uuid (tc :: tcs) => Some (lookup_route t tc (λ rp, TAdd rx rp uuid tcs) s)
  | TAdd rx rp uuid tcs => Some (move t (Some (TInc rx rp uuid tcs)) (on_route (addUser rx uuid) rp s))
  | TInc rx rp uuid tcs =>
      let s := on_route (incCount rx) rp s in
      Some (move t (Some (TAttach rx uuid tcs))
              (with_router (set_attached (user rx rp uuid :: attached (router s)) (router s)) s))
  | TCheck rx rp uuid =>
      Some (move t (Some (if bool_decide (count_of (negb rx) rp s ≤ 0) then TCancel rx rp uuid else TRemove rx rp uuid)) s)
  | TCancel rx rp uuid => Some (move t (Some (TRemove rx rp uuid)) (on_route cancel rp s))
  | TRemove rx rp uuid => Some (move t None (on_route (removeUser rx uuid) rp s))
  | TDrop uuid old new (tc :: rest) =>
      if equivalent_in tc new then Some (move t (Some (TDrop uuid old new rest)) s)
      else Some (lookup_route t tc (λ rp, TDropCancel rp uuid old new rest) s)
  | TDrop uuid old new [] =>
      Some (move t (Some (TAttach false uuid (deferred old new)))
              (with_router (set_senders (<[uuid := new]> (senders (router s))) (router s)) s))
  | TDropCancel rp uuid old new rest => Some (move t (Some (TDrop uuid old new rest)) (on_route cancel rp s))
  | TLookup actions tc => Some (lookup_route t tc (λ rp, THooks rp actions tc) s)
  | THooks rp actions tc =>
      match run_hooks actions with
      | Some res => Some (answer (Some tc) res (move t None s))
      | None => Some (move t (Some (TLoad rp tc)) s)
      end
  | TLoad rp tc =>
      if bool_decide (count_of true rp s = 0) then Some (answer (Some tc) (RouteError ErrNoAgents) (move t None s))
      else Some (move t (Some (TSend rp tc)) s)
  | TSend rp tc =>
      (* a send on a closed channel panics; one on an open channel waits for a receiver *)
      match route_heap (router s) !! rp with
      | Some rt => if rt_closed rt then Some (crash s) else None
      | None => None
      end
  end.

Inductive slabel : Set :=
  | SAddSender (uuid : string) (tcs : list Toolchain)
  | SAddReceiver (uuid : string) (tcs : list Toolchain)
  | SUpdate (uuid : string) (tcs : list Toolchain)
  | SRoute (actions : list HookAction) (tc : option Toolchain)
  | SThread (t : thread)
  | SHand (rp : nat) (tc : Toolchain) (uuid : string)   (** a receiver of the route takes a request *)
  | SForward (g : attachment)                           (** and passes it to the stream of its agent *)
  | SExpire (rp : nat) (tc : Toolchain) (err : error)   (** the context of a blocked [Route] is done *)
  | SDetach (rx : bool) (rp : nat) (uuid : string)      (** the goroutine of a user ends: [Dec] *)
  | SCleanup (rp : nat)
  | SShutdown.

Definition same_as (g : attachment) (x : attachment) : bool := bool_decide (x = g).
(** A goroutine of the attachment is at its select. *)
Definition free (g : attachment) (s : RouterSys) : bool :=
  bool_decide (count (same_as g) (busy s) < count (same_as g) (attached (router s))).
Definition open_route (rp : nat) (s : RouterSys) : bool :=
  match route_heap (router s) !! rp with Some rt => negb (rt_closed rt) | None => false end.

(** The history of a call that attaches a user. *)
Definition note_added (rx : bool) (uuid : string) (tcs : list Toolchain) (s : RouterSys) : RouterSys :=
  with_added (((λ tc, (rx, uuid, tc)) <$> tcs) ++ added s) s.

Definition sys_step (l : slabel) (s : RouterSys) : option RouterSys :=
  if panicked s then None else
  match l with
  | SAddSender uuid tcs =>
      if sendersMutex s then None else
      let r := set_senders (<[uuid := tcs]> (senders (router s))) (router s) in
      Some (spawn (TAttach false uuid tcs) (with_mutex false true (note_added false uuid tcs (with_router r s))))
  | SAddReceiver uuid tcs =>
      if receiversMutex s then None else
      let r := set_receivers ({[uuid]} ∪ receivers (router s)) (router s) in
      Some (spawn (TAttach true uuid tcs) (with_mutex true true (note_added true uuid tcs (with_router r s))))
  | SUpdate uuid tcs =>
      if sendersMutex s then None else
      match senders (router s) !! uuid with
      | None => Some s
      | Some old => Some (spawn (TDrop uuid old tcs old) (with_mutex false true (note_added false uuid tcs s)))
      end
  | SRoute actions (Some tc) => Some (spawn (TLookup actions tc) s)
  | SRoute actions None => Some (answer None (RouteError ErrInvalidToolchain) s)
  | SThread t => if bool_decide (t ∈ threads s) then thread_step t s else None
  | SHand rp tc uuid =>
      let g := GReceiver rp uuid in
      if bool_decide (TSend rp tc ∈ threads s) && free g s && open_route rp s then
        Some (answer (Some tc) RouteDone
                (move (TSend rp tc) None (with_handed ((tc, uuid) :: handed s) (with_busy (g :: busy s) s))))
      else None
  | SForward g => if bool_decide (g ∈ busy s) then Some (with_busy (remove_one g (busy s)) s) else None
  | SExpire rp tc err =>
      if bool_decide (TSend rp tc ∈ threads s)
      then Some (answer (Some tc) (RouteError err) (move (TSend rp tc) None s)) else None
  | SDetach rx rp uuid =>
      let g := user rx rp uuid in
      if free g s then
        let s := on_route (decCount rx) rp s in
        let s := with_router (set_attached (remove_one g (attached (router s))) (router s)) s in
        Some (spawn (if bool_decide (count_of rx rp s ≤ 0) then TCheck rx rp uuid else TRemove rx rp uuid) s)
      else None
  | SCleanup rp =>
      match route_heap (router s) !! rp with
      | Some rt =>
          if (rt_cancelled rt || sys_done s) && negb (rt_closed rt)
          then Some (with_router (cleanup rp (router s)) s) else None
      | None => None
      end
  | SShutdown => Some (shut_down s)
  end.
End steps.

Definition sys_reachable (md5 : string → string) : RouterSys → Prop :=
  reach (sys_step md5) (.= NewSys) (λ _, True).

(** ** Routes and the map of routes *)

Definition is_rx (rp : nat) (g : attachment) : bool :=
  match g with GReceiver rp' _ => bool_decide (rp' = rp) | GSender _ _ => false end.
Definition is_tx (rp : nat) (g : attachment) : bool :=
  match g with GSender rp' _ => bool_decide (rp' = rp) | GReceiver _ _ => false end.
Definition is_user (rx : bool) (rp : nat) : attachment → bool := if rx then is_rx rp else is_tx rp.
Definition route_of (g : attachment) : nat := match g with GSender rp _ | GReceiver rp _ => rp end.

Lemma is_user_user rx rx' rp rp' uuid : is_user rx rp (user rx' rp' uuid) = bool_decide (rx = rx') && bool_decide (rp' = rp).
Proof. by destruct rx, rx'; cbn. Qed.
Lemma is_user_route rx rp g : is_user rx rp g = true → route_of g = rp.
Proof. by destruct rx, g; cbn; intros H; try done; apply bool_decide_eq_true in H. Qed.
Lemma route_of_user rx rp uuid : route_of (user rx rp uuid) = rp.
Proof. by destruct rx. Qed.

(** The hash of the route at [rp]. *)
Definition hash_at (r : Router) (rp : nat) : option string := rt_hash <$> route_heap r !! rp.

Section routes.
Context (md5 : string → string).

(** The map holds exactly the open routes, each under the hash of its toolchain; [Q] is what
    holds of every route. *)
Record router_ok (Q : nat → route → Prop) (r : Router) : Prop := {
  ok_route : ∀ rp rt, route_heap r !! rp = Some rt → Q rp rt;
  ok_attached : ∀ g, g ∈ attached r → is_Some (route_heap r !! route_of g);
  ok_next : ∀ rp rt, route_heap r !! rp = Some rt → (rp < next_route r)%nat;
  ok_hash : ∀ rp rt, route_heap r !! rp = Some rt → rt_hash rt = tcHash md5 (rt_tc rt);
  ok_map : ∀ h rp, routes r !! h = Some rp →
    ∃ rt, route_heap r !! rp = Some rt ∧ rt_hash rt = h ∧ rt_closed rt = false;
  ok_open : ∀ rp rt, route_heap r !! rp = Some rt → rt_closed rt = false →
    routes r !! rt_hash rt = Some rp;
}.

Lemma router_ok_new Q : router_ok Q NewRouter.
Proof. split; cbn; try (intros ? ? H; by rewrite lookup_empty in H). by intros g ?%not_elem_of_nil. Qed.

(** What does not touch the routes. *)
Lemma router_ok_frame Q Q' r r' :
  routes r' = routes r → route_heap r' = route_heap r → next_route r' = next_route r → attached r' = attached r →
  (∀ rp rt, Q rp rt → Q' rp rt) → router_ok Q r → router_ok Q' r'.
Proof. intros E1 E2 E3 E4 HQ []. split; rewrite ?E1, ?E2, ?E3, ?E4; eauto. Qed.

Lemma router_ok_routeFor Q tc r r' rp :
  router_ok Q r → routeForToolchain md5 tc r = (r', rp) →
  (∀ rp, (∀ rt, route_heap r !! rp ≠ Some rt) → Q rp (newRoute tc (tcHash md5 tc))) →
  router_ok Q r' ∧ hash_at r' rp = Some (tcHash md5 tc) ∧ attached r' = attached r ∧ senders r' = senders r ∧
  (∀ rp h, hash_at r rp = Some h → hash_at r' rp = Some h).
Proof.
  intros Hok E HQ. unfold routeForToolchain in E. destruct (routes r !! _) as [rp0|] eqn:Em; injection E as <- <-.
  { split_and!; try done. destruct (ok_map _ _ Hok _ _ Em) as (rt & Hrt & Hh & _). unfold hash_at. by rewrite Hrt, <- Hh. }
  assert (route_heap r !! next_route r = None) as Hn.
  { apply eq_None_not_Some. intros [rt Hrt]. pose proof (ok_next _ _ Hok _ _ Hrt). lia. }
  split_and!; [|unfold hash_at; cbn; by rewrite lookup_insert_eq|done|done|].
  2: { intros rp h. unfold hash_at. cbn. intros H. rewrite lookup_insert_ne; [done|]. intros <-. by rewrite Hn in H. }
  split; cbn.
  - intros rp rt [[<- <-]|[? Hrt]]%lookup_insert_Some; [apply HQ; by rewrite Hn|by apply (ok_route _ _ Hok)].
  - intros g Hg. destruct (ok_attached _ _ Hok g Hg) as [rt Hrt]. exists rt. rewrite lookup_insert_ne; [done|]. congruence.
  - intros rp rt [[<- <-]|[? Hrt]]%lookup_insert_Some; [lia|]. pose proof (ok_next _ _ Hok _ _ Hrt). lia.
  - intros rp rt [[<- <-]|[? Hrt]]%lookup_insert_Some; [done|by eapply (ok_hash _ _ Hok)].
  - intros h rp [[<- <-]|[? Hh]]%lookup_insert_Some; [rewrite lookup_insert_eq; eauto|].
    destruct (ok_map _ _ Hok _ _ Hh) as (rt & Hrt & ? & ?). exists rt. rewrite lookup_insert_ne; [done|]. congruence.
  - intros rp rt [[<- <-]|[? Hrt]]%lookup_insert_Some Hc; [by rewrite lookup_insert_eq|].
    pose proof (ok_open _ _ Hok _ _ Hrt Hc) as Ho. rewrite lookup_insert_ne; [done|]. congruence.
Qed.

(** A change of a route that leaves its identity alone. *)
Definition keeps_identity (f : route → route) : Prop :=
  ∀ rt, rt_tc (f rt) = rt_tc rt ∧ rt_hash (f rt) = rt_hash rt ∧ rt_closed (f rt) = rt_closed rt.

Lemma hash_at_alter f rp r rp' : keeps_identity f → hash_at (set_heap (alter f rp (route_heap r)) r) rp' = hash_at r rp'.
Proof.
  intros Hf. unfold hash_at. cbn. destruct (decide (rp = rp')) as [->|]; [|by rewrite lookup_alter_ne].
  rewrite lookup_alter_eq. destruct (route_heap r !! rp') as [rt|]; [|done]. cbn. f_equal. apply Hf.
Qed.

(** Changing one route, together with the goroutines. *)
Lemma router_ok_alter Q Q' r rp f att :
  router_ok Q r → is_Some (route_heap r !! rp) → keeps_identity f →
  (∀ g, g ∈ att → g ∈ attached r ∨ route_of g = rp) →
  (∀ rp' rt, rp' ≠ rp → Q rp' rt → Q' rp' rt) → (∀ rt, Q rp rt → Q' rp (f rt)) →
  router_ok Q' (set_attached att (set_heap (alter f rp (route_heap r)) r)).
Proof.
  intros Hok [rt0 Hrp] Hf Hatt Hother Hthis.
  assert (∀ rp' rt', alter f rp (route_heap r) !! rp' = Some rt' →
    ∃ rt, route_heap r !! rp' = Some rt ∧ (rp' = rp ∧ rt' = f rt ∨ rp' ≠ rp ∧ rt' = rt)) as Hal.
  { intros rp' rt'. rewrite lookup_alter_Some. intros [(<- & rt & ? & ?)|[? ?]]; eauto 10. }
  split; cbn.
  - intros rp' rt' (rt & Hrt & [[-> ->]|[? ->]])%Hal; [apply Hthis|apply Hother; [done|]]; by apply (ok_route _ _ Hok).
  - intros g [Hg|Hg]%Hatt; [|rewrite Hg]; apply lookup_alter_is_Some; [by apply (ok_attached _ _ Hok)|eauto].
  - intros rp' rt' (rt & Hrt & _)%Hal. exact (ok_next _ _ Hok _ _ Hrt).
  - intros rp' rt' (rt & Hrt & [[-> ->]|[? ->]])%Hal; destruct (Hf rt) as (Ht & Hh & Hc);
      rewrite ?Hh, ?Ht; by apply (ok_hash _ _ Hok) in Hrt.
  - intros h rp' Hh. destruct (ok_map _ _ Hok _ _ Hh) as (rt & Hrt & Hr & Hc).
    destruct (Hf rt) as (_ & Hh' & Hc'). destruct (decide (rp' = rp)) as [->|Hne].
    + exists (f rt). rewrite lookup_alter_eq, Hrt. cbn. by rewrite Hh', Hc'.
    + exists rt. by rewrite lookup_alter_ne.
  - intros rp' rt' (rt & Hrt & [[-> ->]|[? ->]])%Hal; destruct (Hf rt) as (_ & Hh & Hc);
      rewrite ?Hh, ?Hc; by apply (ok_open _ _ Hok).
Qed.

Lemma router_ok_cleanup Q rp rt0 r :
  router_ok Q r → route_heap r !! rp = Some rt0 → rt_closed rt0 = false →
  (∀ rt, Q rp rt → Q rp (mkRoute (rt_tc rt) (rt_hash rt) (rxRefCount rt) (txRefCount rt) (rt_senders rt)
                   (rt_receivers rt) (rt_cancelled rt) true (rt_used rt))) →
  router_ok Q (cleanup rp r) ∧ ∀ rp', hash_at (cleanup rp r) rp' = hash_at r rp'.
Proof.
  intros Hok E Hc HQ. unfold cleanup, hash_at. rewrite E. pose proof (ok_open _ _ Hok _ _ E Hc) as Hmap.
  split; [|intros rp'; cbn; destruct (decide (rp = rp')) as [<-|]; by rewrite ?lookup_insert_eq, ?lookup_insert_ne, ?E].
  split; cbn.
  - intros rp' rt [[<- <-]|[? Hrt]]%lookup_insert_Some; [|by apply (ok_route _ _ Hok)]. by apply HQ, (ok_route _ _ Hok).
  - intros g Hg. destruct (ok_attached _ _ Hok g Hg) as [rt Hrt].
    destruct (decide (route_of g = rp)) as [->|]; [rewrite lookup_insert_eq|rewrite lookup_insert_ne by done]; eauto.
  - intros rp' rt [[<- <-]|[? Hrt]]%lookup_insert_Some; by eapply (ok_next _ _ Hok).
  - intros rp' rt [[<- <-]|[? Hrt]]%lookup_insert_Some; [exact (ok_hash _ _ Hok _ _ E)|]. by eapply (ok_hash _ _ Hok).
  - intros h rp' [Hne Hh]%lookup_delete_Some. destruct (ok_map _ _ Hok _ _ Hh) as (rt & Hrt & ? & ?).
    exists rt. rewrite lookup_insert_ne; [done|]. intros ->. congruence.
  - intros rp' rt [[<- <-]|[Hne Hrt]]%lookup_insert_Some; cbn; [done|]. intros Hcl.
    pose proof (ok_open _ _ Hok _ _ Hrt Hcl) as Ho. rewrite lookup_delete_ne; [done|]. congruence.
Qed.

(** No goroutine is attached to a route that does not exist yet. *)
Lemma count_fresh Q r rx rp : router_ok Q r → (∀ rt, route_heap r !! rp ≠ Some rt) → count (is_user rx rp) (attached r) = 0.
Proof.
  intros Hok Hn. pose proof (count_nonneg (is_user rx rp) (attached r)).
  destruct (decide (count (is_user rx rp) (attached r) = 0)); [done|].
  destruct (proj1 (count_pos (is_user rx rp) (attached r))) as (g & Hg & Hpg); [lia|].
  destruct (ok_attached _ _ Hok g Hg) as [rt Hrt]. rewrite (is_user_route _ _ _ Hpg) in Hrt. by destruct (Hn rt).
Qed.
End routes.

(** ** The invariant *)

(** A thread that will still look whether the route can be cancelled, or cancel it. *)
Definition closing (rp : nat) (t : thread) : bool :=
  match t with TCheck _ rp' _ | TCancel _ rp' _ => bool_decide (rp' = rp) | _ => false end.

(** The counts count goroutines, modulo 2^32; a used route without goroutines is cancelled, or
    about to be. *)
Definition route_ok (att : list attachment) (ts : list thread) (rp : nat) (rt : route) : Prop :=
  (∀ rx, refCount rx rt = wrap32 (count (is_user rx rp) att)) ∧
  (rt_used rt = true → (∀ rx, count (is_user rx rp) att = 0) →
   rt_cancelled rt = true ∨ ∃ t, t ∈ ts ∧ closing rp t = true).

Section invariant.
Context (md5 : string → string).

(** The user was added with a toolchain of the route's hash. *)
Definition origin (s : RouterSys) (rx : bool) (rp : nat) (uuid : string) : Prop :=
  ∃ tc, (rx, uuid, tc) ∈ added s ∧ hash_at (router s) rp = Some (tcHash md5 tc).

Definition thread_ok (s : RouterSys) (t : thread) : Prop :=
  match t with
  | TAttach rx uuid tcs => ∀ tc, tc ∈ tcs → (rx, uuid, tc) ∈ added s
  | TAdd rx rp uuid tcs | TInc rx rp uuid tcs =>
      origin s rx rp uuid ∧ ∀ tc, tc ∈ tcs → (rx, uuid, tc) ∈ added s
  | TCheck _ rp _ | TCancel _ rp _ | TRemove _ rp _ => is_Some (hash_at (router s) rp)
  | TDrop uuid _ new _ => ∀ tc, tc ∈ new → (false, uuid, tc) ∈ added s
  | TDropCancel rp uuid _ new _ =>
      is_Some (hash_at (router s) rp) ∧ ∀ tc, tc ∈ new → (false, uuid, tc) ∈ added s
  | TLookup _ _ => True
  | THooks rp _ tc | TLoad rp tc | TSend rp tc => hash_at (router s) rp = Some (tcHash md5 tc)
  end.

Record sys_ok (s : RouterSys) : Prop := {
  sys_router : router_ok md5 (route_ok (attached (router s)) (threads s)) (router s);
  sys_threads : ∀ t, t ∈ threads s → thread_ok s t;
  sys_attached : ∀ rx rp uuid, user rx rp uuid ∈ attached (router s) → origin s rx rp uuid;
  sys_handed : ∀ tc uuid, (tc, uuid) ∈ handed s →
    ∃ tc', (true, uuid, tc') ∈ added s ∧ tcHash md5 tc' = tcHash md5 tc;
}.

(** The later state knows what the earlier one knew of hashes and of added users. *)
Definition extends (s s' : RouterSys) : Prop :=
  (∀ rp h, hash_at (router s) rp = Some h → hash_at (router s') rp = Some h) ∧ (∀ a, a ∈ added s → a ∈ added s').

Lemma origin_extends s s' rx rp uuid : extends s s' → origin s rx rp uuid → origin s' rx rp uuid.
Proof. intros [Hh Ha] (tc & ? & ?). exists tc. auto. Qed.

Lemma thread_ok_extends s s' t : extends s s' → thread_ok s t → thread_ok s' t.
Proof.
  intros HE. pose proof HE as [Hh Ha].
  destruct t; cbn; try (intros [? ?]; split); try (by eauto using origin_extends); intros; eauto.
  all: match goal with H : is_Some _ |- _ => destruct H end; eauto.
Qed.

(** Threads that are not closing anything do not matter for [route_ok]. *)
Lemma route_ok_threads att ts ts' rp rt :
  (∀ t, t ∈ ts → closing rp t = true → ∃ t', t' ∈ ts' ∧ closing rp t' = true) →
  route_ok att ts rp rt → route_ok att ts' rp rt.
Proof. intros HT [H1 H2]. split; [done|]. intros Hu Hc. destruct (H2 Hu Hc) as [?|(t & Ht & Hp)]; eauto. Qed.

(** Replacing a thread by one that still closes what it closed keeps [route_ok]. *)
Lemma move_closing t o ts rp x :
  (closing rp t = true → ∃ t', t' ∈ option_list o ∧ closing rp t' = true) → x ∈ ts → closing rp x = true →
  t ∈ ts → ∃ t', t' ∈ option_list o ++ remove_one t ts ∧ closing rp t' = true.
Proof.
  intros HC Hx Hcx Ht. rewrite (remove_one_Permutation t ts Ht) in Hx. apply elem_of_cons in Hx as [->|Hx].
  - destruct (HC Hcx) as (t' & ? & ?). exists t'. split; [|done]. apply elem_of_app. by left.
  - exists x. split; [|done]. apply elem_of_app. by right.
Qed.

Lemma route_ok_swap att t o ts rp rt :
  t ∈ ts → closing rp t = false → route_ok att ts rp rt → route_ok att (option_list o ++ remove_one t ts) rp rt.
Proof. intros Ht Hc. apply route_ok_threads. intros x Hx Hcx. eapply move_closing; [|done..]. by rewrite Hc. Qed.

(** The proof obligation of a step, with what it did to threads, goroutines and routes. *)
Lemma sys_ok_step s s' (new : list thread) :
  sys_ok s → extends s s' → handed s' = handed s →
  router_ok md5 (route_ok (attached (router s')) (threads s')) (router s') →
  (∀ t, t ∈ threads s' → t ∈ threads s ∨ t ∈ new) → (∀ t, t ∈ new → thread_ok s' t) →
  (∀ rx rp uuid, user rx rp uuid ∈ attached (router s') → user rx rp uuid ∈ attached (router s) ∨ origin s' rx rp uuid) →
  sys_ok s'.
Proof.
  intros I HE Hh Hr Ht Hn Ha. split; [done|..].
  - intros t [H|H]%Ht; [|by apply Hn]. eapply thread_ok_extends; [done|]. by apply (sys_threads s I).
  - intros rx rp uuid [H|H]%Ha; [|done]. eapply origin_extends; [done|]. by apply (sys_attached s I).
  - intros tc uuid. rewrite Hh. intros (tc' & ? & ?)%(sys_handed s I). exists tc'. split; [by apply HE|done].
Qed.

(** The locks, the busy receivers, the context, the crash and the answers do not matter. *)
Lemma sys_ok_frame s s' :
  sys_ok s → router s' = router s → threads s' = threads s → added s' = added s → handed s' = handed s → sys_ok s'.
Proof.
  intros I E1 E2 E3 E4. apply (sys_ok_step s _ []); rewrite ?E1, ?E2; try done; [split; by rewrite ?E1, ?E3|by apply I|by left|by intros ? ?%not_elem_of_nil|by left].
Qed.

Lemma move_threads t o s x : x ∈ threads (move t o s) → x ∈ threads s ∨ x ∈ option_list o.
Proof. cbn. intros [?|?%remove_one_subset]%elem_of_app; auto. Qed.

(** A thread moves on, and changes the route [rp] (or nothing). *)
Lemma sys_ok_move s t o f rp :
  sys_ok s → t ∈ threads s → is_Some (hash_at (router s) rp) → keeps_identity f →
  (∀ rp', rp' ≠ rp → closing rp' t = true → ∃ t', t' ∈ option_list o ∧ closing rp' t' = true) →
  (∀ rt, route_heap (router s) !! rp = Some rt → route_ok (attached (router s)) (threads s) rp rt →
    route_ok (attached (router s)) (option_list o ++ remove_one t (threads s)) rp (f rt)) →
  (∀ t', t' ∈ option_list o → thread_ok (on_route f rp s) t') →
  sys_ok (move t o (on_route f rp s)).
Proof.
  intros I Ht Hrp Hf Hc Hthis Hn. apply (sys_ok_step s _ (option_list o)); [done| |done| |apply (move_threads t o (on_route f rp s))| |by left].
  - split; [|done]. intros rp' h. cbn. by rewrite hash_at_alter.
  - apply fmap_is_Some in Hrp. destruct Hrp as [rt0 Hrt0].
    apply (router_ok_alter md5 (λ rp' rt, route_ok (attached (router s)) (threads s) rp' rt ∧ (rp' = rp → rt = rt0)) _
             (router s) rp f (attached (router s))); [|by eexists|done|by left|..].
    + destruct (sys_router s I) as [HQ ? ? ? ? ?]. split; [|done..]. intros rp' rt Hrt. split; [by apply HQ|]. intros ->. congruence.
    + intros rp' rt Hne [HR _]. eapply route_ok_threads; [|exact HR]. intros x Hx Hcx.
      eapply move_closing; [by apply Hc|done..].
    + intros rt [HR E]. rewrite (E eq_refl) in *. by apply Hthis.
  - intros t' Ht'. by apply Hn.
Qed.

(** A thread moves on and touches no route. *)
Lemma sys_ok_plain s t o :
  sys_ok s → t ∈ threads s →
  (∀ rp rt, route_heap (router s) !! rp = Some rt → closing rp t = true →
     (∃ t', t' ∈ option_list o ∧ closing rp t' = true) ∨ ∃ rx, refCount rx rt ≠ 0) →
  (∀ t', t' ∈ option_list o → thread_ok s t') → sys_ok (move t o s).
Proof.
  intros I Ht Hc Hn. apply (sys_ok_step s _ (option_list o)); [done|done|done| |apply move_threads|done|by left].
  destruct (sys_router s I) as [HQ ? ? ? ? ?]. split; [|done..]. intros rp rt Hrt. destruct (HQ rp rt Hrt) as [H1 H2].
  split; [done|]. intros Hu Hz. destruct (H2 Hu Hz) as [?|(x & Hx & Hcx)]; [by left|right].
  eapply move_closing; [|done..]. intros Hct. destruct (Hc rp rt Hrt Hct) as [?|[rx Hrx]]; [done|].
  destruct Hrx. rewrite H1, Hz. done.
Qed.

Lemma sys_ok_lookup s t tc k :
  sys_ok s → t ∈ threads s → (∀ rp, closing rp t = false) →
  (∀ s' rp, extends s s' → hash_at (router s') rp = Some (tcHash md5 tc) → thread_ok s' (k rp)) →
  sys_ok (lookup_route md5 t tc k s).
Proof.
  intros I Ht Hc Hk. unfold lookup_route. destruct (routeForToolchain md5 tc (router s)) as [r rp] eqn:E.
  destruct (router_ok_routeFor md5 _ tc _ _ _ (sys_router s I) E) as (HR & Hh & Ha & _ & Hx).
  { intros rp' Hn. split; [|done]. intros rx. rewrite (count_fresh md5 _ _ rx rp' (sys_router s I) Hn). by destruct rx. }
  assert (extends s (move t (Some (k rp)) (with_router r s))) as HE by by split.
  apply (sys_ok_step s _ [k rp]); [done|done|done| |apply (move_threads t (Some (k rp)) (with_router r s))| |].
  - destruct HR as [HQ ? ? ? ? ?]. split; [|done..]. intros rp' rt Hrt. cbn in Hrt |- *. rewrite Ha.
    eapply route_ok_threads; [|by apply HQ]. intros x Hx' Hcx. apply (move_closing t (Some (k rp)) (threads s) rp' x); [by rewrite Hc|done..].
  - intros t' ->%list_elem_of_singleton. by apply Hk.
  - cbn. rewrite Ha. by left.
Qed.

Lemma refCount_set_count rx rx' used n rt : refCount rx (set_count rx' used n rt) = if bool_decide (rx = rx') then n else refCount rx rt.
Proof. by destruct rx, rx'. Qed.

(** [route_ok] only looks at these fields. *)
Lemma route_ok_same att ts rp rt rt' :
  (∀ rx, refCount rx rt' = refCount rx rt) → rt_used rt' = rt_used rt → (rt_cancelled rt = true → rt_cancelled rt' = true) →
  route_ok att ts rp rt → route_ok att ts rp rt'.
Proof.
  intros H1 H2 H3 [HA HB]. split; [intros rx; by rewrite H1|]. rewrite H2. intros Hu Hc.
  destruct (HB Hu Hc); auto.
Qed.

(** A goroutine is attached: the count and the goroutine together. *)
Lemma sys_ok_inc s rx rp uuid tcs :
  sys_ok s → TInc rx rp uuid tcs ∈ threads s → ∀ s', thread_step md5 (TInc rx rp uuid tcs) s = Some s' → sys_ok s'.
Proof.
  intros I Ht s' [= <-]. destruct (sys_threads s I _ Ht) as [HO Hts]. pose proof HO as (tc & Htc & Hh).
  assert (∀ rp' h, hash_at (router s) rp' = Some h → hash_at (set_heap (alter (incCount rx) rp (route_heap (router s))) (router s)) rp' = Some h) as Hx.
  { intros rp' h. by rewrite hash_at_alter. }
  eapply (sys_ok_step s _ [TAttach rx uuid tcs]); [done|by split|done| | | |].
  - apply (router_ok_alter md5 (route_ok (attached (router s)) (threads s)) _ (router s) rp (incCount rx) (user rx rp uuid :: attached (router s)));
      [apply I|by apply (fmap_is_Some rt_hash); eexists|done| | |].
    + intros g [->|?]%elem_of_cons; [right; apply route_of_user|by left].
    + intros rp' rt Hne [H1 H2]. cbn [attached threads move with_threads router with_router set_attached]. split.
      * intros rx'. by rewrite count_cons, is_user_user, (bool_decide_false (rp = rp')), andb_false_r by congruence.
      * intros Hu Hc. destruct H2 as [?|(x & Hx' & Hcx)]; [done| |by left|].
        { intros rx'. specialize (Hc rx'). by rewrite count_cons, is_user_user, (bool_decide_false (rp = rp')), andb_false_r in Hc by congruence. }
        right. by eapply (move_closing (TInc rx rp uuid tcs) (Some (TAttach rx uuid tcs))).
    + intros rt [H1 _]. cbn [attached threads move with_threads router with_router set_attached]. split.
      * intros rx'. unfold incCount. rewrite refCount_set_count, count_cons, is_user_user, (bool_decide_true (rp = rp)), andb_true_r by done.
        rewrite !H1. case_bool_decide; [subst; rewrite wrap_add by lia; f_equal; lia|done].
      * intros _ Hc. specialize (Hc rx). rewrite count_cons, is_user_user, !bool_decide_true in Hc by done.
        pose proof (count_nonneg (is_user rx rp) (attached (router s))). cbn in Hc. lia.
  - intros t [->|?%remove_one_subset]%elem_of_cons; [right; by left|by left].
  - intros t ->%list_elem_of_singleton. cbn. done.
  - intros rx' rp' uuid' [He|?]%elem_of_cons; [right|by left].
    assert (rx' = rx ∧ rp' = rp ∧ uuid' = uuid) as (-> & -> & ->) by (destruct rx, rx'; by simplify_eq/=).
    exists tc. split; [done|]. cbn. by apply Hx.
Qed.

Lemma free_attached g s : free g s = true → g ∈ attached (router s).
Proof.
  unfold free. intros HF%bool_decide_eq_true. pose proof (count_nonneg (same_as g) (busy s)).
  destruct (proj1 (count_pos (same_as g) (attached (router s)))) as (x & Hx & He); [lia|].
  apply bool_decide_eq_true in He. by subst.
Qed.

(** A receiver takes a request. *)
Lemma sys_ok_hand s rp tc uuid :
  sys_ok s → TSend rp tc ∈ threads s → GReceiver rp uuid ∈ attached (router s) → sys_ok (move (TSend rp tc) None s) →
  sys_ok (answer (Some tc) RouteDone
    (move (TSend rp tc) None (with_handed ((tc, uuid) :: handed s) (with_busy (GReceiver rp uuid :: busy s) s)))).
Proof.
  intros I Ht Hg [HR HT HA HH]. split; [done|done|done|]. intros tc1 uuid1 [[= -> ->]|H]%elem_of_cons; [|by apply HH].
  destruct (sys_attached s I true rp uuid Hg) as (tc' & Htc & Hh). exists tc'. split; [done|].
  pose proof (sys_threads s I _ Ht) as Hs. cbn in Hs. congruence.
Qed.

(** And it counts itself out. *)
Lemma sys_ok_detach s rx rp uuid s' :
  sys_ok s → panicked s = false → sys_step md5 (SDetach rx rp uuid) s = Some s' → sys_ok s'.
Proof.
  intros I HP Hs. unfold sys_step in Hs. rewrite HP in Hs. destruct (free _ s) eqn:HF; [|done]. 
  apply free_attached in HF as Hg.
  injection Hs as <-. destruct (sys_attached s I _ _ _ Hg) as (tc & Htc & Hh).
  set (t := if bool_decide _ then _ else _).
  assert (∀ rp' h, hash_at (router s) rp' = Some h → hash_at (set_heap (alter (decCount rx) rp (route_heap (router s))) (router s)) rp' = Some h) as Hx.
  { intros rp' h. by rewrite hash_at_alter. }
  eapply (sys_ok_step s _ [t]); [done|by split|done| | | |].
  - apply (router_ok_alter md5 (λ rp' rt, route_ok (attached (router s)) (threads s) rp' rt ∧ (rp' = rp → route_heap (router s) !! rp = Some rt)) _
             (router s) rp (decCount rx) (remove_one (user rx rp uuid) (attached (router s))));
      [|by apply (fmap_is_Some rt_hash); eexists|done| | |].
    + destruct (sys_router s I) as [HQ ? ? ? ? ?]. split; [|done..]. intros rp' rt Hrt. split; [by apply HQ|]. by intros ->.
    + intros g ?%remove_one_subset. by left.
    + intros rp' rt Hne [[H1 H2] _]. cbn [attached threads spawn with_threads router with_router set_attached]. 
      assert (∀ rx', count (is_user rx' rp') (remove_one (user rx rp uuid) (attached (router s))) = count (is_user rx' rp') (attached (router s))) as E.
      { intros rx'. by rewrite count_remove_one, is_user_user, (bool_decide_false (rp = rp')), andb_false_r, Z.sub_0_r by congruence. }
      split; [intros rx'; by rewrite E|]. intros Hu Hc. destruct H2 as [?|(x & Hx' & Hcx)]; [done|intros rx'; by rewrite <- E|by left|].
      right. exists x. split; [by right|done].
    + intros rt [[H1 _] Hrt]. specialize (Hrt eq_refl). cbn [attached threads spawn with_threads router with_router set_attached].
      assert (∀ rx', refCount rx' (decCount rx rt) = wrap32 (count (is_user rx' rp) (remove_one (user rx rp uuid) (attached (router s))))) as E.
      { intros rx'. unfold decCount. rewrite refCount_set_count, count_remove_one, is_user_user, (bool_decide_true (rp = rp)), andb_true_r by done.
        rewrite !H1. case_bool_decide; [subst; by rewrite wrap_sub by lia|by rewrite Z.sub_0_r]. }
      split; [done|]. intros _ Hc. right. exists t. split; [by left|]. unfold t, count_of. cbn. rewrite lookup_alter_eq, Hrt. cbn.
      rewrite E, (Hc rx). cbn. by apply bool_decide_eq_true.
  - intros x [->|?]%elem_of_cons; [right; by left|by left].
  - intros x ->%list_elem_of_singleton. unfold t. case_bool_decide; cbn; eexists; by apply Hx.
  - intros rx' rp' uuid' ?%remove_one_subset. by left.
Qed.

Lemma sys_ok_thread t s s' : sys_ok s → t ∈ threads s → thread_step md5 t s = Some s' → sys_ok s'.
Proof.
  intros I Ht Hs. pose proof (sys_threads s I _ Ht) as HT.
  assert (∀ f rp, keeps_identity f → extends s (on_route f rp s)) as Hx.
  { intros f rp Hf. split; [|done]. intros rp' h. cbn. by rewrite hash_at_alter. }
  destruct t as [rx uuid [|tc tcs]|rx rp uuid tcs|rx rp uuid tcs|rx rp uuid|rx rp uuid|rx rp uuid|uuid old new [|tc rest]
    |rp uuid old new rest|actions tc|rp actions tc|rp tc|rp tc]; try (by eapply sys_ok_inc); cbn [thread_step] in Hs.
  - injection Hs as <-. apply (sys_ok_frame (move (TAttach rx uuid []) None s)); [|done..]. apply sys_ok_plain; [done..|by intros ? ? ? ?|by intros ? ?%not_elem_of_nil].
  - injection Hs as <-. apply sys_ok_lookup; [done..|]. intros s' rp [HE1 HE2] Hh. split.
    + exists tc. split; [|done]. apply HE2, HT. by left.
    + intros tc' ?. apply HE2, HT. by right.
  - injection Hs as <-. destruct HT as [HO HT]. pose proof HO as (tc & _ & Hh).
    apply sys_ok_move; [done|done|by eexists|done|done| |].
    + intros rt _ HR. apply (route_ok_same _ _ _ rt); [by intros []|done|done|]. by apply (route_ok_swap _ _ (Some _)).
    + intros t ->%list_elem_of_singleton. split; [by eapply origin_extends; [apply Hx|]|done].
  - injection Hs as <-. apply sys_ok_plain; [done..| |intros t ->%list_elem_of_singleton; by case_bool_decide].
    intros rp' rt Hrt Hc. cbn in Hc. apply bool_decide_eq_true in Hc as <-. unfold count_of. rewrite Hrt. cbn.
    case_bool_decide; [left|right; exists (negb rx); lia]. eexists. split; [by left|]. by apply bool_decide_eq_true.
  - injection Hs as <-. apply sys_ok_move; [done..| | |].
    + intros rp' Hne Hc. cbn in Hc. by apply bool_decide_eq_true in Hc as <-.
    + intros rt _ [H1 _]. split; [by intros []; rewrite <- H1|]. by left.
    + intros t ->%list_elem_of_singleton. by eapply thread_ok_extends; [apply Hx|exact HT].
  - injection Hs as <-. apply sys_ok_move; [done..| |by intros t ?%not_elem_of_nil].
    intros rt _ HR. apply (route_ok_same _ _ _ rt); [by intros []|done|done|]. by apply (route_ok_swap _ _ None).
  - injection Hs as <-. eapply (sys_ok_step s _ [TAttach false uuid (deferred old new)]); [done..| | | |by left].
    + eapply router_ok_frame; [..|apply I]; [done..|]. intros rp rt HR. by apply (route_ok_swap _ _ (Some _)).
    + intros t [->|?%remove_one_subset]%elem_of_cons; [right; by left|by left].
    + intros t ->%list_elem_of_singleton. cbn. intros tc Htc. apply HT. unfold deferred in Htc.
      destruct (last new) as [tc'|] eqn:El; [|by apply not_elem_of_nil in Htc].
      apply elem_of_replicate in Htc as [-> _]. by apply last_Some_elem_of.
  - destruct (equivalent_in tc new); injection Hs as <-.
    + apply sys_ok_plain; [done..|by intros ? ? ? ?|]. by intros t ->%list_elem_of_singleton.
    + apply sys_ok_lookup; [done..|]. intros s' rp [HE1 HE2] Hh. split; [by eexists|]. auto.
  - injection Hs as <-. destruct HT as [Hrp HT]. apply sys_ok_move; [done..| |].
    + intros rt _ HR. apply (route_ok_same _ _ _ rt); [by intros []|done|done|]. by apply (route_ok_swap _ _ (Some _)).
    + by intros t ->%list_elem_of_singleton.
  - injection Hs as <-. apply sys_ok_lookup; [done..|]. by intros s' rp _ Hh.
  - destruct (run_hooks actions) as [res|]; injection Hs as <-.
    + apply (sys_ok_frame (move (THooks rp actions tc) None s)); [|done..].
      apply sys_ok_plain; [done..|by intros ? ? ? ?|by intros ? ?%not_elem_of_nil].
    + apply sys_ok_plain; [done..|by intros ? ? ? ?|]. by intros t ->%list_elem_of_singleton.
  - case_bool_decide; injection Hs as <-.
    + apply (sys_ok_frame (move (TLoad rp tc) None s)); [|done..].
      apply sys_ok_plain; [done..|by intros ? ? ? ?|by intros ? ?%not_elem_of_nil].
    + apply sys_ok_plain; [done..|by intros ? ? ? ?|]. by intros t ->%list_elem_of_singleton.
  - destruct (route_heap (router s) !! rp) as [rt|]; [|done]. destruct (rt_closed rt); [|done]. injection Hs as <-.
    by apply (sys_ok_frame s).
Qed.

(** A new thread that closes nothing. *)
Lemma sys_ok_spawn s t s' :
  sys_ok s → extends s s' → handed s' = handed s → router_ok md5 (route_ok (attached (router s)) (threads s)) (router s') →
  attached (router s') = attached (router s) → threads s' = t :: threads s → thread_ok s' t → sys_ok s'.
Proof.
  intros I HE Hh HR Ha Ht Hn. apply (sys_ok_step s _ [t]); [done|done|done| | | |]; rewrite ?Ha, ?Ht.
  - eapply router_ok_frame; [..|exact HR]; try done. intros rp rt. apply route_ok_threads. intros x Hx Hc. exists x. by split; [right|].
  - intros x [->|?]%elem_of_cons; [right; by left|by left].
  - by intros x ->%list_elem_of_singleton.
  - by left.
Qed.

Lemma note_added_in rx uuid tcs s tc : tc ∈ tcs → (rx, uuid, tc) ∈ added (note_added rx uuid tcs s).
Proof. intros H. apply elem_of_app. left. apply list_elem_of_fmap. by exists tc. Qed.

Lemma sys_ok_sys_step l s s' : sys_ok s → sys_step md5 l s = Some s' → sys_ok s'.
Proof.
  intros I Hs. destruct (panicked s) eqn:HP; [unfold sys_step in Hs; by rewrite HP in Hs|].
  destruct l as [uuid tcs|uuid tcs|uuid tcs|actions [tc|]|t|rp tc uuid|g|rp tc err|rx rp uuid|rp|];
    try (by eapply sys_ok_detach); unfold sys_step in Hs; rewrite HP in Hs.
  - destruct (sendersMutex s); [done|]. injection Hs as <-.
    apply (sys_ok_spawn s (TAttach false uuid tcs)); [done| |done| |done|done|intros tc; by apply (note_added_in _ _ _ s)].
    + split; [done|]. intros a Ha. apply elem_of_app. by right.
    + eapply router_ok_frame; [..|apply I]; done.
  - destruct (receiversMutex s); [done|]. injection Hs as <-.
    apply (sys_ok_spawn s (TAttach true uuid tcs)); [done| |done| |done|done|intros tc; by apply (note_added_in _ _ _ s)].
    + split; [done|]. intros a Ha. apply elem_of_app. by right.
    + eapply router_ok_frame; [..|apply I]; done.
  - destruct (sendersMutex s); [done|]. destruct (senders (router s) !! uuid) as [old|]; injection Hs as <-; [|done].
    apply (sys_ok_spawn s (TDrop uuid old tcs old)); [done| |done|apply I|done|done|intros tc; by apply (note_added_in _ _ _ s)].
    split; [done|]. intros a Ha. apply elem_of_app. by right.
  - injection Hs as <-. by apply (sys_ok_spawn s (TLookup actions tc)); [..|apply I| | |].
  - injection Hs as <-. by apply (sys_ok_frame s).
  - case_bool_decide as Ht; [|done]. by eapply sys_ok_thread.
  - destruct (bool_decide_reflect (TSend rp tc ∈ threads s)) as [Ht|]; [|done]. destruct (free _ s) eqn:HF; [|done].
    destruct (open_route rp s); [|done]. injection Hs as <-. apply free_attached in HF.
    apply (sys_ok_hand s rp tc uuid); [done..|]. by apply (sys_ok_plain s); [..|by intros ? ? ? ?|by intros ? ?%not_elem_of_nil].
  - case_bool_decide; [|done]. injection Hs as <-. by apply (sys_ok_frame s).
  - case_bool_decide; [|done]. injection Hs as <-. apply (sys_ok_frame (move (TSend rp tc) None s)); [|done..].
    by apply sys_ok_plain; [..|by intros ? ? ? ?|by intros ? ?%not_elem_of_nil].
  - destruct (route_heap (router s) !! rp) as [rt|] eqn:Hrt; [|done].
    destruct (rt_cancelled rt || sys_done s); [|done]. destruct (rt_closed rt) eqn:Hc; [done|]. injection Hs as <-.
    destruct (router_ok_cleanup md5 _ rp rt (router s) (sys_router s I) Hrt Hc) as [HR Hh].
    { intros rt' HR. by apply (route_ok_same _ _ _ rt'); [intros []|..]. }
    assert (attached (cleanup rp (router s)) = attached (router s)) as Ha by (unfold cleanup; by rewrite Hrt).
    apply (sys_ok_step s _ []); [done| |done| |by left|by intros ? ?%not_elem_of_nil|]; cbn [router with_router threads]; rewrite ?Ha.
    + split; [|done]. intros rp' h. cbn. by rewrite Hh.
    + done.
    + by left.
  - injection Hs as <-. by apply (sys_ok_frame s).
Qed.

Lemma sys_reachable_ok s : sys_reachable md5 s → sys_ok s.
Proof.
  apply reach_inv; [intros ? ->|by intros ? l ? ? _; apply sys_ok_sys_step].
  split; cbn; [apply router_ok_new|..]; intros; by match goal with H : _ ∈ [] |- _ => apply not_elem_of_nil in H end.
Qed.
End invariant.


(** C11: In every interleaving of the steps of the router's methods and goroutines, the two
    reference counts of a route are the numbers of receiver and sender goroutines attached to
    it (modulo 2^32); a route that was used and has none left is cancelled, or the goroutine
    that will find both counts at zero has yet to check or to cancel it (a route that was
    only looked up is never cancelled this way); and the route map holds exactly the routes
    whose channel is open, each under the hash of its toolchain. *)
Theorem router_refcounts (md5 : string → string) (s : RouterSys) (rp : nat) (rt : route)
    (Hs : sys_reachable md5 s) (Hrt : route_heap (router s) !! rp = Some rt) :
  let users rx := count (is_user rx rp) (attached (router s)) in
  rxRefCount rt = wrap32 (users true) ∧ txRefCount rt = wrap32 (users false) ∧
  (rt_used rt = true → users true = 0 → users false = 0 →
   rt_cancelled rt = true ∨ ∃ t, t ∈ threads s ∧ closing rp t = true) ∧
  (rt_closed rt = false ↔ routes (router s) !! tcHash md5 (rt_tc rt) = Some rp).
Proof.
  cbn zeta. pose proof (sys_router md5 s (sys_reachable_ok md5 s Hs)) as Hok.
  destruct (ok_route _ _ _ Hok _ _ Hrt) as [HC HU]. split_and!; [apply (HC true)|apply (HC false)| |].
  - intros Hu H1 H2. apply HU; [done|]. by intros [].
  - rewrite <- (ok_hash _ _ _ Hok _ _ Hrt). split; [by apply (ok_open _ _ _ Hok)|].
    intros Hm. destruct (ok_map _ _ _ Hok _ _ Hm) as (rt' & ? & _ & ?). by simplify_eq.
Qed.

Lemma wrap32_nonzero n : 0 < n < 2 ^ 32 → wrap32 n ≠ 0.
Proof.
  unfold wrap. change (2 ^ (32 - 1)) with 2147483648. change (2 ^ 32) with 4294967296. intros Hn E.
  pose proof (Z.div_mod (n + 2147483648) 4294967296). lia.
Qed.

(** C12: A request reaches only agents that can run it: every request that [Route] handed over
    went to an agent that was added with a toolchain of the same hash. And [Route] looks for
    agents as its error says: when it loads the count of the route of the request's toolchain
    and no receiver is attached to that route it answers [ErrNoAgents], and when between 1
    and 2^32 - 1 are attached it goes on to send on that route. (All hooks let the request
    pass by then. That the route is still open at the send is not guaranteed:
    [Route_send_panics].) *)
Theorem Route_finds_agent (md5 : string → string) (s : RouterSys) (Hs : sys_reachable md5 s) :
  (∀ tc uuid, (tc, uuid) ∈ handed s → ∃ tc', (true, uuid, tc') ∈ added s ∧ tcHash md5 tc' = tcHash md5 tc) ∧
  (∀ rp tc, TLoad rp tc ∈ threads s → panicked s = false →
     let n := count (is_rx rp) (attached (router s)) in
     hash_at (router s) rp = Some (tcHash md5 tc) ∧
     ∃ s', sys_step md5 (SThread (TLoad rp tc)) s = Some s' ∧
       (n = 0 → answers s' = (Some tc, RouteError ErrNoAgents) :: answers s) ∧
       (0 < n < 2 ^ 32 → TSend rp tc ∈ threads s' ∧ answers s' = answers s)).
Proof.
  pose proof (sys_reachable_ok md5 s Hs) as I. split; [apply (sys_handed md5 s I)|]. intros rp tc Ht HP n.
  pose proof (sys_threads md5 s I _ Ht) as Hh. cbn in Hh. split; [done|].
  unfold sys_step. rewrite HP, bool_decide_true by done. cbn [thread_step]. unfold count_of.
  unfold hash_at in Hh. apply fmap_Some in Hh as (rt & Hrt & _). rewrite Hrt. cbn [from_option].
  destruct (ok_route _ _ _ (sys_router md5 s I) _ _ Hrt) as [HC _]. rewrite (HC true). change (count (is_user true rp) _) with n.
  case_bool_decide as E; (eexists; split; [done|]); (split; [intros Hn|intros Hn]); [done| | |].
  - exfalso. by apply (wrap32_nonzero n).
  - by rewrite Hn in E.
  - split; [by left|done].
Qed.

(** ** Methods that run undisturbed are schedules *)

Section schedules.
Context (md5 : string → string).

(** Nothing is under way; the router is [r]. *)
Record quiet (r : Router) (s : RouterSys) : Prop := {
  quiet_reach : sys_reachable md5 s;
  quiet_router : router s = r;
  quiet_threads : threads s = [];
  quiet_senders : sendersMutex s = false;
  quiet_receivers : receiversMutex s = false;
  quiet_busy : busy s = [];
  quiet_panicked : panicked s = false;
}.

(** One thread is under way. *)
Record alone (t : thread) (m1 m2 : bool) (r : Router) (s : RouterSys) : Prop := {
  alone_reach : sys_reachable md5 s;
  alone_router : router s = r;
  alone_threads : threads s = [t];
  alone_senders : sendersMutex s = m1;
  alone_receivers : receiversMutex s = m2;
  alone_busy : busy s = [];
  alone_panicked : panicked s = false;
}.

Lemma reach_thread t s s' :
  sys_reachable md5 s → panicked s = false → t ∈ threads s → thread_step md5 t s = Some s' → sys_reachable md5 s'.
Proof.
  intros HR HP Ht Hs. eapply (reach_step _ _ _ _ (SThread t)); [done|done|]. unfold sys_step. by rewrite HP, bool_decide_true.
Qed.

Lemma remove_one_single (t : thread) : remove_one t [t] = [].
Proof. cbn. by rewrite decide_True. Qed.

Lemma alone_step t t' m1 m2 r s s' :
  alone t m1 m2 r s → thread_step md5 t s = Some s' → threads s' = option_list (Some t') ++ remove_one t (threads s) →
  (sendersMutex s' = sendersMutex s ∧ receiversMutex s' = receiversMutex s) → busy s' = busy s → panicked s' = panicked s →
  alone t' m1 m2 (router s') s'.
Proof.
  intros [HR Er Et Em1 Em2 Eb Ep] Hs Ht [Hm1 Hm2] Hb Hp. split; try congruence.
  - eapply reach_thread; [done|done|rewrite Et; by left|done].
  - by rewrite Ht, Et, remove_one_single.
Qed.

Lemma alone_lookup t tc k m1 m2 r s r1 rp :
  alone t m1 m2 r s → thread_step md5 t s = Some (lookup_route md5 t tc k s) → routeForToolchain md5 tc r = (r1, rp) →
  ∃ s', alone (k rp) m1 m2 r1 s'.
Proof.
  intros HA Hs E. unfold lookup_route in Hs. rewrite (alone_router _ _ _ _ _ HA), E in Hs.
  eexists. eapply (alone_step t (k rp) m1 m2 r s (move t (Some (k rp)) (with_router r1 s))); try done.
Qed.

Lemma alter_alter (f g : route → route) rp (h : gmap nat route) : alter f rp (alter g rp h) = alter (λ rt, f (g rt)) rp h.
Proof.
  apply map_eq. intros i. destruct (decide (rp = i)) as [->|]; [|by rewrite !lookup_alter_ne].
  rewrite !lookup_alter_eq. by destruct (h !! i).
Qed.

Lemma attach_eq (rx : bool) rp uuid r :
  (if rx then attachReceiver else attachSender) rp uuid r =
  set_attached (user rx rp uuid :: attached r)
    (set_heap (alter (incCount rx) rp (alter (addUser rx uuid) rp (route_heap r))) (set_heap (alter (addUser rx uuid) rp (route_heap r)) r)).
Proof. destruct rx; cbn; unfold attachReceiver, attachSender; by rewrite alter_alter. Qed.

(** The attaching loop. *)
Lemma alone_attach rx uuid tcs r s :
  alone (TAttach rx uuid tcs) (negb rx) rx r s →
  ∃ s', quiet (attach_all md5 (if rx then attachReceiver else attachSender) uuid tcs r) s'.
Proof.
  revert r s. induction tcs as [|tc tcs IH]; intros r s HA.
  - destruct HA as [HR <- Et E1 E2 Eb Ep]. exists (with_mutex rx false (move (TAttach rx uuid []) None s)).
    split; cbn; rewrite ?Et, ?remove_one_single; try done; [|by destruct rx..].
    eapply reach_thread; [done|done|rewrite Et; by left|done].
  - cbn [attach_all]. destruct (routeForToolchain md5 tc r) as [r1 rp] eqn:E.
    destruct (alone_lookup _ tc (λ rp, TAdd rx rp uuid tcs) _ _ r s r1 rp HA eq_refl E) as [s1 H1].
    pose proof (alone_step _ (TInc rx rp uuid tcs) _ _ _ _ _ H1 eq_refl eq_refl (conj eq_refl eq_refl) eq_refl eq_refl) as H2.
    pose proof (alone_step _ (TAttach rx uuid tcs) _ _ _ _ _ H2 eq_refl eq_refl (conj eq_refl eq_refl) eq_refl eq_refl) as H3.
    cbn [router with_router move with_threads on_route] in H3. rewrite (alone_router _ _ _ _ _ H1) in H3.
    cbn [route_heap set_heap attached set_attached] in H3.
    rewrite attach_eq. by eapply IH.
Qed.

(** The loop over the toolchains that a daemon dropped. *)
Lemma alone_drop uuid old new rest r s :
  alone (TDrop uuid old new rest) true false r s →
  ∃ s', alone (TDrop uuid old new []) true false (cancel_removed md5 rest new r) s'.
Proof.
  revert r s. induction rest as [|tc rest IH]; intros r s HA; [by exists s|]. cbn [cancel_removed].
  destruct (equivalent_in tc new) eqn:Eq.
  - eapply IH. rewrite <- (alone_router _ _ _ _ _ HA).
    apply (alone_step _ (TDrop uuid old new rest) _ _ _ _ (move (TDrop uuid old new (tc :: rest)) (Some (TDrop uuid old new rest)) s) HA);
      [cbn; by rewrite Eq|done..].
  - destruct (routeForToolchain md5 tc r) as [r1 rp] eqn:E.
    destruct (alone_lookup _ tc (λ rp, TDropCancel rp uuid old new rest) _ _ r s r1 rp HA) as [s1 H1]; [cbn; by rewrite Eq|done|].
    pose proof (alone_step _ (TDrop uuid old new rest) _ _ _ _ _ H1 eq_refl eq_refl (conj eq_refl eq_refl) eq_refl eq_refl) as H2.
    cbn [router with_router move with_threads on_route] in H2. rewrite (alone_router _ _ _ _ _ H1) in H2. by eapply IH.
Qed.

Lemma quiet_alone t m1 m2 r s r' s' l :
  quiet r s → sys_step md5 l s = Some s' → router s' = r' → threads s' = t :: threads s →
  sendersMutex s' = m1 → receiversMutex s' = m2 → busy s' = busy s → panicked s' = false → alone t m1 m2 r' s'.
Proof.
  intros [HR Er Et E1 E2 Eb Ep] Hs Hr Ht Hm1 Hm2 Hb Hp. split; try congruence. by eapply reach_step.
Qed.

Lemma quiet_update uuid tcs r s : quiet r s → ∃ s', quiet (UpdateSenderToolchains md5 uuid tcs r) s'.
Proof.
  intros HQ. unfold UpdateSenderToolchains. destruct (senders r !! uuid) as [old|] eqn:E; [|by exists s].
  pose proof HQ as [HR Er Et E1 E2 Eb Ep].
  assert (alone (TDrop uuid old tcs old) true false r (spawn (TDrop uuid old tcs old) (with_mutex false true (note_added false uuid tcs s)))) as H1.
  { apply (quiet_alone _ _ _ r s _ _ (SUpdate uuid tcs)); try done. unfold sys_step. by rewrite Ep, E1, Er, E. }
  apply alone_drop in H1 as [s1 H1].
  pose proof (alone_step _ (TAttach false uuid (deferred old tcs)) _ _ _ _ _ H1 eq_refl eq_refl (conj eq_refl eq_refl) eq_refl eq_refl) as H2.
  cbn [router with_router move with_threads] in H2. rewrite (alone_router _ _ _ _ _ H1) in H2. apply alone_attach in H2.
  unfold deferred in H2. by destruct (last tcs).
Qed.

Lemma detach_user rx rp uuid r :
  detach (user rx rp uuid) r =
  set_heap (alter (decRefCount rx uuid) rp (route_heap r)) (set_attached (remove_one (user rx rp uuid) (attached r)) r).
Proof. by destruct rx. Qed.

(** The last step of a goroutine. *)
Lemma quiet_remove rx rp uuid r s :
  alone (TRemove rx rp uuid) false false r s →
  quiet (set_heap (alter (removeUser rx uuid) rp (route_heap r)) r) (move (TRemove rx rp uuid) None (on_route (removeUser rx uuid) rp s)).
Proof.
  intros [HR <- Et E1 E2 Eb Ep]. split; cbn; rewrite ?Et, ?remove_one_single; try done.
  eapply reach_thread; [done|done|rewrite Et; by left|done].
Qed.

(** A goroutine that ends. *)
Lemma quiet_detach g r s : quiet r s → g ∈ attached r → ∃ s', quiet (detach g r) s'.
Proof.
  intros HQ Hg. assert (∃ rx rp uuid, g = user rx rp uuid) as (rx & rp & uuid & ->) by (destruct g; [by exists false, rp, uuid|by exists true, rp, uuid]).
  pose proof HQ as [HR Er Et E1 E2 Eb Ep].
  destruct (ok_attached _ _ _ (sys_router md5 s (sys_reachable_ok md5 s HR)) (user rx rp uuid)) as [rt Hrt]; [by rewrite Er|].
  rewrite route_of_user, Er in Hrt.
  assert (free (user rx rp uuid) s = true) as HF.
  { unfold free. rewrite Eb, Er. apply bool_decide_eq_true, count_pos. eexists. split; [done|]. by apply bool_decide_eq_true. }
  set (r1 := set_attached (remove_one (user rx rp uuid) (attached r)) (set_heap (alter (decCount rx) rp (route_heap r)) r)).
  assert (route_heap r1 !! rp = Some (decCount rx rt)) as Hr1 by (cbn; by rewrite lookup_alter_eq, Hrt).
  assert (∃ s1, alone (if bool_decide (refCount rx (decCount rx rt) ≤ 0) then TCheck rx rp uuid else TRemove rx rp uuid) false false r1 s1) as [s1 H1].
  { assert (from_option (refCount rx) 0 (route_heap r1 !! rp) = refCount rx (decCount rx rt)) as <- by by rewrite Hr1.
    subst r1. rewrite <- Er. eexists. apply (quiet_alone _ _ _ r s _ _ (SDetach rx rp uuid) HQ);
      [unfold sys_step; rewrite Ep, HF; reflexivity|done|done|exact E1|exact E2|done|exact Ep]. }
  set (rt' := if bool_decide (refCount rx (decCount rx rt) ≤ 0) then
       if bool_decide (refCount (negb rx) (decCount rx rt) ≤ 0) then cancel (decCount rx rt) else decCount rx rt else decCount rx rt).
  assert (∃ r2 s2, alone (TRemove rx rp uuid) false false r2 s2 ∧ r2 = set_heap (<[rp := rt']> (route_heap r1)) r1) as (r2 & s2 & H2 & Er2).
  { assert (∀ x, r1 = x → x = set_heap (<[rp := decCount rx rt]> (route_heap r1)) r1) as Hid.
    { intros x <-. rewrite (insert_id _ _ _ Hr1). done. }
    subst rt'. case_bool_decide; [|exists r1, s1; by auto].
    epose proof (alone_step _ _ _ _ _ _ _ H1 eq_refl eq_refl (conj eq_refl eq_refl) eq_refl eq_refl) as H2. cbn [router move with_threads] in H2.
    unfold count_of in H2. rewrite (alone_router _ _ _ _ _ H1), Hr1 in H2. cbn [from_option] in H2. case_bool_decide; [|eexists _, _; by eauto].
    pose proof (alone_step _ (TRemove rx rp uuid) _ _ _ _ _ H2 eq_refl eq_refl (conj eq_refl eq_refl) eq_refl eq_refl) as H3.
    cbn [router move with_threads on_route with_router] in H3. rewrite (alone_router _ _ _ _ _ H1) in H3.
    eexists _, _. split; [exact H3|]. f_equal. apply map_eq. intros i. destruct (decide (rp = i)) as [<-|];
      [by rewrite lookup_alter_eq, lookup_insert_eq, Hr1|by rewrite lookup_alter_ne, lookup_insert_ne]. }
  exists (move (TRemove rx rp uuid) None (on_route (removeUser rx uuid) rp s2)).
  assert (detach (user rx rp uuid) r = set_heap (alter (removeUser rx uuid) rp (route_heap r2)) r2) as ->; [|by eapply quiet_remove].
  rewrite Er2, detach_user. unfold set_heap, set_attached. cbn. f_equal. apply map_eq. intros i. destruct (decide (rp = i)) as [<-|].
  - by rewrite !lookup_alter_eq, lookup_insert_eq, Hrt.
  - by rewrite !lookup_alter_ne, lookup_insert_ne, lookup_alter_ne.
Qed.

Lemma quiet_attach rx uuid tcs r r' s l :
  quiet r s → sys_step md5 l s = Some (spawn (TAttach rx uuid tcs) (with_mutex rx true (note_added rx uuid tcs (with_router r' s)))) →
  ∃ s', quiet (attach_all md5 (if rx then attachReceiver else attachSender) uuid tcs r') s'.
Proof.
  intros HQ Hs. pose proof HQ as [HR Er Et E1 E2 Eb Ep]. eapply alone_attach, (quiet_alone _ _ _ r s _ _ l HQ); [exact Hs|done|done|..]; try done.
  all: by destruct rx.
Qed.

(** The thread of a call of [Route] ends with an answer. *)
Lemma alone_answer t tc r res s l :
  alone t false false r s → sys_step md5 l s = Some (answer tc res (move t None s)) → quiet r (answer tc res (move t None s)).
Proof.
  intros [HR <- Et E1 E2 Eb Ep] Hs. split; cbn; rewrite ?Et, ?remove_one_single; try done. by eapply reach_step.
Qed.

Lemma quiet_route actions tc r s : quiet r s → ∃ s', quiet (Route md5 actions tc r).1 s'.
Proof.
  intros HQ. pose proof HQ as [HR Er Et E1 E2 Eb Ep]. unfold Route. destruct tc as [tc|]; [|by exists s].
  destruct (routeForToolchain md5 tc r) as [r1 rp] eqn:E.
  assert (alone (TLookup actions tc) false false r (spawn (TLookup actions tc) s)) as H0.
  { apply (quiet_alone _ _ _ r s _ _ (SRoute actions (Some tc)) HQ); try done. unfold sys_step. by rewrite Ep. }
  destruct (alone_lookup _ tc (λ rp, THooks rp actions tc) _ _ r _ r1 rp H0 eq_refl E) as [s1 H1].
  destruct (run_hooks actions) as [res|] eqn:EH.
  { eexists. eapply (alone_answer _ _ _ res _ (SThread (THooks rp actions tc)) H1). unfold sys_step.
    rewrite (alone_panicked _ _ _ _ _ H1), (alone_threads _ _ _ _ _ H1), bool_decide_true by by left. cbn. by rewrite EH. }
  assert (∃ s2, alone (TLoad rp tc) false false r1 s2) as [s2 H2].
  { eexists. rewrite <- (alone_router _ _ _ _ _ H1). eapply (alone_step _ (TLoad rp tc) _ _ _ _ (move _ (Some (TLoad rp tc)) s1) H1); try done. cbn. by rewrite EH. }
  assert (∀ b : bool, (if b then (r1, RouteError ErrNoAgents) else (r1, RouteBlocked rp)).1 = r1) as -> by by intros [].
  destruct (bool_decide_reflect (count_of true rp s2 = 0)) as [Hz|Hz].
  { eexists. eapply (alone_answer _ _ _ (RouteError ErrNoAgents) _ (SThread (TLoad rp tc)) H2). unfold sys_step.
    rewrite (alone_panicked _ _ _ _ _ H2), (alone_threads _ _ _ _ _ H2), bool_decide_true by by left. cbn [thread_step]. by rewrite bool_decide_true. }
  assert (∃ s3, alone (TSend rp tc) false false r1 s3) as [s3 H3].
  { eexists. rewrite <- (alone_router _ _ _ _ _ H2). eapply (alone_step _ (TSend rp tc) _ _ _ _ (move _ (Some (TSend rp tc)) s2) H2); try done.
    cbn [thread_step]. by rewrite bool_decide_false. }
  eexists. eapply (alone_answer _ _ _ (RouteError ErrNoAgents) _ (SExpire rp tc ErrNoAgents) H3). unfold sys_step.
  by rewrite (alone_panicked _ _ _ _ _ H3), (alone_threads _ _ _ _ _ H3), bool_decide_true by by left.
Qed.

Lemma quiet_step l r r' s : quiet r s → rstep md5 l r = Some r' → ∃ s', quiet r' s'.
Proof.
  intros HQ. pose proof HQ as [HR Er Et E1 E2 Eb Ep].
  destruct l as [uuid tcs|uuid tcs|uuid tcs|actions tc|g|rp]; cbn [rstep]; intros Hs.
  - injection Hs as <-. apply (quiet_attach false uuid tcs r _ s (SAddSender uuid tcs) HQ). unfold sys_step. by rewrite Ep, E1, Er.
  - injection Hs as <-. apply (quiet_attach true uuid tcs r _ s (SAddReceiver uuid tcs) HQ). unfold sys_step. by rewrite Ep, E2, Er.
  - injection Hs as <-. by eapply quiet_update.
  - injection Hs as <-. by eapply quiet_route.
  - case_bool_decide; [|done]. injection Hs as <-. by eapply quiet_detach.
  - unfold may_cleanup in Hs. destruct (route_heap r !! rp) as [rt|] eqn:Hrt; [|done].
    destruct (rt_cancelled rt) eqn:Hc; [|done]. destruct (rt_closed rt) eqn:Hcl; [done|]. injection Hs as <-.
    exists (with_router (cleanup rp r) s). split; try done. eapply (reach_step _ _ _ _ (SCleanup rp)); [done|done|].
    unfold sys_step. by rewrite Ep, Er, Hrt, Hc, Hcl.
Qed.

(** The methods that run undisturbed are schedules: every router that [rstep] reaches is the
    router of a state that the steps reach, with no goroutine under way. *)
Theorem methods_are_schedules (r : Router) (HR : router_reachable md5 r) : ∃ s, quiet r s.
Proof.
  induction HR as [? ->|r l r' _ [s HQ] _ Hs]; [|by eapply quiet_step].
  exists NewSys. split; try done. by apply reach_init.
Qed.
End schedules.

(** ** Schedules *)

Definition after_sys : list slabel → RouterSys := after_run (sys_step id) NewSys.
Lemma after_sys_reachable ls : sys_reachable id (after_sys ls).
Proof. apply after_run_reach; [done|]. by apply Forall_true. Qed.

(** One user with one toolchain, on the route at 0. *)
Definition attaching (rx : bool) (uuid : string) (tc : Toolchain) : list slabel :=
  [if rx then SAddReceiver uuid [tc] else SAddSender uuid [tc]; SThread (TAttach rx uuid [tc]);
   SThread (TAdd rx 0 uuid []); SThread (TInc rx 0 uuid []); SThread (TAttach rx uuid [])].
Definition routing (tc : Toolchain) : list slabel :=
  [SRoute [] (Some tc); SThread (TLookup [] tc); SThread (THooks 0 [] tc)].
(** An agent with toolchain [a] and a request for it. *)
Definition one_agent : list slabel := attaching true "agent" tc_a ++ routing tc_a.

Lemma router_refcounts_witness :
  rxRefCount <$> route_heap (router (after_sys one_agent)) !! 0%nat = Some 1 ∧
  count (is_user true 0) (attached (router (after_sys one_agent))) = 1 ∧
  wrap32 (count (is_user true 0) (attached (router (after_sys one_agent)))) = 1.
Proof.
  split; [reflexivity|]. split; [reflexivity|]. symmetry.
  refine (proj1 (router_refcounts id (after_sys one_agent) 0
    (mkRoute tc_a (tcHash id tc_a) 1 0 ∅ {["agent"]} false false true) _ _)); [apply after_sys_reachable|].
  vm_compute. reflexivity.
Defined.

Lemma Route_finds_agent_witness :
  (∃ s', sys_step id (SThread (TLoad 0 tc_a)) (after_sys one_agent) = Some s' ∧ TSend 0 tc_a ∈ threads s') ∧
  ∃ tc', (true, "agent"%string, tc') ∈ added (after_sys (one_agent ++ [SThread (TLoad 0 tc_a); SHand 0 tc_a "agent"])) ∧
    tcHash id tc' = tcHash id tc_a.
Proof.
  split.
  - destruct (proj2 (Route_finds_agent id (after_sys one_agent) (after_sys_reachable one_agent)) 0%nat tc_a) as (_ & s' & H & _ & HS);
      [by apply (bool_decide_unpack _); vm_compute|reflexivity|].
    exists s'. split; [exact H|]. apply HS. by vm_compute.
  - apply (proj1 (Route_finds_agent id _ (after_sys_reachable (one_agent ++ [SThread (TLoad 0 tc_a); SHand 0 tc_a "agent"])))).
    apply (bool_decide_unpack _). by vm_compute.
Defined.

(** A request that waits for an agent on a route that is closed meanwhile crashes the
    scheduler: here a daemon drops the toolchain before a receiver takes the request; or the
    agent leaves between the load of the count and the send. *)
Theorem Route_send_panics :
  panicked (after_sys (attaching true "agent" tc_a ++ attaching false "cd" tc_a ++ routing tc_a ++
    [SThread (TLoad 0 tc_a); SUpdate "cd" []; SThread (TDrop "cd" [tc_a] [] [tc_a]);
     SThread (TDropCancel 0 "cd" [tc_a] [] []); SCleanup 0; SThread (TSend 0 tc_a)])) = true ∧
  panicked (after_sys (attaching true "agent" tc_a ++ routing tc_a ++
    [SThread (TLoad 0 tc_a); SDetach true 0 "agent"; SThread (TCheck true 0 "agent"); SThread (TCancel true 0 "agent");
     SCleanup 0; SThread (TSend 0 tc_a)])) = true.
Proof. vm_compute. by split. Qed.

(** An agent that arrives while the last user of the route leaves is attached to a route that
    is then closed: it stays connected, and requests for its toolchain no longer find it. *)
Theorem attach_to_closing_route :
  let s := after_sys (attaching false "cd" tc_a ++
    [SDetach false 0 "cd"; SThread (TCheck false 0 "cd"); SAddReceiver "agent" [tc_a]; SThread (TAttach true "agent" [tc_a]);
     SThread (TAdd true 0 "agent" []); SThread (TInc true 0 "agent" []); SThread (TCancel false 0 "cd"); SCleanup 0;
     SRoute [] (Some tc_a); SThread (TLookup [] tc_a); SThread (THooks 1 [] tc_a); SThread (TLoad 1 tc_a)]) in
  attached (router s) = [GReceiver 0 "agent"] ∧ answers s = [(Some tc_a, RouteError ErrNoAgents)].
Proof. vm_compute. by split. Qed.
