(* ===== verification/Broker.v ===== *)
(** * The scheduler's broker: [pkg/scheduler/broker.go]

    The broker keeps every request it accepts in one of two tables, [pendingRequests]
    (being routed) and [inflightRequests] (at an agent, or answered and waiting for
    [handleResponseQueue]), and hands responses back to the consumer daemon that sent the
    request.  Goroutines blocked on a channel are lists: calls of [Route] blocked on
    [rt.C] ([routing]), receiver goroutines holding a request ([a_hand]), senders on
    [responseQueue] ([respq]) and the goroutines that requeue a defunct task ([requeue]).
    The router is used through its contract ([Route_finds_agent]): a request for a
    toolchain hash reaches one of the agents with a receiver attached to that hash.
    Agents are heap objects; a uuid may reconnect and denote a new one.

    The steps are coarser than the atomic operations of the code where the operations in
    between touch what no other goroutine can use yet.
    - [BSendTask] and the error path of [routeNewRequest] do LoadAndDelete on one table,
      Store in the other and the send that follows in one step. Between the first two the
      request is in neither table: nobody else takes it from the pending one, because its
      id is held by this goroutine alone, and nobody else looks for it in the in-flight
      one before the send, apart from [cleanupAgent], which overlooks it as it does when
      it runs before the step ([lost_run] in [BrokerProps]).
    - [BSubmit] and [BRequeue] store the request, ask the cache and find the route.
    - [BConnect] registers the agent and fills its tokens; the code looks the uuid up again
      in [handleAgentStream] (broker.go:164-169), so two streams opened at the same time
      under one uuid, which the model takes one after the other, may get the same agent.
    The environment is restricted in three ways: request ids are fresh (consumer daemons
    use random UUIDs), an agent answers requests it was sent and has not answered, and an
    agent's process limit, an int32 that agents fill with the number of processors, is a
    natural number of at most [MaxTokens] (with more, the code blocks while it fills the
    channel of tokens). *)
From S2P Require Import Prelude GoStrings Types Router.

Definition MaxTokens : nat := 1000.

(** The send goroutine of [handleAgentStream]. *)
Inductive txState : Set :=
  | TxIdle      (** selecting on [AvailableTokens] and the stream *)
  | TxWaiting   (** holding a token, receiving from [filterOutput] *)
  | TxFailed    (** returned after a failed [stream.Send] *)
  | TxStopped.  (** returned because the stream is done *)
#[export] Instance txState_eq_dec : EqDecision txState.
Proof. solve_decision. Defined.

Record Agent := mkAgent {
  a_uuid : string;
  a_limit : nat;             (** [UsageLimits.ConcurrentProcessLimit], not negative *)
  AvailableTokens : nat;
  LockedTokens : nat;
  a_tx : txState;
  a_attached : list string;  (** hashes of the routes its receivers listen on *)
  a_hand : list CompileRequest; (** requests its receivers are passing to [filterOutput] *)
  a_work : list string;      (** ids sent on the stream and not answered *)
  CompletedTasks : Z;
  a_alive : bool;            (** the stream context is not done *)
  a_cleaned : bool;          (** [cleanupAgent] has run *)
}.

Record Broker := mkBroker {
  pendingRequests : gmap string (CompileRequest * string);
  inflightRequests : gmap string (CompileRequest * string * option nat);
  agents : gmap string nat;
  agent_heap : gmap nat Agent;
  next_agent : nat;
  routing : list (CompileRequest * string * RetryAction);
  respq : list CompileResponse;
  requeue : list (CompileRequest * string);
  completedTasks : Z;
  failedTasks : Z;
  requestCount : Z;
  pushed : list (string * string);            (** objects sent to the cache *)
  delivered : list (string * CompileResponse); (** responses sent to consumer daemons *)
  submitted : gmap string string;             (** history: request id to consumer daemon *)
}.

Definition NewBroker : Broker := mkBroker ∅ ∅ ∅ ∅ 0 [] [] [] 0 0 0 [] [] ∅.

(** ** Field updates *)

Definition set_tables (p : gmap string (CompileRequest * string))
    (i : gmap string (CompileRequest * string * option nat)) (b : Broker) : Broker :=
  mkBroker p i (agents b) (agent_heap b) (next_agent b) (routing b) (respq b) (requeue b)
    (completedTasks b) (failedTasks b) (requestCount b) (pushed b) (delivered b) (submitted b).
Definition set_agents (m : gmap string nat) (h : gmap nat Agent) (n : nat) (b : Broker) : Broker :=
  mkBroker (pendingRequests b) (inflightRequests b) m h n (routing b) (respq b) (requeue b)
    (completedTasks b) (failedTasks b) (requestCount b) (pushed b) (delivered b) (submitted b).
Definition set_routing (l : list (CompileRequest * string * RetryAction)) (b : Broker) : Broker :=
  mkBroker (pendingRequests b) (inflightRequests b) (agents b) (agent_heap b) (next_agent b) l
    (respq b) (requeue b) (completedTasks b) (failedTasks b) (requestCount b) (pushed b)
    (delivered b) (submitted b).
Definition set_queues (rs : list CompileResponse) (rq : list (CompileRequest * string))
    (b : Broker) : Broker :=
  mkBroker (pendingRequests b) (inflightRequests b) (agents b) (agent_heap b) (next_agent b)
    (routing b) rs rq (completedTasks b) (failedTasks b) (requestCount b) (pushed b)
    (delivered b) (submitted b).
Definition add_counts (completed failed requests : Z) (b : Broker) : Broker :=
  mkBroker (pendingRequests b) (inflightRequests b) (agents b) (agent_heap b) (next_agent b)
    (routing b) (respq b) (requeue b) (completedTasks b + completed) (failedTasks b + failed)
    (requestCount b + requests) (pushed b) (delivered b) (submitted b).
Definition push_cache (o : list (string * string)) (b : Broker) : Broker :=
  mkBroker (pendingRequests b) (inflightRequests b) (agents b) (agent_heap b) (next_agent b)
    (routing b) (respq b) (requeue b) (completedTasks b) (failedTasks b) (requestCount b)
    (o ++ pushed b) (delivered b) (submitted b).
Definition deliver (cd : string) (resp : CompileResponse) (b : Broker) : Broker :=
  mkBroker (pendingRequests b) (inflightRequests b) (agents b) (agent_heap b) (next_agent b)
    (routing b) (respq b) (requeue b) (completedTasks b) (failedTasks b) (requestCount b)
    (pushed b) ((cd, resp) :: delivered b) (submitted b).
Definition record_submit (id cd : string) (b : Broker) : Broker :=
  mkBroker (pendingRequests b) (inflightRequests b) (agents b) (agent_heap b) (next_agent b)
    (routing b) (respq b) (requeue b) (completedTasks b) (failedTasks b) (requestCount b)
    (pushed b) (delivered b) (<[id := cd]> (submitted b)).
Definition enqueue (resp : list CompileResponse) (b : Broker) : Broker :=
  set_queues (respq b ++ resp) (requeue b) b.
Definition update_agent (ap : nat) (f : Agent → Agent) (b : Broker) : Broker :=
  set_agents (agents b) (alter f ap (agent_heap b)) (next_agent b) b.

Definition set_tokens (avail locked : nat) (tx : txState) (a : Agent) : Agent :=
  mkAgent (a_uuid a) (a_limit a) avail locked tx (a_attached a) (a_hand a) (a_work a)
    (CompletedTasks a) (a_alive a) (a_cleaned a).
Definition set_hand (l : list CompileRequest) (a : Agent) : Agent :=
  mkAgent (a_uuid a) (a_limit a) (AvailableTokens a) (LockedTokens a) (a_tx a) (a_attached a) l
    (a_work a) (CompletedTasks a) (a_alive a) (a_cleaned a).
Definition set_work (l : list string) (completed : Z) (a : Agent) : Agent :=
  mkAgent (a_uuid a) (a_limit a) (AvailableTokens a) (LockedTokens a) (a_tx a) (a_attached a)
    (a_hand a) l completed (a_alive a) (a_cleaned a).
Definition set_attach (l : list string) (a : Agent) : Agent :=
  mkAgent (a_uuid a) (a_limit a) (AvailableTokens a) (LockedTokens a) (a_tx a) l (a_hand a)
    (a_work a) (CompletedTasks a) (a_alive a) (a_cleaned a).
Definition set_life (alive cleaned : bool) (a : Agent) : Agent :=
  mkAgent (a_uuid a) (a_limit a) (AvailableTokens a) (LockedTokens a) (a_tx a) (a_attached a)
    (a_hand a) (a_work a) (CompletedTasks a) alive cleaned.

(** ** Routing a request *)

Section broker.
Context (md5 : string → string).

(** The answer of the cache server to [Pull], or that no cache is in use. *)
Inductive PullResult : Set :=
  | NoCache
  | PullHit (data : string)
  | PullMiss (hash : string)
  | PullFailed.

Definition reqHash (req : CompileRequest) : option string := tcHash md5 <$> ReqToolchain req.

(** Some agent has a receiver attached to the route of the hash. *)
Definition has_receiver (h : string) (b : Broker) : bool :=
  existsb (λ e, bool_decide (h ∈ a_attached e.2)) (map_to_list (agent_heap b)).

(** The error path of [routeNewRequest]. *)
Definition route_failed (id : string) (action : RetryAction) (b : Broker) : Broker :=
  match pendingRequests b !! id with
  | None => b
  | Some (req, cd) =>
      enqueue [mkCompileResponse id CompileResponse_Retry (DataRetryAction action)]
        (add_counts 0 0 (-1)
           (set_tables (delete id (pendingRequests b))
              (<[id := (req, cd, None)]> (inflightRequests b)) b))
  end.

(** [PreReceive]: the action, the new state and the request with its managed fields. *)
Definition PreReceive (pull : PullResult) (req : CompileRequest) (cd : string) (b : Broker) :
    HookAction * CompileRequest * Broker :=
  let id := RequestID req in
  match pull with
  | PullHit data =>
      match pendingRequests b !! id with
      | None => (ProcessRequestNormally, req, b)
      | Some (req', cd') =>
          (RequestIntercepted, req,
           enqueue [mkCompileResponse id CompileResponse_Success (DataCompiledSource data)]
             (set_tables (delete id (pendingRequests b))
                (<[id := (req', cd', None)]> (inflightRequests b)) b))
      end
  | PullMiss hash =>
      let req := mkCompileRequest id (ReqToolchain req) (ReqArgs req) (PreprocessedSource req)
                   (Some hash) in
      (ProcessRequestNormally, req,
       set_tables (alter (λ p, (req, p.2)) id (pendingRequests b)) (inflightRequests b) b)
  | NoCache | PullFailed => (ProcessRequestNormally, req, b)
  end.

(** [routeNewRequest] up to the point where [Route] blocks on the channel. *)
Definition routeNewRequest (cd : string) (req : CompileRequest) (action : RetryAction)
    (pull : PullResult) (b : Broker) : Broker :=
  let id := RequestID req in
  let b := add_counts 0 0 1
             (set_tables (<[id := (req, cd)]> (pendingRequests b)) (inflightRequests b) b) in
  match reqHash req with
  | None => route_failed id action b
  | Some h =>
      match PreReceive pull req cd b with
      | (RequestIntercepted, _, b) => b
      | (_, req, b) =>
          if has_receiver h b then set_routing (routing b ++ [(req, cd, action)]) b
          else route_failed id action b
      end
  end.

(** ** Responses *)

(** [cacheTransaction]. *)
Definition cacheTransaction (managed : option string) (resp : CompileResponse) :
    list (string * string) :=
  match managed with
  | Some h => if bool_decide (h = "") then [] else [(h, GetCompiledSource resp)]
  | None => []
  end.

(** One iteration of [handleResponseQueue]. *)
Definition handleResponse (resp : CompileResponse) (b : Broker) : Broker :=
  let id := RespRequestID resp in
  match inflightRequests b !! id with
  | None => b
  | Some (req, cd, _) =>
      let b := add_counts 0 0 1
                 (set_tables (pendingRequests b) (delete id (inflightRequests b)) b) in
      match RespResult resp with
      | CompileResponse_Fail | CompileResponse_InternalError =>
          deliver cd resp (add_counts 0 1 0 b)
      | CompileResponse_Success =>
          deliver cd resp
            (push_cache (cacheTransaction (ManagedFields req) resp) (add_counts 1 0 0 b))
      | CompileResponse_Defunct => set_queues (respq b) (requeue b ++ [(req, cd)]) b
      | CompileResponse_Retry => deliver cd resp b
      end
  end.

(** [cleanupAgent]: a defunct response for each inflight request of an agent with the
    same uuid. *)
Definition defunct (id : string) : CompileResponse :=
  mkCompileResponse id CompileResponse_Defunct
    (DataError "The agent handling this task is no longer available.").

Definition at_uuid (uuid : string) (b : Broker) (e : CompileRequest * string * option nat) : bool :=
  match e.2 with
  | None => false
  | Some ap => bool_decide (a_uuid <$> agent_heap b !! ap = Some uuid)
  end.

Definition cleanupAgent (ap : nat) (a : Agent) (b : Broker) : Broker :=
  let ids := List.filter (λ e, at_uuid (a_uuid a) b e.2) (map_to_list (inflightRequests b)) in
  let b := enqueue ((λ e, defunct e.1) <$> ids) b in
  set_agents (delete (a_uuid a) (agents b))
    (alter (set_life (a_alive a) true) ap (agent_heap b)) (next_agent b) b.

(** ** Steps *)

Inductive blabel : Set :=
  | BConnect (uuid : string) (tcs : list Toolchain) (limit : nat)
  | BSubmit (cd : string) (req : CompileRequest) (pull : PullResult)
  | BRequeue (i : nat) (pull : PullResult)
  | BCancel (i : nat)                         (** the context of a blocked [Route] is done *)
  | BReceive (i ap : nat)                     (** a receiver goroutine takes the request *)
  | BTakeToken (ap : nat)
  | BSendTask (ap j : nat) (ok : bool)        (** [filterOutput] to [stream.Send] *)
  | BTxDone (ap : nat)
  | BResponse (ap : nat) (resp : CompileResponse)
  | BDetach (ap : nat) (h : string)           (** a receiver goroutine ends *)
  | BDisconnect (ap : nat)
  | BCleanup (ap : nat)
  | BHandle (i : nat).

Definition new_agent (uuid : string) (tcs : list Toolchain) (limit : nat) : Agent :=
  mkAgent uuid limit limit 0 TxIdle (tcHash md5 <$> tcs) [] [] 0 true false.

(** The receiver of the route [h] is at its select: it holds no request. *)
Definition receiver_free (h : string) (a : Agent) : bool :=
  bool_decide (h ∈ a_attached a) &&
  negb (existsb (λ req, bool_decide (reqHash req = Some h)) (a_hand a)).

(** The send goroutine has received [req] from [filterOutput]. *)
Definition send_task (ap : nat) (a : Agent) (req : CompileRequest) (ok : bool) (b : Broker) :
    Broker :=
  let id := RequestID req in
  match pendingRequests b !! id with
  | None => update_agent ap (set_tokens (AvailableTokens a) (LockedTokens a) TxIdle) b
  | Some (req', cd) =>
      let b := set_tables (delete id (pendingRequests b))
                 (<[id := (req', cd, Some ap)]> (inflightRequests b)) b in
      if ok then
        update_agent ap (λ a, set_work (id :: a_work a) (CompletedTasks a)
                                (set_tokens (AvailableTokens a) (LockedTokens a) TxIdle a)) b
      else update_agent ap (set_tokens (AvailableTokens a) (LockedTokens a) TxFailed) b
  end.

(** The receive goroutine has received [resp] from the agent. *)
Definition recv_response (ap : nat) (a : Agent) (resp : CompileResponse) (b : Broker) : Broker :=
  let f := λ a : Agent,
    let a := match LockedTokens a with
             | O => a
             | S n => set_tokens (S (AvailableTokens a)) n (a_tx a) a
             end in
    set_work (remove_one (RespRequestID resp) (a_work a)) (CompletedTasks a + 1) a in
  enqueue [resp] (update_agent ap f b).

Definition remove_nth {A} (i : nat) (l : list A) : list A := take i l ++ drop (S i) l.

(** One step; see the top of this file for what is merged, and for the guards on
    [BConnect], [BSubmit] and [BResponse] that restrict the environment. *)
Definition bstep (l : blabel) (b : Broker) : option Broker :=
  match l with
  | BConnect uuid tcs limit =>
      if bool_decide (limit ≤ MaxTokens)%nat then
        Some (set_agents (<[uuid := next_agent b]> (agents b))
                (<[next_agent b := new_agent uuid tcs limit]> (agent_heap b))
                (S (next_agent b)) b)
      else None
  | BSubmit cd req pull =>
      if bool_decide (submitted b !! RequestID req = None)
      then Some (routeNewRequest cd req DoNotRetry pull (record_submit (RequestID req) cd b))
      else None
  | BRequeue i pull =>
      '(req, cd) ← requeue b !! i;
      Some (routeNewRequest cd req Retry pull
              (set_queues (respq b) (remove_nth i (requeue b)) b))
  | BCancel i =>
      '(req, cd, action) ← routing b !! i;
      Some (route_failed (RequestID req) action (set_routing (remove_nth i (routing b)) b))
  | BReceive i ap =>
      '(req, cd, action) ← routing b !! i;
      a ← agent_heap b !! ap;
      h ← reqHash req;
      if receiver_free h a then
        Some (update_agent ap (set_hand (a_hand a ++ [req]))
                (set_routing (remove_nth i (routing b)) b))
      else None
  | BTakeToken ap =>
      a ← agent_heap b !! ap;
      match a_tx a, AvailableTokens a with
      | TxIdle, S n => Some (update_agent ap (set_tokens n (S (LockedTokens a)) TxWaiting) b)
      | _, _ => None
      end
  | BSendTask ap j ok =>
      a ← agent_heap b !! ap;
      req ← a_hand a !! j;
      if bool_decide (a_tx a = TxWaiting) && (a_alive a || negb ok) then
        let a := set_hand (remove_nth j (a_hand a)) a in
        Some (send_task ap a req ok (update_agent ap (λ _, a) b))
      else None
  | BTxDone ap =>
      a ← agent_heap b !! ap;
      if bool_decide (a_tx a = TxIdle) && negb (a_alive a) then
        Some (update_agent ap (set_tokens (AvailableTokens a) (LockedTokens a) TxStopped) b)
      else None
  | BResponse ap resp =>
      a ← agent_heap b !! ap;
      if a_alive a && bool_decide (RespRequestID resp ∈ a_work a)
      then Some (recv_response ap a resp b) else None
  | BDetach ap h =>
      a ← agent_heap b !! ap;
      if receiver_free h a then Some (update_agent ap (set_attach (remove_one h (a_attached a))) b)
      else None
  | BDisconnect ap =>
      a ← agent_heap b !! ap;
      if a_alive a then Some (update_agent ap (set_life false (a_cleaned a)) b) else None
  | BCleanup ap =>
      a ← agent_heap b !! ap;
      if negb (a_alive a) && negb (a_cleaned a) then Some (cleanupAgent ap a b) else None
  | BHandle i =>
      resp ← respq b !! i;
      Some (handleResponse resp (set_queues (remove_nth i (respq b)) (requeue b) b))
  end.

Definition broker_reachable : Broker → Prop := reach bstep (λ b, b = NewBroker) (λ _, True).
End broker.
