(* ===== verification/BrokerProps.v ===== *)
(** * Properties of the broker

    Every request the broker accepted is in exactly one of its tables and queues until one
    response is sent to the consumer daemon that submitted it; the internal error branches
    of [pkg/scheduler/broker.go] are unreachable; and the tokens of an agent bound the
    tasks it is given. *)
From S2P Require Import Prelude GoStrings Types Router Broker.

(** ** Counting *)

(** 1 if the key is in the map. *)
Definition w {A} (m : gmap string A) (id : string) : Z :=
  if decide (is_Some (m !! id)) then 1 else 0.

Definition one (P : Prop) `{Decision P} : Z := if decide P then 1 else 0.

Lemma w_insert {A} (m : gmap string A) k v id :
  w (<[k := v]> m) id = if decide (k = id) then 1 else w m id.
Proof.
  unfold w. destruct (decide (k = id)) as [->|Hne].
  - rewrite lookup_insert_eq. by rewrite decide_True.
  - by rewrite lookup_insert_ne.
Qed.

Lemma w_delete {A} (m : gmap string A) k id :
  w (delete k m) id = if decide (k = id) then 0 else w m id.
Proof.
  unfold w. destruct (decide (k = id)) as [->|Hne].
  - rewrite lookup_delete_eq. rewrite decide_False; [done|]. by intros [].
  - by rewrite lookup_delete_ne.
Qed.

Lemma w_alter {A} (m : gmap string A) f k id : w (alter f k m) id = w m id.
Proof. unfold w. apply decide_ext. apply lookup_alter_is_Some. Qed.

Lemma w_some {A} (m : gmap string A) id v : m !! id = Some v → w m id = 1.
Proof. intros E. unfold w. rewrite decide_True; eauto. Qed.

Lemma w_none {A} (m : gmap string A) id : w m id = 0 → m !! id = None.
Proof. unfold w. case_decide as E; [done|]. intros _. by apply eq_None_not_Some. Qed.

Lemma w_nonneg {A} (m : gmap string A) id : 0 ≤ w m id.
Proof. unfold w. case_decide; lia. Qed.

Lemma count_app {A} (p : A → bool) l k : count p (l ++ k) = count p l + count p k.
Proof. unfold count. rewrite List.filter_app, length_app. lia. Qed.

Lemma count_nil {A} (p : A → bool) : count p [] = 0.
Proof. done. Qed.

Lemma count_remove_nth {A} (p : A → bool) i l x :
  l !! i = Some x → count p (remove_nth i l) = count p l - (if p x then 1 else 0).
Proof.
  intros Hi. unfold remove_nth. rewrite <- (take_drop_middle l i x Hi) at 3.
  rewrite !count_app, count_cons. lia.
Qed.

Lemma remove_nth_elem {A} i (l : list A) x : x ∈ remove_nth i l → x ∈ l.
Proof.
  unfold remove_nth. intros H. rewrite <- (take_drop i l).
  apply elem_of_app in H as [H|H]; apply elem_of_app; [by left|right].
  replace (S i) with (i + 1)%nat in H by lia. rewrite <- drop_drop in H.
  destruct (drop i l); [done|by right].
Qed.

Definition req_is (id : string) (req : CompileRequest) : bool := bool_decide (RequestID req = id).

(** Requests with the id held by receiver goroutines. *)
Definition hand_count (id : string) (h : gmap nat Agent) : Z :=
  map_fold (λ _ a n, count (req_is id) (a_hand a) + n) 0 h.

Lemma hand_count_insert id h ap a :
  h !! ap = None → hand_count id (<[ap := a]> h) = count (req_is id) (a_hand a) + hand_count id h.
Proof. intros Hn. unfold hand_count. rewrite map_fold_insert_L; [done|intros; lia|done]. Qed.

Lemma hand_count_alter id h ap a f :
  h !! ap = Some a →
  hand_count id (alter f ap h) =
    hand_count id h - count (req_is id) (a_hand a) + count (req_is id) (a_hand (f a)).
Proof.
  intros Ha. replace (alter f ap h) with (<[ap := f a]> (delete ap h)).
  - rewrite hand_count_insert by apply lookup_delete_eq.
    rewrite <- (insert_delete_id h ap a Ha) at 2.
    rewrite hand_count_insert by apply lookup_delete_eq. lia.
  - apply map_eq. intros i. destruct (decide (i = ap)) as [->|Hne].
    + by rewrite lookup_insert_eq, lookup_alter_eq, Ha.
    + by rewrite lookup_insert_ne, lookup_delete_ne, lookup_alter_ne.
Qed.

Lemma hand_count_nonneg id h : 0 ≤ hand_count id h.
Proof.
  induction h as [|ap a h Hn IH] using map_ind; [done|]. rewrite hand_count_insert by done.
  pose proof (count_nonneg (req_is id) (a_hand a)). lia.
Qed.

Lemma hand_count_same id h ap f :
  (∀ a, a_hand (f a) = a_hand a) → hand_count id (alter f ap h) = hand_count id h.
Proof.
  intros Hf. destruct (h !! ap) as [a|] eqn:E.
  - rewrite (hand_count_alter _ _ _ a) by done. rewrite Hf. lia.
  - f_equal. apply map_eq. intros i. destruct (decide (i = ap)) as [->|Hne].
    + by rewrite lookup_alter_eq, E.
    + by rewrite lookup_alter_ne.
Qed.

(** ** Where a request is *)

Definition place (b : Broker) (id : string) : Z :=
  w (pendingRequests b) id + w (inflightRequests b) id +
  count (λ e, req_is id e.1) (requeue b) +
  count (λ e, bool_decide (RespRequestID e.2 = id)) (delivered b).

(** Copies of a request being routed or passed to an agent's send goroutine. *)
Definition copies (b : Broker) (id : string) : Z :=
  count (λ e, req_is id e.1.1) (routing b) + hand_count id (agent_heap b).

(** [x] is a submitted id that is being moved and is in no table; [y] a pending id whose
    request is in the hands of the current step. *)
Record binv (x y : option string) (b : Broker) : Prop := {
  bi_place : ∀ id, place b id = w (submitted b) id - one (x = Some id);
  bi_copies : ∀ id, w (pendingRequests b) id = copies b id + one (y = Some id);
  bi_pending : ∀ id req cd, pendingRequests b !! id = Some (req, cd) →
    RequestID req = id ∧ submitted b !! id = Some cd;
  bi_inflight : ∀ id req cd a, inflightRequests b !! id = Some (req, cd, a) →
    RequestID req = id ∧ submitted b !! id = Some cd;
  bi_requeue : ∀ req cd, (req, cd) ∈ requeue b → submitted b !! RequestID req = Some cd;
  bi_delivered : ∀ cd resp, (cd, resp) ∈ delivered b →
    submitted b !! RespRequestID resp = Some cd;
  bi_next : ∀ ap a, agent_heap b !! ap = Some a → (ap < next_agent b)%nat;
}.

Lemma binv_new : binv None None NewBroker.
Proof.
  split; cbn; try (intros; by rewrite ?lookup_empty in *); try (by intros ? ? ?%not_elem_of_nil);
    intros; unfold place, copies, w, one; cbn; repeat case_decide; try done;
    by match goal with H : is_Some (∅ !! _) |- _ => destruct H end.
Qed.

(** Queue and counter updates are irrelevant. *)
Lemma binv_queue x y b rs : binv x y b → binv x y (set_queues rs (requeue b) b).
Proof. by intros []. Qed.
Lemma binv_counts x y b c f r : binv x y b → binv x y (add_counts c f r b).
Proof. by intros []. Qed.
Lemma binv_push x y b o : binv x y b → binv x y (push_cache o b).
Proof. by intros []. Qed.
Lemma binv_agents x y b m h n :
  (∀ id, hand_count id h = hand_count id (agent_heap b)) →
  (∀ ap a, h !! ap = Some a → (ap < n)%nat) →
  binv x y b → binv x y (set_agents m h n b).
Proof.
  intros Hh Hn []. split; try done. intros id. unfold copies. cbn. rewrite Hh. by apply bi_copies0.
Qed.

(** A request leaves [pendingRequests] for [inflightRequests]. *)
Lemma binv_to_inflight b id req cd a :
  binv None (Some id) b → pendingRequests b !! id = Some (req, cd) →
  binv None None (set_tables (delete id (pendingRequests b))
                    (<[id := (req, cd, a)]> (inflightRequests b)) b).
Proof.
  intros H Hp. destruct (bi_pending _ _ _ H _ _ _ Hp) as [Hid Hcd].
  split; cbn; try by destruct H.
  - intros id'. pose proof (bi_place _ _ _ H id') as Hpl. unfold place in *. cbn.
    rewrite w_insert, w_delete. destruct (decide (id = id')) as [<-|]; [|done].
    rewrite (w_some _ _ _ Hp) in Hpl. pose proof (w_nonneg (inflightRequests b) id).
    pose proof (count_nonneg (λ e : CompileRequest * string, req_is id e.1) (requeue b)).
    pose proof (count_nonneg (λ e : string * CompileResponse, bool_decide (RespRequestID e.2 = id))
      (delivered b)).
    unfold w, one in Hpl |- *. repeat case_decide; try done; lia.
  - intros id'. pose proof (bi_copies _ _ _ H id') as Hc. unfold copies in *. cbn.
    rewrite w_delete. unfold one in *. repeat case_decide; simplify_eq; try lia.
    rewrite (w_some _ _ _ Hp) in Hc. lia.
  - intros id' req' cd' [_ Hl]%lookup_delete_Some. by apply (bi_pending _ _ _ H).
  - intros id' req' cd' a' [[<- [= <- <- <-]]|[_ Hl]]%lookup_insert_Some; [done|].
    by eapply (bi_inflight _ _ _ H).
Qed.

Lemma binv_route_failed b id action :
  binv None (Some id) b → binv None None (route_failed id action b).
Proof.
  intros H. unfold route_failed. destruct (pendingRequests b !! id) as [[req cd]|] eqn:E.
  - apply binv_queue, binv_counts. by apply (binv_to_inflight b id req cd None).
  - pose proof (bi_copies _ _ _ H id) as Hc. unfold w, one in Hc. rewrite E in Hc.
    rewrite decide_False in Hc by (by intros []). rewrite decide_True in Hc by done.
    unfold copies in Hc. pose proof (count_nonneg (λ e : CompileRequest * string * RetryAction,
      req_is id e.1.1) (routing b)).
    pose proof (hand_count_nonneg id (agent_heap b)). lia.
Qed.

(** Storing a submitted request in [pendingRequests]. *)
Lemma binv_store b req cd :
  binv (Some (RequestID req)) None b → submitted b !! RequestID req = Some cd →
  binv None (Some (RequestID req))
    (set_tables (<[RequestID req := (req, cd)]> (pendingRequests b)) (inflightRequests b) b).
Proof.
  set (id := RequestID req). intros H Hs.
  assert (pendingRequests b !! id = None) as Hn.
  { apply w_none. pose proof (bi_place _ _ _ H id) as Hp. unfold place, one in Hp.
    rewrite (w_some _ _ _ Hs), decide_True in Hp by done.
    pose proof (w_nonneg (pendingRequests b) id). pose proof (w_nonneg (inflightRequests b) id).
    pose proof (count_nonneg (λ e : CompileRequest * string, req_is id e.1) (requeue b)).
    pose proof (count_nonneg (λ e : string * CompileResponse, bool_decide (RespRequestID e.2 = id))
      (delivered b)). lia. }
  assert (w (pendingRequests b) id = 0) as Hw.
  { unfold w. rewrite Hn. rewrite decide_False; [done|by intros []]. }
  split; cbn; try by destruct H.
  - intros id'. pose proof (bi_place _ _ _ H id') as Hp. unfold place, one in *. cbn.
    rewrite w_insert. repeat case_decide; simplify_eq; try lia.
  - intros id'. pose proof (bi_copies _ _ _ H id') as Hc. unfold copies, one in *. cbn.
    rewrite w_insert. repeat case_decide; simplify_eq; try lia.
  - intros id' req' cd' [[<- [= <- <-]]|[_ Hl]]%lookup_insert_Some; [done|].
    by apply (bi_pending _ _ _ H).
Qed.

(** Handing a request to [Route]'s channel. *)
Lemma binv_route b req cd action :
  binv None (Some (RequestID req)) b →
  binv None None (set_routing (routing b ++ [(req, cd, action)]) b).
Proof.
  intros H. split; cbn; try by destruct H. intros id.
  pose proof (bi_copies _ _ _ H id) as Hc. unfold copies, one in *. cbn in *.
  rewrite count_app, count_cons, count_nil. cbn. unfold req_is at 2.
  case_bool_decide; repeat case_decide; simplify_eq; lia.
Qed.

(** [PreReceive] records the hash in the stored request. *)
Lemma binv_managed y b req id :
  RequestID req = id → binv None y b →
  binv None y (set_tables (alter (λ p, (req, p.2)) id (pendingRequests b)) (inflightRequests b) b).
Proof.
  intros Hid H. split; cbn; try by destruct H.
  - intros id'. pose proof (bi_place _ _ _ H id'). unfold place in *. cbn. by rewrite w_alter.
  - intros id'. pose proof (bi_copies _ _ _ H id'). unfold copies in *. cbn. by rewrite w_alter.
  - intros id' req' cd'. rewrite lookup_alter_Some. intros [(<- & [r c] & Hl & [= <- <-])|[_ Hl]].
    + split; [done|]. by apply (bi_pending _ _ _ H _ _ _ Hl).
    + by apply (bi_pending _ _ _ H).
Qed.

Lemma binv_routeNewRequest md5 b cd req action pull :
  binv (Some (RequestID req)) None b → submitted b !! RequestID req = Some cd →
  binv None None (routeNewRequest md5 cd req action pull b).
Proof.
  intros H Hs. apply (binv_store _ _ cd) in H; [|done]. unfold routeNewRequest.
  assert (binv None (Some (RequestID req)) (add_counts 0 0 1 (set_tables
    (<[RequestID req:=(req, cd)]> (pendingRequests b)) (inflightRequests b) b))) as H1
    by by apply binv_counts.
  revert H1. generalize (add_counts 0 0 1 (set_tables
    (<[RequestID req:=(req, cd)]> (pendingRequests b)) (inflightRequests b) b)). clear H Hs b.
  intros b H. destruct (reqHash md5 req) as [h|]; [|by apply binv_route_failed].
  unfold PreReceive. destruct pull as [|data|hash|].
  - destruct (has_receiver h b); [by apply (binv_route b req cd action)|by apply binv_route_failed].
  - destruct (pendingRequests b !! RequestID req) as [[req' cd']|] eqn:E.
    + apply binv_queue. by apply (binv_to_inflight b _ req' cd' None).
    + destruct (has_receiver h b); [by apply (binv_route b req cd action)|by apply binv_route_failed].
  - set (req' := mkCompileRequest _ _ _ _ (Some hash)).
    pose proof (binv_managed _ _ req' (RequestID req) eq_refl H) as Hm.
    destruct (has_receiver h _).
    + by apply (binv_route _ req' cd action).
    + by apply binv_route_failed.
  - destruct (has_receiver h b); [by apply (binv_route b req cd action)|by apply binv_route_failed].
Qed.

(** A response is handled. *)
Lemma binv_handle b resp : binv None None b → binv None None (handleResponse resp b).
Proof.
  intros H. unfold handleResponse.
  destruct (inflightRequests b !! RespRequestID resp) as [[[req cd] a]|] eqn:E; [|done].
  destruct (bi_inflight _ _ _ H _ _ _ _ E) as [Hid Hcd].
  set (b1 := add_counts 0 0 1 _).
  assert (binv (Some (RespRequestID resp)) None b1) as H1.
  { apply binv_counts. split; cbn; try by destruct H.
    - intros id. pose proof (bi_place _ _ _ H id) as Hp. unfold place, one in *. cbn.
      rewrite w_delete. repeat case_decide; simplify_eq; try lia.
      rewrite (w_some _ _ _ E) in Hp. lia.
    - intros id' req' cd' a' [_ Hl]%lookup_delete_Some. by eapply (bi_inflight _ _ _ H). }
  assert (submitted b1 !! RespRequestID resp = Some cd) as Hs by done. clearbody b1.
  assert (∀ c f o, binv None None (deliver cd resp (push_cache o (add_counts c f 0 b1)))) as HD.
  { intros c f o. split; cbn; try by destruct H1.
    - intros id. pose proof (bi_place _ _ _ H1 id) as Hp. unfold place, one in *. cbn.
      rewrite count_cons. cbn. case_bool_decide; repeat case_decide; simplify_eq; lia.
    - intros cd' resp' [[= -> ->]|Hin]%elem_of_cons; [done|]. by apply (bi_delivered _ _ _ H1). }
  destruct (RespResult resp); [apply HD|apply (HD 0 1 [])|apply (HD 0 1 [])| |].
  - split; cbn; try by destruct H1.
    + intros id. pose proof (bi_place _ _ _ H1 id) as Hp. unfold place, one in *. cbn.
      rewrite count_app, count_cons, count_nil. cbn. unfold req_is at 2. rewrite Hid.
      case_bool_decide; repeat case_decide; simplify_eq; lia.
    + intros req' cd' [Hin|[= -> ->]%list_elem_of_singleton]%elem_of_app; [|congruence].
      by apply (bi_requeue _ _ _ H1).
  - pose proof (HD 0 0 []) as HD'. by destruct HD'.
Qed.

Lemma count_hand_app id l req :
  count (req_is id) (l ++ [req]) = count (req_is id) l + one (RequestID req = id).
Proof.
  rewrite count_app, count_cons, count_nil. unfold one, req_is at 2.
  case_bool_decide; case_decide; done || lia.
Qed.

Lemma binv_submit b id cd :
  submitted b !! id = None → binv None None b → binv (Some id) None (record_submit id cd b).
Proof.
  intros Hn H.
  assert (∀ id' c, submitted b !! id' = Some c → <[id:=cd]> (submitted b) !! id' = Some c) as Hm.
  { intros id' c Hc. rewrite lookup_insert_ne; [done|]. congruence. }
  split; cbn; try by destruct H.
  - intros id'. pose proof (bi_place _ _ _ H id') as Hp. unfold place, one in *. cbn.
    rewrite w_insert. repeat case_decide; simplify_eq; try lia.
    assert (w (submitted b) id' = 0); [|lia].
    unfold w. rewrite Hn. rewrite decide_False; [done|by intros []].
  - intros id' req c Hl. destruct (bi_pending _ _ _ H _ _ _ Hl). auto.
  - intros id' req c a Hl. destruct (bi_inflight _ _ _ H _ _ _ _ Hl). auto.
  - intros req c Hl. apply Hm. by apply (bi_requeue _ _ _ H).
  - intros c resp Hl. apply Hm. by apply (bi_delivered _ _ _ H).
Qed.

Lemma binv_unqueue b i req cd :
  requeue b !! i = Some (req, cd) → binv None None b →
  binv (Some (RequestID req)) None (set_queues (respq b) (remove_nth i (requeue b)) b).
Proof.
  intros Hi H. split; cbn; try by destruct H.
  - intros id. pose proof (bi_place _ _ _ H id) as Hp. unfold place, one in *. cbn.
    rewrite (count_remove_nth _ _ _ _ Hi). cbn. unfold req_is at 2.
    case_bool_decide; repeat case_decide; simplify_eq; lia.
  - intros req' cd' Hin%remove_nth_elem. by apply (bi_requeue _ _ _ H).
Qed.

Lemma binv_unroute b i req cd action :
  routing b !! i = Some (req, cd, action) → binv None None b →
  binv None (Some (RequestID req)) (set_routing (remove_nth i (routing b)) b).
Proof.
  intros Hi H. split; cbn; try by destruct H.
  intros id. pose proof (bi_copies _ _ _ H id) as Hc. unfold copies, one in *. cbn in *.
  rewrite (count_remove_nth _ _ _ _ Hi). cbn. unfold req_is at 2.
  case_bool_decide; repeat case_decide; simplify_eq; lia.
Qed.

Lemma alter_next x y b ap f ap' a' :
  binv x y b → alter f ap (agent_heap b) !! ap' = Some a' → (ap' < next_agent b)%nat.
Proof.
  intros H. rewrite lookup_alter_Some. intros [(<- & a & Ha & _)|[_ Ha]]; by eapply (bi_next _ _ _ H).
Qed.

(** Moving a request into or out of an agent's hand. *)
Lemma binv_to_hand b ap a req f :
  agent_heap b !! ap = Some a → a_hand (f a) = a_hand a ++ [req] →
  binv None (Some (RequestID req)) b → binv None None (update_agent ap f b).
Proof.
  intros Ha Hf H. split; cbn; try by destruct H.
  2: { intros ap' a' Hl. by eapply alter_next. }
  intros id. pose proof (bi_copies _ _ _ H id) as Hc. unfold copies in *. cbn in *.
  rewrite (hand_count_alter _ _ _ _ _ Ha), Hf, count_hand_app. unfold one in *.
  repeat case_decide; simplify_eq; lia.
Qed.

Lemma binv_from_hand b ap a j req f :
  agent_heap b !! ap = Some a → a_hand a !! j = Some req →
  a_hand (f a) = remove_nth j (a_hand a) →
  binv None None b → binv None (Some (RequestID req)) (update_agent ap f b).
Proof.
  intros Ha Hj Hf H. split; cbn; try by destruct H.
  2: { intros ap' a' Hl. by eapply alter_next. }
  intros id. pose proof (bi_copies _ _ _ H id) as Hc. unfold copies in *. cbn in *.
  rewrite (hand_count_alter _ _ _ _ _ Ha), Hf, (count_remove_nth _ _ _ _ Hj).
  assert (req_is id req = bool_decide (RequestID req = id)) as -> by done. unfold one in *.
  case_bool_decide; repeat case_decide; simplify_eq; lia.
Qed.

Lemma binv_update x y b ap f :
  (∀ a, a_hand (f a) = a_hand a) → binv x y b → binv x y (update_agent ap f b).
Proof.
  intros Hf H. apply binv_agents; [intros id; by apply hand_count_same| |done].
  intros ap' a' Hl. by eapply alter_next.
Qed.

(** A pending request in the hands of the step is stored. *)
Lemma binv_stored b id : binv None (Some id) b → is_Some (pendingRequests b !! id).
Proof.
  intros H. pose proof (bi_copies _ _ _ H id) as Hc. unfold copies, one in Hc.
  rewrite decide_True in Hc by done. pose proof (hand_count_nonneg id (agent_heap b)).
  pose proof (count_nonneg (λ e : CompileRequest * string * RetryAction, req_is id e.1.1) (routing b)).
  unfold w in Hc. case_decide; [done|lia].
Qed.

Lemma binv_send_task b ap a req ok :
  binv None (Some (RequestID req)) b → binv None None (send_task ap a req ok b).
Proof.
  intros H. unfold send_task. destruct (binv_stored _ _ H) as [[req' cd] E]. rewrite E.
  destruct ok; apply binv_update; try done; by apply (binv_to_inflight b _ req' cd (Some ap)).
Qed.

Lemma binv_step md5 l b b' : binv None None b → bstep md5 l b = Some b' → binv None None b'.
Proof.
  intros H. destruct l; cbn [bstep]; intros Hs.
  - case_bool_decide; [|done]. injection Hs as <-. apply binv_agents; [intros id| |done].
    + rewrite hand_count_insert; [done|].
      apply eq_None_not_Some. intros [a Ha]. apply (bi_next _ _ _ H) in Ha. lia.
    + intros ap a [[<- _]|[_ Ha]]%lookup_insert_Some; [lia|].
      apply (bi_next _ _ _ H) in Ha. lia.
  - case_bool_decide; [|done]. injection Hs as <-.
    apply binv_routeNewRequest; [by apply binv_submit|apply lookup_insert_eq].
  - apply bind_Some in Hs as ([req cd] & Hi & [= <-]).
    apply binv_routeNewRequest; [by eapply binv_unqueue|].
    apply (bi_requeue _ _ _ H). by eapply list_elem_of_lookup_2.
  - apply bind_Some in Hs as ([[req cd] action] & Hi & [= <-]).
    by eapply binv_route_failed, binv_unroute.
  - apply bind_Some in Hs as ([[req cd] action] & Hi & Hs).
    apply bind_Some in Hs as (a & Ha & Hs). apply bind_Some in Hs as (h & _ & Hs).
    case_match; [|done]. injection Hs as <-.
    eapply (binv_to_hand _ ap a req); [done|done|]. by eapply binv_unroute.
  - apply bind_Some in Hs as (a & Ha & Hs). repeat case_match; simplify_eq. by apply binv_update.
  - apply bind_Some in Hs as (a & Ha & Hs). apply bind_Some in Hs as (req & Hj & Hs).
    case_match; [|done]. injection Hs as <-. apply binv_send_task.
    by eapply (binv_from_hand _ ap a j req).
  - apply bind_Some in Hs as (a & Ha & Hs). case_match; simplify_eq. by apply binv_update.
  - apply bind_Some in Hs as (a & Ha & Hs). case_match; simplify_eq.
    apply binv_queue, binv_update; [|done]. intros a'. by destruct (LockedTokens a').
  - apply bind_Some in Hs as (a & Ha & Hs). case_match; simplify_eq. by apply binv_update.
  - apply bind_Some in Hs as (a & Ha & Hs). case_match; simplify_eq. by apply binv_update.
  - apply bind_Some in Hs as (a & Ha & Hs). case_match; simplify_eq.
    apply binv_agents; [intros id; by apply hand_count_same| |by apply binv_queue].
    intros ap' a' Hl. exact (alter_next None None b _ _ _ _ H Hl).
  - apply bind_Some in Hs as (resp & Hi & [= <-]). by apply binv_handle, binv_queue.
Qed.

Lemma broker_reachable_inv md5 b : broker_reachable md5 b → binv None None b.
Proof.
  apply reach_inv; [by intros ? ->; apply binv_new|]. intros s l s' H _. by apply binv_step.
Qed.

(** C4: A submitted request is at every moment in exactly one place: waiting in
    [pendingRequests], in [inflightRequests], in the hands of a requeueing goroutine, or
    answered.  So it is never forgotten by the tables and is answered at most once. *)
Theorem broker_exactly_one_place (md5 : string → string) (b : Broker) (id : string)
    (Hr : broker_reachable md5 b) :
  w (pendingRequests b) id + w (inflightRequests b) id +
  count (λ e, bool_decide (RequestID e.1 = id)) (requeue b) +
  count (λ e, bool_decide (RespRequestID e.2 = id)) (delivered b) = w (submitted b) id.
Proof.
  pose proof (bi_place _ _ _ (broker_reachable_inv md5 b Hr) id) as Hp.
  unfold place, req_is, one in Hp. rewrite Hp. case_decide; [done|lia].
Qed.

(** C7: Responses go to the consumer daemon that submitted the request. *)
Theorem broker_delivers_to_submitter (md5 : string → string) (b : Broker) (cd : string)
    (resp : CompileResponse) (Hr : broker_reachable md5 b) (Hd : (cd, resp) ∈ delivered b) :
  submitted b !! RespRequestID resp = Some cd.
Proof. by apply (bi_delivered _ _ _ (broker_reachable_inv md5 b Hr)). Qed.

(** Each pending request has exactly one copy being routed or passed to an agent, so
    the branches of the send goroutine and of [routeNewRequest] for a request that is not
    pending are unreachable. *)
Theorem broker_pending_once (md5 : string → string) (b : Broker) (id : string)
    (Hr : broker_reachable md5 b) :
  w (pendingRequests b) id =
    count (λ e, bool_decide (RequestID e.1.1 = id)) (routing b) + hand_count id (agent_heap b).
Proof.
  pose proof (bi_copies _ _ _ (broker_reachable_inv md5 b Hr) id) as Hc.
  unfold copies, req_is, one in Hc. rewrite Hc. case_decide; [done|lia].
Qed.

(** ** Tokens *)

(** Tokens taken by the send goroutine for a task that is not on the stream. *)
Definition tx_tokens (tx : txState) : nat :=
  match tx with
  | TxWaiting | TxFailed => 1
  | TxIdle | TxStopped => 0
  end.

Definition tok_ok (a : Agent) : Prop :=
  (AvailableTokens a + LockedTokens a = a_limit a)%nat ∧
  LockedTokens a = (length (a_work a) + tx_tokens (a_tx a))%nat.

Definition toks (b : Broker) : Prop := ∀ ap a, agent_heap b !! ap = Some a → tok_ok a.

Lemma toks_update b ap f :
  (∀ a, agent_heap b !! ap = Some a → tok_ok a → tok_ok (f a)) → toks b → toks (update_agent ap f b).
Proof.
  intros Hf Ht ap' a'. cbn. rewrite lookup_alter_Some.
  intros [(<- & a & Ha & ->)|[_ Ha]]; [apply Hf; [done|]|]; by eapply Ht.
Qed.

Lemma toks_heap b b' : agent_heap b' = agent_heap b → toks b → toks b'.
Proof. unfold toks. by intros ->. Qed.

Lemma route_failed_heap id action b : agent_heap (route_failed id action b) = agent_heap b.
Proof. unfold route_failed. by repeat case_match. Qed.

Lemma routeNewRequest_heap md5 cd req action pull b :
  agent_heap (routeNewRequest md5 cd req action pull b) = agent_heap b.
Proof.
  unfold routeNewRequest, PreReceive.
  repeat case_match; simplify_eq/=; by rewrite ?route_failed_heap.
Qed.

Lemma handleResponse_heap resp b : agent_heap (handleResponse resp b) = agent_heap b.
Proof. unfold handleResponse. by repeat case_match. Qed.

Lemma length_remove_one {A} `{EqDecision A} (x : A) l :
  x ∈ l → S (length (remove_one x l)) = length l.
Proof. intros H. by rewrite (Permutation_length (remove_one_Permutation x l H)). Qed.

Lemma toks_send_task b ap a j req ok :
  binv None None b → toks b → agent_heap b !! ap = Some a → a_hand a !! j = Some req →
  a_tx a = TxWaiting →
  let a' := set_hand (remove_nth j (a_hand a)) a in
  toks (send_task ap a' req ok (update_agent ap (λ _, a') b)).
Proof.
  intros H Ht Ha Hj Htx a'.
  assert (binv None (Some (RequestID req)) (update_agent ap (λ _, a') b)) as H1
    by by eapply (binv_from_hand _ ap a j req).
  assert (agent_heap (update_agent ap (λ _, a') b) !! ap = Some a') as Ha'
    by (cbn; by rewrite lookup_alter_eq, Ha).
  assert (toks (update_agent ap (λ _, a') b)) as Ht1.
  { apply toks_update; [|done]. intros a0 Ha0 Hok. by simplify_eq. }
  unfold send_task. destruct (binv_stored _ _ H1) as [[req' cd] E]. rewrite E.
  destruct (Ht _ _ Ha) as [Ht2 Ht3]. rewrite Htx in Ht3. cbn in Ht3.
  destruct ok; (apply toks_update; [|done]); intros a0 Ha0 _; cbn in Ha0;
    rewrite lookup_alter_eq, Ha in Ha0; injection Ha0 as <-; split; cbn; lia.
Qed.

Lemma toks_step md5 l b b' :
  binv None None b → toks b → bstep md5 l b = Some b' → toks b'.
Proof.
  intros H Ht. destruct l; cbn [bstep]; intros Hs.
  - case_bool_decide; [|done]. injection Hs as <-.
    intros ap a Ha. cbn in Ha. apply lookup_insert_Some in Ha as [[_ <-]|[_ Ha]]; [|by eapply Ht].
    split; cbn; lia.
  - case_bool_decide; [|done]. injection Hs as <-. eapply toks_heap; [|exact Ht].
    by rewrite routeNewRequest_heap.
  - apply bind_Some in Hs as ([req cd] & Hi & [= <-]). eapply toks_heap; [|exact Ht].
    by rewrite routeNewRequest_heap.
  - apply bind_Some in Hs as ([[req cd] action] & Hi & [= <-]). eapply toks_heap; [|exact Ht].
    by rewrite route_failed_heap.
  - apply bind_Some in Hs as ([[req cd] action] & Hi & Hs).
    apply bind_Some in Hs as (a & Ha & Hs). apply bind_Some in Hs as (h & _ & Hs).
    case_match; [|done]. injection Hs as <-. by apply toks_update.
  - apply bind_Some in Hs as (a & Ha & Hs). destruct (a_tx a) eqn:Etx; try done.
    destruct (AvailableTokens a) eqn:Eav; [done|]. injection Hs as <-.
    apply toks_update; [|done]. intros a0 Ha0 [H1 H2]. simplify_eq. rewrite Etx in H2. cbn in H2.
    split; cbn; lia.
  - apply bind_Some in Hs as (a & Ha & Hs). apply bind_Some in Hs as (req & Hj & Hs).
    case_bool_decide; [|done]. cbn in Hs. case_match; [|done]. injection Hs as <-.
    by apply toks_send_task.
  - apply bind_Some in Hs as (a & Ha & Hs). case_bool_decide as Etx; [|done]. cbn in Hs.
    case_match; [|done]. injection Hs as <-.
    apply toks_update; [|done]. intros a0 Ha0 [H1 H2]. simplify_eq. rewrite Etx in H2. by split.
  - apply bind_Some in Hs as (a & Ha & Hs). apply andb_if in Hs as (_ & Hin & [= <-]).
    apply bool_decide_eq_true in Hin. eapply toks_heap; [done|].
    apply toks_update; [|exact Ht]. intros a0 Ha0 [H1 H2]. simplify_eq.
    pose proof (length_remove_one _ _ Hin). destruct (LockedTokens a) eqn:El; [lia|].
    split; cbn; lia.
  - apply bind_Some in Hs as (a & Ha & Hs). case_match; simplify_eq. by apply toks_update.
  - apply bind_Some in Hs as (a & Ha & Hs). case_match; simplify_eq. by apply toks_update.
  - apply bind_Some in Hs as (a & Ha & Hs). case_match; simplify_eq.
    eapply (toks_heap (update_agent ap (set_life (a_alive a) true) b)); [done|]. by apply toks_update.
  - apply bind_Some in Hs as (resp & Hi & [= <-]). eapply toks_heap; [|exact Ht].
    by rewrite handleResponse_heap.
Qed.

Lemma broker_reachable_toks md5 b : broker_reachable md5 b → binv None None b ∧ toks b.
Proof.
  apply (reach_inv (bstep md5) _ _ (λ b, binv None None b ∧ toks b)).
  - intros ? ->. split; [apply binv_new|]. intros ap a Ha. cbn in Ha. by rewrite lookup_empty in Ha.
  - intros s l s' [H Ht] _ Hs. split; [by eapply binv_step|by eapply toks_step].
Qed.

(** C28: The tokens of an agent are conserved, the tasks it has been sent and has not
    answered never exceed its process limit, and whenever it answers one of them there is
    a locked token to give back: the token imbalance branch is unreachable. *)
Theorem broker_tokens (md5 : string → string) (b : Broker) (ap : nat) (a : Agent)
    (Hr : broker_reachable md5 b) (Ha : agent_heap b !! ap = Some a) :
  (AvailableTokens a + LockedTokens a = a_limit a)%nat ∧
  (length (a_work a) ≤ a_limit a)%nat ∧
  (∀ id, id ∈ a_work a → LockedTokens a ≠ 0%nat).
Proof.
  destruct (broker_reachable_toks md5 b Hr) as [_ Ht]. destruct (Ht _ _ Ha) as [H1 H2].
  split_and!; [done|lia|]. intros id Hid. destruct (a_work a); [by apply not_elem_of_nil in Hid|].
  cbn in H2. lia.
Qed.

(** ** Runs *)

Definition req1 : CompileRequest := mkCompileRequest "r1" (Some tc_a) ["-c"; "a.c"] "int x;" None.
Definition ok1 : CompileResponse :=
  mkCompileResponse "r1" CompileResponse_Success (DataCompiledSource "OBJ").

(** An agent connects, a request is submitted, sent to it, answered and delivered. *)
Definition good_run : list blabel :=
  [BConnect "agent" [tc_a] 2; BSubmit "cd" req1 (PullMiss "h"); BReceive 0 0; BTakeToken 0;
   BSendTask 0 0 true; BResponse 0 ok1; BHandle 0].

(** The agent's stream ends while its send goroutine waits for a request; its tasks are
    cleaned up; only then does the send goroutine receive the request. *)
Definition lost_run : list blabel :=
  [BConnect "agent" [tc_a] 2; BTakeToken 0; BSubmit "cd" req1 NoCache; BReceive 0 0;
   BDisconnect 0; BCleanup 0; BSendTask 0 0 false; BDetach 0 (tcHash id tc_a)].

Definition after_broker : list blabel → Broker := after_run (bstep id) NewBroker.

Lemma after_broker_reachable ls : broker_reachable id (after_broker ls).
Proof. apply after_run_reach; [done|]. by apply Forall_true. Qed.

Lemma broker_exactly_one_place_witness :
  count (λ e, bool_decide (RespRequestID e.2 = "r1")) (delivered (after_broker good_run)) = 1.
Proof.
  pose proof (broker_exactly_one_place id (after_broker good_run) "r1"
    (after_broker_reachable good_run)) as H.
  replace (w (pendingRequests (after_broker good_run)) "r1") with 0 in H by (vm_compute; reflexivity).
  replace (w (inflightRequests (after_broker good_run)) "r1") with 0 in H by (vm_compute; reflexivity).
  replace (requeue (after_broker good_run)) with (@nil (CompileRequest * string)) in H
    by (vm_compute; reflexivity).
  replace (w (submitted (after_broker good_run)) "r1") with 1 in H by (vm_compute; reflexivity).
  exact H.
Defined.

Lemma broker_delivers_to_submitter_witness :
  submitted (after_broker good_run) !! "r1" = Some "cd".
Proof.
  apply (broker_delivers_to_submitter id (after_broker good_run) "cd" ok1).
  - apply after_broker_reachable.
  - vm_compute. left.
Defined.

Lemma broker_pending_once_witness :
  hand_count "r1" (agent_heap (after_broker (take 4 good_run))) = 1.
Proof.
  pose proof (broker_pending_once id (after_broker (take 4 good_run)) "r1"
    (after_broker_reachable (take 4 good_run))) as H.
  replace (w (pendingRequests (after_broker (take 4 good_run))) "r1") with 1 in H
    by (vm_compute; reflexivity).
  replace (count (λ e, bool_decide (RequestID e.1.1 = "r1")) (routing (after_broker (take 4 good_run))))
    with 0 in H by (vm_compute; reflexivity).
  symmetry. exact H.
Defined.

Lemma broker_tokens_witness : (1 + 1 = 2)%nat.
Proof.
  refine (proj1 (broker_tokens id (after_broker (take 5 good_run)) 0
    (mkAgent "agent" 2 1 1 TxIdle [tcHash id tc_a] [] ["r1"] 0 true false) _ _)).
  - apply after_broker_reachable.
  - vm_compute. reflexivity.
Defined.

(** A request can be lost: when an agent disconnects after its receiver took a
    request and its cleanup runs before the send goroutine stores it, the request stays
    in [inflightRequests] with the dead agent, nothing is queued, and no step other than
    a new connection or a new request is possible. *)
Theorem broker_lost_request :
  let b := after_broker lost_run in
  inflightRequests b !! "r1" = Some (req1, "cd", Some 0%nat) ∧ delivered b = [] ∧
  (∀ l b', bstep id l b = Some b' →
     (∃ uuid tcs limit, l = BConnect uuid tcs limit) ∨ (∃ cd req pull, l = BSubmit cd req pull)).
Proof.
  split_and!; [vm_compute; reflexivity..|].
  assert (agent_heap (after_broker lost_run) =
    {[0%nat := mkAgent "agent" 2 1 1 TxFailed [] [] [] 0 false true]}) as Eh
    by (vm_compute; reflexivity).
  assert (routing (after_broker lost_run) = [] ∧ respq (after_broker lost_run) = [] ∧
    requeue (after_broker lost_run) = []) as (Er & Eq & Erq) by (vm_compute; done).
  intros l b' Hs.
  destruct l; [by eauto 10|by eauto 10| | |..]; cbn [bstep] in Hs;
    rewrite ?Eh, ?Er, ?Eq, ?Erq in Hs; try done;
    apply bind_Some in Hs as (a & [_ <-]%lookup_singleton_Some & Hs); by cbn in Hs.
Qed.

(** Every request is counted twice in [requestCount], when it is routed and again
    when its response is handled: after one successful compile the count is 2. *)
Theorem broker_double_count :
  delivered (after_broker good_run) = [("cd", ok1)] ∧
  completedTasks (after_broker good_run) = 1 ∧ requestCount (after_broker good_run) = 2 ∧
  pushed (after_broker good_run) = [("h", "OBJ")].
Proof. vm_compute. split_and!; reflexivity. Qed.
