(* ===== verification/BrokerStreams.v ===== *)
(** * Consumer daemons at the broker: [NewConsumerdTaskStream], [handleConsumerdStream]

    A consumer daemon opens a stream; the broker waits for its toolchains with the mutex
    [consumerdsMutex] held, registers it under its UUID, adds it to the router, and starts
    the goroutines that read its requests, follow its toolchains and remove it when the
    stream ends.  Each acquisition of the mutex and each channel operation is a step
    ([pkg/scheduler/broker.go], [tcwatcher.go], [server.go]). *)
From S2P Require Import Prelude GoStrings Types Router.

(** Where a call of [NewConsumerdTaskStream] is. *)
Inductive cpc : Set :=
  | CLock                         (** at [b.consumerdsMutex.Lock()] *)
  | CWait                         (** holding the mutex, waiting for the toolchains *)
  | CAdd                          (** registered, about to call [AddSender] *)
  | CHandle                       (** about to look itself up in [handleConsumerdStream] *)
  | CServing (cd : option nat)    (** its goroutines run, with the record that was found *)
  | CTimedOut.                    (** returned [DeadlineExceeded] *)
#[export] Instance cpc_eq_dec : EqDecision cpc.
Proof. solve_decision. Defined.

Record conn := mkConn {
  c_uuid : string;
  c_pc : cpc;
  c_tcs : list Toolchain;
  c_open : bool;      (** the context of the stream is not done *)
  c_update : bool;    (** the goroutine that waits for one update of the toolchains *)
  c_cleanup : bool;   (** the goroutine that removes the registration *)
}.

Definition set_pc (pc : cpc) (c : conn) : conn :=
  mkConn (c_uuid c) pc (c_tcs c) (c_open c) (c_update c) (c_cleanup c).

Record CdStreams := mkStreams {
  conns : list conn;              (** [Consumerd] records, by the order of their calls *)
  cd_lock : option nat;           (** the call that holds [consumerdsMutex] *)
  consumerds : gmap string nat;
  cd_router : Router;
}.

Definition new_streams : CdStreams := mkStreams [] None ∅ NewRouter.

Inductive clabel : Set :=
  | CConnect (uuid : string)
  | CAcquire (i : nat)
  | CReceive (i : nat) (tcs : list Toolchain)
  | CTimeout (i : nat)
  | CAddSender (i : nat)
  | CHandleStream (i : nat)
  | CUpdate (i : nat) (tcs : list Toolchain)
  | CClose (i : nat)
  | CCleanup (i : nat).

Section streams.
Context (md5 : string → string).

Definition at_pc (i : nat) (pc : cpc) (s : CdStreams) : option conn :=
  c ← conns s !! i; if decide (c_pc c = pc) then Some c else None.

Definition put_conn (i : nat) (c : conn) (s : CdStreams) : list conn := <[i := c]> (conns s).

(** One step of a call, or of a goroutine it started. *)
Definition cstep (l : clabel) (s : CdStreams) : option CdStreams :=
  match l with
  | CConnect uuid =>
      Some (mkStreams (conns s ++ [mkConn uuid CLock [] true false false]) (cd_lock s)
              (consumerds s) (cd_router s))
  | CAcquire i =>
      c ← at_pc i CLock s;
      match cd_lock s with
      | Some _ => None
      | None => Some (mkStreams (put_conn i (set_pc CWait c) s) (Some i) (consumerds s) (cd_router s))
      end
  | CReceive i tcs =>
      c ← at_pc i CWait s;
      Some (mkStreams (put_conn i (mkConn (c_uuid c) CAdd tcs (c_open c) (c_update c) (c_cleanup c)) s)
              None (<[c_uuid c := i]> (consumerds s)) (cd_router s))
  | CTimeout i =>
      c ← at_pc i CWait s;
      Some (mkStreams (put_conn i (set_pc CTimedOut c) s) None (consumerds s) (cd_router s))
  | CAddSender i =>
      c ← at_pc i CAdd s;
      Some (mkStreams (put_conn i (set_pc CHandle c) s) (cd_lock s) (consumerds s)
              (AddSender md5 (c_uuid c) (c_tcs c) (cd_router s)))
  | CHandleStream i =>
      c ← at_pc i CHandle s;
      match cd_lock s with
      | Some _ => None
      | None =>
          Some (mkStreams (put_conn i (mkConn (c_uuid c) (CServing (consumerds s !! c_uuid c)) (c_tcs c)
                  (c_open c) true true) s) None (consumerds s) (cd_router s))
      end
  | CUpdate i tcs =>
      c ← conns s !! i;
      if c_update c && c_open c then
        Some (mkStreams (put_conn i (mkConn (c_uuid c) (c_pc c) (c_tcs c) (c_open c) false (c_cleanup c)) s) (cd_lock s)
                (consumerds s) (UpdateSenderToolchains md5 (c_uuid c) tcs (cd_router s)))
      else None
  | CClose i =>
      c ← conns s !! i;
      Some (mkStreams (put_conn i (mkConn (c_uuid c) (c_pc c) (c_tcs c) false (c_update c) (c_cleanup c)) s)
              (cd_lock s) (consumerds s) (cd_router s))
  | CCleanup i =>
      c ← conns s !! i;
      match cd_lock s with
      | Some _ => None
      | None =>
          if c_cleanup c && negb (c_open c) then
            Some (mkStreams (put_conn i (mkConn (c_uuid c) (c_pc c) (c_tcs c) (c_open c) (c_update c) false) s) None
                    (delete (c_uuid c) (consumerds s)) (cd_router s))
          else None
      end
  end.

(** ** Invariants *)

(** The call has a place in [consumerds]. *)
Definition registered (c : conn) : bool :=
  match c_pc c with
  | CAdd | CHandle => true
  | CServing _ => c_cleanup c
  | _ => false
  end.

(** The call and its cleanup are over, or it never registered. *)
Definition finished (c : conn) : bool :=
  match c_pc c with
  | CServing _ => negb (c_cleanup c)
  | CTimedOut => true
  | _ => false
  end.

(** A daemon connects again only after its earlier stream has been cleaned up. *)
Definition clean_reconnect (l : clabel) (s : CdStreams) : bool :=
  match l with
  | CConnect uuid => forallb (λ c, negb (String.eqb (c_uuid c) uuid) || finished c) (conns s)
  | _ => true
  end.
Definition clean_step (l : clabel) (s : CdStreams) : option CdStreams :=
  if clean_reconnect l s then cstep l s else None.

Record streams_ok (s : CdStreams) : Prop := {
  so_lock : ∀ i, cd_lock s = Some i ↔ ∃ c, conns s !! i = Some c ∧ c_pc c = CWait;
  so_goroutines : ∀ i c, conns s !! i = Some c → (∀ r, c_pc c ≠ CServing r) →
    c_update c = false ∧ c_cleanup c = false;
  so_unique : ∀ i j ci cj, conns s !! i = Some ci → conns s !! j = Some cj →
    c_uuid ci = c_uuid cj → finished ci = false → finished cj = false → i = j;
  so_map : ∀ uuid i, consumerds s !! uuid = Some i ↔
    ∃ c, conns s !! i = Some c ∧ c_uuid c = uuid ∧ registered c = true;
  so_served : ∀ i c r, conns s !! i = Some c → c_pc c = CServing r → r = Some i;
}.

Lemma at_pc_Some i pc s c : at_pc i pc s = Some c ↔ conns s !! i = Some c ∧ c_pc c = pc.
Proof.
  unfold at_pc. destruct (conns s !! i) as [c0|]; cbn; [|naive_solver].
  case_decide; naive_solver.
Qed.

Lemma registered_live c : registered c = true → finished c = false.
Proof. unfold registered, finished. by destruct (c_pc c), (c_cleanup c). Qed.

(** What may change when call [i] goes from [c] to [c']: the mutex as its program point says,
    and its own entry of the map. *)
Lemma streams_ok_update s i c c' lock m r :
  streams_ok s → conns s !! i = Some c → c_uuid c' = c_uuid c →
  lock = (if decide (c_pc c' = CWait) then Some i else if decide (c_pc c = CWait) then None else cd_lock s) →
  (c_pc c' = CWait → c_pc c ≠ CWait → cd_lock s = None) →
  ((∀ r, c_pc c' ≠ CServing r) → c_update c' = false ∧ c_cleanup c' = false) →
  (finished c' = false → finished c = false) →
  (∀ uuid j, m !! uuid = Some j ↔
     j = i ∧ uuid = c_uuid c ∧ registered c' = true ∨ j ≠ i ∧ consumerds s !! uuid = Some j) →
  (∀ r, c_pc c' = CServing r → r = Some i) →
  streams_ok (mkStreams (put_conn i c' s) lock m r).
Proof.
  intros [HL HG HU HM HS] Hi Huu Hlock Hfree Hg Hfin Hm Hserved.
  assert (∀ j d, put_conn i c' s !! j = Some d ↔ j = i ∧ d = c' ∨ j ≠ i ∧ conns s !! j = Some d) as Hput.
  { intros j d. unfold put_conn. pose proof (lookup_lt_Some _ _ _ Hi) as Hlt.
    destruct (decide (j = i)) as [->|Hne].
    - rewrite list_lookup_insert_eq by done. naive_solver.
    - rewrite list_lookup_insert_ne by done. naive_solver. }
  split; cbn.
  - assert (cd_lock s = Some i ↔ c_pc c = CWait) as HLi.
    { rewrite HL. split; [intros (d & Hd & ?); congruence|by exists c]. }
    intros j. transitivity (j = i ∧ c_pc c' = CWait ∨ j ≠ i ∧ cd_lock s = Some j).
    + subst lock. destruct (decide (c_pc c' = CWait)) as [Hw|Hw].
      * split; [by intros [= ->]; left|]. intros [[-> _]|[Hne Hj]]; [done|].
        destruct (decide (c_pc c = CWait)) as [E|E]; [apply HLi in E; congruence|].
        by rewrite (Hfree Hw E) in Hj.
      * destruct (decide (c_pc c = CWait)) as [E|E].
        -- apply HLi in E. split; [done|]. intros [[_ ?]|[Hne Hj]]; [done|congruence].
        -- split; [|by intros [[_ ?]|[_ ?]]]. intros Hj. right. split; [|done].
           intros ->. by apply E, HLi.
    + rewrite HL. split.
      * intros [[-> Hw]|[Hne (d & Hd & Hw)]]; [exists c'|exists d]; (split; [apply Hput|done]); auto.
      * intros (d & [[-> ->]|[? ?]]%Hput & Hw); eauto.
  - intros j d [[-> ->]|[_ Hj]]%Hput; [done|by eapply HG].
  - intros j k cj ck [[-> ->]|[? Hj]]%Hput [[-> ->]|[? Hk]]%Hput Hu Fj Fk; [done|..].
    + apply (HU i k c ck Hi Hk); [congruence|auto|done].
    + apply (HU j i cj c Hj Hi); [congruence|done|auto].
    + by eapply (HU j k).
  - intros uuid j. rewrite Hm, HM. split.
    + intros [(-> & -> & Hr)|(Hne & d & Hd & <- & Hr)]; [exists c'|exists d];
        (split; [apply Hput|done]); auto.
    + intros (d & [[-> ->]|[? ?]]%Hput & <- & Hr); eauto 10.
  - intros j d r' [[-> ->]|[_ Hj]]%Hput; [by apply Hserved|by eapply HS].
Qed.

(** The map does not change when the call stays registered, or unregistered. *)
Lemma map_same s i c :
  streams_ok s → conns s !! i = Some c → ∀ b, b = registered c →
  ∀ uuid j, consumerds s !! uuid = Some j ↔
    j = i ∧ uuid = c_uuid c ∧ b = true ∨ j ≠ i ∧ consumerds s !! uuid = Some j.
Proof.
  intros Hok Hi b -> uuid j. destruct (decide (j = i)) as [->|Hne]; [|naive_solver].
  rewrite (so_map _ Hok). naive_solver.
Qed.

Lemma map_insert s i c :
  streams_ok s → conns s !! i = Some c → finished c = false →
  ∀ uuid j, <[c_uuid c := i]> (consumerds s) !! uuid = Some j ↔
    j = i ∧ uuid = c_uuid c ∧ true = true ∨ j ≠ i ∧ consumerds s !! uuid = Some j.
Proof.
  intros Hok Hi Hf uuid j. rewrite lookup_insert_Some. split.
  - intros [[<- <-]|[Hne Hj]]; [by left|]. right. split; [|done]. intros ->.
    apply (so_map _ Hok) in Hj as (d & Hd & Hu & _). congruence.
  - intros [(-> & -> & _)|[Hne Hj]]; [by left|]. right. split; [|done]. intros <-.
    apply (so_map _ Hok) in Hj as (d & Hd & Hu & Hr%registered_live).
    by apply Hne, (so_unique _ Hok j i d c).
Qed.

Lemma map_delete s i c :
  streams_ok s → conns s !! i = Some c → registered c = true →
  ∀ uuid j, delete (c_uuid c) (consumerds s) !! uuid = Some j ↔
    j = i ∧ uuid = c_uuid c ∧ false = true ∨ j ≠ i ∧ consumerds s !! uuid = Some j.
Proof.
  intros Hok Hi Hr uuid j. rewrite lookup_delete_Some. split.
  - intros [Hne Hj]. right. split; [|done]. intros ->.
    apply (so_map _ Hok) in Hj as (d & Hd & Hu & _). congruence.
  - intros [(_ & _ & ?)|[Hne Hj]]; [done|]. split; [|done]. intros <-.
    assert (consumerds s !! c_uuid c = Some i) by (apply (so_map _ Hok); eauto). congruence.
Qed.

(** A goroutine of a call runs only while the call is served. *)
Lemma goroutine_serving s i c :
  streams_ok s → conns s !! i = Some c → c_update c || c_cleanup c = true →
  c_pc c = CServing (Some i).
Proof.
  intros Hok Hi Hg. destruct (c_pc c) as [| | | |r|] eqn:E.
  5: by rewrite (so_served _ Hok i c r).
  all: destruct (so_goroutines _ Hok i c Hi) as [Hu Hc]; [by rewrite E|];
    by rewrite Hu, Hc in Hg.
Qed.

Lemma streams_ok_step s l s' : streams_ok s → clean_step l s = Some s' → streams_ok s'.
Proof.
  intros Hok. unfold clean_step. destruct (clean_reconnect l s) eqn:Hcl; [|done].
  destruct l; cbn [cstep].
  - intros [= <-]. cbn in Hcl.
    assert (∀ j d, (conns s ++ [mkConn uuid CLock [] true false false]) !! j = Some d ↔
      conns s !! j = Some d ∨ j = length (conns s) ∧ d = mkConn uuid CLock [] true false false) as Hput.
    { intros j d. rewrite lookup_app_Some, list_lookup_singleton_Some. split.
      - intros [?|(? & ? & ->)]; [by left|right]. split; [lia|done].
      - intros [?|[-> ->]]; [by left|right]. split; [lia|]. split; [lia|done]. }
    assert (∀ j d, conns s !! j = Some d → c_uuid d = uuid → finished d = true) as Hdone.
    { intros j d Hj Hu. rewrite forallb_forall in Hcl.
      specialize (Hcl d ltac:(by apply list_elem_of_In, (list_elem_of_lookup_2 _ j))).
      rewrite Hu, String.eqb_refl in Hcl. done. }
    destruct Hok as [HL HG HU HM HS]. split; cbn; try setoid_rewrite Hput.
    + intros i. rewrite HL. naive_solver.
    + intros i c [Hi|[_ ->]]; [by apply (HG i)|done].
    + intros i j ci cj [Hi|[-> ->]] [Hj|[-> ->]] Hu Fi Fj; [by eapply HU| | |done].
      * apply (Hdone i) in Hi; [congruence|done].
      * apply (Hdone j) in Hj; [congruence|done].
    + intros u i. rewrite HM. naive_solver.
    + intros i c r [Hi|[_ ->]]; [by apply (HS i)|done].
  - intros (c & [Hi Hpc]%at_pc_Some & Hs)%bind_Some. destruct (cd_lock s) eqn:EL; [done|].
    injection Hs as <-. eapply streams_ok_update; [done..| | | | | | |]; cbn; try done.
    + intros _. by apply (so_goroutines _ Hok i c); [|rewrite Hpc].
    + unfold finished. by rewrite Hpc.
    + apply map_same; [done..|]. unfold registered. by rewrite Hpc.
  - intros (c & [Hi Hpc]%at_pc_Some & [= <-])%bind_Some.
    assert (finished c = false) as Hf by (unfold finished; by rewrite Hpc).
    destruct (so_goroutines _ Hok i c Hi) as [Eu Ec]; [by rewrite Hpc|].
    eapply streams_ok_update; [done..| | | | | | |]; cbn; try done.
    + repeat case_decide; congruence.
    + by apply map_insert.
  - intros (c & [Hi Hpc]%at_pc_Some & [= <-])%bind_Some.
    eapply streams_ok_update; [done..| | | | | | |]; cbn; try done.
    + repeat case_decide; congruence.
    + intros _. by apply (so_goroutines _ Hok i c); [|rewrite Hpc].
    + apply map_same; [done..|]. unfold registered. by rewrite Hpc.
  - intros (c & [Hi Hpc]%at_pc_Some & [= <-])%bind_Some.
    eapply streams_ok_update; [done..| | | | | | |]; cbn; try done.
    + repeat case_decide; congruence.
    + intros _. by apply (so_goroutines _ Hok i c); [|rewrite Hpc].
    + unfold finished. by rewrite Hpc.
    + apply map_same; [done..|]. unfold registered. by rewrite Hpc.
  - intros (c & [Hi Hpc]%at_pc_Some & Hs)%bind_Some. destruct (cd_lock s) eqn:EL; [done|].
    injection Hs as <-.
    assert (consumerds s !! c_uuid c = Some i) as Hreg.
    { apply (so_map _ Hok). exists c. unfold registered. by rewrite Hpc. }
    eapply streams_ok_update; [done..| | | | | | |]; cbn; try done.
    + repeat case_decide; congruence.
    + intros Hn. by destruct (Hn (consumerds s !! c_uuid c)).
    + unfold finished. by rewrite Hpc.
    + apply map_same; [done..|]. unfold registered. by rewrite Hpc.
    + intros r [= <-]. done.
  - intros (c & Hi & Hs)%bind_Some. destruct (c_update c && c_open c) eqn:Eg; [|done].
    apply andb_true_iff in Eg as [Eu _]. injection Hs as <-.
    assert (c_pc c = CServing (Some i)) as Hpc by (apply (goroutine_serving s); [done..|by rewrite Eu]).
    eapply streams_ok_update; [done..| | | | | | |]; cbn; try done.
    + repeat case_decide; congruence.
    + intros Hn. by destruct (Hn (Some i)).
    + by apply map_same.
    + intros r Hr. by apply (so_served _ Hok i c).
  - intros (c & Hi & [= <-])%bind_Some.
    eapply streams_ok_update; [done..| | | | | | |]; cbn; try done.
    + destruct (decide (c_pc c = CWait)) as [E|E]; [|done].
      apply (so_lock _ Hok). by exists c.
    + by apply (so_goroutines _ Hok i c).
    + by apply map_same.
    + intros r Hr. by apply (so_served _ Hok i c).
  - intros (c & Hi & Hs)%bind_Some. destruct (cd_lock s) eqn:EL; [done|].
    destruct (c_cleanup c && negb (c_open c)) eqn:Eg; [|done].
    apply andb_true_iff in Eg as [Ec _]. injection Hs as <-.
    assert (c_pc c = CServing (Some i)) as Hpc
      by (apply (goroutine_serving s); [done..|by rewrite Ec, orb_true_r]).
    eapply streams_ok_update; [done..| | | | | | |]; cbn; try done.
    + repeat case_decide; congruence.
    + intros Hn. by destruct (Hn (Some i)).
    + unfold finished. by rewrite Hpc.
    + unfold registered at 1. cbn. rewrite Hpc. apply map_delete; [done..|].
      unfold registered. by rewrite Hpc.
    + intros r Hr. by apply (so_served _ Hok i c).
Qed.

Lemma streams_ok_new : streams_ok new_streams.
Proof.
  split; cbn; try done; [intros i; split; [done|by intros (? & ? & _)]|].
  intros uuid i. rewrite lookup_empty. split; [done|by intros (? & ? & _)].
Qed.

Definition streams_reachable : CdStreams → Prop :=
  reach clean_step (λ s, s = new_streams) (λ _, True).

Lemma streams_inv s : streams_reachable s → streams_ok s.
Proof.
  apply reach_inv; [intros ? ->; apply streams_ok_new|]. intros ? ? ? ? _. by apply streams_ok_step.
Qed.

(** A step of the streams is a step of the router, or none. *)
Lemma router_of_step l s s' :
  cstep l s = Some s' → router_reachable md5 (cd_router s) → router_reachable md5 (cd_router s').
Proof.
  intros Hs Hr. destruct l; cbn in Hs;
    repeat first [apply bind_Some in Hs as (? & ? & Hs) | case_match; try done];
    simplify_eq; cbn; try done.
  - by eapply (reach_step _ _ _ _ (RAddSender _ _)).
  - by eapply (reach_step _ _ _ _ (RUpdate _ _)).
Qed.

Lemma streams_router s : streams_reachable s → router_reachable md5 (cd_router s).
Proof.
  apply (reach_inv _ _ _ (λ s, router_reachable md5 (cd_router s)));
    [intros ? ->; by apply reach_init|]. intros m l m' IH _. unfold clean_step.
  destruct (clean_reconnect l m); [|done]. intros Hs. by eapply router_of_step.
Qed.
End streams.

(** C21: As long as a consumer daemon reconnects only after its earlier stream was cleaned up,
    [consumerds] holds exactly the registered calls under their UUIDs, every served stream
    works with its own record, the mutex is held exactly by a call that waits for toolchains,
    and the router is in a state of its own system. *)
Theorem consumerds_registered (md5 : string → string) (s : CdStreams) :
  streams_reachable md5 s →
  (∀ uuid i, consumerds s !! uuid = Some i ↔
     ∃ c, conns s !! i = Some c ∧ c_uuid c = uuid ∧ registered c = true)
  ∧ (∀ i c r, conns s !! i = Some c → c_pc c = CServing r → r = Some i)
  ∧ (∀ i, cd_lock s = Some i ↔ ∃ c, conns s !! i = Some c ∧ c_pc c = CWait)
  ∧ router_reachable md5 (cd_router s).
Proof.
  intros Hr. pose proof (streams_inv _ _ Hr) as Hok. split_and!.
  - apply (so_map _ Hok).
  - apply (so_served _ Hok).
  - apply (so_lock _ Hok).
  - by apply streams_router.
Qed.

(** The goroutine that follows the toolchains handles one update: after it no other one is
    ever applied, although the daemon may be served for as long as it likes. *)
Theorem toolchains_followed_once md5 i tcs tcs' ls s s1 s2 :
  streams_reachable md5 s → cstep md5 (CUpdate i tcs) s = Some s1 →
  run_labels (cstep md5) ls s1 = Some s2 → cstep md5 (CUpdate i tcs') s2 = None.
Proof.
  intros Hr Hu Hrun.
  assert (∀ t, (∃ c r, conns t !! i = Some c ∧ c_pc c = CServing r ∧ c_update c = false) →
    cstep md5 (CUpdate i tcs') t = None) as Hnone.
  { intros t (c & r & Hc & _ & Hf). cbn. by rewrite Hc; cbn; rewrite Hf. }
  apply Hnone. clear Hnone. revert Hrun.
  assert (∃ c r, conns s1 !! i = Some c ∧ c_pc c = CServing r ∧ c_update c = false) as Hi.
  { cbn in Hu. apply bind_Some in Hu as (c & Hi & Hs).
    destruct (c_update c && c_open c) eqn:Eg; [|done]. apply andb_true_iff in Eg as [Eu _].
    pose proof (goroutine_serving _ _ _ (streams_inv _ _ Hr) Hi ltac:(by rewrite Eu)) as Hpc.
    injection Hs as <-. cbn. unfold put_conn.
    rewrite list_lookup_insert_eq by (by eapply lookup_lt_Some). eauto. }
  clear Hu Hr s. revert s1 Hi. induction ls as [|l ls IH]; intros s1 Hi; cbn; [by intros [= <-]|].
  intros (s' & Hs & Hrun)%bind_Some. eapply IH; [|done]. clear IH Hrun.
  destruct Hi as (c & r & Hi & Hpc & Hu).
  destruct l as [u|j|j ?|j|j|j|j ?|j|j]; cbn in Hs.
  { injection Hs as <-. exists c, r. cbn. rewrite lookup_app_l; [done|by eapply lookup_lt_Some]. }
  all: repeat first [apply bind_Some in Hs as (? & ? & Hs) | case_match; try done];
    simplify_eq; cbn; unfold put_conn;
    try match goal with H : at_pc _ _ _ = Some _ |- _ => apply at_pc_Some in H as [? ?] end.
  all: destruct (decide (i = j)) as [<-|Hne];
    [|by rewrite list_lookup_insert_ne by done; eauto].
  all: try (exfalso; congruence).
  all: rewrite list_lookup_insert_eq by (by eapply lookup_lt_Some); simplify_eq;
    do 2 eexists; (split; [done|]); cbn; done.
Qed.

(** ** Faults *)

Definition first_stream (tcs : list Toolchain) : list clabel :=
  [CConnect "cd"; CAcquire 0; CReceive 0 tcs; CAddSender 0; CHandleStream 0].
Definition after_streams : list clabel → CdStreams := after_run (cstep id) new_streams.

(** A daemon that reconnects before its old stream is cleaned up: the cleanup deletes the
    new registration, and [handleConsumerdStream] finds a nil record, which the next
    response for the daemon dereferences. And a daemon that never posts its toolchains keeps
    the mutex until it times out: meanwhile no other one can register. *)
Theorem reconnect_faults :
  (λ c, (c_pc c, c_open c)) <$> conns (after_streams (first_stream [tc_a] ++ [CClose 0; CConnect "cd";
      CAcquire 1; CReceive 1 [tc_a]; CCleanup 0; CAddSender 1; CHandleStream 1])) !! 1%nat
    = Some (CServing None, true)
  ∧ cstep id (CAcquire 1) (after_streams [CConnect "silent"; CAcquire 0; CConnect "cd"]) = None
  ∧ cd_lock <$> cstep id (CAcquire 1)
      (after_streams [CConnect "silent"; CAcquire 0; CConnect "cd"; CTimeout 0])
    = Some (Some 1%nat).
Proof. split_and!; vm_compute; reflexivity. Qed.

Definition served : CdStreams :=
  after_run (clean_step id) new_streams (first_stream [tc_a] ++ [CConnect "other"; CAcquire 1]).
Lemma consumerds_registered_witness :
  consumerds served !! "cd" = Some 0%nat ∧ cd_lock served = Some 1%nat
  ∧ router_reachable id (cd_router served).
Proof.
  destruct (consumerds_registered id served) as (Hm & _ & Hl & Hr).
  { apply after_run_reach; [done|]. by repeat constructor. }
  split; [apply Hm|split; [apply Hl|exact Hr]]; eexists;
    (split; [vm_compute; reflexivity|]); [split|]; reflexivity.
Defined.
