(* ===== verification/Monitor.v ===== *)
(** * The monitor: [pkg/monitor/store.go], [pkg/monitor/server.go]

    Providers connect with a stream and post metrics into a bucket named by their uuid;
    listeners subscribe to a key and are sent every change of its value.  The state is the
    server's maps.  [providerMutex] is explicit because one path of [Stream] returns without
    releasing it.  What is sent to a listener is appended to [sent].

    In [mstep] each handler runs undisturbed up to its next blocking receive.  Handlers that
    hold [providerMutex] for writing (connecting, disconnecting, the end of [Listen]) do; a
    post and a [Listen] hold it for reading only, so their parts interleave: [MonitorSteps]
    has these steps. *)
From S2P Require Import Prelude GoStrings Types.

(** [anypb.Any]. *)
Record Any := mkAny { TypeUrl : string; AnyValue : string }.
#[export] Instance Any_eq_dec : EqDecision Any.
Proof. solve_decision. Defined.

Record ProviderInfo := mkProviderInfo {
  ProviderUUID : string;
  ProviderComponent : Component;
  Address : string;
}.
#[export] Instance ProviderInfo_eq_dec : EqDecision ProviderInfo.
Proof. solve_decision. Defined.

Definition MetaBucket : string := "meta".

(** A subscription: the key, the listener's uuid and the nonce of the call. *)
Record Listener := mkListener { l_key : Key; l_id : string; l_nonce : string }.
#[export] Instance Listener_eq_dec : EqDecision Listener.
Proof. solve_decision. Defined.

Section monitor.
(** The messages of the generated code, with [proto.Equal], [Any.UnmarshalNew] and
    [anypb.New]. *)
Context {Msg : Type} `{EqDecision Msg}.
Context (UnmarshalNew : Any → error + Msg) (anypb_New : Msg → Any).
Context (Providers : gmap string ProviderInfo → Msg).

(** ** The key-value store *)

Abbreviation InMemoryStore := (gmap string Msg).

Definition NewStore : InMemoryStore := ∅.
Definition store_Set (key : string) (value : Msg) (m : InMemoryStore) : InMemoryStore :=
  <[key := value]> m.
Definition store_Delete (key : string) (m : InMemoryStore) : InMemoryStore := delete key m.
Definition store_Get (key : string) (m : InMemoryStore) : option Msg := m !! key.

(** Stores the value and reports [true] when it is new or different. *)
Definition store_CAS (key : string) (value : Msg) (m : InMemoryStore) : InMemoryStore * bool :=
  match m !! key with
  | Some data => if bool_decide (data = value) then (m, false) else (<[key := value]> m, true)
  | None => (<[key := value]> m, true)
  end.
Definition store_Keys (m : InMemoryStore) : list string := (map_to_list m).*1.
Definition store_Len (m : InMemoryStore) : nat := size m.

(** ** The server *)

Record MonitorServer := mkMonitor {
  m_uuid : string;
  buckets : gmap string InMemoryStore;
  providers : gmap string ProviderInfo;
  listeners : list Listener;
  metricsTotal : Z;
  sent : list (Listener * Any);   (** newest first *)
  locked : bool;                  (** [providerMutex] is held by a call that returned *)
}.

Definition set_bucket (b : string) (s : InMemoryStore) (m : MonitorServer) : MonitorServer :=
  mkMonitor (m_uuid m) (<[b := s]> (buckets m)) (providers m) (listeners m) (metricsTotal m)
    (sent m) (locked m).

(** [notify]: every receiver registered under the canonical form of the key. *)
Definition notify (key : Key) (value : Any) (m : MonitorServer) : MonitorServer :=
  let rs := List.filter (λ l, bool_decide (Canonical (l_key l) = Canonical key)) (listeners m) in
  mkMonitor (m_uuid m) (buckets m) (providers m) (listeners m) (metricsTotal m)
    (((λ l, (l, value)) <$> rs) ++ sent m) (locked m).

Definition incMetricsPostedTotal (m : MonitorServer) : MonitorServer :=
  mkMonitor (m_uuid m) (buckets m) (providers m) (listeners m) (metricsTotal m + 1) (sent m)
    (locked m).

(** [post]; a nil value deletes the key without notifying anyone. *)
Definition post (key : Key) (value : option Any) (m : MonitorServer) :
    MonitorServer * option error :=
  match buckets m !! Bucket key with
  | None => (m, Some (StatusError InvalidArgument ("No such bucket: '" +:+ Bucket key +:+ "'")))
  | Some store =>
      match value with
      | None => (set_bucket (Bucket key) (store_Delete (Name key) store) m, None)
      | Some any =>
          match UnmarshalNew any with
          | inl err => (m, Some err)
          | inr contents =>
              let '(store, changed) := store_CAS (Name key) contents store in
              let m := set_bucket (Bucket key) store m in
              if changed then (notify key any (incMetricsPostedTotal m), None) else (m, None)
          end
      end
  end.

(** [providersUpdated]: posts the provider map to the meta bucket. *)
Definition meta_key : Key := mkKey MetaBucket (TypeUrl (anypb_New (Providers ∅))).

Definition providersUpdated (m : MonitorServer) : MonitorServer :=
  let any := anypb_New (Providers (providers m)) in
  (post (mkKey MetaBucket (TypeUrl any)) (Some any) m).1.

Definition NewMonitorServer (uuid : string) : MonitorServer :=
  providersUpdated
    (mkMonitor uuid (<[MetaBucket := NewStore]> {[uuid := NewStore]})
       {[uuid := mkProviderInfo uuid Monitor "0.0.0.0"]} [] 0 [] false).

(** [Stream] up to its receive loop.  The error return leaves the mutex locked. *)
Definition Stream_connect (uuid : string) (c : Component) (addr : string) (m : MonitorServer) :
    MonitorServer * option error :=
  match buckets m !! uuid with
  | Some _ =>
      (mkMonitor (m_uuid m) (buckets m) (providers m) (listeners m) (metricsTotal m) (sent m) true,
       Some (StatusError AlreadyExists "A client with the same identity is already connected"))
  | None =>
      (providersUpdated
         (mkMonitor (m_uuid m) (<[uuid := NewStore]> (buckets m))
            (<[uuid := mkProviderInfo uuid c addr]> (providers m)) (listeners m)
            (metricsTotal m) (sent m) (locked m)), None)
  end.

(** The end of [Stream]. *)
Definition Stream_disconnect (uuid : string) (m : MonitorServer) : MonitorServer :=
  providersUpdated
    (mkMonitor (m_uuid m) (delete uuid (buckets m)) (delete uuid (providers m)) (listeners m)
       (metricsTotal m) (sent m) (locked m)).

(** [Listen] up to its select: registration and the late join. *)
Definition Listen (l : Listener) (m : MonitorServer) : MonitorServer * option error :=
  match buckets m !! Bucket (l_key l) with
  | None => (m, Some (StatusError FailedPrecondition
                        ("No such bucket: '" +:+ Bucket (l_key l) +:+ "'")))
  | Some bucket =>
      let late := match store_Get (Name (l_key l)) bucket with
                  | Some value => [(l, anypb_New value)]
                  | None => []
                  end in
      (mkMonitor (m_uuid m) (buckets m) (providers m) (l :: listeners m) (metricsTotal m)
         (late ++ sent m) (locked m), None)
  end.

(** The deferred function of [Listen]. *)
Definition Listen_done (l : Listener) (m : MonitorServer) : MonitorServer :=
  mkMonitor (m_uuid m) (buckets m) (providers m) (remove_one l (listeners m)) (metricsTotal m)
    (sent m) (locked m).

Definition Whois (uuid : string) (m : MonitorServer) : error + ProviderInfo :=
  match providers m !! uuid with
  | Some info => inr info
  | None => inl (StatusError NotFound "The requested provider was not found.")
  end.

Definition GetMetric (key : Key) (m : MonitorServer) : error + Any :=
  match buckets m !! Bucket key with
  | None => inl (StatusError NotFound "No such bucket")
  | Some bucket =>
      match store_Get (Name key) bucket with
      | None => inl (StatusError NotFound "No such key")
      | Some msg => inr (anypb_New msg)
      end
  end.

Definition GetBuckets (m : MonitorServer) : list string := (map_to_list (buckets m)).*1.

Definition GetKeys (bucket : string) (m : MonitorServer) : error + list Key :=
  match buckets m !! bucket with
  | None => inl (StatusError NotFound "No such bucket")
  | Some b => inr (mkKey bucket <$> store_Keys b)
  end.

(** ** Steps *)

Inductive mlabel :=
  | MConnect (uuid : string) (c : Component) (addr : string)
  | MPost (key : Key) (value : option Any)
  | MDisconnect (uuid : string)
  | MListen (l : Listener)
  | MListenDone (l : Listener)
  | MRead.   (** any of the queries: they take the mutex for reading *)

Definition mstep (lb : mlabel) (m : MonitorServer) : option MonitorServer :=
  if locked m then None
  else match lb with
       | MConnect uuid c addr => Some (Stream_connect uuid c addr m).1
       | MPost key value => Some (post key value m).1
       | MDisconnect uuid =>
           if bool_decide (is_Some (providers m !! uuid)) && bool_decide (uuid ≠ m_uuid m)
           then Some (Stream_disconnect uuid m) else None
       | MListen l => if bool_decide (l ∈ listeners m) then None else Some (Listen l m).1
       | MListenDone l =>
           if bool_decide (l ∈ listeners m) then Some (Listen_done l m) else None
       | MRead => Some m
       end.
End monitor.
