(* ===== verification/MonitorProps.v ===== *)
(** * Properties of the monitor

    The meta bucket always shows the connected providers, and a second connection with the
    same identity blocks the server ([pkg/monitor/server.go]).  That listeners are up to date
    with the key they listen to is an invariant of the handlers one by one, shown here; what
    remains of it when they interleave is in [MonitorSteps]. *)
From S2P Require Import Prelude GoStrings Types Monitor.

(** The last value sent to a listener. *)
Fixpoint last_sent (l : Listener) (sent : list (Listener * Any)) : option Any :=
  match sent with
  | [] => None
  | (l', a) :: sent => if decide (l' = l) then Some a else last_sent l sent
  end.

Lemma last_sent_app_same l rs a s : l ∈ rs → last_sent l (((λ l, (l, a)) <$> rs) ++ s) = Some a.
Proof.
  induction rs as [|r rs IH]; [by intros ?%not_elem_of_nil|]. cbn.
  intros [->|Hin]%elem_of_cons; case_decide; try done. by apply IH.
Qed.

Lemma last_sent_app_other l rs a s :
  l ∉ rs → last_sent l (((λ l, (l, a)) <$> rs) ++ s) = last_sent l s.
Proof.
  induction rs as [|r rs IH]; [done|]. cbn. intros [Hne Hin]%not_elem_of_cons.
  rewrite decide_False by done. by apply IH.
Qed.

Definition no_dot (s : string) : Prop := dot ∉ chars s.

Lemma Canonical_inj k1 k2 :
  no_dot (Bucket k1) → no_dot (Bucket k2) → Canonical k1 = Canonical k2 → k1 = k2.
Proof.
  intros H1 H2 HE. destruct k1 as [b1 n1], k2 as [b2 n2]. unfold Canonical in HE. cbn in *.
  assert (split2 dot (chars (b1 +:+ "." +:+ n1)) = split2 dot (chars (b2 +:+ "." +:+ n2))) as HS
    by by rewrite HE.
  rewrite !chars_app in HS. cbn in HS. rewrite !split2_app in HS by done.
  injection HS as Hb Hn. f_equal; by apply (inj chars).
Qed.

Section props.
Context {Msg : Type} `{EqDecision Msg}.
Context (UnmarshalNew : Any → error + Msg) (anypb_New : Msg → Any).
Context (Providers : gmap string ProviderInfo → Msg).
Hypothesis unmarshal_new : ∀ msg, UnmarshalNew (anypb_New msg) = inr msg.
Hypothesis url_const : ∀ p q, TypeUrl (anypb_New (Providers p)) = TypeUrl (anypb_New (Providers q)).

Abbreviation server := (@MonitorServer Msg).
Abbreviation post := (post UnmarshalNew).
Abbreviation updated := (providersUpdated UnmarshalNew anypb_New Providers).

(** ** Listeners are up to date between handlers *)

Record current (m : server) : Prop := {
  cur_buckets : ∀ b, is_Some (buckets m !! b) → no_dot b;
  cur_listeners : ∀ l, l ∈ listeners m → no_dot (Bucket (l_key l));
  cur_values : ∀ l s v, l ∈ listeners m → buckets m !! Bucket (l_key l) = Some s →
    s !! Name (l_key l) = Some v →
    ∃ any, last_sent l (sent m) = Some any ∧ UnmarshalNew any = inr v;
}.

Lemma current_set_bucket (m : server) b s s' :
  current m → buckets m !! b = Some s →
  (∀ l v, l ∈ listeners m → Bucket (l_key l) = b → s' !! Name (l_key l) = Some v →
     s !! Name (l_key l) = Some v) →
  current (set_bucket b s' m).
Proof.
  intros H Hb Hs. split; cbn.
  - intros b'. rewrite lookup_insert_is_Some'. intros [<-|?]; apply (cur_buckets _ H); eauto.
  - by apply (cur_listeners _ H).
  - intros l s0 v Hl Hs0 Hv.
    apply lookup_insert_Some in Hs0 as [[He <-]|[_ Hb']]; [|by eapply (cur_values _ H)].
    eapply (cur_values _ H); [done|by rewrite <- He|]. by apply Hs.
Qed.

Lemma filter_listeners k (ls : list Listener) l :
  l ∈ List.filter (λ l, bool_decide (Canonical (l_key l) = Canonical k)) ls ↔
  l ∈ ls ∧ Canonical (l_key l) = Canonical k.
Proof. rewrite !list_elem_of_In, filter_In, bool_decide_eq_true. done. Qed.

(** A changed value reaches exactly the listeners of its key. *)
Lemma current_notify (m : server) k any v s :
  current m → buckets m !! Bucket k = Some s → UnmarshalNew any = inr v →
  current (notify k any (incMetricsPostedTotal (set_bucket (Bucket k) (<[Name k := v]> s) m))).
Proof.
  intros H Hb Hu. split; cbn.
  - intros b'. rewrite lookup_insert_is_Some'. intros [<-|?]; apply (cur_buckets _ H); eauto.
  - by apply (cur_listeners _ H).
  - intros l s0 v0 Hl Hs Hv. destruct (decide (l_key l = k)) as [Hk|Hk].
    + exists any. rewrite last_sent_app_same by (apply filter_listeners; by rewrite Hk).
      rewrite Hk, lookup_insert_eq in Hs. injection Hs as <-.
      rewrite Hk, lookup_insert_eq in Hv. by injection Hv as <-.
    + rewrite last_sent_app_other.
      2: { rewrite filter_listeners. intros [_ HC]. apply Hk. apply Canonical_inj; [| |done].
           - by apply (cur_listeners _ H).
           - apply (cur_buckets _ H). eauto. }
      apply lookup_insert_Some in Hs as [[He <-]|[_ Hs]]; [|by eapply (cur_values _ H)].
      rewrite lookup_insert_ne in Hv by (intros Hn; apply Hk; destruct (l_key l), k; cbn in *; congruence).
      eapply (cur_values _ H); [done|by rewrite <- He|done].
Qed.

Lemma current_post (m : server) k value : current m → current (post k value m).1.
Proof.
  intros H. unfold Monitor.post. destruct (buckets m !! Bucket k) as [s|] eqn:Hb; [|done].
  destruct value as [any|]; cbn.
  - destruct (UnmarshalNew any) as [|v] eqn:Hu; [done|]. unfold store_CAS.
    destruct (s !! Name k) as [v0|] eqn:Hv; [case_bool_decide as E|]; cbn.
    + apply (current_set_bucket _ _ s); auto.
    + by apply current_notify.
    + by apply current_notify.
  - apply (current_set_bucket _ _ s); [done..|]. unfold store_Delete.
    by intros l v _ _ [_ ?]%lookup_delete_Some.
Qed.

Lemma current_buckets (m : server) bs ps :
  current m → (∀ b s, bs !! b = Some s → no_dot b ∧ (buckets m !! b = Some s ∨ s = ∅)) →
  current (mkMonitor (m_uuid m) bs ps (listeners m) (metricsTotal m) (sent m) (locked m)).
Proof.
  intros H Hbs. split; cbn.
  - intros b [s Hs]. by destruct (Hbs _ _ Hs).
  - by apply (cur_listeners _ H).
  - intros l s v Hl Hs Hv. destruct (Hbs _ _ Hs) as [_ [?| ->]]; [by eapply (cur_values _ H)|].
    by rewrite lookup_empty in Hv.
Qed.

Lemma current_Listen (m : server) l : current m → current (Listen anypb_New l m).1.
Proof.
  intros H. unfold Listen. destruct (buckets m !! Bucket (l_key l)) as [s|] eqn:Hb; [|done].
  cbn. split; cbn.
  - by apply (cur_buckets _ H).
  - intros l' [->|?]%elem_of_cons; [apply (cur_buckets _ H); eauto|by apply (cur_listeners _ H)].
  - intros l' s' v Hl Hs Hv. destruct (decide (l' = l)) as [->|Hne].
    + rewrite Hb in Hs. injection Hs as <-. unfold store_Get. rewrite Hv. cbn.
      rewrite decide_True by done. eauto.
    + apply elem_of_cons in Hl as [?|Hl]; [done|].
      destruct (cur_values _ H _ _ _ Hl Hs Hv) as (any & Ha & Hu). exists any. split; [|done].
      destruct (store_Get _ _); cbn; [by rewrite decide_False|done].
Qed.

(** Labels whose connections use identities without a dot. *)
Definition plain (lb : mlabel) : Prop :=
  match lb with
  | MConnect uuid _ _ => no_dot uuid
  | _ => True
  end.

Definition monitor_reachable (P : mlabel → Prop) : server → Prop :=
  reach (mstep UnmarshalNew anypb_New Providers)
    (λ m, ∃ uuid, no_dot uuid ∧ uuid ≠ MetaBucket ∧
                  m = NewMonitorServer UnmarshalNew anypb_New Providers uuid) P.

Lemma current_new uuid :
  no_dot uuid → current (NewMonitorServer UnmarshalNew anypb_New Providers uuid).
Proof.
  intros Hu. unfold NewMonitorServer, providersUpdated. apply current_post. split; cbn.
  - intros b. rewrite lookup_insert_is_Some'. intros [<-|[s Hs]].
    + unfold no_dot. by apply (bool_decide_unpack _).
    + by apply lookup_singleton_Some in Hs as [<- _].
  - by intros l ?%not_elem_of_nil.
  - by intros l s v ?%not_elem_of_nil.
Qed.

Lemma current_step lb (m m' : server) :
  plain lb → current m → mstep UnmarshalNew anypb_New Providers lb m = Some m' → current m'.
Proof.
  intros Hp H. unfold mstep. destruct (locked m) eqn:El; [done|]. destruct lb; cbn in *.
  - intros [= <-]. unfold Stream_connect. destruct (buckets m !! uuid) eqn:Hb; cbn; [by destruct H|].
    apply current_post, current_buckets; [done|].
    intros b s [[<- <-]|[_ Hs]]%lookup_insert_Some; [by auto|].
    split; [apply (cur_buckets _ H); eauto|by left].
  - intros [= <-]. by apply current_post.
  - intros (_ & _ & [= <-])%andb_if. apply current_post, current_buckets; [done|].
    intros b s [_ Hs]%lookup_delete_Some. split; [apply (cur_buckets _ H); eauto|by left].
  - case_bool_decide; [done|]. intros [= <-]. by apply current_Listen.
  - case_bool_decide; [|done]. intros [= <-]. split; cbn; try by destruct H.
    + intros l' Hl. apply (cur_listeners _ H). by eapply remove_one_subset.
    + intros l' s v Hl. apply (cur_values _ H). by eapply remove_one_subset.
  - by intros [= <-].
Qed.

(** ** The meta bucket *)

(** The meta bucket holds the provider map, and there is a bucket for each provider. *)
Record meta_ok (m : server) : Prop := {
  meta_value : ∃ s, buckets m !! MetaBucket = Some s ∧
    s !! Name (meta_key anypb_New Providers) = Some (Providers (providers m));
  meta_dom : ∀ b, is_Some (buckets m !! b) ↔ b = MetaBucket ∨ is_Some (providers m !! b);
  meta_not_provider : providers m !! MetaBucket = None;
}.

Lemma updated_meta (m : server) s :
  buckets m !! MetaBucket = Some s →
  (∀ b, is_Some (buckets m !! b) ↔ b = MetaBucket ∨ is_Some (providers m !! b)) →
  providers m !! MetaBucket = None → meta_ok (updated m).
Proof.
  intros Hb Hd Hnp. unfold providersUpdated, Monitor.post. cbn. rewrite Hb, unmarshal_new.
  assert (∀ s' b, is_Some (<[MetaBucket := s']> (buckets m) !! b) ↔
    b = MetaBucket ∨ is_Some (providers m !! b)) as Hd'.
  { intros s' b. rewrite lookup_insert_is_Some', Hd. intuition auto. }
  unfold store_CAS. rewrite (url_const (providers m) ∅).
  destruct (s !! _) as [v|] eqn:Hv; [case_bool_decide as E|]; cbn; split; cbn; try apply Hd'; try done.
  - exists s. rewrite lookup_insert_eq. split; [done|]. by rewrite <- E.
  - eexists. rewrite lookup_insert_eq. split; [done|]. by rewrite lookup_insert_eq.
  - eexists. rewrite lookup_insert_eq. split; [done|]. by rewrite lookup_insert_eq.
Qed.

(** Posts by providers stay out of the meta bucket. *)
Definition no_meta (lb : mlabel) : Prop :=
  match lb with
  | MPost key _ => Bucket key ≠ MetaBucket
  | _ => True
  end.

Lemma meta_post (m : server) k value :
  Bucket k ≠ MetaBucket → meta_ok m → meta_ok (post k value m).1.
Proof.
  intros Hk [(s & Hs & Hv) Hd Hnp]. unfold Monitor.post.
  destruct (buckets m !! Bucket k) as [s0|] eqn:Hb; [|by split; eauto].
  assert (∀ s' l t se, meta_ok (mkMonitor (m_uuid m) (<[Bucket k := s']> (buckets m))
    (providers m) l t se (locked m))) as HM.
  { intros s' l t se. split; cbn.
    - exists s. by rewrite lookup_insert_ne.
    - intros b. rewrite lookup_insert_is_Some', <- Hd. split; [|by right]. intros [<-|?]; eauto.
    - done. }
  destruct value as [any|]; [|apply HM]. destruct (UnmarshalNew any); [by split; eauto|].
  unfold store_CAS. repeat case_match; simplify_eq/=; apply HM.
Qed.

Lemma meta_step lb (m m' : server) :
  no_meta lb → meta_ok m → mstep UnmarshalNew anypb_New Providers lb m = Some m' → meta_ok m'.
Proof.
  intros Hn Hm. pose proof Hm as [(s & Hs & Hv) Hd Hnp]. unfold mstep.
  destruct (locked m) eqn:El; [done|]. destruct lb; cbn in *.
  - intros [= <-]. unfold Stream_connect.
    destruct (buckets m !! uuid) eqn:Hb; cbn; [by split; eauto|].
    apply (updated_meta _ s); cbn.
    + rewrite lookup_insert_ne; [done|]. congruence.
    + intros b. rewrite !lookup_insert_is_Some', Hd. intuition auto.
    + rewrite lookup_insert_ne; [done|]. congruence.
  - intros [= <-]. by apply meta_post.
  - intros (Hp & Hne & [= <-])%andb_if. apply bool_decide_eq_true in Hp.
    assert (uuid ≠ MetaBucket) as Hme by (intros ->; rewrite Hnp in Hp; by destruct Hp).
    apply (updated_meta _ s); cbn.
    + by rewrite lookup_delete_ne.
    + intros b. rewrite !lookup_delete_is_Some, Hd. naive_solver.
    + by rewrite lookup_delete_ne.
  - case_bool_decide; [done|]. intros [= <-]. unfold Listen. by case_match; split; eauto.
  - case_bool_decide; [|done]. intros [= <-]. by split; eauto.
  - by intros [= <-].
Qed.

Lemma meta_new uuid :
  uuid ≠ MetaBucket → meta_ok (NewMonitorServer UnmarshalNew anypb_New Providers uuid).
Proof.
  intros Hu. apply (updated_meta _ ∅); cbn.
  - by rewrite lookup_insert_eq.
  - intros b. rewrite lookup_insert_is_Some'. destruct (decide (b = uuid)) as [->|Hne].
    + rewrite !lookup_singleton_eq. naive_solver.
    + rewrite !lookup_singleton_ne by done. naive_solver.
  - by rewrite lookup_singleton_ne.
Qed.

(** C33: As long as providers post to their own buckets, the meta bucket holds exactly the
    providers that are connected, every provider has a bucket, and [Whois] knows exactly
    the buckets' owners. *)
Theorem monitor_meta_bucket (m : server) (Hr : monitor_reachable no_meta m) :
  GetMetric anypb_New (meta_key anypb_New Providers) m = inr (anypb_New (Providers (providers m))) ∧
  (∀ b, b ∈ GetBuckets m ↔ b = MetaBucket ∨ ∃ info, Whois b m = inr info).
Proof.
  enough (meta_ok m) as [(s & Hs & Hv) Hd _].
  { split; [unfold GetMetric, store_Get; cbn in *; by rewrite Hs, Hv|].
    intros b. unfold GetBuckets, Whois. rewrite list_elem_of_fmap. trans (is_Some (buckets m !! b)).
    - split.
      + intros ([b' s'] & -> & Hin%elem_of_map_to_list). eauto.
      + intros [s' Hin]. exists (b, s'). by rewrite elem_of_map_to_list.
    - rewrite Hd. destruct (providers m !! b) as [i|]; naive_solver. }
  revert Hr. apply reach_inv; [intros ? (uuid & _ & ? & ->); by apply meta_new|].
  intros m1 lb m2 H Hp. by apply meta_step.
Qed.

(** A provider that connects with an identity that is in use is refused, but the
    refusal keeps the provider mutex: from then on no handler of the server can run. *)
Theorem monitor_duplicate_blocks (m m' : server) (uuid : string) (c : Component) (addr : string)
    (err : option error) (Hdup : is_Some (buckets m !! uuid))
    (HS : Stream_connect UnmarshalNew anypb_New Providers uuid c addr m = (m', err)) :
  status_code err = AlreadyExists ∧
  ∀ lb, mstep UnmarshalNew anypb_New Providers lb m' = None.
Proof.
  unfold Stream_connect in HS. destruct Hdup as [s Hs]. rewrite Hs in HS.
  injection HS as <- <-. by split.
Qed.
End props.

(** ** Witnesses: messages as strings *)

Definition str_unmarshal (a : Any) : error + string := inr (AnyValue a).
Definition str_new (s : string) : Any := mkAny "t" s.
Definition str_providers (p : gmap string ProviderInfo) : string :=
  join "," (map_to_list p).*1.

Definition mon_run (ls : list mlabel) : MonitorServer :=
  after_run (mstep str_unmarshal str_new str_providers)
    (NewMonitorServer str_unmarshal str_new str_providers "mon") ls.

Definition test_listener : Listener := mkListener (mkKey "p1" "t") "cd" "n1".

Definition mon_labels : list mlabel :=
  [MConnect "p1" Agent "10.0.0.1"; MPost (mkKey "p1" "t") (Some (mkAny "t" "v1"));
   MListen test_listener; MPost (mkKey "p1" "t") (Some (mkAny "t" "v2"))].

Lemma mon_run_reachable (P : mlabel → Prop) ls :
  Forall P ls → monitor_reachable str_unmarshal str_new str_providers P (mon_run ls).
Proof.
  intros HF. apply after_run_reach; [|done]. exists "mon".
  split_and!; [|done|done]. unfold no_dot. by apply (bool_decide_unpack _).
Qed.

Lemma monitor_meta_bucket_witness :
  GetMetric str_new (mkKey "meta" "t") (mon_run mon_labels) = inr (mkAny "t" "mon,p1") ∨
  GetMetric str_new (mkKey "meta" "t") (mon_run mon_labels) = inr (mkAny "t" "p1,mon").
Proof.
  destruct (monitor_meta_bucket str_unmarshal str_new str_providers (λ _, eq_refl) (λ _ _, eq_refl)
    (mon_run mon_labels)) as [H _].
  - apply mon_run_reachable. by repeat constructor.
  - vm_compute in H |- *. auto.
Defined.

Lemma monitor_duplicate_blocks_witness :
  mstep str_unmarshal str_new str_providers MRead
    (Stream_connect str_unmarshal str_new str_providers "p1" Agent "10.0.0.2"
       (mon_run mon_labels)).1 = None.
Proof.
  apply (monitor_duplicate_blocks str_unmarshal str_new str_providers (mon_run mon_labels)
    _ "p1" Agent "10.0.0.2"
    (Stream_connect str_unmarshal str_new str_providers "p1" Agent "10.0.0.2" (mon_run mon_labels)).2).
  - vm_compute. eauto.
  - vm_compute. reflexivity.
Defined.
