(* ===== verification/MonitorSteps.v ===== *)
(** * Posts and listeners of the monitor, step by step: [pkg/monitor/server.go]

    [post] stores a value and then notifies; [Listen] registers the receiver, then reads the
    value and then sends it. Both hold [providerMutex] for reading only, so these parts of
    concurrent calls interleave; handlers that take it for writing wait for all of them.
    [notify] and the registration exclude each other by [listenerMutex], so the sends of one
    [notify] go to one set of receivers and are one step. *)
From S2P Require Import Prelude GoStrings Types Monitor MonitorProps.

(** A call that holds [providerMutex] for reading. *)
Inductive reader : Set :=
  | PNotify (key : Key) (value : Any)      (** a post before [notify] *)
  | LGet (l : Listener)                    (** a registered listener before [bucket.Get] *)
  | LSend (l : Listener) (value : Any).    (** before the send of the late join *)
#[export] Instance reader_eq_dec : EqDecision reader.
Proof. solve_decision. Defined.

Section steps.
Context {Msg : Type} `{EqDecision Msg}.
Context (UnmarshalNew : Any → error + Msg) (anypb_New : Msg → Any).
Context (Providers : gmap string ProviderInfo → Msg).

Abbreviation server := (@MonitorServer Msg).

Record MonSys := mkMonSys { mon : server; readers : list reader }.

(** [post] up to [notify], and whether there is something to notify. *)
Definition post_store (key : Key) (value : option Any) (m : server) : server * option error * option Any :=
  match buckets m !! Bucket key with
  | None => (m, Some (StatusError InvalidArgument ("No such bucket: '" +:+ Bucket key +:+ "'")), None)
  | Some store =>
      match value with
      | None => (set_bucket (Bucket key) (store_Delete (Name key) store) m, None, None)
      | Some any =>
          match UnmarshalNew any with
          | inl err => (m, Some err, None)
          | inr contents =>
              let '(store, changed) := store_CAS (Name key) contents store in
              let m := set_bucket (Bucket key) store m in
              if changed then (incMetricsPostedTotal m, None, Some any) else (m, None, None)
          end
      end
  end.

(** The three parts of [Listen]. *)
Definition Listen_register (l : Listener) (m : server) : server :=
  mkMonitor (m_uuid m) (buckets m) (providers m) (l :: listeners m) (metricsTotal m) (sent m) (locked m).
Definition Listen_get (l : Listener) (m : server) : option Any :=
  anypb_New <$> (buckets m !! Bucket (l_key l) ≫= store_Get (Name (l_key l))).
Definition Listen_send (l : Listener) (value : Any) (m : server) : server :=
  mkMonitor (m_uuid m) (buckets m) (providers m) (listeners m) (metricsTotal m) ((l, value) :: sent m) (locked m).

Inductive slabel :=
  | SWrite (lb : mlabel)                        (** a handler that holds the mutex for writing *)
  | SPost (key : Key) (value : option Any)
  | SNotify (key : Key) (value : Any)
  | SListen (l : Listener)
  | SGet (l : Listener)
  | SSend (l : Listener) (value : Any).

Definition is_write (lb : mlabel) : bool :=
  match lb with MConnect _ _ _ | MDisconnect _ | MListenDone _ => true | _ => false end.

Definition sys_step (lb : slabel) (s : MonSys) : option MonSys :=
  let m := mon s in
  match lb with
  | SWrite lb =>
      if is_write lb && bool_decide (readers s = [])
      then m ← mstep UnmarshalNew anypb_New Providers lb m; Some (mkMonSys m []) else None
  | SPost key value =>
      if locked m then None else
      let '(m, _, changed) := post_store key value m in
      Some (mkMonSys m (match changed with Some any => PNotify key any :: readers s | None => readers s end))
  | SNotify key any =>
      if bool_decide (PNotify key any ∈ readers s)
      then Some (mkMonSys (notify key any m) (remove_one (PNotify key any) (readers s))) else None
  | SListen l =>
      if locked m || bool_decide (l ∈ listeners m) then None
      else match buckets m !! Bucket (l_key l) with
           | None => Some s
           | Some _ => Some (mkMonSys (Listen_register l m) (LGet l :: readers s))
           end
  | SGet l =>
      if bool_decide (LGet l ∈ readers s)
      then Some (mkMonSys m (match Listen_get l m with
                             | Some any => LSend l any :: remove_one (LGet l) (readers s)
                             | None => remove_one (LGet l) (readers s)
                             end))
      else None
  | SSend l any =>
      if bool_decide (LSend l any ∈ readers s)
      then Some (mkMonSys (Listen_send l any m) (remove_one (LSend l any) (readers s))) else None
  end.

(** The handlers of [Monitor] are these parts, one after the other. *)
Lemma post_parts key value m :
  post UnmarshalNew key value m =
    let '(m, err, changed) := post_store key value m in
    (match changed with Some any => notify key any m | None => m end, err).
Proof. unfold post, post_store. repeat case_match; by simplify_eq. Qed.

Lemma Listen_parts l m s :
  buckets m !! Bucket (l_key l) = Some s →
  (Listen anypb_New l m).1 =
    match Listen_get l (Listen_register l m) with
    | Some any => Listen_send l any (Listen_register l m)
    | None => Listen_register l m
    end.
Proof. intros Hs. unfold Listen, Listen_get. cbn. rewrite Hs. cbn. by destruct (store_Get _ s). Qed.
End steps.

(** ** Listeners are up to date *)

(** The reader has a value of the key at hand that it is about to send. *)
Definition has_value (key : Key) (r : reader) : bool :=
  match r with
  | PNotify k _ => bool_decide (k = key)
  | LSend l _ => bool_decide (l_key l = key)
  | LGet _ => false
  end.
(** The reader will send something to the listener. *)
Definition concerns (l : Listener) (r : reader) : bool :=
  match r with
  | PNotify k _ => bool_decide (k = l_key l)
  | LGet l' | LSend l' _ => bool_decide (l' = l)
  end.

Section current.
Context {Msg : Type} `{EqDecision Msg}.
Context (UnmarshalNew : Any → error + Msg) (anypb_New : Msg → Any).
Context (Providers : gmap string ProviderInfo → Msg).
Hypothesis unmarshal_new : ∀ msg, UnmarshalNew (anypb_New msg) = inr msg.

Abbreviation server := (@MonitorServer Msg).

(** Values are posted to a key only when no other call is about to send an earlier value of
    it: neither another post nor a late join. *)
Definition calm_step (lb : slabel) (s : @MonSys Msg) : option MonSys :=
  match lb with
  | SPost key (Some _) =>
      if forallb (λ r, negb (has_value key r)) (readers s)
      then sys_step UnmarshalNew anypb_New Providers lb s else None
  | _ => sys_step UnmarshalNew anypb_New Providers lb s
  end.
Definition plain_label (lb : slabel) : Prop := match lb with SWrite lb => plain lb | _ => True end.

(** The value of a key. *)
Definition value_at (m : server) (key : Key) : option Msg := buckets m !! Bucket key ≫= λ s, s !! Name key.
(** [any] is the value of the key, if it has one. *)
Definition is_value (m : server) (key : Key) (any : Any) : Prop := ∀ v, value_at m key = Some v → UnmarshalNew any = inr v.

Record calm (s : MonSys) : Prop := {
  calm_buckets : ∀ b, is_Some (buckets (mon s) !! b) → no_dot b;
  calm_listeners : ∀ l, l ∈ listeners (mon s) → no_dot (Bucket (l_key l));
  calm_notify : ∀ key any, PNotify key any ∈ readers s → is_Some (buckets (mon s) !! Bucket key) ∧ is_value (mon s) key any;
  calm_send : ∀ l any, LSend l any ∈ readers s → is_value (mon s) (l_key l) any;
  calm_values : ∀ l v, l ∈ listeners (mon s) → value_at (mon s) (l_key l) = Some v →
    (∃ r, r ∈ readers s ∧ concerns l r = true) ∨
    ∃ any, last_sent l (sent (mon s)) = Some any ∧ UnmarshalNew any = inr v;
}.

(** With no reader under way, the invariant is that of the handlers one by one. *)
Lemma calm_idle m : current UnmarshalNew m ↔ calm (mkMonSys m []).
Proof.
  assert (∀ key v, value_at m key = Some v ↔ ∃ s, buckets m !! Bucket key = Some s ∧ s !! Name key = Some v) as HV.
  { intros key v. unfold value_at. by rewrite bind_Some. }
  split.
  - intros [H1 H2 H3]. split; cbn; try done; [by intros ? ? ?%not_elem_of_nil..|].
    intros l v Hl (s & Hs & Hv)%HV. right. by eapply H3.
  - intros [H1 H2 _ _ H5]. split; [done..|]. intros l s v Hl Hs Hv.
    destruct (H5 l v Hl) as [(r & ?%not_elem_of_nil & _)|?]; [apply HV; by eauto|done|done].
Qed.

Lemma value_set_bucket m b s key :
  value_at (set_bucket b s m) key = if decide (b = Bucket key) then s !! Name key else value_at m key.
Proof. unfold value_at. cbn. case_decide as E; [subst; by rewrite lookup_insert_eq|by rewrite lookup_insert_ne]. Qed.

(** How a post changes the values. *)
Lemma post_store_spec key value m m' err changed :
  post_store UnmarshalNew key value m = (m', err, changed) →
  listeners m' = listeners m ∧ sent m' = sent m ∧ locked m' = locked m ∧
  (∀ b, is_Some (buckets m' !! b) ↔ is_Some (buckets m !! b)) ∧
  (∀ k, k ≠ key → value_at m' k = value_at m k) ∧
  match changed with
  | Some any => value = Some any ∧ is_Some (buckets m !! Bucket key) ∧ is_value m' key any
  | None => ∀ v, value_at m' key = Some v → value_at m key = Some v
  end.
Proof.
  unfold post_store. destruct (buckets m !! Bucket key) as [st|] eqn:Hb; [|intros [= <- <- <-]; done].
  assert (∀ s' b, is_Some (buckets (set_bucket (Bucket key) s' m) !! b) ↔ is_Some (buckets m !! b)) as HB.
  { intros s' b. cbn. rewrite lookup_insert_is_Some'. split; [intros [<-|?]; eauto|by right]. }
  assert (∀ s' k, (∀ n, n ≠ Name key → s' !! n = st !! n) → k ≠ key → value_at (set_bucket (Bucket key) s' m) k = value_at m k) as HK.
  { intros s' k Hs Hk. rewrite value_set_bucket. case_decide as E; [|done]. unfold value_at. rewrite <- E, Hb. cbn.
    apply Hs. intros En. apply Hk. destruct k, key; cbn in *; congruence. }
  assert (value_at m key = st !! Name key) as Hval by (unfold value_at; by rewrite Hb).
  destruct value as [any|].
  - destruct (UnmarshalNew any) as [|v] eqn:Hu; [by intros [= <- <- <-]|]. unfold store_CAS.
    destruct (match st !! Name key with Some data => if bool_decide (data = v) then (st, false) else (<[Name key:=v]> st, true) | None => (<[Name key:=v]> st, true) end)
      as [s' ch] eqn:EC.
    assert ((ch = false ∧ s' = st) ∨ (ch = true ∧ s' = <[Name key := v]> st)) as [[-> ->]|[-> ->]]
      by (repeat case_match; simplify_eq; auto); intros [= <- <- <-].
    + split_and!; [done..|apply HB|intros k; apply HK; done|]. intros w. rewrite value_set_bucket, decide_True by done. by rewrite Hval.
    + split_and!; [done..|apply HB| |done|by eexists|].
      * intros k. apply (HK (<[Name key := v]> st)). intros n Hn. by rewrite lookup_insert_ne.
      * intros w Hw. unfold value_at in Hw. cbn in Hw. rewrite lookup_insert_eq in Hw. cbn in Hw. rewrite lookup_insert_eq in Hw. congruence.
  - intros [= <- <- <-]. split_and!; [done..|apply HB| |].
    + intros k. apply HK. intros n Hn. unfold store_Delete. by rewrite lookup_delete_ne.
    + intros w. rewrite value_set_bucket, decide_True by done. unfold store_Delete. by intros [? _]%lookup_delete_Some.
Qed.

Lemma is_value_same m m' key any : value_at m' key = value_at m key → is_value m key any → is_value m' key any.
Proof. intros E HV v. rewrite E. apply HV. Qed.

Lemma calm_post key value s m' err changed :
  calm s → (value ≠ None → Forall (λ r, has_value key r = false) (readers s)) →
  post_store UnmarshalNew key value (mon s) = (m', err, changed) →
  calm (mkMonSys m' (match changed with Some any => PNotify key any :: readers s | None => readers s end)).
Proof.
  intros [H1 H2 H3 H4 H5] HF (El & Es & _ & HB & HK & HC)%post_store_spec.
  assert (∀ k any, is_value (mon s) k any → k ≠ key ∨ changed = None → is_value m' k any) as HV.
  { intros k any Hv [Hk|Hn]; [by eapply is_value_same; [apply HK|]|]. destruct (decide (k = key)) as [->|Hne].
    - rewrite Hn in HC. intros v Hv'. by apply Hv, HC.
    - by eapply is_value_same; [apply HK|]. }
  assert (∀ r, r ∈ readers s → has_value key r = true → changed = None) as Hbusy.
  { intros r Hr Hh. destruct changed as [any|]; [|done]. destruct HC as [-> _]. specialize (HF ltac:(done)).
    rewrite Forall_forall in HF. specialize (HF r Hr). congruence. }
  assert (∀ k any, PNotify k any ∈ readers s → is_Some (buckets m' !! Bucket k) ∧ is_value m' k any) as HN.
  { intros k any Hr. destruct (H3 k any Hr) as [Hb Hv]. split; [by apply HB|]. apply HV; [done|].
    destruct (decide (k = key)) as [->|]; [right|by left]. apply (Hbusy _ Hr). by apply bool_decide_eq_true. }
  split; cbn [mon readers]; rewrite ?El, ?Es.
  - intros b. rewrite HB. apply H1.
  - done.
  - destruct changed as [any|]; [|done]. intros k a [[= -> ->]|Hr]%elem_of_cons; [|by apply HN].
    destruct HC as (_ & Hb & Hv). split; [by apply HB|done].
  - intros l any Hr. assert (LSend l any ∈ readers s) as Hr'.
    { destruct changed; [|done]. by apply elem_of_cons in Hr as [?|?]. }
    apply HV; [by apply H4|]. destruct (decide (l_key l = key)) as [Hk|]; [right|by left].
    apply (Hbusy _ Hr'). by apply bool_decide_eq_true.
  - intros l v Hl Hv. assert ((∃ any, changed = Some any ∧ l_key l = key) ∨ value_at (mon s) (l_key l) = Some v) as [(any & -> & Hk)|Hv'].
    { destruct (decide (l_key l = key)) as [Hk|Hne]; [|right; by rewrite <- HK].
      destruct changed as [any|]; [left; by eauto|right]. rewrite Hk in *. by apply HC. }
    + left. exists (PNotify key any). split; [by left|]. by apply bool_decide_eq_true.
    + destruct (H5 l v Hl Hv') as [(r & Hr & Hc)|?]; [left|by right]. exists r. split; [|done].
      destruct changed; [by right|done].
Qed.

Lemma calm_notify_step key any s :
  calm s → PNotify key any ∈ readers s → calm (mkMonSys (notify key any (mon s)) (remove_one (PNotify key any) (readers s))).
Proof.
  intros [H1 H2 H3 H4 H5] Hr. destruct (H3 _ _ Hr) as [Hb Hval]. split; cbn [mon readers].
  - done.
  - done.
  - intros k a ?%remove_one_subset. by apply H3.
  - intros l a ?%remove_one_subset. by apply H4.
  - intros l v Hl Hv. destruct (decide (l_key l = key)) as [Hk|Hk].
    + right. exists any. cbn. split; [|apply Hval; by rewrite <- Hk].
      rewrite last_sent_app_same; [done|]. apply filter_listeners. by rewrite Hk.
    + destruct (H5 l v Hl Hv) as [(r & Hin & Hc)|(a & Ha & Hu)].
      * left. exists r. split; [|done]. rewrite (remove_one_Permutation _ _ Hr) in Hin. apply elem_of_cons in Hin as [->|?]; [|done].
        cbn in Hc. apply bool_decide_eq_true in Hc. by destruct Hk.
      * right. exists a. split; [|done]. cbn. rewrite last_sent_app_other; [done|].
        rewrite filter_listeners. intros [_ HC]. apply Hk, Canonical_inj; [by apply H2|by apply H1|done].
Qed.

Lemma calm_get l s :
  calm s → LGet l ∈ readers s →
  calm (mkMonSys (mon s) (match Listen_get anypb_New l (mon s) with
                          | Some any => LSend l any :: remove_one (LGet l) (readers s)
                          | None => remove_one (LGet l) (readers s)
                          end)).
Proof.
  intros [H1 H2 H3 H4 H5] Hr. assert (Listen_get anypb_New l (mon s) = anypb_New <$> value_at (mon s) (l_key l)) as EG by done.
  rewrite EG. assert (∀ r, r ∈ match anypb_New <$> value_at (mon s) (l_key l) with
    | Some any => LSend l any :: remove_one (LGet l) (readers s) | None => remove_one (LGet l) (readers s) end →
    r ∈ readers s ∨ ∃ v, value_at (mon s) (l_key l) = Some v ∧ r = LSend l (anypb_New v)) as HR.
  { intros r. destruct (value_at (mon s) (l_key l)) as [v|]; cbn.
    - intros [->|?%remove_one_subset]%elem_of_cons; eauto.
    - intros ?%remove_one_subset. by left. }
  split; cbn [mon readers]; [done|done| | |].
  - intros k a [?|(v & _ & ?)]%HR; [by apply H3|done].
  - intros l' a [?|(v & Hv & [= -> ->])]%HR; [by apply H4|]. intros w Hw. rewrite unmarshal_new. congruence.
  - intros l' v Hl Hv. destruct (decide (l' = l)) as [->|Hne].
    + left. rewrite Hv. cbn. exists (LSend l (anypb_New v)). split; [by left|]. by apply bool_decide_eq_true.
    + destruct (H5 l' v Hl Hv) as [(r & Hin & Hc)|?]; [left|by right]. exists r. split; [|done].
      assert (r ∈ remove_one (LGet l) (readers s)) as Hin'.
      { rewrite (remove_one_Permutation _ _ Hr) in Hin. apply elem_of_cons in Hin as [->|?]; [|done].
        cbn in Hc. by apply bool_decide_eq_true in Hc. }
      destruct (anypb_New <$> _); [by right|done].
Qed.

Lemma calm_sent l any s :
  calm s → LSend l any ∈ readers s → calm (mkMonSys (Listen_send l any (mon s)) (remove_one (LSend l any) (readers s))).
Proof.
  intros [H1 H2 H3 H4 H5] Hr. split; cbn [mon readers]; [done|done| | |].
  - intros k a ?%remove_one_subset. by apply H3.
  - intros l' a ?%remove_one_subset. by apply H4.
  - intros l' v Hl Hv. cbn. destruct (decide (l = l')) as [<-|Hne].
    + right. exists any. split; [done|]. by apply (H4 l any Hr).
    + destruct (H5 l' v Hl Hv) as [(r & Hin & Hc)|?]; [left|by right]. exists r. split; [|done].
      rewrite (remove_one_Permutation _ _ Hr) in Hin. apply elem_of_cons in Hin as [->|?]; [|done].
      cbn in Hc. by apply bool_decide_eq_true in Hc.
Qed.

Lemma calm_register l s st :
  calm s → buckets (mon s) !! Bucket (l_key l) = Some st → calm (mkMonSys (Listen_register l (mon s)) (LGet l :: readers s)).
Proof.
  intros [H1 H2 H3 H4 H5] Hb. split; cbn [mon readers].
  - done.
  - intros l' [->|?]%elem_of_cons; [apply H1; by eauto|by apply H2].
  - intros k a [?|?]%elem_of_cons; [done|by apply H3].
  - intros l' a [?|?]%elem_of_cons; [done|by apply H4].
  - intros l' v Hl Hv. destruct (decide (l' = l)) as [->|Hne].
    + left. exists (LGet l). split; [by left|]. by apply bool_decide_eq_true.
    + apply elem_of_cons in Hl as [?|Hl]; [done|]. destruct (H5 l' v Hl Hv) as [(r & Hin & Hc)|?]; [left|by right].
      exists r. by split; [right|].
Qed.

Lemma calm_sys_step lb s s' : plain_label lb → calm s → calm_step lb s = Some s' → calm s'.
Proof.
  intros Hp HC Hs. destruct lb as [lb|key value|key any|l|l|l any]; cbn [calm_step] in Hs.
  - cbn in Hs. destruct (is_write lb); [|done]. case_bool_decide as E; [|done]. cbn [andb] in Hs.
    apply bind_Some in Hs as (m & Hm & [= <-]). apply calm_idle. eapply current_step; [done|done| |exact Hm].
    apply calm_idle. by rewrite <- E; destruct s.
  - assert (sys_step UnmarshalNew anypb_New Providers (SPost key value) s = Some s' ∧
      (value ≠ None → Forall (λ r, has_value key r = false) (readers s))) as [Hs' HF].
    { destruct value; [|by split]. destruct (forallb _ _) eqn:E; [|done]. split; [done|]. intros _.
      apply Forall_forall. intros r Hr. rewrite forallb_forall in E. apply list_elem_of_In, E in Hr. by apply negb_true_iff. }
    cbn in Hs'. destruct (locked (mon s)); [done|]. destruct (post_store _ _ _ _) as [[m' err] changed] eqn:EP. injection Hs' as <-.
    by eapply calm_post.
  - cbn in Hs. case_bool_decide; [|done]. injection Hs as <-. by apply calm_notify_step.
  - cbn in Hs. destruct (_ || _); [done|]. destruct (buckets (mon s) !! _) as [st|] eqn:Hb; injection Hs as <-; [|done].
    by eapply calm_register.
  - cbn in Hs. case_bool_decide; [|done]. injection Hs as <-. by apply calm_get.
  - cbn in Hs. case_bool_decide; [|done]. injection Hs as <-. by apply calm_sent.
Qed.

Definition new_sys (s : MonSys) : Prop :=
  ∃ uuid, no_dot uuid ∧ uuid ≠ MetaBucket ∧ s = mkMonSys (NewMonitorServer UnmarshalNew anypb_New Providers uuid) [].

(** C32: Whoever listens to a key has been sent its current value, when a new value is posted
    only while no call is about to send an earlier value of that key (neither another post
    that has stored it, nor the late join of a listener that has read it): then, in every
    interleaving of the steps of posts, of calls of [Listen] and of the other handlers, once
    no call is about to send something to the listener, the last message sent to it is the
    value that the bucket holds, whether the listener came before or after that was posted.
    The identities of providers contain no dot. (Without the condition on posts the last
    message can be an earlier value: [late_join_stale].) *)
Theorem monitor_listeners_current (s : MonSys) (Hr : reach calm_step new_sys plain_label s)
    (l : Listener) (st : gmap string Msg) (v : Msg) (Hl : l ∈ listeners (mon s))
    (Hq : Forall (λ r, concerns l r = false) (readers s))
    (Hb : buckets (mon s) !! Bucket (l_key l) = Some st) (Hv : st !! Name (l_key l) = Some v) :
  ∃ any, last_sent l (sent (mon s)) = Some any ∧ UnmarshalNew any = inr v.
Proof.
  enough (calm s) as H.
  { destruct (calm_values s H l v Hl) as [(r & Hin & Hc)|?]; [unfold value_at; by rewrite Hb| |done].
    rewrite Forall_forall in Hq. specialize (Hq r Hin). congruence. }
  revert Hr. apply reach_inv; [intros ? (uuid & ? & _ & ->); apply calm_idle; by apply current_new|].
  intros s1 lb s2 H Hp. by apply calm_sys_step.
Qed.
End current.

(** ** Handlers that run undisturbed are schedules *)

Section schedules.
Context {Msg : Type} `{EqDecision Msg}.
Context (UnmarshalNew : Any → error + Msg) (anypb_New : Msg → Any).
Context (Providers : gmap string ProviderInfo → Msg).

Abbreviation sys := (reach (sys_step UnmarshalNew anypb_New Providers) (new_sys UnmarshalNew anypb_New Providers) (λ _, True)).

Lemma post_schedule key value m :
  locked m = false → sys (mkMonSys m []) → sys (mkMonSys (post UnmarshalNew key value m).1 []).
Proof.
  intros HL HR. rewrite post_parts. destruct (post_store UnmarshalNew key value m) as [[m' err] changed] eqn:E. cbn.
  assert (sys (mkMonSys m' (match changed with Some any => [PNotify key any] | None => [] end))) as H1.
  { eapply (reach_step _ _ _ _ (SPost key value)); [done|done|]. cbn. by rewrite HL, E. }
  destruct changed as [any|]; [|done]. eapply (reach_step _ _ _ _ (SNotify key any)); [exact H1|done|]. cbn.
  rewrite bool_decide_true, decide_True by (done || by left). done.
Qed.

Lemma listen_schedule l m :
  locked m = false → l ∉ listeners m → sys (mkMonSys m []) → sys (mkMonSys (Listen anypb_New l m).1 []).
Proof.
  intros HL Hl HR. destruct (buckets m !! Bucket (l_key l)) as [st|] eqn:Hb; [|unfold Listen; by rewrite Hb].
  rewrite (Listen_parts anypb_New l m st Hb). 
  assert (sys (mkMonSys (Listen_register l m) [LGet l])) as H1.
  { eapply (reach_step _ _ _ _ (SListen l)); [done|done|]. cbn. by rewrite HL, bool_decide_false, Hb. }
  assert (sys (mkMonSys (Listen_register l m) (match Listen_get anypb_New l (Listen_register l m) with
    Some any => [LSend l any] | None => [] end))) as H2.
  { eapply (reach_step _ _ _ _ (SGet l)); [exact H1|done|]. cbn. rewrite bool_decide_true, decide_True by (done || by left). done. }
  destruct (Listen_get _ _ _) as [any|]; [|done]. eapply (reach_step _ _ _ _ (SSend l any)); [exact H2|done|]. cbn.
  rewrite bool_decide_true, decide_True by (done || by left). done.
Qed.

(** Every state of the handlers one by one is one that the steps reach, with nothing under
    way. *)
Theorem handlers_are_schedules (m : MonitorServer)
    (HR : monitor_reachable UnmarshalNew anypb_New Providers (λ _, True) m) : sys (mkMonSys m []).
Proof.
  induction HR as [m (uuid & H1 & H2 & ->)|m lb m' _ IH _ Hs]; [apply reach_init; by exists uuid|].
  destruct (is_write lb) eqn:Ew.
  - eapply (reach_step _ _ _ _ (SWrite lb)); [exact IH|done|]. cbn. by rewrite Ew, Hs.
  - unfold mstep in Hs. destruct (locked m) eqn:HL; [done|]. destruct lb as [|key value| |l| |]; try done.
    + injection Hs as <-. by apply post_schedule.
    + case_bool_decide; [done|]. injection Hs as <-. by apply listen_schedule.
    + by injection Hs as <-.
Qed.
End schedules.

(** ** Schedules with messages as strings *)

Abbreviation str_step := (sys_step str_unmarshal str_new str_providers).
Abbreviation str_calm := (calm_step str_unmarshal str_new str_providers).
Definition str_start : MonSys := mkMonSys (NewMonitorServer str_unmarshal str_new str_providers "mon") [].
Definition test_key : Key := mkKey "p1" "t".

Definition calm_labels : list slabel :=
  [SWrite (MConnect "p1" Agent "10.0.0.1"); SPost test_key (Some (str_new "v1")); SListen test_listener; SGet test_listener;
   SNotify test_key (str_new "v1"); SSend test_listener (str_new "v1"); SPost test_key (Some (str_new "v2"));
   SNotify test_key (str_new "v2")].

Lemma monitor_listeners_current_witness :
  let s := after_run str_calm str_start calm_labels in
  ∃ any, last_sent test_listener (sent (mon s)) = Some any ∧ str_unmarshal any = inr "v2".
Proof.
  apply (monitor_listeners_current str_unmarshal str_new str_providers (λ _, eq_refl)
    (after_run str_calm str_start calm_labels)) with (st := {["t" := "v2"]}).
  - apply after_run_reach.
    + exists "mon". split_and!; [|done|done]. unfold no_dot. by apply (bool_decide_unpack _).
    + repeat constructor. unfold no_dot. by apply (bool_decide_unpack _).
  - vm_compute. left.
  - vm_compute. constructor.
  - vm_compute. reflexivity.
  - reflexivity.
Defined.

(** A listener reads a value, a new one is posted and sent to it, and then the late join sends
    it the old one: nothing is under way any more, the key holds the new value, and the last
    message of the listener is the old one. *)
Theorem late_join_stale :
  let s := after_run str_step str_start
    [SWrite (MConnect "p1" Agent "10.0.0.1"); SPost test_key (Some (str_new "v1")); SNotify test_key (str_new "v1");
     SListen test_listener; SGet test_listener; SPost test_key (Some (str_new "v2")); SNotify test_key (str_new "v2");
     SSend test_listener (str_new "v1")] in
  readers s = [] ∧ GetMetric str_new test_key (mon s) = inr (str_new "v2") ∧
  last_sent test_listener (sent (mon s)) = Some (str_new "v1").
Proof. vm_compute. split_and!; reflexivity. Qed.
