(* ===== verification/LocalStorage.v ===== *)
(** * The local storage provider: [pkg/storage/local.go]

    [LocalStorageProvider] keeps one file per object below its root directory and counts
    objects and bytes.  [files] are the files below the root; writing can fail
    ([write_err]).  The encoding of objects is that of the generated protobuf code, a
    parameter with its round trip as hypothesis.  The expiration notifier is represented
    by its heap; [expire] is one notification handled by the goroutine of [Configure]. *)
From S2P Require Import Prelude GoStrings Types ExpirationHeap Storage.

(** ** Object paths *)

(** [path.Join(root, hash[0:2], hash)]. *)
Definition objPath (root hash : string) : go string :=
  if bool_decide (2 ≤ slen hash) then
    Ret (path_join [root; of_chars (take 2 (chars hash)); hash])
  else Panic "slice bounds out of range".

Record LocalStorage := mkLocal {
  root : string;
  files : gmap string string;
  numObjects : Z;
  totalSize : Z;
  sizeLimit : Z;
  cacheHitsTotal : Z;
  cacheMissesTotal : Z;
  l_heap : heap;
}.

Definition set_files (f : gmap string string) (n size : Z) (h : heap) (s : LocalStorage) :
    LocalStorage :=
  mkLocal (root s) f n size (sizeLimit s) (cacheHitsTotal s) (cacheMissesTotal s) h.

Definition count_hit (hit : bool) (s : LocalStorage) : LocalStorage :=
  mkLocal (root s) (files s) (numObjects s) (totalSize s) (sizeLimit s)
    (cacheHitsTotal s + if hit then 1 else 0) (cacheMissesTotal s + if hit then 0 else 1) (l_heap s).

Section local.
Context (encode : CacheObject → string) (decode : string → option CacheObject).
Context (write_err : string → option string).

(** Fields that are absent from an encoded object. *)
Definition fill_meta (o : CacheObject) : CacheObject :=
  mkObject (Data o) (Some (default EmptyMeta (Metadata o))).

Definition local_Put (now : Z) (hash : string) (o : CacheObject) (s : LocalStorage) :
    go (LocalStorage * option error) :=
  match Metadata o with
  | None => Panic "nil pointer dereference"
  | Some m =>
      let o := mkObject (Data o) (Some (set_managed (mkManaged (slen (Data o)) now 0 Disk) m)) in
      path ← objPath (root s) hash;
      match write_err path with
      | Some err => Ret (s, Some (StatusError Internal err))
      | None =>
          Ret (set_files (<[path := encode o]> (files s)) (numObjects s + 1)
                 (totalSize s + slen (Data o)) (Push hash (ExpirationDate m) (l_heap s)) s, None)
      end
  end.

Definition set_timestamp (now : Z) (m : CacheObjectMeta) : go CacheObjectMeta :=
  match Managed m with
  | None => Panic "nil pointer dereference"
  | Some f => Ret (set_managed (mkManaged (Size f) now (Score f) (ObjLocation f)) m)
  end.

Definition local_Get (now : Z) (hash : string) (s : LocalStorage) :
    go (LocalStorage * (error + CacheObject)) :=
  path ← objPath (root s) hash;
  match files s !! path with
  | None => Ret (count_hit false s, inl (StatusError NotFound "Object not found"))
  | Some data =>
      let s := count_hit true s in
      match decode data with
      | None => Ret (s, inl (StatusError NotFound "Object is corrupted or invalid"))
      | Some o =>
          m ← set_timestamp now (default EmptyMeta (Metadata o));
          Ret (s, inr (mkObject (Data o) (Some m)))
      end
  end.

(** [Query] skips the keys it does not have. *)
Fixpoint local_query (s : LocalStorage) (keys : list string) :
    go (list (option CacheObjectMeta)) :=
  match keys with
  | [] => Ret []
  | hash :: keys =>
      path ← objPath (root s) hash;
      rest ← local_query s keys;
      match files s !! path ≫= decode with
      | None => Ret rest
      | Some o => Ret (Some (default EmptyMeta (Metadata o)) :: rest)
      end
  end.

Definition local_Query (now : Z) (keys : list string) (s : LocalStorage) :
    go (LocalStorage * (error + list (option CacheObjectMeta))) :=
  rs ← local_query s keys; Ret (s, inr rs).

(** The goroutine of [Configure] that handles one expired hash. *)
Definition expire (hash : string) (s : LocalStorage) : go LocalStorage :=
  path ← objPath (root s) hash;
  match files s !! path with
  | None => Ret s
  | Some data => Ret (set_files (delete path (files s)) (numObjects s - 1)
                        (totalSize s - slen data) (l_heap s) s)
  end.

(** [filepath.Walk] of [Configure]: counts every file and registers the readable ones. *)
Definition configure_file (e : string * string) (s : LocalStorage) : LocalStorage :=
  let '(path, data) := e in
  let h := match decode data with
           | None => l_heap s
           | Some o => Push (base path) (GetExpirationDate (Metadata o)) (l_heap s)
           end in
  set_files (files s) (numObjects s + 1) (totalSize s + slen data) h s.

Definition unreadable (e : string * string) : bool :=
  match decode e.2 with
  | None => true
  | Some _ => false
  end.

Definition local_Configure (s : LocalStorage) : LocalStorage * option error :=
  let s := set_files (files s) 0 0 (l_heap s) s in
  let es := map_to_list (files s) in
  let s := foldl (λ s e, configure_file e s) s es in
  let toDelete := (List.filter unreadable es).*1 in
  (set_files (foldr delete (files s) toDelete) (numObjects s) (totalSize s) (l_heap s) s, None).

(** [DeleteObjectsClosestToExpiration]: one unit of fuel per iteration.  Forcing the
    expiration of an empty heap times out.  The object forced to expire is looked up with
    [Get] until it is gone. *)
Fixpoint evict (fuel : nat) (now : Z) (s : LocalStorage) : go LocalStorage :=
  match fuel with
  | O => Ret s
  | S fuel =>
      if bool_decide (9 * sizeLimit s ≤ 10 * totalSize s) then
        match Pop (l_heap s) with
        | (None, _) => Ret s
        | (Some e, h) =>
            s ← expire (Hash e) (set_files (files s) (numObjects s) (totalSize s) h s);
            '(s, r) ← local_Get now (Hash e) s;
            evict fuel now s
        end
      else Ret s
  end.

Definition DeleteObjectsClosestToExpiration (now : Z) (s : LocalStorage) : go LocalStorage :=
  evict (S (length (l_heap s))) now s.

Definition local_UsageInfo (s : LocalStorage) : Z * Z := (numObjects s, totalSize s).

Definition local_CacheHits (s : LocalStorage) : option (Z * Z) :=
  if bool_decide (0 < cacheHitsTotal s + cacheMissesTotal s)
  then Some (cacheHitsTotal s, cacheMissesTotal s) else None.

#[global] Instance local_provider : StorageProvider LocalStorage := {
  Location _ := Disk;
  Configure := local_Configure;
  Put := local_Put;
  Get := local_Get;
  Query := local_Query;
}.
End local.

(** ** Paths of well-formed keys are distinct *)

(** Keys without slashes or dots, such as the hex digests the scheduler uses. *)
Definition hash_ok (k : string) : Prop :=
  slash ∉ chars k ∧ dot ∉ chars k ∧ 2 ≤ slen k.

Lemma last_split_on sep l k : sep ∉ k → last (split_on sep (l ++ sep :: k)) = Some k.
Proof. intros Hk. rewrite split_on_app, (split_on_none _ k) by done. by rewrite last_snoc. Qed.

Lemma chars_join_snoc l k :
  chars (join "/" (l ++ [k])) = chars k ∨
  ∃ pre, chars (join "/" (l ++ [k])) = pre ++ slash :: chars k.
Proof.
  induction l as [|x l IH]; [by left|right].
  assert (join "/" ((x :: l) ++ [k]) = x +:+ "/" +:+ join "/" (l ++ [k])) as -> by by destruct l.
  rewrite !chars_app. destruct IH as [->|[pre ->]].
  - by exists (chars x).
  - exists (chars x ++ slash :: pre). cbn. by rewrite <- app_assoc.
Qed.

Lemma clean_last s pre ck :
  chars s = pre ++ slash :: ck → slash ∉ ck → ck ≠ [] → dot ∉ ck →
  last (split_on slash (chars (clean s))) = Some ck.
Proof.
  intros Hs Hsl Hne Hdot. unfold clean. rewrite Hs, split_on_app, (split_on_none _ ck), foldl_app by done.
  set (stack := foldl _ _ (split_on slash pre)). cbn [foldl].
  assert (clean_elem (is_abs s) stack ck = ck :: stack) as HE.
  { unfold clean_elem. rewrite decide_False by (intros [->| ->]; [done|apply Hdot; left]).
    rewrite decide_False; [done|]. intros ->. apply Hdot. left. }
  rewrite HE. cbn [rev]. rewrite fmap_app. cbn [fmap list_fmap].
  set (body := join "/" _). assert (chars body = ck ∨ ∃ p, chars body = p ++ slash :: ck) as Hb.
  { pose proof (chars_join_snoc (of_chars <$> rev stack) (of_chars ck)) as HJ.
    by rewrite chars_of_chars in HJ. }
  clearbody body.
  assert (∀ out, chars out = ck ∨ (∃ p, chars out = p ++ slash :: ck) →
    last (split_on slash (chars match out with EmptyString => "." | _ => out end)) = Some ck) as Hout.
  { intros out Ho. destruct out as [|c out].
    - destruct Ho as [Ho|[p Ho]]; [by subst|by destruct p].
    - destruct Ho as [->|[p ->]]; [by rewrite split_on_none|by apply last_split_on]. }
  apply Hout. destruct (is_abs s); [right|done]. rewrite chars_app.
  destruct Hb as [->|[p ->]]; [by exists []|by exists (slash :: p)].
Qed.

Lemma objPath_last r k p :
  hash_ok k → objPath r k = Ret p → last (split_on slash (chars p)) = Some (chars k).
Proof.
  intros (Hsl & Hd & Hlen). unfold objPath. rewrite bool_decide_true by done. intros [= <-].
  assert (chars k ≠ []) as Hne.
  { intros E. unfold slen in Hlen. rewrite <- length_chars, E in Hlen. cbn in Hlen. lia. }
  assert (k ≠ "") as Hk by by intros ->.
  assert (of_chars (take 2 (chars k)) ≠ "") as Ht.
  { intros E. apply (f_equal chars) in E. rewrite chars_of_chars in E.
    destruct (chars k); [done|]. by destruct l. }
  unfold path_join. rewrite !filter_cons, filter_nil. rewrite (decide_True (P := k ≠ "")) by done.
  rewrite (decide_True (P := of_chars _ ≠ "")) by done.
  assert (∀ es, last (split_on slash (chars (clean (join "/"
    (es ++ [of_chars (take 2 (chars k)); k]))))) = Some (chars k)) as H.
  { intros es. destruct (chars_join_snoc (es ++ [of_chars (take 2 (chars k))]) k) as [HJ|[pre HJ]].
    - rewrite <- app_assoc in HJ. cbn [app] in HJ. (* impossible: at least one slash *)
      exfalso. apply (f_equal (λ l, slash ∈ l)) in HJ. cbn in HJ.
      assert (slash ∈ chars (join "/" (es ++ [of_chars (take 2 (chars k)); k]))) as Hin; [|by rewrite HJ in Hin].
      induction es as [|x es IH].
      + cbn. rewrite !chars_app. apply elem_of_app. right. left.
      + assert (join "/" ((x :: es) ++ [of_chars (take 2 (chars k)); k]) =
          x +:+ "/" +:+ join "/" (es ++ [of_chars (take 2 (chars k)); k])) as -> by by destruct es.
        rewrite !chars_app. apply elem_of_app. right. left.
    - rewrite <- app_assoc in HJ. by eapply clean_last. }
  case_decide; [apply (H [r])|apply (H [])].
Qed.

Lemma objPath_inj r k1 k2 p :
  hash_ok k1 → hash_ok k2 → objPath r k1 = Ret p → objPath r k2 = Ret p → k1 = k2.
Proof.
  intros H1 H2 P1%objPath_last P2%objPath_last; [|done..]. rewrite P1 in P2.
  injection P2 as E. by apply (inj chars).
Qed.

Lemma objPath_ok r k : hash_ok k → ∃ p, objPath r k = Ret p.
Proof. intros (_ & _ & Hl). unfold objPath. rewrite bool_decide_true by done. eauto. Qed.

(** ** The contract *)

Section contract.
Context (encode : CacheObject → string) (decode : string → option CacheObject).
Context (write_err : string → option string).
Hypothesis decode_encode : ∀ o, decode (encode o) = Some o.

(** The provider holds [d] under [k] when the file of [k] decodes to an object with it. *)
Definition local_holds (s : LocalStorage) (k d : string) : Prop :=
  ∃ p data o, objPath (root s) k = Ret p ∧ files s !! p = Some data ∧
    decode data = Some o ∧ Data o = d.

Lemma local_put_sound now k o s s' err k' d :
  hash_ok k → hash_ok k' → local_Put encode write_err now k o s = Ret (s', err) →
  local_holds s' k' d → k' = k ∧ d = Data o ∨ local_holds s k' d.
Proof.
  intros Hk Hk'. unfold local_Put. destruct (Metadata o) as [m|]; [|done].
  intros (p & Hp & H)%go_bind_Ret_inv. destruct (write_err p); injection H as <- <-; [by right|].
  intros (p' & data & o' & Hp' & Hf & Hd & <-). cbn in Hf, Hp'.
  apply lookup_insert_Some in Hf as [[<- <-]|[_ Hf]].
  - left. split; [by eapply objPath_inj|]. rewrite decode_encode in Hd. by injection Hd as <-.
  - right. exists p', data, o'. done.
Qed.

Lemma local_get_frame now k s s' r :
  local_Get decode now k s = Ret (s', r) → root s' = root s ∧ files s' = files s.
Proof.
  unfold local_Get. intros (p & _ & H)%go_bind_Ret_inv. repeat case_match; inv_ret; by simplify_eq.
Qed.

Lemma local_get_sound now k s s' o :
  local_Get decode now k s = Ret (s', inr o) → local_holds s k (Data o).
Proof.
  unfold local_Get. intros (p & Hp & H)%go_bind_Ret_inv.
  destruct (files s !! p) as [data|] eqn:Ef; [|done]. destruct (decode data) as [o'|] eqn:Ed; [|done].
  apply go_bind_Ret_inv in H as (m & _ & [= _ <-]). by exists p, data, o'.
Qed.

#[global] Instance local_contract :
  @StorageContract LocalStorage (local_provider encode decode write_err).
Proof.
  refine {| key_ok := hash_ok; holds := local_holds |}.
  - intros now k o s s' err k' d. apply local_put_sound.
  - intros now k s s' o. apply local_get_sound.
  - intros now k s s' r k' d HG (p & data & o & Hp & Hf & Hd).
    apply local_get_frame in HG as [Hr Hfs]. rewrite Hr in Hp. rewrite Hfs in Hf.
    by exists p, data, o.
  - intros now keys s s' r k d. cbn. unfold local_Query. by intros (rs & _ & [= <- _])%go_bind_Ret_inv.
Defined.

(** An object that was stored is returned: after a successful [Put] under a
    well-formed key, [Get] of that key returns the same data, tags and expiration date,
    marked as coming from disk, and counts a hit. *)
Theorem local_put_get (now now' : Z) (k : string) (o : CacheObject) (m : CacheObjectMeta)
    (s s' : LocalStorage) (Hk : hash_ok k) (Hm : Metadata o = Some m)
    (HP : local_Put encode write_err now k o s = Ret (s', None)) :
  local_Get decode now' k s' =
    Ret (count_hit true s',
         inr (mkObject (Data o) (Some (mkMeta (Tags m) (ExpirationDate m)
                (Some (mkManaged (slen (Data o)) now' 0 Disk)))))).
Proof.
  unfold local_Put in HP. rewrite Hm in HP. apply go_bind_Ret_inv in HP as (p & Hp & H).
  destruct (write_err p); [done|]. injection H as <-. unfold local_Get. cbn.
  rewrite Hp. cbn. rewrite lookup_insert_eq, decode_encode. done.
Qed.

(** The byte count of the provider is not conserved: storing an object adds the
    length of its data, but its expiration subtracts the size of the encoded file. *)
Theorem local_size_drift (now : Z) (k : string) (o : CacheObject) (m : CacheObjectMeta)
    (s s1 s2 : LocalStorage) (Hm : Metadata o = Some m)
    (HP : local_Put encode write_err now k o s = Ret (s1, None)) (HE : expire k s1 = Ret s2) :
  numObjects s2 = numObjects s ∧
  totalSize s2 = totalSize s + slen (Data o) -
    slen (encode (mkObject (Data o) (Some (set_managed (mkManaged (slen (Data o)) now 0 Disk) m)))).
Proof.
  unfold local_Put in HP. rewrite Hm in HP. apply go_bind_Ret_inv in HP as (p & Hp & H).
  destruct (write_err p); [done|]. injection H as <-. unfold expire in HE. cbn in HE.
  rewrite Hp in HE. cbn in HE. rewrite lookup_insert_eq in HE. injection HE as <-. cbn. lia.
Qed.

(** [Query] returns one element per stored key and none for the others, so its result
    is shorter than the list of keys whenever one of them is missing; and [Get] panics on
    a file that decodes to an object without managed fields. *)
Theorem local_query_get_gaps (now : Z) (k : string) (s : LocalStorage) (p : string)
    (Hk : objPath (root s) k = Ret p) :
  (files s !! p = None → local_Query decode now [k] s = Ret (s, inr [])) ∧
  (∀ data o, files s !! p = Some data → decode data = Some o →
     GetManagedFields (Metadata o) = None →
     local_Get decode now k s = Panic "nil pointer dereference").
Proof.
  split.
  - intros Hf. unfold local_Query. cbn. by rewrite Hk; cbn; rewrite Hf.
  - intros data o Hf Hd Hg. unfold local_Get. rewrite Hk. cbn. rewrite Hf, Hd.
    unfold GetManagedFields, set_timestamp in *. by destruct (Metadata o) as [m|]; cbn in *; rewrite ?Hg.
Qed.
End contract.

(** ** Eviction terminates *)

Section eviction.
Context (decode : string → option CacheObject).

Lemma expire_frame k s s' :
  expire k s = Ret s' → l_heap s' = l_heap s ∧ sizeLimit s' = sizeLimit s ∧ root s' = root s.
Proof. unfold expire. intros (p & _ & H)%go_bind_Ret_inv. repeat case_match; by simplify_eq. Qed.

Lemma local_get_heap now k s s' r :
  local_Get decode now k s = Ret (s', r) →
  l_heap s' = l_heap s ∧ sizeLimit s' = sizeLimit s ∧ totalSize s' = totalSize s.
Proof.
  unfold local_Get. intros (p & _ & H)%go_bind_Ret_inv. repeat case_match; inv_ret; by simplify_eq.
Qed.

(** With fuel for every entry, the loop ends because the size is below nine tenths of the
    limit or because nothing is left to expire. *)
Lemma evict_done fuel now s s' :
  (length (l_heap s) < fuel)%nat → evict decode fuel now s = Ret s' →
  10 * totalSize s' < 9 * sizeLimit s' ∨ l_heap s' = [].
Proof.
  revert s. induction fuel as [|fuel IH]; intros s Hf; cbn; [lia|].
  case_bool_decide as Hsz; [|intros [= <-]; left; lia].
  destruct (l_heap s) as [|e0 t] eqn:Eh; [intros [= <-]; by right|].
  destruct (Pop_cons (l_heap s)) as [h' HP]; [by rewrite Eh|]. rewrite Eh in HP. rewrite HP. cbn.
  pose proof (Permutation_length (Pop_Permutation _ _ _ HP)) as HL. cbn in HL, Hf.
  intros (s1 & He & H)%go_bind_Ret_inv. apply go_bind_Ret_inv in H as ([s2 r] & Hg & H).
  apply expire_frame in He as (Hh1 & _). apply local_get_heap in Hg as (Hh2 & _).
  apply (IH s2); [|done]. rewrite Hh2, Hh1. cbn. lia.
Qed.

(** [DeleteObjectsClosestToExpiration] terminates within one iteration per heap entry:
    when it returns, the total size is below nine tenths of the limit or every registered
    object has been expired. *)
Theorem evict_terminates (now : Z) (s s' : LocalStorage)
    (HD : DeleteObjectsClosestToExpiration decode now s = Ret s') :
  10 * totalSize s' < 9 * sizeLimit s' ∨ l_heap s' = [].
Proof. eapply evict_done; [|exact HD]. lia. Qed.
End eviction.

(** ** Witnesses: an encoding of objects as binary strings *)

Definition loc_code (l : StorageLocation) : nat :=
  match l with StorageLocation_Unknown => 0 | Memory => 1 | Disk => 2 | S3 => 3 end.
Definition loc_of (n : nat) : StorageLocation :=
  match n with 1 => Memory | 2 => Disk | 3 => S3 | _ => StorageLocation_Unknown end%nat.
Definition flat (o : CacheObject) :
    string * option (list (string * string) * Z * option (Z * Z * Z * nat)) :=
  (Data o, (λ m, (map_to_list (Tags m), ExpirationDate m,
     (λ f, (Size f, Timestamp f, Score f, loc_code (ObjLocation f))) <$> Managed m)) <$> Metadata o).
Definition unflat (p : string * option (list (string * string) * Z * option (Z * Z * Z * nat))) :
    CacheObject :=
  mkObject p.1 ((λ m, mkMeta (list_to_map m.1.1) m.1.2
     ((λ f, mkManaged f.1.1.1 f.1.1.2 f.1.2 (loc_of f.2)) <$> m.2)) <$> p.2).

Definition bin_encode (o : CacheObject) : string := bits (encode (flat o)).
Definition bin_decode (s : string) : option CacheObject := unflat <$> decode (unbits s).

Lemma bin_decode_encode o : bin_decode (bin_encode o) = Some o.
Proof.
  unfold bin_decode, bin_encode.
  rewrite unbits_bits, decode_encode. cbn. f_equal. unfold unflat, flat. destruct o as [d [[t e [[s ts sc l]|]]|]]; cbn;
    rewrite ?list_to_map_to_list; try done. by destruct l.
Qed.

Definition no_err (_ : string) : option string := None.
Definition test_object : CacheObject := mkObject "x" (Some (mkMeta ∅ 5 None)).
Definition test_store : LocalStorage := mkLocal "/cache" ∅ 0 0 100 0 0 [].
Definition stored : LocalStorage :=
  match local_Put bin_encode no_err 1 "abcd" test_object test_store with
  | Ret (s, _) => s
  | Panic _ => test_store
  end.

Lemma hash_ok_abcd : hash_ok "abcd".
Proof. split_and!; by apply (bool_decide_unpack _). Qed.

Lemma local_put_get_witness :
  local_Get bin_decode 2 "abcd" stored =
    Ret (count_hit true stored, inr (mkObject "x" (Some (mkMeta ∅ 5 (Some (mkManaged 1 2 0 Disk)))))).
Proof.
  apply (local_put_get bin_encode bin_decode no_err bin_decode_encode 1 2 "abcd" test_object
    (mkMeta ∅ 5 None) test_store stored hash_ok_abcd eq_refl).
  vm_compute. reflexivity.
Defined.

Definition gone : LocalStorage :=
  match expire "abcd" stored with
  | Ret s => s
  | Panic _ => test_store
  end.

Lemma local_size_drift_witness : totalSize gone < 0.
Proof.
  destruct (local_size_drift bin_encode no_err 1 "abcd" test_object (mkMeta ∅ 5 None)
    test_store stored gone) as [_ H].
  - reflexivity.
  - vm_compute. reflexivity.
  - vm_compute. reflexivity.
  - rewrite H. vm_compute. reflexivity.
Defined.

Lemma local_query_get_gaps_witness :
  local_Query bin_decode 1 ["abcd"] test_store = Ret (test_store, inr []).
Proof.
  apply (local_query_get_gaps bin_decode 1 "abcd" test_store "/cache/ab/abcd"); reflexivity.
Defined.

Lemma evict_terminates_witness :
  ∃ s', DeleteObjectsClosestToExpiration bin_decode 2 stored = Ret s' ∧
    (10 * totalSize s' < 9 * sizeLimit s' ∨ l_heap s' = []).
Proof.
  eexists. split; [vm_compute; reflexivity|].
  apply (evict_terminates bin_decode 2 stored). vm_compute. reflexivity.
Defined.
