(* ===== verification/Volatile.v ===== *)
(** * The in-memory provider: [pkg/storage/volatile.go]

    [VolatileStorageProvider] keeps objects in an LRU cache of the library ccache, which is
    a parameter here: the class [CCache] has the calls the provider makes and
    [CCacheLaws] what the library documents of them. The provider keeps the contract of
    [Storage]. *)
From S2P Require Import Prelude GoStrings Types Storage.

(** ** The cache library *)

Record item := mkItem { it_value : CacheObject; it_expires : Z }.

(** [item.Expired()] *)
Definition Expired (now : Z) (it : item) : bool := bool_decide (it_expires it < now).

(** The library's cache. [Set_] and [Delete_] return the objects for which the callback
    [OnDelete] runs (evicted, replaced or deleted ones). *)
Class CCache (C : Type) := {
  New_ : Z → C;
  Get_ : string → C → C * option item;
  Set_ : Z → string → CacheObject → Z → C → C * list CacheObject;
  Delete_ : string → C → C * list CacheObject;
  Extend_ : Z → string → Z → C → C;
  Items_ : C → list (string * item);
}.

Definition values {C : Type} `{CCache C} (c : C) : list (string * CacheObject) :=
  (λ e, (e.1, it_value e.2)) <$> Items_ c.

(** A new cache is empty; [Get] finds what is there; [Set] and [Delete] account for every
    object, and [Extend] only changes an expiry. *)
Class CCacheLaws (C : Type) `{CCache C} := {
  New_empty : ∀ n, values (New_ n) = [];
  Get_items : ∀ k c, values (Get_ k c).1 = values c;
  Get_found : ∀ k c it, (Get_ k c).2 = Some it → (k, it_value it) ∈ values c;
  Get_none : ∀ k c v, (Get_ k c).2 = None → (k, v) ∉ values c;
  Set_items : ∀ now k v ttl c, (∀ w, (k, w) ∉ values c) →
    (values (Set_ now k v ttl c).1).*2 ++ (Set_ now k v ttl c).2 ≡ₚ v :: (values c).*2;
  Set_from : ∀ now k v ttl c e, e ∈ values (Set_ now k v ttl c).1 → e = (k, v) ∨ e ∈ values c;
  Delete_items : ∀ k c, (values (Delete_ k c).1).*2 ++ (Delete_ k c).2 ≡ₚ (values c).*2;
  Delete_from : ∀ k c e, e ∈ values (Delete_ k c).1 → e ∈ values c;
  Extend_items : ∀ now k ttl c, values (Extend_ now k ttl c) = values c;
}.

(** ** The provider *)

(** [time.Until]: the difference of two times as a duration, saturated. *)
Definition Until (now t : Z) : Z := Z.max (- 2 ^ 63) (Z.min (2 ^ 63 - 1) (t - now)).

Section volatile.
(** The configured memory limit, parsed. *)
Context {C : Type} `{CC : CCache C} (limit : error + Z).

(** The cache is nil until the provider is configured. *)
Record VolatileStorage := mkVolatile {
  v_cache : option C;
  v_storageLimit : Z;
  v_totalSize : Z;
  v_hits : Z;
  v_misses : Z;
}.

Definition NewVolatileStorageProvider : VolatileStorage := mkVolatile None 0 0 0 0.

Definition volatile_Configure (s : VolatileStorage) : VolatileStorage * option error :=
  match limit with
  | inl e => (s, Some (PlainError ("Configuration Error: " +:+ error_text e)))
  | inr n => (mkVolatile (Some (New_ n)) n 0 (v_hits s) (v_misses s), None)
  end.

Definition object_size (o : CacheObject) : Z := GetSize (GetManagedFields (Metadata o)).

(** The callback [OnDelete] for the deleted objects. *)
Definition sub_sizes (deleted : list CacheObject) (total : Z) : Z :=
  foldl (λ t o, wrap64 (t - object_size o)) total deleted.

Definition nil_cache : string := "invalid memory address or nil pointer dereference".

Definition volatile_Put (now : Z) (k : string) (o : CacheObject) (s : VolatileStorage) :
    go (VolatileStorage * option error) :=
  match v_cache s with
  | None => Panic nil_cache
  | Some c =>
      let '(c, it) := Get_ k c in
      match it with
      | Some _ => Ret (mkVolatile (Some c) (v_storageLimit s) (v_totalSize s) (v_hits s) (v_misses s),
                       Some (StatusError AlreadyExists "Object already exists"))
      | None =>
          let sz := slen (Data o) in
          let m := set_managed (mkManaged sz (now / 1000000000) 0 Memory) (default EmptyMeta (Metadata o)) in
          let '(c, deleted) := Set_ now k (mkObject (Data o) (Some m)) (Until now (ExpirationDate m)) c in
          Ret (mkVolatile (Some c) (v_storageLimit s)
                 (sub_sizes deleted (wrap64 (v_totalSize s + sz))) (v_hits s) (v_misses s), None)
      end
  end.

Definition volatile_Get (now : Z) (k : string) (s : VolatileStorage) :
    go (VolatileStorage * (error + CacheObject)) :=
  match v_cache s with
  | None => Panic nil_cache
  | Some c =>
      let '(c, it) := Get_ k c in
      match it with
      | None => Ret (mkVolatile (Some c) (v_storageLimit s) (v_totalSize s) (v_hits s) (wrap64 (v_misses s + 1)),
                     inl (StatusError NotFound "Object not found"))
      | Some it =>
          let o := it_value it in
          if Expired now it && bool_decide (0 < GetExpirationDate (Metadata o)) then
            let '(c, deleted) := Delete_ k c in
            Ret (mkVolatile (Some c) (v_storageLimit s) (sub_sizes deleted (v_totalSize s)) (v_hits s) (v_misses s),
                 inl (StatusError NotFound "Object expired"))
          else match Metadata o with
               | None => Panic nil_cache
               | Some m =>
                   Ret (mkVolatile (Some (Extend_ now k (Until now (ExpirationDate m)) c)) (v_storageLimit s)
                          (v_totalSize s) (wrap64 (v_hits s + 1)) (v_misses s), inr o)
               end
      end
  end.

(** The loop of [Query]. *)
Fixpoint volatile_query (now : Z) (keys : list string) (c : C) (total : Z) :
    C * Z * list (option CacheObjectMeta) :=
  match keys with
  | [] => (c, total, [])
  | k :: keys =>
      let '(c, it) := Get_ k c in
      match it with
      | None => let '(c, total, rs) := volatile_query now keys c total in (c, total, None :: rs)
      | Some it =>
          let o := it_value it in
          if Expired now it && bool_decide (0 < GetExpirationDate (Metadata o)) then
            let '(c, deleted) := Delete_ k c in
            let '(c, total, rs) := volatile_query now keys c (sub_sizes deleted total) in (c, total, None :: rs)
          else let '(c, total, rs) := volatile_query now keys c total in (c, total, Metadata o :: rs)
      end
  end.

Definition volatile_Query (now : Z) (keys : list string) (s : VolatileStorage) :
    go (VolatileStorage * (error + list (option CacheObjectMeta))) :=
  match v_cache s with
  | None => match keys with [] => Ret (s, inr []) | _ => Panic nil_cache end
  | Some c =>
      let '(c, total, rs) := volatile_query now keys c (v_totalSize s) in
      Ret (mkVolatile (Some c) (v_storageLimit s) total (v_hits s) (v_misses s), inr rs)
  end.

Definition volatile_CacheHits (s : VolatileStorage) : Z * Z := (v_hits s, v_misses s).
Definition volatile_UsageInfo (s : VolatileStorage) : option (nat * Z) :=
  c ← v_cache s; Some (length (Items_ c), v_totalSize s).

#[global] Instance volatile_provider : StorageProvider VolatileStorage := {
  Location _ := Memory;
  Configure := volatile_Configure;
  Put := volatile_Put;
  Get := volatile_Get;
  Query := volatile_Query;
}.

(** ** The contract *)

Context {CL : CCacheLaws C}.

Definition volatile_holds (s : VolatileStorage) (k d : string) : Prop :=
  ∃ c o, v_cache s = Some c ∧ (k, o) ∈ values c ∧ Data o = d.

Lemma volatile_query_items now keys c total c' total' rs :
  volatile_query now keys c total = (c', total', rs) →
  (∀ e, e ∈ values c' → e ∈ values c) ∧ length rs = length keys.
Proof.
  revert c total c' total' rs. induction keys as [|k keys IH]; intros c total c' total' rs; cbn.
  { by intros [= <- <- <-]. }
  pose proof (Get_items k c) as HG. destruct (Get_ k c) as [c1 [it|]]; cbn in HG.
  - destruct (_ && _).
    + pose proof (Delete_from k c1) as HD. destruct (Delete_ k c1) as [c2 del]. cbn in HD.
      destruct (volatile_query _ _ _ _) as [[c3 t3] rs3] eqn:E. intros [= <- <- <-].
      apply IH in E as [H1 H2]. split; [|cbn; by rewrite H2]. intros e He. rewrite <- HG. auto.
    + destruct (volatile_query _ _ _ _) as [[c3 t3] rs3] eqn:E. intros [= <- <- <-].
      apply IH in E as [H1 H2]. split; [|cbn; by rewrite H2]. intros e He. rewrite <- HG. auto.
  - destruct (volatile_query _ _ _ _) as [[c3 t3] rs3] eqn:E. intros [= <- <- <-].
    apply IH in E as [H1 H2]. split; [|cbn; by rewrite H2]. intros e He. rewrite <- HG. auto.
Qed.

#[global] Instance volatile_contract : StorageContract VolatileStorage.
Proof.
  refine {| key_ok := λ _, True; holds := volatile_holds |}.
  - intros now k o s s' err k' d _ _. cbn. unfold volatile_Put, volatile_holds.
    destruct (v_cache s) as [c|]; [|done]. pose proof (Get_items k c) as HG.
    destruct (Get_ k c) as [c1 [it|]]; cbn in HG.
    + intros [= <- <-] (c' & x & [= <-] & Hx & Hd). right. exists c, x. by rewrite <- HG.
    + set (v := mkObject _ _). pose proof (Set_from now k v (Until now (ExpirationDate
        (set_managed (mkManaged (slen (Data o)) (now / 1000000000) 0 Memory) (default EmptyMeta (Metadata o)))))
        c1) as HF.
      destruct (Set_ _ _ _ _ _) as [c2 del]. intros [= <- <-] (c' & x & [= <-] & Hx & <-).
      apply HF in Hx as [[= -> ->]|Hx]; [by left|right]. exists c, x. by rewrite <- HG.
  - intros now k s s' o. cbn. unfold volatile_Get, volatile_holds. destruct (v_cache s) as [c|]; [|done].
    pose proof (Get_found k c) as HF. destruct (Get_ k c) as [c1 [it|]]; cbn in HF; [|done].
    specialize (HF it eq_refl). destruct (_ && _); [by destruct (Delete_ k c1)|].
    destruct (Metadata (it_value it)); [|done]. intros [= _ <-]. by exists c, (it_value it).
  - intros now k s s' r k' d. cbn. unfold volatile_Get, volatile_holds. destruct (v_cache s) as [c|]; [|done].
    pose proof (Get_items k c) as HG. destruct (Get_ k c) as [c1 [it|]]; cbn in HG.
    + destruct (_ && _).
      * pose proof (Delete_from k c1) as HD. destruct (Delete_ k c1) as [c2 del].
        intros [= <- <-] (c' & x & [= <-] & Hx & Hd). exists c, x. rewrite <- HG. auto.
      * destruct (Metadata (it_value it)); [|done]. intros [= <- <-] (c' & x & [= <-] & Hx & Hd).
        rewrite Extend_items in Hx. exists c, x. by rewrite <- HG.
    + intros [= <- <-] (c' & x & [= <-] & Hx & Hd). exists c, x. by rewrite <- HG.
  - intros now keys s s' r k d. cbn. unfold volatile_Query, volatile_holds.
    destruct (v_cache s) as [c|] eqn:EC.
    + destruct (volatile_query _ _ _ _) as [[c3 t3] rs3] eqn:E. apply volatile_query_items in E as [H1 _].
      intros [= <- <-] (c' & x & [= <-] & Hx & Hd). exists c, x. auto.
    + destruct keys; [|done]. intros [= <- <-]. by rewrite EC.
Defined.

(** ** Accounting *)

Definition total (l : list CacheObject) : Z := foldr (λ o t, object_size o + t) 0 l.

Lemma total_cons o l : total (o :: l) = object_size o + total l.
Proof. done. Qed.

Lemma total_Permutation l1 l2 : l1 ≡ₚ l2 → total l1 = total l2.
Proof. unfold total. induction 1; cbn; lia. Qed.

Lemma total_app l1 l2 : total (l1 ++ l2) = total l1 + total l2.
Proof. unfold total. induction l1 as [|o l1 IH]; cbn; [done|]. rewrite IH. lia. Qed.

Lemma sub_sizes_total del t : sub_sizes del (wrap64 t) = wrap64 (t - total del).
Proof.
  revert t. induction del as [|o del IH]; intros t; [cbn; f_equal; lia|].
  rewrite total_cons. unfold sub_sizes in *. cbn. replace (wrap64 (wrap64 t - object_size o)) with (wrap64 (t - object_size o)).
  - rewrite IH. f_equal. lia.
  - symmetry. apply (wrap_add 64 t (- object_size o)). lia.
Qed.

(** The byte count of a configured provider is the size of what its cache has. *)
Definition sized_as (t : Z) (c : C) : Prop := t = wrap64 (total (values c).*2).
Definition sized (s : VolatileStorage) : Prop := ∃ c, v_cache s = Some c ∧ sized_as (v_totalSize s) c.

Lemma sized_delete t k c : sized_as t c → sized_as (sub_sizes (Delete_ k c).2 t) (Delete_ k c).1.
Proof.
  unfold sized_as. intros ->. rewrite sub_sizes_total. f_equal.
  rewrite <- (total_Permutation _ _ (Delete_items k c)), total_app. lia.
Qed.

Lemma sized_same t c c' : sized_as t c → values c' = values c → sized_as t c'.
Proof. unfold sized_as. by intros -> ->. Qed.

Lemma sized_query now keys c t :
  sized_as t c → let '(c', t', _) := volatile_query now keys c t in sized_as t' c'.
Proof.
  revert c t. induction keys as [|k keys IH]; intros c t H; cbn; [done|].
  pose proof (sized_same t c _ H (Get_items k c)) as H1.
  destruct (Get_ k c) as [c1 [it|]]; cbn in H1.
  - destruct (_ && _).
    + pose proof (sized_delete t k c1 H1) as H2. destruct (Delete_ k c1) as [c2 del]. cbn in H2.
      specialize (IH c2 _ H2). by destruct (volatile_query _ _ _ _) as [[? ?] ?].
    + specialize (IH c1 _ H1). by destruct (volatile_query _ _ _ _) as [[? ?] ?].
  - specialize (IH c1 _ H1). by destruct (volatile_query _ _ _ _) as [[? ?] ?].
Qed.

Inductive volatile_label :=
  | VPut (now : Z) (k : string) (o : CacheObject)
  | VGet (now : Z) (k : string)
  | VQuery (now : Z) (keys : list string).

Definition volatile_step (l : volatile_label) (s : VolatileStorage) : option VolatileStorage :=
  match l with
  | VPut now k o => match volatile_Put now k o s with Ret (s, _) => Some s | Panic _ => None end
  | VGet now k => match volatile_Get now k s with Ret (s, _) => Some s | Panic _ => None end
  | VQuery now keys => match volatile_Query now keys s with Ret (s, _) => Some s | Panic _ => None end
  end.

Definition configured (s : VolatileStorage) : Prop :=
  volatile_Configure NewVolatileStorageProvider = (s, None).

Lemma sized_step l s s' : sized s → volatile_step l s = Some s' → sized s'.
Proof.
  intros (c & Hc & HS) H. destruct l as [now k o|now k|now keys]; cbn in H.
  - unfold volatile_Put in H. rewrite Hc in H. pose proof (Get_none k c) as HN.
    pose proof (sized_same _ c _ HS (Get_items k c)) as H1. pose proof (Get_items k c) as HG.
    destruct (Get_ k c) as [c1 [it|]]; cbn in H1, HN, HG; [injection H as <-; by exists c1|].
    set (v := mkObject _ _) in H. set (ttl := Until _ _) in H.
    pose proof (Set_items now k v ttl c1 ltac:(intros w; rewrite HG; by apply HN)) as HI.
    destruct (Set_ now k v ttl c1) as [c2 del]. injection H as <-. exists c2. split; [done|].
    cbn in *. unfold sized_as in *. rewrite H1, wrap_add, sub_sizes_total by lia. f_equal.
    apply total_Permutation in HI. rewrite total_app, total_cons in HI. unfold object_size at 1 in HI.
    cbn in HI. lia.
  - unfold volatile_Get in H. rewrite Hc in H.
    pose proof (sized_same _ c _ HS (Get_items k c)) as H1.
    destruct (Get_ k c) as [c1 [it|]]; cbn in H1; [|injection H as <-; by exists c1].
    destruct (_ && _).
    + pose proof (sized_delete _ k c1 H1) as H2. destruct (Delete_ k c1) as [c2 del].
      injection H as <-. by exists c2.
    + destruct (Metadata (it_value it)); [|done]. injection H as <-. eexists. split; [done|].
      cbn. eapply sized_same; [exact H1|]. apply Extend_items.
  - unfold volatile_Query in H. rewrite Hc in H. pose proof (sized_query now keys c _ HS) as HQ.
    destruct (volatile_query _ _ _ _) as [[c2 t2] rs]. injection H as <-. by exists c2.
Qed.

(** The in-memory provider accounts for its objects: after any calls of [Put], [Get]
    and [Query] on a configured provider, evictions and expirations included, its byte
    count is the sum of the sizes of the objects its cache has (modulo 2^64); [Put] and
    [Query] return, the latter with one element for each key. *)
Theorem volatile_accounting (P : volatile_label → Prop) (s : VolatileStorage)
    (HR : reach volatile_step configured P s) :
  (∃ c, v_cache s = Some c ∧ v_totalSize s = wrap64 (total (values c).*2)) ∧
  (∀ now k o, is_ret (volatile_Put now k o s) = true) ∧
  (∀ now keys, ∃ s' rs, volatile_Query now keys s = Ret (s', inr rs) ∧ length rs = length keys).
Proof.
  assert (sized s) as HS.
  { revert HR. apply reach_inv; [|by eauto using sized_step]. intros x Hx. unfold configured, volatile_Configure in Hx.
    destruct limit as [e|n]; [done|]. injection Hx as <-. eexists. split; [done|].
    unfold sized_as. cbn. by rewrite New_empty. }
  pose proof HS as (c & Hc & Ht). split_and!; [by exists c| |].
  - intros now k o. unfold volatile_Put. rewrite Hc. destruct (Get_ k c) as [c1 [it|]]; [done|].
    by destruct (Set_ _ _ _ _ _).
  - intros now keys. unfold volatile_Query. rewrite Hc.
    destruct (volatile_query now keys c (v_totalSize s)) as [[c2 t2] rs] eqn:E.
    apply volatile_query_items in E as [_ HL]. by eexists _, rs.
Qed.
End volatile.

(** ** A cache that satisfies the laws

    At most [n] objects, the oldest evicted first. *)
Module FifoCache.
Definition t : Type := nat * list (string * item).

Definition find (k : string) (l : list (string * item)) : option item :=
  snd <$> List.find (λ e, bool_decide (e.1 = k)) l.
Definition set (now : Z) (k : string) (v : CacheObject) (ttl : Z) (c : t) : t * list CacheObject :=
  let l := c.2 ++ [(k, mkItem v (now + ttl))] in
  let extra := (length l - c.1)%nat in
  ((c.1, drop extra l), (λ e, it_value e.2) <$> take extra l).
Definition del (k : string) (c : t) : t * list CacheObject :=
  ((c.1, List.filter (λ e, negb (bool_decide (e.1 = k))) c.2),
   (λ e, it_value e.2) <$> List.filter (λ e, bool_decide (e.1 = k)) c.2).
Definition extend (now : Z) (k : string) (ttl : Z) (c : t) : t :=
  (c.1, (λ e, if bool_decide (e.1 = k) then (e.1, mkItem (it_value e.2) (now + ttl)) else e) <$> c.2).

#[global] Instance cache : CCache t := {
  New_ n := (Z.to_nat n, []);
  Get_ k c := (c, find k c.2);
  Set_ := set;
  Delete_ := del;
  Extend_ := extend;
  Items_ := snd;
}.

Lemma filter_partition (p : string * item → bool) l :
  ((λ e, it_value e.2) <$> List.filter (λ e, negb (p e)) l) ++ ((λ e, it_value e.2) <$> List.filter p l) ≡ₚ
  (λ e, it_value e.2) <$> l.
Proof.
  induction l as [|e l IH]; [done|]. cbn. destruct (p e); cbn; [|by rewrite IH].
  rewrite <- Permutation_middle. by rewrite IH.
Qed.

Lemma values_snd (c : t) : (values c).*2 = (λ e, it_value e.2) <$> c.2.
Proof. unfold values. cbn. by rewrite <- list_fmap_compose. Qed.

#[global] Instance laws : CCacheLaws t.
Proof.
  split.
  - done.
  - done.
  - intros k [n l] it. unfold values. cbn. unfold find. destruct (List.find _ l) as [[k' it']|] eqn:E; [|done].
    apply List.find_some in E as [Hin Hk%bool_decide_eq_true]. cbn in Hk. subst. intros [= <-].
    apply list_elem_of_fmap. exists (k, it'). split; [done|]. by apply list_elem_of_In.
  - intros k [n l] v. unfold values. cbn. unfold find. destruct (List.find _ l) as [e|] eqn:E; [done|].
    intros _ ([k' it'] & [= -> ->] & Hin)%list_elem_of_fmap. apply list_elem_of_In in Hin.
    apply (List.find_none _ _ E) in Hin. cbn in Hin. by rewrite bool_decide_true in Hin.
  - intros now k v ttl [n l] _. rewrite !values_snd. cbn.
    rewrite Permutation_app_comm, <- fmap_app, take_drop, fmap_app. cbn. by rewrite Permutation_app_comm.
  - intros now k v ttl [n l] e. unfold values. cbn. intros (x & -> & Hx)%list_elem_of_fmap.
    apply (subseteq_drop _) in Hx. apply elem_of_app in Hx as [Hx| ->%list_elem_of_singleton]; [right|by left].
    apply list_elem_of_fmap. by exists x.
  - intros k [n l]. rewrite !values_snd. cbn. apply filter_partition.
  - intros k [n l] e. unfold values. cbn. intros (x & -> & Hx)%list_elem_of_fmap.
    apply list_elem_of_In, List.filter_In in Hx as [Hx _]. apply list_elem_of_fmap. exists x.
    split; [done|]. by apply list_elem_of_In.
  - intros now k ttl [n l]. unfold values. cbn. rewrite <- list_fmap_compose. apply list_fmap_ext.
    intros i [k' it'] _. cbn. by case_bool_decide.
Qed.
End FifoCache.

Definition vol_run : list volatile_label :=
  [VPut 5 "a" (mkObject "xy" None); VPut 6 "b" (mkObject "z" None); VGet 7 "b"; VPut 8 "b" (mkObject "z" None)].
Definition vol_state : @VolatileStorage FifoCache.t :=
  after_run (volatile_step) (volatile_Configure (inr 1) NewVolatileStorageProvider).1 vol_run.

Lemma volatile_accounting_witness :
  v_totalSize vol_state = 1 ∧ ∃ c, v_cache vol_state = Some c ∧ v_totalSize vol_state = wrap64 (total (values c).*2).
Proof.
  split; [vm_compute; reflexivity|].
  refine (proj1 (volatile_accounting (C := FifoCache.t) (inr 1) (λ _, True) vol_state _)).
  apply after_run_reach; [reflexivity|by apply Forall_true].
Defined.
