(* ===== verification/CacheServer.v ===== *)
(** * The cache server: [pkg/cachesrv/server.go]

    The server forwards [Push], [Pull] and [Query] to its storage provider, which the
    component's command makes a chain of an in-memory and a disk provider. Providers
    forget objects on their own (eviction, expiration), and a [Pull] leaves a goroutine
    behind that copies the object into the faster providers. *)
From S2P Require Import Prelude GoStrings Types Storage LocalStorage Volatile.

(** ** Providers of two kinds in one chain *)

Section sum.
Context {A B : Type} {PA : StorageProvider A} {PB : StorageProvider B}.

Definition on_sum {R : Type} (f : A → go (A * R)) (g : B → go (B * R)) (s : A + B) : go ((A + B) * R) :=
  match s with
  | inl a => '(a, r) ← f a; Ret (inl a, r)
  | inr b => '(b, r) ← g b; Ret (inr b, r)
  end.

(** The interface value holds one provider or the other. *)
#[global] Instance sum_provider : StorageProvider (A + B) := {
  Location s := match s with inl a => Location a | inr b => Location b end;
  Configure s := match s with
                 | inl a => let '(a, e) := Configure a in (inl a, e)
                 | inr b => let '(b, e) := Configure b in (inr b, e)
                 end;
  Put now k o := on_sum (Put now k o) (Put now k o);
  Get now k := on_sum (Get now k) (Get now k);
  Query now keys := on_sum (Query now keys) (Query now keys);
}.

Context {CA : StorageContract A} {CB : StorageContract B}.

Lemma on_sum_inv {R : Type} (f : A → go (A * R)) (g : B → go (B * R)) s s' r :
  on_sum f g s = Ret (s', r) →
  (∃ a a', s = inl a ∧ s' = inl a' ∧ f a = Ret (a', r)) ∨
  (∃ b b', s = inr b ∧ s' = inr b' ∧ g b = Ret (b', r)).
Proof.
  destruct s; cbn; intros ([x y] & Hx & [= <- <-])%go_bind_Ret_inv; [left|right]; by eexists _, _.
Qed.

#[global] Instance sum_contract : StorageContract (A + B).
Proof.
  refine {| key_ok := λ k, key_ok (S := A) k ∧ key_ok (S := B) k;
            holds := λ s, match s with inl a => holds a | inr b => holds b end |}.
  - intros now k o s s' err k' d [HA HB] [HA' HB']. cbn.
    intros [(a & a' & -> & -> & H)|(b & b' & -> & -> & H)]%on_sum_inv Hh; by eapply put_sound.
  - intros now k s s' o. cbn.
    intros [(a & a' & -> & -> & H)|(b & b' & -> & -> & H)]%on_sum_inv; by eapply get_sound.
  - intros now k s s' r k' d. cbn.
    intros [(a & a' & -> & -> & H)|(b & b' & -> & -> & H)]%on_sum_inv; by eapply get_frame.
  - intros now keys s s' r k d. cbn.
    intros [(a & a' & -> & -> & H)|(b & b' & -> & -> & H)]%on_sum_inv; by eapply query_frame.
Defined.
End sum.

(** ** The server *)

Section server.
Context {S : Type} {SP : StorageProvider S}.

(** [Push], [Pull], [Query] and [Sync] over the chain. [Pull] also returns the goroutine it
    leaves behind. *)
Definition Push (now : Z) (k : string) (o : CacheObject) (ps : list S) : go (list S * option error) :=
  chain_Put now k o ps.
Definition Pull (now : Z) (k : string) (ps : list S) :
    go (list S * (error + option CacheObject) * option (nat * CacheObject)) :=
  chain_Get now k ps.
Definition server_Query (now : Z) (keys : list string) (ps : list S) :
    go (list S * list (option CacheObjectMeta)) := chain_Query now keys ps.
Definition Sync : error := StatusError Unimplemented "method Sync not implemented".

Context {SC : StorageContract S}.

Record CacheServer := mkCacheServer {
  providers : list S;
  copying : list (nat * string * CacheObject);   (** goroutines of [Pull] *)
  pushed : list (string * string);               (** the keys and data of all pushes *)
}.

Inductive cache_event :=
  | EvPush (k : string) (o : CacheObject) (err : option error)
  | EvPull (k : string) (r : error + option CacheObject)
  | EvQuery (keys : list string) (rs : list (option CacheObjectMeta))
  | EvCopy
  | EvForget.

Definition option_copy (k : string) (c : option (nat * CacheObject)) : list (nat * string * CacheObject) :=
  match c with Some (i, o) => [(i, k, o)] | None => [] end.

(** The server's calls, the goroutines of [Pull], and providers that forget objects. *)
Inductive cache_step : CacheServer → cache_event → CacheServer → Prop :=
  | cache_push now k o s ps err :
      key_ok k → Push now k o (providers s) = Ret (ps, err) →
      cache_step s (EvPush k o err) (mkCacheServer ps (copying s) ((k, Data o) :: pushed s))
  | cache_pull now k s ps r c :
      key_ok k → Pull now k (providers s) = Ret (ps, r, c) →
      cache_step s (EvPull k r) (mkCacheServer ps (copying s ++ option_copy k c) (pushed s))
  | cache_query now keys s ps rs :
      server_Query now keys (providers s) = Ret (ps, rs) →
      cache_step s (EvQuery keys rs) (mkCacheServer ps (copying s) (pushed s))
  | cache_copy now s j i k o ps :
      copying s !! j = Some (i, k, o) → backfill now k o i (providers s) = Ret ps →
      cache_step s EvCopy (mkCacheServer ps (delete j (copying s)) (pushed s))
  | cache_forget s j p p' :
      providers s !! j = Some p → (∀ k d, holds p' k d → holds p k d) →
      cache_step s EvForget (mkCacheServer (<[j := p']> (providers s)) (copying s) (pushed s)).

Inductive cache_trace (s0 : CacheServer) : list cache_event → CacheServer → Prop :=
  | trace_nil : cache_trace s0 [] s0
  | trace_snoc es s e s' :
      cache_trace s0 es s → cache_step s e s' → cache_trace s0 (es ++ [e]) s'.

(** A server whose providers are empty. *)
Definition new_server (s : CacheServer) : Prop :=
  copying s = [] ∧ pushed s = [] ∧ ∀ k d, ¬ chain_holds (providers s) k d.

Record cache_inv (s : CacheServer) : Prop := {
  ci_holds : ∀ k d, key_ok k → chain_holds (providers s) k d → (k, d) ∈ pushed s;
  ci_copies : ∀ i k o, (i, k, o) ∈ copying s → key_ok k ∧ (k, Data o) ∈ pushed s;
}.

(** What a step leaves true, and what a [Pull] may return. *)
Lemma cache_inv_step s e s' :
  cache_inv s → cache_step s e s' →
  cache_inv s' ∧ (∀ k o, e = EvPull k (inr (Some o)) → (k, Data o) ∈ pushed s).
Proof.
  intros [HH HC] Hs. destruct Hs as [now k o s ps err Hk H|now k s ps r c Hk H|now keys s ps rs H
    |now s j i k o ps Hj H|s j p p' Hj Hp]; cbn in *.
  - split; [|done]. split; cbn.
    + intros k' d Hk' Hd. destruct (chain_Put_holds _ _ _ _ _ _ _ _ Hk Hk' H Hd) as [[-> ->]|Hd']; [by left|].
      right. auto.
    + intros i' k' o' Hi. destruct (HC _ _ _ Hi). split; [done|by right].
  - unfold Pull, chain_Get in H. apply go_bind_Ret_inv in H as ([ps1 r1] & Hf & H).
    apply chain_find_holds in Hf as (H1 & H2 & _).
    assert (∀ i o, r1 = inr (i, o) → (k, Data o) ∈ pushed s) as HP.
    { intros i o ->. destruct (H2 i o eq_refl) as [Hd _]. by apply HH. }
    destruct r1 as [[err|]|[i o]]; injection H as <- <- <-; cbn; split;
      try (by intros ? ? [=]); try (split; cbn; [by eauto|]); rewrite ?app_nil_r; try done.
    + intros i' k' o' [Hi|[= <- <- <-]%list_elem_of_singleton]%elem_of_app; [by apply (HC i')|]. eauto.
    + intros k' o' [= <- <-]. eauto.
  - split; [|done]. split; [|done]. cbn. intros k d Hk Hd. apply HH; [done|].
    by eapply chain_Query_holds.
  - split; [|done]. destruct (HC i k o) as [Hk Ho]; [by eapply list_elem_of_lookup_2|]. split; cbn.
    + intros k' d Hk' Hd. destruct (backfill_holds _ _ _ _ _ _ _ _ Hk Hk' H Hd) as [[-> ->]|Hd']; auto.
    + intros i' k' o' Hi. apply (HC i').
      by eapply list_elem_of_delete_inv.
  - split; [|done]. split; [|done]. cbn. intros k d Hk Hd. apply HH; [done|].
    apply chain_holds_insert in Hd as [Hd|Hd]; [|done]. exists p.
    split; [by eapply list_elem_of_lookup_2|]. auto.
Qed.

Lemma trace_inv s0 es s :
  new_server s0 → cache_trace s0 es s →
  cache_inv s ∧ ∀ k d, (k, d) ∈ pushed s → ∃ o err, EvPush k o err ∈ es ∧ Data o = d.
Proof.
  intros (HC & HP & HH) HT. induction HT as [|es s e s' HT [IH1 IH2] Hs].
  { split; [split|].
    - by intros k d _ Hd%HH.
    - intros i k o Hi. rewrite HC in Hi. by apply not_elem_of_nil in Hi.
    - intros k d Hd. rewrite HP in Hd. by apply not_elem_of_nil in Hd. }
  destruct (cache_inv_step _ _ _ IH1 Hs) as [HI _]. split; [done|]. intros k d Hd.
  assert ((k, d) ∈ pushed s ∨ ∃ o err, e = EvPush k o err ∧ Data o = d) as [Hd'|(o & err & -> & <-)].
  { destruct Hs; cbn in Hd; try (by left). apply elem_of_cons in Hd as [[= -> ->]|Hd]; [right|by left]. by eexists _, _. }
  - destruct (IH2 k d Hd') as (o & err & He & Ho). exists o, err. split; [|done]. set_solver.
  - exists o, err. split; [|done]. set_solver.
Qed.

(** C6: The cache returns only what was stored: in any history of a server with empty
    providers, with evictions, expirations and the copying goroutines anywhere in
    between, an object that [Pull] returns for a key has the data of an earlier [Push]
    under the same key. This holds for every provider that keeps the storage contract, so
    for a chain of the in-memory and the disk provider. *)
Theorem cache_pull_sound (s0 s : CacheServer) (es es1 es2 : list cache_event) (k : string) (o : CacheObject)
    (HN : new_server s0) (HT : cache_trace s0 es s)
    (HE : es = es1 ++ EvPull k (inr (Some o)) :: es2) :
  ∃ o' err, EvPush k o' err ∈ es1 ∧ Data o' = Data o.
Proof.
  revert es2 HE. induction HT as [|es s e s' HT IH Hs]; intros es2 HE.
  { by destruct es1. }
  destruct es2 as [|e2 es2] using rev_ind.
  - apply app_inj_tail in HE as [-> ->]. destruct (trace_inv _ _ _ HN HT) as [HI HP].
    apply HP. by eapply (proj2 (cache_inv_step _ _ _ HI Hs)).
  - rewrite app_comm_cons, app_assoc in HE. apply app_inj_tail in HE as [-> ->]. by eapply IH.
Qed.
End server.

(** ** Witness: a memory cache of one object in front of the disk *)

Abbreviation TwoProviders := (@VolatileStorage FifoCache.t + LocalStorage)%type.
#[export] Instance two_providers : StorageProvider TwoProviders :=
  @sum_provider _ _ (volatile_provider (inr 1)) (local_provider bin_encode bin_decode no_err).
#[export] Instance two_contract : StorageContract TwoProviders :=
  @sum_contract _ _ _ _ (volatile_contract (inr 1)) (local_contract bin_encode bin_decode no_err bin_decode_encode).

Definition two_chain : list TwoProviders :=
  [inl (volatile_Configure (inr 1) NewVolatileStorageProvider).1; inr test_store].
Definition two_server : CacheServer := mkCacheServer two_chain [] [].
Definition after_push : CacheServer :=
  match Push 1 "abcd" test_object two_chain with
  | Ret (ps, _) => mkCacheServer ps [] [("abcd", "x")]%string
  | Panic _ => two_server
  end.
Definition pull_result : go (list TwoProviders * (error + option CacheObject) * option (nat * CacheObject)) :=
  Pull 2 "abcd" (providers after_push).
Definition pulled_object : CacheObject :=
  match pull_result with Ret (_, inr (Some o), _) => o | _ => test_object end.

Lemma two_server_new : new_server two_server.
Proof.
  split_and!; [done..|]. intros k d (p & Hp & Hd). cbn in Hp.
  apply elem_of_cons in Hp as [->|[->|[]%not_elem_of_nil]%elem_of_cons]; cbn in Hd.
  - destruct Hd as (c & o & [= <-] & Ho & _). by apply not_elem_of_nil in Ho.
  - destruct Hd as (q & data & o & _ & Hf & _). cbn in Hf. by rewrite lookup_empty in Hf.
Qed.

Lemma cache_pull_sound_witness :
  ∃ o' err, EvPush "abcd" o' err ∈ [EvPush "abcd" test_object None] ∧ Data o' = "x".
Proof.
  assert (key_ok (S := TwoProviders) "abcd") as Hk by (split; [exact I|exact hash_ok_abcd]).
  assert (∃ ps c, pull_result = Ret (ps, inr (Some pulled_object), c)) as (ps & c & HP)
    by (eexists _, _; vm_compute; reflexivity).
  refine (cache_pull_sound two_server (mkCacheServer ps ([] ++ option_copy "abcd" c) [("abcd", "x")]%string)
    ([EvPush "abcd" test_object None] ++ [EvPull "abcd" (inr (Some pulled_object))])
    [EvPush "abcd" test_object None] [] "abcd" pulled_object two_server_new _ eq_refl).
  apply trace_snoc with (s := after_push).
  - apply (trace_snoc two_server [] two_server _ after_push); [constructor|].
    refine (cache_push 1 "abcd" test_object two_server (providers after_push) None Hk _).
    vm_compute. reflexivity.
  - exact (cache_pull 2 "abcd" after_push ps _ c Hk HP).
Defined.
