(* ===== verification/S3.v ===== *)
(** * The S3 provider: [pkg/storage/s3.go]

    [S3StorageProvider] keeps objects in a bucket through the client library minio, which is
    a parameter: [MinioClient] has the calls the provider makes, [MinioLaws] what the service
    documents of them.  The data of a returned object lives in a buffer of a shared pool, so
    buffers are modelled as cells of a store.  Downloads may fail; what the code then does is in
    [s3_Get_faults].  Only with downloads that do not fail ([Downloads]), and data used before
    the next call, does the provider keep the contract of [Storage]. *)
From Stdlib Require Import DecimalString DecimalZ.
From S2P Require Import Prelude GoStrings Types Config Storage.

(** ** Decimal numbers: [strconv.FormatInt], [strconv.ParseInt] (base 10, 64 bits) *)

Definition FormatInt (z : Z) : string := NilZero.string_of_int (Z.to_int z).

Definition parse_signed (s : string) : option Z := Z.of_int <$> NilZero.int_of_string s.

Definition ParseInt (s : string) : option Z :=
  z ← match s with
      | String "+" (String "-" _) => None
      | String "+" r => parse_signed r
      | _ => parse_signed s
      end;
  if bool_decide (- 2 ^ 63 ≤ z < 2 ^ 63) then Some z else None.

(** ** The client library *)

Record ObjectInfo := mkInfo {
  UserMetadata : gmap string string;
  UserTags : gmap string string;
  InfoSize : Z;
  Expiration : Z;
}.

(** The service, with state [B].  [GetObject] returns the bytes that could be read and the
    error that ended the read, if any.  A lifecycle is the list of expiration days of its
    rules. *)
Class MinioClient (B : Type) := {
  minio_New : RemoteStorageSpec → option error;
  BucketExists : string → B → error + bool;
  MakeBucket : string → string → B → B * option error;
  GetBucketLifecycle : string → B → error + list Z;
  SetBucketLifecycle : string → list Z → B → B * option error;
  PutObject : string → string → string → gmap string string → gmap string string → B →
    B * option error;
  StatObject : string → string → B → error + ObjectInfo;
  GetObject : string → string → B → error + (string * option error);
  CopyObject : string → string → gmap string string → B → B * option error;
  ListObjects : string → B → list Z;
}.

(** ** The provider *)

Definition S3StorageError (msg : string) (err : error) : error :=
  PlainError ("S3 Storage Error: " +:+ msg +:+ error_text err).

Section s3.
Context {B : Type} `{MinioClient B}.

(** [s3_client] is the client pointer (nil before [Configure] succeeds); [buffers] and
    [pool] are the byte buffers that exist and the ones that are free. *)
Record S3Storage := mkS3 {
  s3_client : bool;
  s3_service : B;
  s3_cfg : RemoteStorageSpec;
  s3_bucket : string;
  s3_hits : Z;
  s3_misses : Z;
  buffers : gmap nat string;
  next_buf : nat;
  pool : list nat;
}.

Definition with_service (b : B) (s : S3Storage) : S3Storage :=
  mkS3 (s3_client s) b (s3_cfg s) (s3_bucket s) (s3_hits s) (s3_misses s) (buffers s) (next_buf s) (pool s).

Definition NewS3StorageProvider (b : B) (cfg : RemoteStorageSpec) : S3Storage :=
  mkS3 false b cfg (or_default (RemoteBucket cfg) "kubecc") 0 0 ∅ 0 [].

Definition s3_Location (_ : S3Storage) : StorageLocation := Types.S3.

Definition createBucketIfNotExists (s : S3Storage) : S3Storage * option error :=
  match BucketExists (s3_bucket s) (s3_service s) with
  | inl err => (s, Some (S3StorageError "" err))
  | inr false =>
      let '(b, err) := MakeBucket (s3_bucket s) (Region (s3_cfg s)) (s3_service s) in
      match err with
      | Some err => (with_service b s, Some (S3StorageError "Could not create bucket: " err))
      | None =>
          match GetBucketLifecycle (s3_bucket s) b with
          | inl err => (with_service b s, Some err)
          | inr rules =>
              let '(b, err) := SetBucketLifecycle (s3_bucket s)
                (rules ++ [ExpirationDays (s3_cfg s)]) b in
              match err with
              | Some err => (with_service b s, Some (S3StorageError "Could not configure bucket: " err))
              | None => (with_service b s, None)
              end
          end
      end
  | inr true => (s, None)
  end.

(** [Configure] creates the client; the goroutine it starts then calls
    [createBucketIfNotExists] until it succeeds. *)
Definition s3_Configure (s : S3Storage) : S3Storage * option error :=
  match minio_New (s3_cfg s) with
  | Some err => (mkS3 false (s3_service s) (s3_cfg s) (s3_bucket s) (s3_hits s) (s3_misses s)
                   (buffers s) (next_buf s) (pool s), Some err)
  | None => (mkS3 true (s3_service s) (s3_cfg s) (s3_bucket s) (s3_hits s) (s3_misses s)
               (buffers s) (next_buf s) (pool s), None)
  end.

Fixpoint setup_goroutine (attempts : nat) (s : S3Storage) : S3Storage * bool :=
  match attempts with
  | O => (s, false)
  | S n => match createBucketIfNotExists s with
           | (s, Some _) => setup_goroutine n s
           | (s, None) => (s, true)
           end
  end.

Definition nil_client : string := "invalid memory address or nil pointer dereference".

Definition s3_Put (now : Z) (k : string) (o : CacheObject) (s : S3Storage) :
    go (S3Storage * option error) :=
  if negb (s3_client s) then Panic nil_client else
  let '(b, err) := PutObject (s3_bucket s) k (Data o)
    (<["timestamp" := FormatInt now]> {["score" := "1"]})
    (Tags (default EmptyMeta (Metadata o))) (s3_service s) in
  Ret (with_service b s,
       match err with
       | Some err => Some (StatusError Internal (error_text err))
       | None => None
       end).

(** [bytebufferpool.Get]: a free buffer, emptied, or a new one. *)
Definition pool_get (s : S3Storage) : nat * S3Storage :=
  match pool s with
  | i :: p => (i, mkS3 (s3_client s) (s3_service s) (s3_cfg s) (s3_bucket s) (s3_hits s)
                    (s3_misses s) (<[i := ""]> (buffers s)) (next_buf s) p)
  | [] => (next_buf s, mkS3 (s3_client s) (s3_service s) (s3_cfg s) (s3_bucket s)
             (s3_hits s) (s3_misses s) (<[next_buf s := ""]> (buffers s)) (S (next_buf s)) [])
  end.
Definition pool_put (i : nat) (s : S3Storage) : S3Storage :=
  mkS3 (s3_client s) (s3_service s) (s3_cfg s) (s3_bucket s) (s3_hits s) (s3_misses s)
    (buffers s) (next_buf s) (i :: pool s).
Definition fill (i : nat) (d : string) (s : S3Storage) : S3Storage :=
  mkS3 (s3_client s) (s3_service s) (s3_cfg s) (s3_bucket s) (s3_hits s) (s3_misses s)
    (<[i := d]> (buffers s)) (next_buf s) (pool s).
Definition add_hit (s : S3Storage) : S3Storage :=
  mkS3 (s3_client s) (s3_service s) (s3_cfg s) (s3_bucket s) (wrap64 (s3_hits s + 1))
    (s3_misses s) (buffers s) (next_buf s) (pool s).
Definition add_miss (s : S3Storage) : S3Storage :=
  mkS3 (s3_client s) (s3_service s) (s3_cfg s) (s3_bucket s) (s3_hits s)
    (wrap64 (s3_misses s + 1)) (buffers s) (next_buf s) (pool s).

(** An object whose data is the contents of a buffer ([objectBuf.Bytes()]). *)
Record RefObject := mkRef { ref_data : nat; ref_meta : CacheObjectMeta }.

(** Reading the data of such an object, in the state of the time of reading. *)
Definition deref (s : S3Storage) (o : RefObject) : CacheObject :=
  mkObject (default "" (buffers s !! ref_data o)) (Some (ref_meta o)).

(** The incremented score, from the metadata of the object. *)
Definition next_score (md : gmap string string) : Z :=
  wrap64 (default 1 (md !! "score" ≫= ParseInt) + 1).

(** What the goroutine that downloads the object puts into the buffer; its error is received
    by [case <-done] and dropped. *)
Definition downloaded (bucket k : string) (b : B) : string :=
  match GetObject bucket k b with
  | inl _ => ""
  | inr (bytes, _) => bytes
  end.

(** [Get] returns the object and the metadata for the goroutine that copies the object onto
    itself.  [ctx_err] is the error of the caller's context when it ends before the download
    does; the buffer is then free while the goroutine is still writing to it. *)
Definition s3_Get (ctx_err : option error) (now : Z) (k : string) (s : S3Storage) :
    go (S3Storage * (error + RefObject) * option (gmap string string)) :=
  if negb (s3_client s) then Panic nil_client else
  match StatObject (s3_bucket s) k (s3_service s) with
  | inl err =>
      Ret (add_miss s, inl (StatusError NotFound ("Object not found: " +:+ error_text err)), None)
  | inr info =>
      let '(buf, s) := pool_get s in
      let score := next_score (UserMetadata info) in
      let md := <["score" := FormatInt score]> (UserMetadata info) in
      let s := add_hit s in
      match ctx_err with
      | Some err => Ret (pool_put buf s, inl err, Some md)
      | None =>
          let s := fill buf (downloaded (s3_bucket s) k (s3_service s)) s in
          Ret (pool_put buf s,
               inr (mkRef buf (mkMeta (UserTags info) (Expiration info)
                 (Some (mkManaged (InfoSize info) now score Types.S3)))), Some md)
      end
  end.

(** The goroutine: its error is only logged. *)
Definition copy_metadata (k : string) (md : gmap string string) (s : S3Storage) : S3Storage :=
  with_service (fst (CopyObject (s3_bucket s) k md (s3_service s))) s.

(** One key of [Query]. *)
Definition s3_query_key (k : string) (s : S3Storage) : option CacheObjectMeta :=
  match StatObject (s3_bucket s) k (s3_service s) with
  | inl _ => None
  | inr info =>
      timestamp ← ParseInt (default "" (UserMetadata info !! "timestamp"));
      score ← ParseInt (default "" (UserMetadata info !! "score"));
      Some (mkMeta (UserTags info) (Expiration info)
        (Some (mkManaged (InfoSize info) timestamp score Types.S3)))
  end.

Definition s3_Query (ctx_err : option error) (keys : list string) (s : S3Storage) :
    go (S3Storage * (error + list (option CacheObjectMeta))) :=
  match keys, ctx_err with
  | [], _ => Ret (s, inr [])
  | _, Some err => Ret (s, inl err)
  | _, None => if negb (s3_client s) then Panic nil_client
               else Ret (s, inr ((λ k, s3_query_key k s) <$> keys))
  end.

(** Object count and total size. *)
Definition s3_UsageInfo (s : S3Storage) : Z * Z :=
  if negb (s3_client s) then (0, 0) else
  let l := ListObjects (s3_bucket s) (s3_service s) in
  (Z.of_nat (length l), foldl (λ t sz, wrap64 (t + sz)) 0 l).

(** Hits, misses and the hit ratio (numerator and denominator). *)
Definition s3_CacheHits (s : S3Storage) : Z * Z * (Z * Z) :=
  let hitTotal := s3_hits s in
  let missTotal := s3_misses s in
  (hitTotal, missTotal,
   if wrap64 (hitTotal + missTotal) =? 0 then (0, 1) else (hitTotal, wrap64 (hitTotal + missTotal))).
End s3.
Arguments S3Storage : clear implicits.

(** ** Numbers round-trip *)



(** ** What the service documents *)

(** [stored] is the data that the service holds.  A write that is not refused is stored, a
    refused one may or may not be, and other keys are separate; copying an object onto itself
    keeps its data; an object that can be examined is stored, with its size.  A download that
    ends without an error delivered what is stored; nothing is said of others, and none need
    succeed.  Metadata come back under names that may be rewritten by [canon] (headers are
    case-insensitive). *)
Class MinioLaws (B : Type) `{MinioClient B} := {
  canon : string → string;
  stored : B → string → string → option string;
  put_stored : ∀ bk k d md tags (b b' : B), PutObject bk k d md tags b = (b', None) →
    stored b' bk k = Some d;
  put_refused : ∀ bk k d md tags (b b' : B) err, PutObject bk k d md tags b = (b', err) →
    stored b' bk k = Some d ∨ stored b' bk k = stored b bk k;
  put_other : ∀ bk k d md tags (b b' : B) err k', PutObject bk k d md tags b = (b', err) → k' ≠ k →
    stored b' bk k' = stored b bk k';
  copy_stored : ∀ bk k md (b b' : B) err k', CopyObject bk k md b = (b', err) →
    stored b' bk k' = stored b bk k';
  stat_stored : ∀ bk k (b : B) info, StatObject bk k b = inr info →
    ∃ d, stored b bk k = Some d ∧ InfoSize info = slen d;
  get_stored : ∀ bk k (b : B) d, GetObject bk k b = inr (d, None) → stored b bk k = Some d;
  put_metadata : ∀ bk k d md tags (b b' : B) info, PutObject bk k d md tags b = (b', None) →
    StatObject bk k b' = inr info →
    (∀ n, UserMetadata info !! canon n = md !! n) ∧ ∀ n, is_Some (UserMetadata info !! n) → ∃ m, n = canon m;
}.

(** The condition under which an object that exists can be downloaded. *)
Class Downloads (B : Type) `{MinioClient B} :=
  download_ok : ∀ bk k (b : B) info, StatObject bk k b = inr info →
    ∃ d, GetObject bk k b = inr (d, None).

Section laws.
Context {B : Type} `{MinioLaws B}.

Lemma pool_get_frame (s s' : S3Storage B) buf :
  pool_get s = (buf, s') →
  s3_service s' = s3_service s ∧ s3_bucket s' = s3_bucket s ∧ s3_client s' = s3_client s.
Proof. unfold pool_get. destruct (pool s); by intros [= <- <-]. Qed.

(** [Get] and its copy goroutine change nothing but counters, buffers and metadata; the data of
    the object that it returns is what was downloaded, at that moment. *)
Lemma s3_Get_data now k (s s' : S3Storage B) r md :
  s3_Get None now k s = Ret (s', r, md) →
  s3_service s' = s3_service s ∧ s3_bucket s' = s3_bucket s
  ∧ ∀ o, r = inr o → (∃ info, StatObject (s3_bucket s) k (s3_service s) = inr info)
      ∧ Data (deref s' o) = downloaded (s3_bucket s) k (s3_service s).
Proof.
  unfold s3_Get. destruct (negb (s3_client s)); [done|].
  destruct (StatObject _ _ _) as [|info]; [by intros [= <- <- <-]|].
  destruct (pool_get s) as [buf s1] eqn:Eg. apply pool_get_frame in Eg as (Hs & Hb & Hc).
  intros [= <- <- <-]. split_and!; [done..|]. intros o [= <-]. split; [by eexists|].
  cbn. by rewrite Hs, Hb, lookup_insert_eq.
Qed.


(** *** Sequences of calls *)




Definition holds_data (s : S3Storage B) (k : string) : option string := stored (s3_service s) (s3_bucket s) k.





End laws.


(** ** The contract *)

Section contract.
Context {B : Type} `{MinioLaws B} {D : Downloads B}.

(** The provider as the chain uses it when the data of an object is read before the next
    call and the metadata copy is done. *)
#[global] Instance s3_provider : StorageProvider (S3Storage B) := {
  Location := s3_Location;
  Configure := s3_Configure;
  Put := s3_Put;
  Get now k s :=
    '(s, r, md) ← s3_Get None now k s;
    let s := match md with Some md => copy_metadata k md s | None => s end in
    Ret (s, match r with inl err => inl err | inr o => inr (deref s o) end);
  Query _ keys s := s3_Query None keys s;
}.

Definition s3_holds (s : S3Storage B) (k d : string) : Prop := holds_data s k = Some d.

Lemma s3_get_holds now k (s s' : S3Storage B) r :
  Get now k s = Ret (s', r) →
  (∀ k' d, s3_holds s' k' d ↔ s3_holds s k' d) ∧ (∀ o, r = inr o → s3_holds s k (Data o)).
Proof using D H0.
  cbn. intros ([[s1 r1] md] & HG & [= <- <-])%go_bind_Ret_inv.
  destruct (s3_Get_data _ _ _ _ _ _ HG) as (Hs & Hb & Hd). split.
  - intros k' d. unfold s3_holds, holds_data. destruct md as [md|]; [|by rewrite Hs, Hb].
    unfold copy_metadata. cbn. destruct (CopyObject _ _ _ _) as [b err] eqn:Ec. cbn.
    by rewrite (copy_stored _ _ _ _ _ _ _ Ec), Hs, Hb.
  - intros o Ho. destruct r1 as [|o1]; [done|]. destruct (Hd o1 eq_refl) as [(info & Hst) Hdat].
    injection Ho as <-. destruct (download_ok _ _ _ _ Hst) as (d & Hget).
    unfold s3_holds, holds_data. rewrite (get_stored _ _ _ _ Hget). f_equal.
    transitivity (Data (deref s1 o1)); [|by destruct md].
    rewrite Hdat. unfold downloaded. by rewrite Hget.
Qed.

(** With downloads that do not fail the S3 provider keeps the contract, so that the cache
    server is sound over any chain with it. *)
#[global] Instance s3_contract : StorageContract (S3Storage B).
Proof using D H0.
  refine {| key_ok := λ _, True; holds := s3_holds |}.
  - intros now k o s s' err k' d _ _. cbn. unfold s3_Put, s3_holds, holds_data.
    destruct (negb (s3_client s)); [done|].
    destruct (PutObject _ _ _ _ _ _) as [b e] eqn:Ep. intros [= <- _]. cbn. intros Hd.
    destruct (decide (k' = k)) as [->|Hne]; [|right; by rewrite <- (put_other _ _ _ _ _ _ _ _ _ Ep Hne)].
    destruct (put_refused _ _ _ _ _ _ _ _ Ep) as [E|E]; [left; split; congruence|right; congruence].
  - intros now k s s' o HG. by apply (s3_get_holds now k s s' (inr o) HG).
  - intros now k s s' r k' d HG. by apply (s3_get_holds now k s s' r HG).
  - intros now keys s s' r k d. cbn. unfold s3_Query.
    destruct keys; [by intros [= <- _]|]. destruct (negb _); [done|]. by intros [= <- _].
Defined.
End contract.

(** ** Faults *)

(** A service that rewrites the metadata names (HTTP headers come back capitalised) makes the
    provider blind: [Query] reports nothing for an object just stored, because it looks for
    the name it wrote. *)
Theorem s3_query_blind {B} `{MinioLaws B} now k o (s s' : S3Storage B) :
  (∀ n, canon n ≠ "timestamp") → s3_Put now k o s = Ret (s', None) →
  s3_Query None [k] s' = Ret (s', inr [None]).
Proof.
  intros Hn. unfold s3_Put. destruct (s3_client s) eqn:Hc; [|done]. cbn [negb].
  destruct (PutObject _ _ _ _ _ _) as [b err] eqn:Ep. destruct err; [done|]. intros [= <-].
  unfold s3_Query. cbn [s3_client with_service]. rewrite Hc. cbn. unfold s3_query_key. cbn.
  destruct (StatObject _ _ _) as [|info] eqn:Hst; [done|].
  destruct (put_metadata _ _ _ _ _ _ _ _ Ep Hst) as [_ Hnames].
  destruct (UserMetadata info !! "timestamp") as [v|] eqn:Ev; [|done].
  destruct (Hnames "timestamp") as [m Hm]; [by eexists|]. by destruct (Hn m).
Qed.

(** A bucket without a lifecycle answers [GetBucketLifecycle] with an error. The setup then
    fails after creating the bucket, finds the bucket at the next attempt and ends without
    having set the expiration of objects. *)
Theorem s3_lifecycle_lost {B} `{MinioClient B} (s : S3Storage B) b e :
  BucketExists (s3_bucket s) (s3_service s) = inr false →
  MakeBucket (s3_bucket s) (Region (s3_cfg s)) (s3_service s) = (b, None) →
  GetBucketLifecycle (s3_bucket s) b = inl e → BucketExists (s3_bucket s) b = inr true →
  setup_goroutine 2 s = (with_service b s, true).
Proof.
  intros H1 H2 H3 H4.
  assert (createBucketIfNotExists s = (with_service b s, Some e)) as E1.
  { unfold createBucketIfNotExists. by rewrite H1, H2, H3. }
  assert (createBucketIfNotExists (with_service b s) = (with_service b s, None)) as E2.
  { unfold createBucketIfNotExists. cbn. by rewrite H4. }
  unfold setup_goroutine. by rewrite E1, E2.
Qed.

(** A service in memory. [truncated] are the keys whose download breaks off after one byte. *)
Module Mem.
Record t := mk {
  exists_bucket : bool;
  rules : option (list Z);
  contents : gmap string (string * gmap string string);
  truncated : list string;
}.

#[global] Instance client : MinioClient t := {
  minio_New _ := None;
  BucketExists _ b := inr (exists_bucket b);
  MakeBucket _ _ b := (mk true None (contents b) (truncated b), None);
  GetBucketLifecycle _ b :=
    match rules b with Some l => inr l | None => inl (PlainError "NoSuchLifecycleConfiguration") end;
  SetBucketLifecycle _ l b := (mk (exists_bucket b) (Some l) (contents b) (truncated b), None);
  PutObject _ k d md _ b :=
    (mk (exists_bucket b) (rules b) (<[k := (d, md)]> (contents b))
       (List.filter (λ k', negb (String.eqb k k')) (truncated b)), None);
  StatObject _ k b :=
    match contents b !! k with
    | Some (d, md) => inr (mkInfo md ∅ (slen d) 0)
    | None => inl (PlainError "The specified key does not exist.")
    end;
  GetObject _ k b :=
    match contents b !! k with
    | Some (d, _) =>
        if existsb (String.eqb k) (truncated b)
        then inr (of_chars (take 1 (chars d)), Some (PlainError "unexpected EOF"))
        else inr (d, None)
    | None => inl (PlainError "The specified key does not exist.")
    end;
  CopyObject _ k md b :=
    (mk (exists_bucket b) (rules b) (alter (λ e, (fst e, md)) k (contents b)) (truncated b), None);
  ListObjects _ b := (λ e, slen (fst (snd e))) <$> map_to_list (contents b);
}.

#[global] Instance laws : MinioLaws t.
Proof.
  refine {| canon := λ n, n; stored := λ b _ k, fst <$> contents b !! k |}; cbn.
  - intros bk k d md tags b b' [= <-]. cbn. by rewrite lookup_insert_eq.
  - intros bk k d md tags b b' err [= <- _]. cbn. left. by rewrite lookup_insert_eq.
  - intros bk k d md tags b b' err k' [= <- _] Hne. cbn. by rewrite lookup_insert_ne.
  - intros bk k md b b' err k' [= <- _]. cbn. destruct (decide (k = k')) as [->|Hne].
    + rewrite lookup_alter_eq. by destruct (contents b !! k') as [[]|].
    + by rewrite lookup_alter_ne.
  - intros bk k b info. destruct (contents b !! k) as [[d md]|]; [|done]. intros [= <-]. by exists d.
  - intros bk k b d. destruct (contents b !! k) as [[d0 md]|]; [|done]. destruct (existsb _ _); [done|]. by intros [= ->].
  - intros bk k d md tags b b' info [= <-]. cbn. rewrite lookup_insert_eq. intros [= <-]. cbn. split; [done|]. intros n _. by exists n.
Defined.

Definition cfg : RemoteStorageSpec := mkRemoteStorageSpec "s3:9000" "" "" false "" "" "" 7.
Definition start (truncated : list string) : S3Storage t :=
  fst (s3_Configure (NewS3StorageProvider
    (mk true None (<["k1" := ("first", <["timestamp" := "5"]> {["score" := "1"]})]>
       {["k2" := ("second", <["timestamp" := "6"]> {["score" := "1"]})]}) truncated) cfg)).
End Mem.

(** What the code does with a download that fails, and with the buffer of an object:
    an object cut short is returned without an error; and the data of an object that was
    returned becomes that of the next one, because its buffer went back to the pool. The
    goroutine of the chain that copies the first object into the faster providers then
    stores the second one's data under the first one's key. *)
Theorem s3_Get_faults :
  (∃ s o md, s3_Get None 10 "k1" (Mem.start ["k1"]) = Ret (s, inr o, md)
     ∧ Data (deref s o) = "f" ∧ (Size <$> Managed (ref_meta o)) = Some 5)
  ∧ ∃ s1 o1 md1 s2 o2 md2, s3_Get None 10 "k1" (Mem.start []) = Ret (s1, inr o1, md1)
     ∧ Data (deref s1 o1) = "first"
     ∧ s3_Get None 11 "k2" s1 = Ret (s2, inr o2, md2) ∧ Data (deref s2 o1) = "second".
Proof.
  split.
  - do 3 eexists. split; [reflexivity|]. by split.
  - do 6 eexists. split; [reflexivity|]. split; [reflexivity|]. split; reflexivity.
Qed.


