(* ===== verification/Status.v ===== *)
(** * Component health: [pkg/metrics/status.go], [pkg/metrics/types.go]

    A [StatusController] keeps the active conditions of a component in a map keyed by the
    context whose lifetime the condition has. One goroutine per call of [ApplyCondition]
    waits for that context, or for the server's, and removes the entry. [health] folds
    the map, in Go's arbitrary iteration order, into one status. *)
From S2P Require Import Prelude.

Inductive OverallStatus : Set := UnknownStatus | Ready | Initializing | Degraded | Unavailable_.
#[export] Instance OverallStatus_eq_dec : EqDecision OverallStatus.
Proof. solve_decision. Defined.

(** The numbers of the enumeration, which [<] compares. *)
Definition status_rank (s : OverallStatus) : Z :=
  match s with
  | UnknownStatus => 0 | Ready => 1 | Initializing => 2 | Degraded => 3 | Unavailable_ => 4
  end.

Inductive StatusConditions : Set :=
  | NoConditions | Pending | MissingOptionalComponent | MissingCriticalComponent
  | InvalidConfiguration | InternalError.
#[export] Instance StatusConditions_eq_dec : EqDecision StatusConditions.
Proof. solve_decision. Defined.

Definition Format (sc : StatusConditions) (msg : string) : string :=
  match sc with
  | NoConditions => msg
  | Pending => "[Pending] " +:+ msg
  | MissingOptionalComponent => "[Missing Optional] " +:+ msg
  | MissingCriticalComponent => "[Missing Critical] " +:+ msg
  | InvalidConfiguration => "[Invalid Config] " +:+ msg
  | InternalError => "[Internal Error] " +:+ msg
  end.

Definition FormatAll (sc : StatusConditions) (msgs : list string) : list string := Format sc <$> msgs.

Record activeCondition := mkCondition { condition : StatusConditions; msgs : list string }.
Record Health := mkHealth { Status : OverallStatus; Messages : list string }.

(** The status after one condition, by [overall < X] in the source. *)
Definition raise (overall to : OverallStatus) : OverallStatus :=
  if bool_decide (status_rank overall < status_rank to) then to else overall.

(** The loop of [health]; [goto done] leaves it at the first [Pending] condition. *)
Fixpoint health_loop (l : list activeCondition) (overall : OverallStatus) (out : list string) : Health :=
  match l with
  | [] => mkHealth overall out
  | v :: l =>
      let out := out ++ FormatAll (condition v) (msgs v) in
      match condition v with
      | Pending => mkHealth Initializing (msgs v)
      | MissingOptionalComponent => health_loop l (raise overall Degraded) out
      | MissingCriticalComponent | InvalidConfiguration | InternalError =>
          health_loop l (raise overall Unavailable_) out
      | NoConditions => health_loop l overall out
      end
  end.

Definition health (srvDone : bool) (l : list activeCondition) : Health :=
  health_loop l (if srvDone then Unavailable_ else Ready) [].

(** ** The controller as a state machine *)

Record StatusController := mkController {
  conditions : gmap nat activeCondition;
  watchers : list nat;      (** goroutines of [ApplyCondition], by context *)
  done_ctxs : gset nat;     (** contexts that are done *)
  srv_done : bool;
  next_ctx : nat;
  cancelPending : option nat;
}.

Inductive status_label :=
  | TApply (ctx : nat) (c : StatusConditions) (m : list string)
  | TBegin          (** [BeginInitialize] *)
  | TEnd            (** [EndInitialize] *)
  | TCancel (ctx : nat)
  | TServerDone
  | TClear (ctx : nat).  (** a goroutine wakes up and removes its condition *)

Definition ApplyCondition (ctx : nat) (c : StatusConditions) (m : list string) (s : StatusController) :
    StatusController :=
  mkController (<[ctx := mkCondition c m]> (conditions s)) (ctx :: watchers s) (done_ctxs s)
    (srv_done s) (next_ctx s `max` S ctx) (cancelPending s).

Definition cancel (ctx : nat) (s : StatusController) : StatusController :=
  mkController (conditions s) (watchers s) ({[ctx]} ∪ done_ctxs s) (srv_done s) (next_ctx s)
    (cancelPending s).

(** [BeginInitialize] makes a new map and a fresh context for the pending condition. *)
Definition BeginInitialize (s : StatusController) : StatusController :=
  let ctx := next_ctx s in
  let s := ApplyCondition ctx Pending ["Component is initializing"%string]
             (mkController ∅ (watchers s) (done_ctxs s) (srv_done s) (next_ctx s) (cancelPending s)) in
  mkController (conditions s) (watchers s) (done_ctxs s) (srv_done s) (next_ctx s) (Some ctx).

Definition EndInitialize (s : StatusController) : go StatusController :=
  match cancelPending s with
  | Some ctx => Ret (cancel ctx s)
  | None => Panic "invalid memory address or nil pointer dereference"
  end.

(** The goroutine of [ApplyCondition] can run. *)
Definition awake (ctx : nat) (s : StatusController) : bool := srv_done s || bool_decide (ctx ∈ done_ctxs s).

Definition clear (ctx : nat) (s : StatusController) : StatusController :=
  mkController (delete ctx (conditions s)) (remove_one ctx (watchers s)) (done_ctxs s) (srv_done s)
    (next_ctx s) (cancelPending s).

Definition status_step (l : status_label) (s : StatusController) : option StatusController :=
  match l with
  | TApply ctx c m => Some (ApplyCondition ctx c m s)
  | TBegin => Some (BeginInitialize s)
  | TEnd => match EndInitialize s with Ret s => Some s | Panic _ => None end
  | TCancel ctx => Some (cancel ctx s)
  | TServerDone =>
      Some (mkController (conditions s) (watchers s) (done_ctxs s) true (next_ctx s) (cancelPending s))
  | TClear ctx =>
      if awake ctx s && bool_decide (ctx ∈ watchers s) then Some (clear ctx s) else None
  end.

Definition new_controller (s : StatusController) : Prop :=
  s = mkController ∅ [] ∅ false 0 None.

(** The conditions in the order of their contexts. *)
Definition active (s : StatusController) : list activeCondition := (map_to_list (conditions s)).*2.

(** [GetHealth] may return [h]: Go iterates over the map in some order. *)
Definition GetHealth (s : StatusController) (h : Health) : Prop :=
  ∃ l, l ≡ₚ active s ∧ h = health (srv_done s) l.

(** ** The status does not depend on the iteration order *)

Definition has (p : StatusConditions → bool) (l : list activeCondition) : bool :=
  existsb (λ v, p (condition v)) l.
Definition is_pending (c : StatusConditions) : bool := bool_decide (c = Pending).
Definition is_critical (c : StatusConditions) : bool :=
  match c with MissingCriticalComponent | InvalidConfiguration | InternalError => true | _ => false end.
Definition is_optional (c : StatusConditions) : bool := bool_decide (c = MissingOptionalComponent).

(** The status a set of conditions stands for. *)
Definition status_of (srvDone : bool) (l : list activeCondition) : OverallStatus :=
  if has is_pending l then Initializing
  else if srvDone || has is_critical l then Unavailable_
  else if has is_optional l then Degraded
  else Ready.

Definition status_start (s : OverallStatus) : bool :=
  match s with Ready | Degraded | Unavailable_ => true | _ => false end.

Lemma health_loop_spec l overall out :
  status_start overall = true →
  Status (health_loop l overall out) =
    (if has is_pending l then Initializing
     else if bool_decide (overall = Unavailable_) || has is_critical l then Unavailable_
     else if bool_decide (overall = Degraded) || has is_optional l then Degraded else Ready) ∧
  (has is_pending l = false →
   Messages (health_loop l overall out) = out ++ (l ≫= λ v, FormatAll (condition v) (msgs v))).
Proof.
  revert overall out. induction l as [|[c m] l IH]; intros overall out Ho; cbn.
  - rewrite app_nil_r. split; [|done]. by destruct overall.
  - destruct c; cbn; try (by split).
    all: match goal with |- Status (health_loop _ ?o ?t) = _ ∧ _ =>
      destruct (IH o t) as [HS HM]; [by destruct overall|] end.
    all: split; [rewrite HS|intros Hp; rewrite (HM Hp); by rewrite <- app_assoc].
    all: unfold has; cbn; repeat match goal with |- context [existsb ?f ?k] => destruct (existsb f k) end.
    all: destruct overall; by try discriminate.
Qed.

Lemma has_Permutation p l k : l ≡ₚ k → has p l = has p k.
Proof.
  intros H. apply eq_bool_prop_intro. rewrite !Is_true_true. unfold has. rewrite !existsb_exists.
  setoid_rewrite <- list_elem_of_In. by setoid_rewrite H.
Qed.

(** The reported status, whatever the iteration order. *)
Lemma status_of_GetHealth s h : GetHealth s h → Status h = status_of (srv_done s) (active s).
Proof.
  intros (l & HP & ->). unfold health, status_of.
  destruct (health_loop_spec l (if srv_done s then Unavailable_ else Ready) []) as [-> _].
  { by destruct (srv_done s). }
  rewrite !(has_Permutation _ _ _ HP). by destruct (srv_done s).
Qed.

(** The status [GetHealth] reports is a function of the set of active conditions and
    not of the order in which Go iterates over the map: initializing while a condition is
    pending, otherwise the worst condition decides (unavailable, degraded, ready). Without
    a pending condition the messages are, up to order, exactly the formatted messages of
    all conditions. *)
Theorem health_order_independent (s : StatusController) (h : Health) (HG : GetHealth s h) :
  Status h = status_of (srv_done s) (active s) ∧
  (has is_pending (active s) = false →
   Messages h ≡ₚ (active s ≫= λ v, FormatAll (condition v) (msgs v))).
Proof.
  split; [by apply status_of_GetHealth|]. destruct HG as (l & HP & ->). unfold health.
  destruct (health_loop_spec l (if srv_done s then Unavailable_ else Ready) []) as [_ HM].
  { by destruct (srv_done s). }
  rewrite (has_Permutation _ _ _ HP) in HM. intros Hp. rewrite (HM Hp). cbn. by rewrite HP.
Qed.

Definition two_conditions : StatusController :=
  after_run status_step (mkController ∅ [] ∅ false 0 None)
    [TApply 1 MissingOptionalComponent ["a"%string]; TApply 2 InternalError ["b"%string]].

Lemma health_order_independent_witness :
  ∃ h, GetHealth two_conditions h ∧ Status h = status_of false (active two_conditions).
Proof.
  exists (health false (rev (active two_conditions))).
  assert (GetHealth two_conditions (health false (rev (active two_conditions)))) as HG
    by (exists (rev (active two_conditions)); split; [symmetry; apply Permutation_rev|reflexivity]).
  split; [exact HG|]. apply (health_order_independent two_conditions _ HG).
Defined.

(** ** Conditions do not outlive their context *)

Definition watched (s : StatusController) : Prop :=
  ∀ ctx, is_Some (conditions s !! ctx) → ctx ∈ watchers s.

Lemma remove_one_keep {A} `{EqDecision A} (x y : A) l : y ∈ l → y ≠ x → y ∈ remove_one x l.
Proof.
  induction l as [|z l IH]; [done|]. cbn. intros [->|Hy]%elem_of_cons Hne; case_decide; subst; try done.
  - by left.
  - right. auto.
Qed.

Lemma watched_step l s s' : status_step l s = Some s' → watched s → watched s'.
Proof.
  intros H W ctx' Hc. destruct l; cbn in H; unfold EndInitialize in H; repeat case_match; simplify_eq/=.
  - apply lookup_insert_is_Some in Hc as [->|[_ Hc]]; [by left|right; by apply W].
  - apply lookup_insert_is_Some in Hc as [->|[_ Hc]]; [by left|]. rewrite lookup_empty in Hc. by destruct Hc.
  - by apply W.
  - by apply W.
  - by apply W.
  - apply lookup_delete_is_Some in Hc as [Hne Hc]. apply remove_one_keep; [by apply W|done].
Qed.

(** No goroutine of [ApplyCondition] is left that could run. *)
Definition quiescent (s : StatusController) : Prop := ∀ ctx, ctx ∈ watchers s → awake ctx s = false.

(** A condition lasts as long as its context: whenever no goroutine of
    [ApplyCondition] is ready to run, every condition still in the map belongs to a
    context that is not done, and the map is empty if the server is done. *)
Theorem conditions_follow_contexts (s : StatusController)
    (HR : reach status_step new_controller (λ _, True) s) (HQ : quiescent s) (ctx : nat)
    (HC : is_Some (conditions s !! ctx)) : ctx ∉ done_ctxs s ∧ srv_done s = false.
Proof.
  assert (watched s) as W.
  { refine (reach_inv _ _ _ watched s _ _ HR).
    - intros ? -> c [x Hx]. cbn in Hx. by rewrite lookup_empty in Hx.
    - intros ? l ? IH _ Hs. by eapply watched_step. }
  specialize (HQ ctx (W ctx HC)). unfold awake in HQ. apply orb_false_iff in HQ as [-> H].
  by apply bool_decide_eq_false in H.
Qed.

Definition status_demo : StatusController :=
  after_run status_step (mkController ∅ [] ∅ false 0 None)
    [TBegin; TApply 5 InternalError ["x"%string]; TEnd; TClear 0].

Lemma conditions_follow_contexts_witness :
  conditions status_demo !! 0%nat = None ∧ 5%nat ∉ done_ctxs status_demo.
Proof.
  split; [by vm_compute|]. apply (conditions_follow_contexts status_demo).
  - apply after_run_reach; [done|by apply Forall_true].
  - intros ctx Hc. assert (watchers status_demo = [5%nat]) as E by by vm_compute.
    rewrite E in Hc. apply list_elem_of_singleton in Hc as ->. by vm_compute.
  - eexists; by vm_compute.
Defined.
