(* ===== verification/Pause.v ===== *)
(** * The pause controller: [pkg/util/pause.go]

    A flag with a condition variable. [CheckPaused] tests the flag and registers as a
    waiter in one critical section; [Resume] clears the flag under the lock and
    broadcasts after it has released it, so the two halves are separate steps. *)
From S2P Require Import Prelude.

Record PauseController := mkPause {
  paused : bool;
  waiting : list nat;   (** calls of [CheckPaused] inside [pause.Wait()] *)
  entering : list nat;  (** calls about to take the lock: new ones and woken ones *)
  passed : list nat;    (** calls that returned *)
  resuming : nat;       (** calls of [Resume] between [Unlock] and [Broadcast] *)
}.

Definition NewPauseController (defaultPaused : bool) : PauseController :=
  mkPause defaultPaused [] [] [] 0.

Inductive pause_label : Set :=
  | CPause
  | CResume            (** [paused = false] under the lock *)
  | CBroadcast
  | CCall (i : nat)    (** goroutine [i] calls [CheckPaused] *)
  | CTest (i : nat).   (** it holds the lock and tests [p.paused] *)

Definition pause_step (l : pause_label) (p : PauseController) : option PauseController :=
  match l with
  | CPause => Some (mkPause true (waiting p) (entering p) (passed p) (resuming p))
  | CResume => Some (mkPause false (waiting p) (entering p) (passed p) (S (resuming p)))
  | CBroadcast =>
      match resuming p with
      | 0%nat => None
      | S n => Some (mkPause (paused p) [] (waiting p ++ entering p) (passed p) n)
      end
  | CCall i => Some (mkPause (paused p) (waiting p) (i :: entering p) (passed p) (resuming p))
  | CTest i =>
      if bool_decide (i ∈ entering p) then
        Some (if paused p
              then mkPause true (i :: waiting p) (remove_one i (entering p)) (passed p) (resuming p)
              else mkPause false (waiting p) (remove_one i (entering p)) (i :: passed p) (resuming p))
      else None
  end.

Definition is_new_pause (p : PauseController) : Prop := ∃ d, p = NewPauseController d.

(** No call of [CheckPaused] sleeps through a [Resume]: in every reachable state of
    the controller, when it is not paused and no [Resume] still has its broadcast to do,
    nobody is left waiting on the condition variable. *)
Theorem pause_no_lost_wakeup (p : PauseController)
    (HR : reach pause_step is_new_pause (λ _, True) p)
    (HP : paused p = false) (HQ : resuming p = 0%nat) : waiting p = [].
Proof.
  enough (waiting p ≠ [] → paused p = true ∨ (0 < resuming p)%nat) as H.
  { destruct (waiting p); [done|]. destruct H; [done|congruence|lia]. }
  clear HP HQ. pattern p. refine (reach_inv _ _ _ _ p _ _ HR); [by intros ? [d ->]|].
  intros s l s' IH _ Hs. destruct l; cbn in Hs; repeat case_match; simplify_eq/=; auto; lia.
Qed.

Lemma pause_no_lost_wakeup_witness :
  waiting (after_run pause_step (NewPauseController true) [CCall 0; CTest 0; CResume; CBroadcast]) = [].
Proof.
  apply pause_no_lost_wakeup; [|reflexivity..].
  apply after_run_reach; [by exists true|by repeat constructor].
Defined.
