(* ===== verification/WorkerPool.v ===== *)
(** * The worker pool: [pkg/run/workerpool.go]

    A pool has one goroutine that moves tasks from an upstream queue to the workers
    ([manageQueue]), and a changing number of worker goroutines. The manager first hands
    a [futureTask], a channel of capacity 1, to an idle worker, then takes a task from
    upstream and puts it in that channel. The [futureTask]s come from one [sync.Pool]
    shared by all worker pools of the process.

    Goroutines are program counters, and every channel operation, lock operation and
    call is one step of [pool_step]. The state [R] of a running task is a parameter: the
    client of the pool supplies the runner ([WithRunner]) and drives it. *)
From S2P Require Import Prelude.

Section pool.
Context {T R : Type} (start : T → R).

(** The channels of all [futureTask]s ever made, and those in the [sync.Pool]. *)
Record Futures := mkFutures { chans : list (option T); pooled : list nat }.

(** [manageQueue]: before [CheckPaused], before [futureTaskPool.Get], at the send on
    [taskQueue], at [upstream.Select], at the send on [ft.C], returned. *)
Inductive manager :=
  | MCheck
  | MGet
  | MSend (ft : nat)
  | MSelect (ft : nat)
  | MPut (ft : nat) (t : T)
  | MDone.

(** [worker.Run]: the outer select, the inner select, before [futureTaskPool.Put],
    inside [w.runner], returned, and removed from [wp.workers]. *)
Inductive worker :=
  | WIdle
  | WWait (ft : nat)
  | WTask (ft : nat) (t : T)
  | WRun (r : R)
  | WExited
  | WGone.

(** The holder of [workerLock]: nobody, or a [Resize] adding or stopping workers. *)
Inductive resizing :=
  | Unlocked
  | Growing (count : Z)
  | Shrinking (left : nat).

Record WorkerPool := mkPool {
  wp_paused : bool;
  wp_manager : manager;
  workers : list worker;
  workerLock : resizing;
  crashed : bool;        (** a nil [futureTask] was dereferenced *)
}.

Definition NewWorkerPool (paused : bool) : WorkerPool := mkPool paused MCheck [] Unlocked false.

Definition is_member (w : worker) : bool := match w with WGone => false | _ => true end.

(** [wp.workers.Cardinality()]. *)
Definition Size (p : WorkerPool) : Z := count is_member (workers p).

Inductive pool_label :=
  | PPause | PResume
  | PCheck                (** [CheckPaused] returns *)
  | PGetNew               (** [futureTaskPool.Get] makes a new object *)
  | PGetOld (ft : nat)    (** [futureTaskPool.Get] returns a pooled one *)
  | PDrop (ft : nat)      (** the garbage collector empties a slot of the [sync.Pool] *)
  | PAccept (w : nat)     (** worker [w] receives the future on [taskQueue] *)
  | PSelect (t : T)       (** [upstream.Select()] returns a task *)
  | PClosed               (** [upstream.Select()] reports a closed queue *)
  | PNil (w : nat)        (** worker [w] receives from the closed [taskQueue] *)
  | PPut                  (** [ft.C <- task] *)
  | PTake (w : nat)       (** worker [w] receives from [ft.C] *)
  | PRecycle (w : nat)    (** [futureTaskPool.Put(ft)] *)
  | PRunner (w : nat) (r : R)  (** the runner of [w] makes a step *)
  | PFinish (w : nat)     (** the runner of [w] returns *)
  | PResize (count : Z)   (** [Resize(count)] takes the lock and compares *)
  | PGrow                 (** one iteration of the loop that adds workers *)
  | PStop (w : nat)       (** one iteration of the other loop: [w] receives on [stopQueue] *)
  | PUnlock               (** the loop ends *)
  | PRemove (w : nat).    (** [wp.workers.Remove(w)] *)

Definition set_worker (w : nat) (x : worker) (p : WorkerPool) : WorkerPool :=
  mkPool (wp_paused p) (wp_manager p) (<[w:=x]> (workers p)) (workerLock p) (crashed p).
Definition set_manager (m : manager) (p : WorkerPool) : WorkerPool :=
  mkPool (wp_paused p) m (workers p) (workerLock p) (crashed p).
Definition set_lock (l : resizing) (p : WorkerPool) : WorkerPool :=
  mkPool (wp_paused p) (wp_manager p) (workers p) l (crashed p).
Definition set_wp_paused (b : bool) (p : WorkerPool) : WorkerPool :=
  mkPool b (wp_manager p) (workers p) (workerLock p) (crashed p).

(** [Resize] up to the choice of the loop. *)
Definition Resize (count : Z) (p : WorkerPool) : WorkerPool :=
  if bool_decide (count > Size p) then set_lock (Growing count) p
  else if bool_decide (count < Size p ∧ 0 ≤ count)
       then set_lock (Shrinking (Z.to_nat (Size p - count))) p
       else p.

(** The manager's steps. *)
Definition manageQueue (l : pool_label) (f : Futures) (p : WorkerPool) :
    option (Futures * WorkerPool) :=
  match l, wp_manager p with
  | PCheck, MCheck => if wp_paused p then None else Some (f, set_manager MGet p)
  | PGetNew, MGet =>
      Some (mkFutures (chans f ++ [None]) (pooled f), set_manager (MSend (length (chans f))) p)
  | PGetOld ft, MGet =>
      if bool_decide (ft ∈ pooled f)
      then Some (mkFutures (chans f) (remove_one ft (pooled f)), set_manager (MSend ft) p)
      else None
  | PAccept w, MSend ft =>
      match workers p !! w with
      | Some WIdle => Some (f, set_manager (MSelect ft) (set_worker w (WWait ft) p))
      | _ => None
      end
  | PSelect t, MSelect ft => Some (f, set_manager (MPut ft t) p)
  | PClosed, MSelect ft => Some (f, set_manager MDone p)
  | PPut, MPut ft t =>
      match chans f !! ft with
      | Some None => Some (mkFutures (<[ft:=Some t]> (chans f)) (pooled f), set_manager MCheck p)
      | _ => None
      end
  | _, _ => None
  end.

(** The steps of worker [w], in state [x]. *)
Definition worker_Run (l : pool_label) (w : nat) (x : worker) (f : Futures) (p : WorkerPool) :
    option (Futures * WorkerPool) :=
  match l, x with
  | PNil _, WIdle =>
      match wp_manager p with
      | MDone => Some (f, mkPool (wp_paused p) MDone (workers p) (workerLock p) true)
      | _ => None
      end
  | PTake _, WWait ft =>
      match chans f !! ft with
      | Some (Some t) =>
          Some (mkFutures (<[ft:=None]> (chans f)) (pooled f), set_worker w (WTask ft t) p)
      | _ => None
      end
  | PRecycle _, WTask ft t =>
      Some (mkFutures (chans f) (ft :: pooled f), set_worker w (WRun (start t)) p)
  | PRunner _ r, WRun _ => Some (f, set_worker w (WRun r) p)
  | PFinish _, WRun _ => Some (f, set_worker w WIdle p)
  | PStop _, WIdle | PStop _, WWait _ =>
      match workerLock p with
      | Shrinking (S n) => Some (f, set_lock (Shrinking n) (set_worker w WExited p))
      | _ => None
      end
  | PRemove _, WExited => Some (f, set_worker w WGone p)
  | _, _ => None
  end.

Definition pool_step (l : pool_label) (f : Futures) (p : WorkerPool) :
    option (Futures * WorkerPool) :=
  if crashed p then None else
  match l with
  | PPause => Some (f, set_wp_paused true p)
  | PResume => Some (f, set_wp_paused false p)
  | PCheck | PGetNew | PGetOld _ | PAccept _ | PSelect _ | PClosed | PPut => manageQueue l f p
  | PDrop ft =>
      if bool_decide (ft ∈ pooled f)
      then Some (mkFutures (chans f) (remove_one ft (pooled f)), p) else None
  | PResize c => match workerLock p with Unlocked => Some (f, Resize c p) | _ => None end
  | PGrow =>
      match workerLock p with
      | Growing c =>
          if bool_decide (Size p = c) then None
          else Some (f, mkPool (wp_paused p) (wp_manager p) (workers p ++ [WIdle]) (Growing c) false)
      | _ => None
      end
  | PUnlock =>
      match workerLock p with
      | Growing c => if bool_decide (Size p = c) then Some (f, set_lock Unlocked p) else None
      | Shrinking 0 => Some (f, set_lock Unlocked p)
      | _ => None
      end
  | PNil w | PTake w | PRecycle w | PRunner w _ | PFinish w | PStop w | PRemove w =>
      x ← workers p !! w; worker_Run l w x f p
  end.

(** ** Who holds a future

    For each future: is it in the [sync.Pool], does its channel hold a task, and how many
    managers and workers refer to it at each program point. *)

Definition eq1 (a b : nat) : nat := if decide (a = b) then 1 else 0.
Definition free_at (ft : nat) (f : Futures) : nat := lsum (eq1 ft) (pooled f).
Definition full_at (ft : nat) (f : Futures) : nat :=
  match chans f !! ft with Some (Some _) => 1 | _ => 0 end.
Definition sending_at (ft : nat) (p : WorkerPool) : nat :=
  match wp_manager p with MSend x => eq1 ft x | _ => 0 end.
Definition filling_at (ft : nat) (p : WorkerPool) : nat :=
  match wp_manager p with MSelect x | MPut x _ => eq1 ft x | _ => 0 end.
Definition waits (ft : nat) (x : worker) : nat := match x with WWait y => eq1 ft y | _ => 0 end.
Definition tasks (ft : nat) (x : worker) : nat := match x with WTask y _ => eq1 ft y | _ => 0 end.
Definition waiting_at (ft : nat) (p : WorkerPool) : nat := lsum (waits ft) (workers p).
Definition tasking_at (ft : nat) (p : WorkerPool) : nat := lsum (tasks ft) (workers p).

(** References from another pool: those that own the future, those that may use its
    channel. *)
Definition owners (ft : nat) (p : WorkerPool) : nat :=
  sending_at ft p + waiting_at ft p + tasking_at ft p.
Definition users (ft : nat) (p : WorkerPool) : nat :=
  sending_at ft p + tasking_at ft p + filling_at ft p.

(** A future has one owner; when its channel is full, or a manager is about to fill it,
    it is neither free nor being handed over; unknown futures are nowhere. *)
Definition futures_ok (oa ob : nat → nat) (f : Futures) (p : WorkerPool) : Prop :=
  ∀ ft,
    (free_at ft f + owners ft p + oa ft ≤ 1)%nat ∧
    (full_at ft f + free_at ft f + users ft p + ob ft ≤ 1)%nat ∧
    (length (chans f) ≤ ft → free_at ft f + owners ft p + users ft p + oa ft + ob ft = 0)%nat.

Lemma full_at_insert ft ft' x f k :
  (ft' < length (chans f))%nat →
  full_at ft (mkFutures (<[ft':=x]> (chans f)) k) =
    (if decide (ft = ft') then match x with Some _ => 1 | None => 0 end else full_at ft f)%nat.
Proof.
  intros Hl. unfold full_at. cbn. case_decide as E.
  - subst. rewrite list_lookup_insert_eq by done. by destruct x.
  - by rewrite list_lookup_insert_ne by done.
Qed.

Lemma full_at_new ft f k : full_at ft (mkFutures (chans f ++ [None]) k) = full_at ft f.
Proof.
  unfold full_at. cbn. destruct (decide (ft < length (chans f))%nat) as [?|Hl].
  - by rewrite lookup_app_l by done.
  - rewrite lookup_app_r by lia. rewrite (lookup_ge_None_2 (chans f)) by lia.
    destruct (ft - length (chans f))%nat as [|[]]; done.
Qed.

Lemma free_at_remove ft ft' f k :
  ft' ∈ pooled f →
  (free_at ft (mkFutures k (remove_one ft' (pooled f))) + eq1 ft ft' = free_at ft f)%nat.
Proof. intros H. unfold free_at. cbn. pose proof (lsum_remove_one (eq1 ft) _ _ H). lia. Qed.

Lemma full_at_lookup ft f x :
  chans f !! ft = Some x → full_at ft f = match x with Some _ => 1%nat | None => 0%nat end.
Proof. unfold full_at. intros ->. by destruct x. Qed.

Lemma full_at_ge ft f : (length (chans f) ≤ ft)%nat → full_at ft f = 0%nat.
Proof. intros H. unfold full_at. by rewrite lookup_ge_None_2. Qed.

Lemma full_at_pooled ft f k : full_at ft (mkFutures (chans f) k) = full_at ft f.
Proof. done. Qed.

Lemma Resize_lock c p : Resize c p = set_lock (workerLock (Resize c p)) p.
Proof. unfold Resize. destruct p. by repeat case_bool_decide. Qed.

(** Splits a step of the pool into its cases. *)
Ltac pool_cases H :=
  unfold pool_step in H; destruct (crashed _) eqn:? in H; [discriminate|];
  try match type of H with context [match ?l with _ => _ end] =>
    match type of l with pool_label => destruct l end end;
  unfold manageQueue, worker_Run in H;
  repeat first
    [ discriminate
    | match type of H with
      | (_ ≫= _) = Some _ => apply bind_Some in H as (? & ? & H)
      | (match ?x with _ => _ end) = Some _ => destruct x eqn:?
      end ];
  simplify_eq/=.

(** Replaces the sum over a table with one cell overwritten by a fresh number and its
    equation. *)
Ltac sums :=
  rewrite ?lsum_snoc;
  repeat match goal with
  | H : ?ws !! ?w = Some ?x |- context [lsum ?g (<[?w:=?y]> ?ws)] =>
      let E := fresh "E" in
      pose proof (lsum_insert g ws w x y H) as E; revert E;
      generalize (lsum g (<[w:=y]> ws)); intros ? E; cbn in E
  end.

Ltac books :=
  unfold owners, users, sending_at, filling_at, waiting_at, tasking_at in *;
  cbn [set_manager set_worker set_lock set_wp_paused wp_manager workers] in *;
  repeat match goal with H : wp_manager ?p = _ |- _ => rewrite H in *; clear H end;
  sums; cbn [waits tasks] in *.

(** Closes the cases of a step for counts of the future [ft]. *)
Ltac futures_arith ft :=
  try rewrite Resize_lock;
  rewrite ?full_at_new; try (rewrite full_at_insert by eauto using lookup_lt_Some);
  try match goal with H : bool_decide (_ ∈ _) = true |- _ =>
    apply bool_decide_eq_true in H; pose proof (lsum_remove_one (eq1 ft) _ _ H) end;
  try match goal with H : chans _ !! _ = Some _ |- _ =>
    pose proof (full_at_lookup _ _ _ H); pose proof (lookup_lt_Some _ _ _ H) end;
  unfold free_at in *; cbn [pooled chans] in *; rewrite ?full_at_pooled;
  rewrite ?lsum_cons, ?length_app, ?length_insert; books; unfold eq1 in *; cbn [length];
  repeat case_decide; subst; lia.

Lemma futures_ok_step oa ob l f p f' p' :
  pool_step l f p = Some (f', p') → futures_ok oa ob f p → futures_ok oa ob f' p'.
Proof.
  intros H Hok ft. specialize (Hok ft) as HA. pose proof (full_at_ge ft f).
  pool_cases H; futures_arith ft.
Qed.

(** Every task that left the upstream queue, and every one about to, has a worker waiting
    for it ([op], [ow]: the same counts for another pool). *)
Definition delivered (op ow : nat → nat) (f : Futures) (p : WorkerPool) : Prop :=
  ∀ ft, (full_at ft f + filling_at ft p + op ft ≤ waiting_at ft p + ow ft)%nat.

Definition no_stop (l : pool_label) : bool := match l with PStop _ => false | _ => true end.

Lemma delivered_step op ow oa ob l f p f' p' :
  pool_step l f p = Some (f', p') → no_stop l = true →
  futures_ok oa ob f p → delivered op ow f p → delivered op ow f' p'.
Proof.
  intros H Hns Hok Hd ft. specialize (Hok ft) as HA. specialize (Hd ft). 
  pool_cases H; futures_arith ft.
Qed.

(** ** Where the tasks are

    The tasks in the channels, in the manager's hands and with the workers, weighted by
    [g], and by [h] once the runner has started. *)

Definition chan_sum (g : T → nat) (f : Futures) : nat :=
  lsum (λ o, match o with Some t => g t | None => 0%nat end) (chans f).
Definition manager_sum (g : T → nat) (m : manager) : nat :=
  match m with MPut _ t => g t | _ => 0 end.
Definition worker_weight (g : T → nat) (h : R → nat) (x : worker) : nat :=
  match x with WTask _ t => g t | WRun r => h r | _ => 0 end.
Definition pool_sum (g : T → nat) (h : R → nat) (p : WorkerPool) : nat :=
  manager_sum g (wp_manager p) + lsum (worker_weight g h) (workers p).

(** The steps of the pool that neither take a task from upstream nor run one. *)
Definition internal (l : pool_label) : bool :=
  match l with PSelect _ | PRunner _ _ | PFinish _ => false | _ => true end.

Lemma chan_sum_insert g ft x y f k :
  chans f !! ft = Some x →
  (chan_sum g (mkFutures (<[ft:=y]> (chans f)) k) + match x with Some t => g t | None => 0%nat end
   = chan_sum g f + match y with Some t => g t | None => 0%nat end)%nat.
Proof. apply (lsum_insert (λ o, match o with Some t => g t | None => 0%nat end)). Qed.

Lemma held_internal g h l f p f' p' :
  (∀ t, h (start t) = g t) → internal l = true →
  pool_step l f p = Some (f', p') →
  (chan_sum g f' + pool_sum g h p' = chan_sum g f + pool_sum g h p)%nat.
Proof.
  intros Hst Hi H. pool_cases H; try rewrite Resize_lock; try done.
  all: try match goal with E : chans _ !! _ = Some _ |- context [mkFutures (<[?ft:=?y]> _) ?k] =>
    pose proof (chan_sum_insert g _ _ y _ k E) end.
  all: unfold pool_sum, chan_sum in *; cbn [chans set_manager set_worker set_lock wp_manager workers] in *.
  all: repeat match goal with E : wp_manager ?p = _ |- _ => rewrite E in *; clear E end.
  all: sums; cbn [manager_sum worker_weight] in *; rewrite ?Hst in *; lia.
Qed.

Lemma held_select g h t f p f' p' :
  pool_step (PSelect t) f p = Some (f', p') →
  f' = f ∧ pool_sum g h p' = (pool_sum g h p + g t)%nat.
Proof.
  intros H. pool_cases H. split; [done|]. unfold pool_sum. cbn.
  rewrite Heqm. cbn. lia.
Qed.

Lemma held_runner g h w r r' f p f' p' :
  workers p !! w = Some (WRun r) →
  pool_step (PRunner w r') f p = Some (f', p') ∨
    (pool_step (PFinish w) f p = Some (f', p') ∧ h r' = 0%nat) →
  f' = f ∧ (pool_sum g h p' + h r = pool_sum g h p + h r')%nat.
Proof.
  intros Hw [H|[H Hh]]; pool_cases H; (split; [done|]); unfold pool_sum; cbn; sums; lia.
Qed.

(** ** Which tasks a pool handles *)

Section tasks_ok.
Context (ok : T → Prop) (okr : R → Prop).

Definition worker_ok (x : worker) : Prop :=
  match x with WTask _ t => ok t | WRun r => okr r | _ => True end.

(** The tasks the pool has in hand satisfy [ok], and so do those waiting in a channel for
    one of its workers. *)
Definition pool_ok (p : WorkerPool) : Prop :=
  match wp_manager p with MPut _ t => ok t | _ => True end ∧ Forall worker_ok (workers p).
Definition chan_ok (f : Futures) (p : WorkerPool) : Prop :=
  ∀ ft t, chans f !! ft = Some (Some t) → (0 < waiting_at ft p)%nat → ok t.

Definition label_ok (l : pool_label) : Prop :=
  match l with PSelect t => ok t | PRunner _ r => okr r | _ => True end.

(** A manager fills a channel only for a worker of its own pool. *)
Definition apart (p q : WorkerPool) : Prop :=
  ∀ ft, (filling_at ft p + waiting_at ft q ≤ 1)%nat.

Lemma apart_step l f p q f' p' :
  pool_step l f p = Some (f', p') → futures_ok (λ ft, owners ft q) (λ ft, users ft q) f p →
  apart p q → apart q p → apart p' q ∧ apart q p'.
Proof.
  intros H Hok H1 H2.
  enough (∀ ft, filling_at ft p' + waiting_at ft q ≤ 1 ∧ filling_at ft q + waiting_at ft p' ≤ 1)%nat
    as HE by (split; intros ft; apply HE).
  intros ft. specialize (Hok ft) as (HA & HB & _). specialize (H1 ft). specialize (H2 ft).
  unfold owners in HA. unfold users in HB. revert HA HB H1 H2.
  generalize (sending_at ft q) (waiting_at ft q) (tasking_at ft q) (filling_at ft q).
  intros a b c d HA HB H1 H2. pool_cases H; try rewrite Resize_lock; books; lia.
Qed.

(** The content of a channel after a step was there before, or the manager put it. *)
Lemma chan_content l f p f' p' ft t :
  pool_step l f p = Some (f', p') → chans f' !! ft = Some (Some t) →
  chans f !! ft = Some (Some t) ∨ wp_manager p = MPut ft t.
Proof.
  intros H Hft. pool_cases H; auto.
  - rewrite lookup_snoc_Some in Hft. destruct Hft as [[_ ?]|[_ ?]]; [by left|done].
  - destruct (decide (ft = ft0)) as [->|Hne].
    + rewrite list_lookup_insert_eq in Hft by eauto using lookup_lt_Some. by simplify_eq; right.
    + rewrite list_lookup_insert_ne in Hft by done. by left.
  - destruct (decide (ft = ft0)) as [->|Hne].
    + by rewrite list_lookup_insert_eq in Hft by eauto using lookup_lt_Some.
    + rewrite list_lookup_insert_ne in Hft by done. by left.
Qed.

(** A worker waits on a future after a step only if it did, or the manager offered it. *)
Lemma waiting_grows l f p f' p' ft :
  pool_step l f p = Some (f', p') → (waiting_at ft p' ≤ waiting_at ft p + sending_at ft p)%nat.
Proof. intros H. pool_cases H; try rewrite Resize_lock; books; lia. Qed.

Lemma filling_put p ft t : wp_manager p = MPut ft t → filling_at ft p = 1%nat.
Proof. intros H. unfold filling_at, eq1. rewrite H. by case_decide. Qed.

Lemma chan_ok_other l f p q f' q' :
  pool_step l f q = Some (f', q') → apart q p → chan_ok f p → chan_ok f' p.
Proof.
  intros H Ha Hc ft t Hft Hw. destruct (chan_content _ _ _ _ _ _ _ H Hft) as [?|Hm]; [by eapply Hc|].
  specialize (Ha ft). rewrite (filling_put _ _ _ Hm) in Ha. lia.
Qed.

Lemma waiting_lookup ft w p :
  workers p !! w = Some (WWait ft) → (0 < waiting_at ft p)%nat.
Proof.
  intros H. pose proof (lsum_lookup (waits ft) _ _ _ H) as HL. cbn in HL. unfold eq1 in HL.
  case_decide; [|done]. exact HL.
Qed.

Lemma pool_ok_step l f p f' p' :
  pool_step l f p = Some (f', p') → (∀ t, ok t → okr (start t)) → label_ok l →
  chan_ok f p → pool_ok p → pool_ok p'.
Proof.
  intros H Hst Hl Hc [Hm Hws]. pool_cases H; try rewrite Resize_lock; unfold pool_ok; cbn.
  all: try (split; [done || by rewrite ?Heqm in Hm|]; try (apply Forall_insert; [done|]); done).
  - split; [done|]. apply Forall_insert; [done|]. eapply Hc; [done|]. by eapply waiting_lookup.
  - split; [done|]. apply Forall_insert; [done|]. apply Hst. by apply (Forall_lookup_1 _ _ _ _ Hws H0).
  - split; [done|]. apply Forall_app. repeat constructor; done.
Qed.

Lemma chan_ok_step oa ob l f p f' p' :
  pool_step l f p = Some (f', p') → futures_ok oa ob f p →
  chan_ok f p → pool_ok p → chan_ok f' p'.
Proof.
  intros H Hok Hc [Hm Hws] ft t Hft Hw. specialize (Hok ft) as (_ & HB & _).
  pose proof (waiting_grows _ _ _ _ _ ft H) as HG.
  destruct (chan_content _ _ _ _ _ _ _ H Hft) as [Hf|HM]; [|by rewrite HM in Hm].
  pose proof (full_at_lookup _ _ _ Hf) as HF. cbn in HF. unfold users in HB.
  eapply Hc; [done|]. lia.
Qed.
End tasks_ok.

(** ** Resizing *)

(** While [Resize] adds workers their number does not exceed the target, so that its loop
    [for Cardinality() != count] ends. *)
Definition grow_ok (p : WorkerPool) : Prop :=
  match workerLock p with Growing c => Size p ≤ c | _ => True end.

Lemma Size_insert w x y p :
  workers p !! w = Some x → is_member x = true → Size (set_worker w y p) ≤ Size p.
Proof.
  intros Hw Hx. unfold Size. cbn.
  rewrite (insert_take_drop _ _ _ (lookup_lt_Some _ _ _ Hw)).
  rewrite <- (take_drop_middle (workers p) w x Hw) at 3.
  unfold count. rewrite !List.filter_app, !length_app. cbn. rewrite Hx.
  destruct (is_member y); cbn; lia.
Qed.

Lemma Size_snoc p ws : workers p = ws ++ [WIdle] → Size p = count is_member ws + 1.
Proof.
  intros E. unfold Size, count. rewrite E, List.filter_app, length_app. cbn. lia.
Qed.

Lemma grow_ok_step l f p f' p' : pool_step l f p = Some (f', p') → grow_ok p → grow_ok p'.
Proof.
  intros H HG. pool_cases H; try done; unfold grow_ok in *; cbn in *.
  all: try match goal with E : workers ?p !! ?w = Some ?x |- context [set_worker ?w ?y _] =>
    pose proof (Size_insert w x y p E eq_refl) end.
  all: try (destruct (workerLock p); [done| |done];
            try match goal with |- Size (set_manager _ ?q) ≤ _ => change (Size q ≤ count) end; lia).
  - unfold Resize. repeat case_bool_decide; cbn; [|done|by rewrite Heqr].
    unfold Size in *. cbn. lia.
  - rewrite Heqr in HG. rewrite (Size_snoc _ (workers p)) by done.
    apply bool_decide_eq_false in Heqb0. unfold Size in *. lia.
Qed.

(** ** A pool on its own *)

Definition pool_sys (l : pool_label) (s : Futures * WorkerPool) : option (Futures * WorkerPool) :=
  pool_step l s.1 s.2.
Definition is_new_pool (s : Futures * WorkerPool) : Prop :=
  ∃ b, s = (mkFutures [] [], NewWorkerPool b).

Lemma pool_sys_inv s :
  reach pool_sys is_new_pool (λ _, True) s →
  futures_ok (λ _, 0%nat) (λ _, 0%nat) s.1 s.2 ∧ grow_ok s.2.
Proof.
  apply (reach_inv _ _ _ (λ s, futures_ok (λ _, 0%nat) (λ _, 0%nat) s.1 s.2 ∧ grow_ok s.2)).
  - intros ? [b ->]. split; [|done]. intros ft. repeat split; by vm_compute; auto.
  - intros [f p] l [f' p'] [H1 H2] _ Hs. split; [by eapply futures_ok_step|by eapply grow_ok_step].
Qed.

(** [Resize] to a larger size terminates with exactly that size: from every reachable
    state in which it holds the lock, its loop adds the missing workers one by one and
    releases the lock with [Size()] equal to [count]. *)
Theorem Resize_terminates (s : Futures * WorkerPool) (c : Z)
    (HR : reach pool_sys is_new_pool (λ _, True) s) (HC : crashed s.2 = false)
    (HL : workerLock s.2 = Growing c) :
  ∃ s', run_labels pool_sys (replicate (Z.to_nat (c - Size s.2)) PGrow ++ [PUnlock]) s = Some s' ∧
        Size s'.2 = c ∧ workerLock s'.2 = Unlocked.
Proof.
  destruct (pool_sys_inv s HR) as [_ HG]. clear HR. destruct s as [f p]. unfold grow_ok in HG.
  cbn in *. rewrite HL in HG. remember (Z.to_nat (c - Size p)) as n eqn:E.
  revert p E HC HL HG. induction n as [|n IH]; intros p E HC HL HG.
  - assert (pool_sys PUnlock (f, p) = Some (f, set_lock Unlocked p)) as EU.
    { unfold pool_sys, pool_step. cbn [fst snd]. rewrite HC, HL. by rewrite bool_decide_true by lia. }
    exists (f, set_lock Unlocked p). cbn [replicate app run_labels]. rewrite EU.
    split_and!; [done| |done]. unfold Size in *. cbn. lia.
  - set (q := mkPool (wp_paused p) (wp_manager p) (workers p ++ [WIdle]) (Growing c) false).
    assert (pool_sys PGrow (f, p) = Some (f, q)) as EU.
    { unfold pool_sys, pool_step. cbn [fst snd]. rewrite HC, HL. by rewrite bool_decide_false by lia. }
    pose proof (Size_snoc q (workers p) eq_refl) as Hq.
    cbn [replicate app run_labels]. rewrite EU. apply (IH q); [|done..|]; unfold Size in *; lia.
Qed.

(** The number of tasks taken from upstream in a run. *)
Definition is_select (l : pool_label) : bool := match l with PSelect _ => true | _ => false end.
Definition is_resume (l : pool_label) : bool := match l with PResume => true | _ => false end.
Definition past_check (p : WorkerPool) : Z :=
  match wp_manager p with MGet | MSend _ | MSelect _ => 1 | _ => 0 end.

Lemma paused_step l f p f' p' :
  pool_step l f p = Some (f', p') → is_resume l = false → wp_paused p = true →
  wp_paused p' = true ∧ (if is_select l then 1 else 0) + past_check p' ≤ past_check p.
Proof.
  intros H Hl Hp. pool_cases H; try congruence; try rewrite Resize_lock;
    unfold past_check; cbn; rewrite ?Heqm; (split; [done|lia]).
Qed.

(** Only a nil future crashes the pool. *)
Lemma alive_step l f p f' p' :
  pool_step l f p = Some (f', p') → (∀ w, l ≠ PNil w) → crashed p' = false.
Proof. intros H Hn. pool_cases H; try rewrite Resize_lock; cbn; try done. by destruct (Hn w). Qed.

(** A paused pool takes at most one more task: in any run during which the pool is not
    resumed, the manager gets at most one task from the upstream queue (the one it was
    already past [CheckPaused] for). *)
Theorem paused_takes_one (ls : list pool_label) (s s' : Futures * WorkerPool)
    (HP : wp_paused s.2 = true) (HN : Forall (λ l, is_resume l = false) ls)
    (HR : run_labels pool_sys ls s = Some s') :
  count is_select ls ≤ 1.
Proof.
  enough (count is_select ls + past_check s'.2 ≤ past_check s.2) as HE.
  { unfold past_check in HE. repeat case_match; lia. }
  revert s HP HR. induction HN as [|l ls Hl _ IH]; intros [f p] HP HR; cbn in HR.
  - by simplify_eq/=.
  - apply bind_Some in HR as ([f1 p1] & Hs & HR).
    destruct (paused_step _ _ _ _ _ Hs Hl HP) as [HP1 HB]. specialize (IH (f1, p1) HP1 HR).
    rewrite count_cons. cbn in *. lia.
Qed.

(** ** Two states a pool does not leave *)

(** A task in a channel nobody waits on stays there. *)
Lemma lost_step oa ob l f p f' p' ft t :
  pool_step l f p = Some (f', p') → futures_ok oa ob f p →
  chans f !! ft = Some (Some t) → waiting_at ft p = 0%nat →
  chans f' !! ft = Some (Some t) ∧ waiting_at ft p' = 0%nat.
Proof.
  intros H Hok Hft Hw. destruct (Hok ft) as (_ & HB & _). unfold users in HB.
  pose proof (waiting_grows _ _ _ _ _ ft H) as HG. pose proof (full_at_lookup _ _ _ Hft) as HF.
  cbn in HF. split; [|lia]. clear HG. pool_cases H; auto.
  - by rewrite lookup_app_l by eauto using lookup_lt_Some.
  - rewrite list_lookup_insert_ne; congruence.
  - rewrite list_lookup_insert_ne; [done|]. intros ->.
    pose proof (waiting_lookup _ _ _ H0). lia.
Qed.

Lemma lost_forever ls f p s' ft t :
  run_labels pool_sys ls (f, p) = Some s' → futures_ok (λ _, 0%nat) (λ _, 0%nat) f p →
  chans f !! ft = Some (Some t) → waiting_at ft p = 0%nat → chans s'.1 !! ft = Some (Some t).
Proof.
  revert f p. induction ls as [|l ls IH]; intros f p HR Hok Hft Hw; cbn in HR; [by simplify_eq|].
  apply bind_Some in HR as ([f1 p1] & Hs & HR).
  destruct (lost_step _ _ _ _ _ _ _ _ _ Hs Hok Hft Hw) as [??].
  eapply IH; [done|by eapply futures_ok_step|done|done].
Qed.

(** A [Resize] that still has workers to stop when none is left keeps the lock. *)
Definition dead (x : worker) : bool := match x with WExited | WGone => true | _ => false end.

Lemma stuck_step l f p f' p' n :
  pool_step l f p = Some (f', p') → workerLock p = Shrinking (S n) →
  Forall (λ x, dead x = true) (workers p) →
  workerLock p' = Shrinking (S n) ∧ Forall (λ x, dead x = true) (workers p').
Proof.
  intros H HL HF. pool_cases H; try congruence; try (by split).
  all: try match goal with E : workers ?q !! _ = Some _ |- _ =>
    pose proof (Forall_lookup_1 _ _ _ _ HF E); cbn in *; discriminate end.
  all: split; [done|]; by apply Forall_insert.
Qed.

Lemma stuck_forever ls f p s' n :
  run_labels pool_sys ls (f, p) = Some s' → workerLock p = Shrinking (S n) →
  Forall (λ x, dead x = true) (workers p) → workerLock s'.2 = Shrinking (S n).
Proof.
  revert f p. induction ls as [|l ls IH]; intros f p HR HL HF; cbn in HR; [by simplify_eq|].
  apply bind_Some in HR as ([f1 p1] & Hs & HR). destruct (stuck_step _ _ _ _ _ _ Hs HL HF). eauto.
Qed.
End pool.

(** ** Concrete runs *)

Definition unit_start (_ : nat) : unit := tt.
Definition new_pool (b : bool) : @Futures nat * @WorkerPool nat unit := (mkFutures [] [], NewWorkerPool b).
Definition run_pool (ls : list (@pool_label nat unit)) := run_labels (pool_sys unit_start) ls (new_pool false).

Definition lossy_run : list (@pool_label nat unit) :=
  [PResize 1; PGrow; PUnlock; PCheck; PGetNew; PAccept 0;
   PResize 0; PStop 0; PUnlock; PSelect 7%nat; PPut].
Definition stuck_run : list (@pool_label nat unit) :=
  [PResize 2; PGrow; PGrow; PUnlock; PResize 1; PStop 0; PUnlock; PResize 0; PStop 1].
Definition crash_run : list (@pool_label nat unit) :=
  [PResize 2; PGrow; PGrow; PUnlock; PCheck; PGetNew; PAccept 0; PClosed; PNil 1].

Lemma reach_run_pool ls s :
  run_pool ls = Some s → reach (pool_sys unit_start) is_new_pool (λ _, True) s.
Proof. intros H. eapply reach_run; [by constructor; exists false| |exact H]. by apply Forall_true. Qed.

(** Three flaws of the pool, each by a run of it. Shrinking the pool while a worker
    holds a future stops that worker, and the task the manager then takes stays in the
    future's channel whatever happens later. A second [Resize] before a stopped worker
    has left the set counts it again, waits for a worker that does not exist and holds
    the lock forever. When the upstream queue is closed, an idle worker receives a nil
    future and dereferences it. *)
Theorem worker_pool_bugs :
  (∃ s, run_pool lossy_run = Some s ∧ ∀ ls s',
     run_labels (pool_sys unit_start) ls s = Some s' → chans s'.1 !! 0%nat = Some (Some 7%nat)) ∧
  (∃ s, run_pool stuck_run = Some s ∧ ∀ ls s',
     run_labels (pool_sys unit_start) ls s = Some s' → workerLock s'.2 = Shrinking 1) ∧
  (∃ s, run_pool crash_run = Some s ∧ crashed s.2 = true).
Proof.
  split_and!; eexists; (split; [vm_compute; reflexivity|]).
  - intros ls s' HR. refine (lost_forever _ _ _ _ _ _ _ HR _ _ _); [|done|done].
    match goal with |- futures_ok _ _ ?f ?p => apply (pool_sys_inv unit_start (f, p)) end.
    apply (reach_run_pool lossy_run). by vm_compute.
  - intros ls s' HR. refine (stuck_forever _ _ _ _ _ _ HR _ _); [done|by repeat constructor].
  - done.
Qed.

Lemma Resize_terminates_witness :
  ∃ s', run_labels (pool_sys unit_start) (replicate 2 PGrow ++ [PUnlock])
          (after_run (pool_sys unit_start) (new_pool false) [PResize 3; PGrow]) = Some s' ∧
        Size s'.2 = 3 ∧ workerLock s'.2 = Unlocked.
Proof.
  apply (Resize_terminates unit_start
    (after_run (pool_sys unit_start) (new_pool false) [PResize 3; PGrow]) 3); [|reflexivity..].
  apply after_run_reach; [by exists false|by apply Forall_true].
Defined.

Lemma paused_takes_one_witness :
  count (@is_select nat unit) [PAccept 0; PPause; PSelect 7%nat; PPut; PTake 0; PRecycle 0] ≤ 1.
Proof.
  eapply (paused_takes_one unit_start _
    (after_run (pool_sys unit_start) (new_pool false) [PResize 1; PGrow; PUnlock; PCheck; PGetNew; PPause])).
  - reflexivity.
  - by repeat constructor.
  - vm_compute. reflexivity.
Defined.
