(* ===== verification/SplitQueue.v ===== *)
(** * The split queue of consumerd: [pkg/consumerd/queue.go], [telemetry.go]

    A task can be run on this machine or by the cluster. [Exec] puts it in one of three
    buffered channels, by its [Exclusivity]; a local and a remote worker pool each take
    tasks from the shared channel and from their own one, so that whichever pool has a
    free worker runs the task. The remote pool is paused while no scheduler is available.
    The counters of [Telemetry] are 32-bit atomics and each update is a step of its own. *)
From S2P Require Import Prelude WorkerPool.

Inductive SplitTaskLocation : Set := LocUnknown | Local | Remote.
#[export] Instance SplitTaskLocation_eq_dec : EqDecision SplitTaskLocation.
Proof. solve_decision. Defined.

(** A task: its identity stands for the two packaged requests. *)
Record SplitTask := mkTask { task_id : nat; Exclusivity : SplitTaskLocation }.
#[export] Instance SplitTask_eq_dec : EqDecision SplitTask.
Proof. solve_decision. Defined.

(** [localRunner] and [remoteRunner]: before [decQueued], before [incRunning] (or
    [incDelegated]), before [Run] returns, and the deferred call with its two updates. *)
Inductive runner : Set :=
  | RStart (t : SplitTask)
  | RCount (t : SplitTask)
  | RRun (t : SplitTask)
  | RDec (t : SplitTask)
  | RInc (t : SplitTask)
  | RDone (t : SplitTask).

Record Telemetry := mkTelemetry {
  numRunning : Z;
  numQueued : Z;
  numDelegated : Z;
  numCompletedLocal : Z;
  numCompletedRemote : Z;
}.

Definition telemetry_init : Telemetry := mkTelemetry 0 0 0 0 0.
Definition incQueued (t : Telemetry) : Telemetry :=
  mkTelemetry (numRunning t) (wrap32 (numQueued t + 1)) (numDelegated t) (numCompletedLocal t)
    (numCompletedRemote t).
Definition decQueued (t : Telemetry) : Telemetry :=
  mkTelemetry (numRunning t) (wrap32 (numQueued t - 1)) (numDelegated t) (numCompletedLocal t)
    (numCompletedRemote t).
Definition incRunning (t : Telemetry) : Telemetry :=
  mkTelemetry (wrap32 (numRunning t + 1)) (numQueued t) (numDelegated t) (numCompletedLocal t)
    (numCompletedRemote t).
Definition incDelegated (t : Telemetry) : Telemetry :=
  mkTelemetry (numRunning t) (numQueued t) (wrap32 (numDelegated t + 1)) (numCompletedLocal t)
    (numCompletedRemote t).
(** The two atomic updates of [decRunning] and of [decDelegated]. *)
Definition decRunning_1 (t : Telemetry) : Telemetry :=
  mkTelemetry (wrap32 (numRunning t - 1)) (numQueued t) (numDelegated t) (numCompletedLocal t)
    (numCompletedRemote t).
Definition decRunning_2 (t : Telemetry) : Telemetry :=
  mkTelemetry (numRunning t) (numQueued t) (numDelegated t) (wrap32 (numCompletedLocal t + 1))
    (numCompletedRemote t).
Definition decDelegated_1 (t : Telemetry) : Telemetry :=
  mkTelemetry (numRunning t) (numQueued t) (wrap32 (numDelegated t - 1)) (numCompletedLocal t)
    (numCompletedRemote t).
Definition decDelegated_2 (t : Telemetry) : Telemetry :=
  mkTelemetry (numRunning t) (numQueued t) (numDelegated t) (numCompletedLocal t)
    (wrap32 (numCompletedRemote t + 1)).

Abbreviation pool := (@WorkerPool SplitTask runner).

(** The state of the queue. [remote] pools are indexed by [true]. The last three fields
    are history: the tasks given to [Exec], and those whose [Run] has returned. *)
Record SplitQueue := mkQueue {
  sharedQueue : list SplitTask;
  localQueue : list SplitTask;
  remoteQueue : list SplitTask;
  sending : list SplitTask;      (** calls of [Exec] at their channel send *)
  futures : @Futures SplitTask;
  localWorkers : pool;
  remoteWorkers : pool;
  telemetry : Telemetry;
  submitted : list SplitTask;
  ranLocal : list SplitTask;
  ranRemote : list SplitTask;
}.

Definition NewSplitQueue : SplitQueue :=
  mkQueue [] [] [] [] (mkFutures [] []) (NewWorkerPool false) (NewWorkerPool true)
    telemetry_init [] [] [].

Definition pool_of (remote : bool) (q : SplitQueue) : pool :=
  if remote then remoteWorkers q else localWorkers q.

Definition with_pool (remote : bool) (fp : @Futures SplitTask * pool) (q : SplitQueue) : SplitQueue :=
  mkQueue (sharedQueue q) (localQueue q) (remoteQueue q) (sending q) fp.1
    (if remote then localWorkers q else fp.2) (if remote then fp.2 else remoteWorkers q)
    (telemetry q) (submitted q) (ranLocal q) (ranRemote q).
Definition with_telemetry (f : Telemetry → Telemetry) (q : SplitQueue) : SplitQueue :=
  mkQueue (sharedQueue q) (localQueue q) (remoteQueue q) (sending q) (futures q)
    (localWorkers q) (remoteWorkers q) (f (telemetry q)) (submitted q) (ranLocal q) (ranRemote q).
Definition with_ran (remote : bool) (t : SplitTask) (q : SplitQueue) : SplitQueue :=
  mkQueue (sharedQueue q) (localQueue q) (remoteQueue q) (sending q) (futures q)
    (localWorkers q) (remoteWorkers q) (telemetry q) (submitted q)
    (if remote then ranLocal q else t :: ranLocal q)
    (if remote then t :: ranRemote q else ranRemote q).
Definition with_queues (s l r : list SplitTask) (snd : list SplitTask) (q : SplitQueue) : SplitQueue :=
  mkQueue s l r snd (futures q) (localWorkers q) (remoteWorkers q) (telemetry q)
    (submitted q) (ranLocal q) (ranRemote q).

(** The start of [Exec]: count the task, go to the send. *)
Definition Exec (t : SplitTask) (q : SplitQueue) : SplitQueue :=
  let q := with_telemetry incQueued q in
  mkQueue (sharedQueue q) (localQueue q) (remoteQueue q) (t :: sending q) (futures q)
    (localWorkers q) (remoteWorkers q) (telemetry q) (t :: submitted q) (ranLocal q) (ranRemote q).

Section capacity.
Context (capacity : nat).

(** The send of [Exec] on the channel chosen by [Exclusivity]. *)
Definition Exec_send (t : SplitTask) (q : SplitQueue) : option SplitQueue :=
  if bool_decide (t ∈ sending q) then
    let rest := remove_one t (sending q) in
    let room (c : list SplitTask) := bool_decide (length c < capacity)%nat in
    match Exclusivity t with
    | Local =>
        if room (localQueue q)
        then Some (with_queues (sharedQueue q) (localQueue q ++ [t]) (remoteQueue q) rest q) else None
    | Remote =>
        if room (remoteQueue q)
        then Some (with_queues (sharedQueue q) (localQueue q) (remoteQueue q ++ [t]) rest q) else None
    | LocUnknown =>
        if room (sharedQueue q)
        then Some (with_queues (sharedQueue q ++ [t]) (localQueue q) (remoteQueue q) rest q) else None
    end
  else None.

(** [duoQueue.Select]: a task from the shared channel, or from the pool's own. *)
Definition duoQueue_Select (remote shared : bool) (q : SplitQueue) : option (SplitTask * SplitQueue) :=
  match shared, remote with
  | true, _ =>
      match sharedQueue q with
      | t :: c => Some (t, with_queues c (localQueue q) (remoteQueue q) (sending q) q)
      | [] => None
      end
  | false, false =>
      match localQueue q with
      | t :: c => Some (t, with_queues (sharedQueue q) c (remoteQueue q) (sending q) q)
      | [] => None
      end
  | false, true =>
      match remoteQueue q with
      | t :: c => Some (t, with_queues (sharedQueue q) (localQueue q) c (sending q) q)
      | [] => None
      end
  end.

(** One step of [localRunner] or [remoteRunner]: the runner's next state and its effect. *)
Definition run_task (remote : bool) (r : runner) (q : SplitQueue) : option (runner * SplitQueue) :=
  match r with
  | RStart t => Some (RCount t, with_telemetry decQueued q)
  | RCount t => Some (RRun t, with_telemetry (if remote then incDelegated else incRunning) q)
  | RRun t => Some (RDec t, with_ran remote t q)
  | RDec t => Some (RInc t, with_telemetry (if remote then decDelegated_1 else decRunning_1) q)
  | RInc t => Some (RDone t, with_telemetry (if remote then decDelegated_2 else decRunning_2) q)
  | RDone _ => None
  end.

(** The labels the queue leaves to the pools: the queue's channels are never closed, and
    selecting and running tasks are the queue's own labels. *)
Definition pool_own (l : @pool_label SplitTask runner) : bool :=
  match l with PSelect _ | PClosed | PNil _ | PRunner _ _ | PFinish _ => false | _ => true end.

Inductive queue_label :=
  | QExec (t : SplitTask)
  | QSend (t : SplitTask)
  | QSelect (remote shared : bool)
  | QRunner (remote : bool) (w : nat)
  | QReturn (remote : bool) (w : nat)
  | QPool (remote : bool) (l : @pool_label SplitTask runner).

Definition pool_move (remote : bool) (l : @pool_label SplitTask runner) (q : SplitQueue) :
    option SplitQueue :=
  fp ← pool_step RStart l (futures q) (pool_of remote q); Some (with_pool remote fp q).

Definition queue_step (l : queue_label) (q : SplitQueue) : option SplitQueue :=
  match l with
  | QExec t => Some (Exec t q)
  | QSend t => Exec_send t q
  | QSelect remote shared =>
      '(t, q') ← duoQueue_Select remote shared q; pool_move remote (PSelect t) q'
  | QRunner remote w =>
      match workers (pool_of remote q) !! w with
      | Some (WRun r) => '(r', q') ← run_task remote r q; pool_move remote (PRunner w r') q'
      | _ => None
      end
  | QReturn remote w =>
      match workers (pool_of remote q) !! w with
      | Some (WRun (RDone _)) => pool_move remote (PFinish w) q
      | _ => None
      end
  | QPool remote l => if pool_own l then pool_move remote l q else None
  end.
End capacity.

(** [handleAvailabilityChanged]: the remote pool is resumed when a scheduler becomes
    available and paused when it is lost. *)
Definition remote_available : queue_label := QPool true PResume.
Definition remote_unavailable : queue_label := QPool true PPause.

(** ** Weights: how many tasks are where *)

Section weights.
Context (capacity : nat) (g : SplitTask → nat) (h : bool → runner → nat).

Definition total (q : SplitQueue) : nat :=
  lsum g (sending q) + lsum g (sharedQueue q) + lsum g (localQueue q) + lsum g (remoteQueue q) +
  chan_sum g (futures q) +
  pool_sum g (h false) (localWorkers q) + pool_sum g (h true) (remoteWorkers q).

Definition runner_weight (remote : bool) (w : nat) (q : SplitQueue) : nat :=
  match workers (pool_of remote q) !! w with Some (WRun r) => h remote r | _ => 0 end.
Definition next_weight (remote : bool) (w : nat) (q : SplitQueue) : nat :=
  match workers (pool_of remote q) !! w with
  | Some (WRun r) => match run_task remote r q with Some (r', _) => h remote r' | None => 0 end
  | _ => 0
  end.

(** What a step adds to the total and what it takes away. *)
Definition gain (l : queue_label) (q : SplitQueue) : nat :=
  match l with
  | QExec t => g t
  | QRunner remote w => next_weight remote w q
  | _ => 0
  end.
Definition loss (l : queue_label) (q : SplitQueue) : nat :=
  match l with QRunner remote w | QReturn remote w => runner_weight remote w q | _ => 0 end.

Lemma total_with_pool remote fp q :
  (total (with_pool remote fp q) + chan_sum g (futures q) + pool_sum g (h remote) (pool_of remote q) =
   total q + chan_sum g fp.1 + pool_sum g (h remote) fp.2)%nat.
Proof. unfold total. destruct remote; cbn; lia. Qed.

Lemma total_Exec_send t q q' : Exec_send capacity t q = Some q' → total q' = total q.
Proof.
  unfold Exec_send. intros H. repeat case_match; simplify_eq; unfold total; cbn;
    match goal with E : bool_decide (_ ∈ _) = true |- _ =>
      apply bool_decide_eq_true in E; rewrite (lsum_remove_one g _ _ E) end;
    rewrite lsum_snoc; lia.
Qed.

Lemma total_Select remote shared q t q' :
  duoQueue_Select remote shared q = Some (t, q') →
  futures q' = futures q ∧ (∀ b, pool_of b q' = pool_of b q) ∧ (total q' + g t = total q)%nat.
Proof.
  unfold duoQueue_Select. intros H. repeat case_match; simplify_eq; unfold total; cbn;
    (split_and!; [done|by intros []|]);
    match goal with E : _ = _ :: _ |- _ => rewrite E end; rewrite lsum_cons; lia.
Qed.

Lemma run_task_frame remote r q r' q' :
  run_task remote r q = Some (r', q') →
  futures q' = futures q ∧ (∀ b, pool_of b q' = pool_of b q) ∧ total q' = total q.
Proof. destruct r; intros; simplify_eq/=; split_and!; try done; by intros []. Qed.

Lemma total_step l q q' :
  (∀ b t, h b (RStart t) = g t) → (∀ b t, h b (RDone t) = 0%nat) →
  queue_step capacity l q = Some q' → (total q' + loss l q = total q + gain l q)%nat.
Proof.
  intros Hs Hd H. destruct l as [t|t|b sh|b w|b w|b l]; unfold queue_step in H.
  - simplify_eq. unfold total, gain, loss. cbn. rewrite lsum_cons. lia.
  - apply total_Exec_send in H. cbn. lia.
  - apply bind_Some in H as ([t q1] & Hsel & H). unfold pool_move in H.
    apply bind_Some in H as ([f p] & Hp & [= <-]).
    destruct (total_Select _ _ _ _ _ Hsel) as (Ef & Ep & Et). rewrite Ef, Ep in Hp.
    destruct (held_select RStart g (h b) _ _ _ _ _ Hp) as [-> HE].
    pose proof (total_with_pool b (futures q, p) q1) as HT. rewrite Ef, Ep in HT. cbn in *. lia.
  - cbn. unfold runner_weight, next_weight.
    destruct (workers (pool_of b q) !! w) as [[]|] eqn:Ew; try discriminate.
    apply bind_Some in H as ([r' q1] & Hr & H). unfold pool_move in H.
    apply bind_Some in H as ([f p] & Hp & [= <-]). rewrite Hr.
    destruct (run_task_frame _ _ _ _ _ Hr) as (Ef & Ep & Et). rewrite Ef, Ep in Hp.
    destruct (held_runner RStart g (h b) _ _ r' _ _ _ _ Ew (or_introl Hp)) as [-> HE].
    pose proof (total_with_pool b (futures q, p) q1) as HT. rewrite Ef, Ep in HT. cbn in *. lia.
  - cbn. unfold runner_weight.
    destruct (workers (pool_of b q) !! w) as [[| | |[]| |]|] eqn:Ew; try discriminate.
    unfold pool_move in H. apply bind_Some in H as ([f p] & Hp & [= <-]).
    destruct (held_runner RStart g (h b) _ _ (RDone t) _ _ _ _ Ew (or_intror (conj Hp (Hd b t)))) as [-> HE].
    pose proof (total_with_pool b (futures q, p) q) as HT. cbn in *. rewrite Hd in *. lia.
  - destruct (pool_own l) eqn:Hl; [|discriminate]. unfold pool_move in H.
    apply bind_Some in H as ([f p] & Hp & [= <-]).
    pose proof (held_internal RStart g (h b) l _ _ _ _ (Hs b) ltac:(by destruct l) Hp) as HE.
    pose proof (total_with_pool b (f, p) q) as HT. cbn in *. lia.
Qed.
End weights.

(** ** Every task is in one place *)

Definition new_queue (q : SplitQueue) : Prop := q = NewSplitQueue.
Definition any_label (l : queue_label) : Prop := True.

Definition same (x t : SplitTask) : nat := if decide (x = t) then 1 else 0.
Definition occurs (x : SplitTask) (l : list SplitTask) : nat := lsum (same x) l.
(** The copies of [x] whose [Run] has not returned. *)
Definition unfinished (x : SplitTask) (_ : bool) (r : runner) : nat :=
  match r with RStart t | RCount t | RRun t => same x t | _ => 0 end.
Definition in_flight (x : SplitTask) (q : SplitQueue) : nat := total (same x) (unfinished x) q.

(** How a step changes the history. *)
Lemma history_step capacity l q q' :
  queue_step capacity l q = Some q' →
  match l with
  | QExec t => submitted q' = t :: submitted q ∧ ranLocal q' = ranLocal q ∧ ranRemote q' = ranRemote q
  | QRunner b w =>
      submitted q' = submitted q ∧
      match workers (pool_of b q) !! w with
      | Some (WRun (RRun t)) =>
          if b then ranLocal q' = ranLocal q ∧ ranRemote q' = t :: ranRemote q
          else ranLocal q' = t :: ranLocal q ∧ ranRemote q' = ranRemote q
      | _ => ranLocal q' = ranLocal q ∧ ranRemote q' = ranRemote q
      end
  | _ => submitted q' = submitted q ∧ ranLocal q' = ranLocal q ∧ ranRemote q' = ranRemote q
  end.
Proof.
  intros H. destruct l as [t|t|b sh|b w|b w|b l]; unfold queue_step, pool_move, Exec_send in H.
  - by simplify_eq.
  - repeat case_match; by simplify_eq.
  - apply bind_Some in H as ([t q1] & Hsel & H). apply bind_Some in H as (? & _ & [= <-]).
    unfold duoQueue_Select in Hsel. repeat case_match; by simplify_eq.
  - destruct (workers (pool_of b q) !! w) as [[| | |r| |]|] eqn:Ew; try discriminate.
    apply bind_Some in H as ([r' q1] & Hr & H). apply bind_Some in H as (? & _ & [= <-]).
    destruct r, b; by simplify_eq/=.
  - repeat case_match; try discriminate. by apply bind_Some in H as (? & _ & [= <-]).
  - case_match; [|discriminate]. by apply bind_Some in H as (? & _ & [= <-]).
Qed.

Lemma task_conserved_step capacity l q q' x :
  queue_step capacity l q = Some q' →
  occurs x (submitted q) = (in_flight x q + occurs x (ranLocal q) + occurs x (ranRemote q))%nat →
  occurs x (submitted q') = (in_flight x q' + occurs x (ranLocal q') + occurs x (ranRemote q'))%nat.
Proof.
  intros Hs H. pose proof (history_step _ _ _ _ Hs) as HH.
  pose proof (total_step capacity (same x) (unfinished x) l q q' (λ _ _, eq_refl) (λ _ _, eq_refl) Hs) as HT.
  unfold in_flight, occurs in *. destruct l as [t|t|b sh|b w|b w|b l]; cbn in HT;
    try (destruct HH as (-> & -> & ->); rewrite ?lsum_cons; lia).
  - unfold runner_weight, next_weight in HT. destruct HH as [-> HH].
    destruct (workers (pool_of b q) !! w) as [[| | |[]| |]|], b; cbn in HT;
      destruct HH as [-> ->]; rewrite ?lsum_cons; lia.
  - unfold runner_weight in HT. destruct HH as (-> & -> & ->). unfold queue_step in Hs.
    destruct (workers (pool_of b q) !! w) as [[| | |[]| |]|]; try discriminate; cbn in HT; lia.
Qed.

Lemma occurs_NoDup l : NoDup l ↔ ∀ x, (occurs x l ≤ 1)%nat.
Proof.
  unfold occurs. induction l as [|y l IH]; [split; [intros _ x; unfold lsum; cbn; lia|constructor]|].
  rewrite NoDup_cons, IH. split.
  - intros [Hy Hl] x. rewrite lsum_cons. specialize (Hl x). unfold same at 1. case_decide; [|lia].
    subst. destruct (lsum (same y) l) eqn:E; [lia|].
    destruct (lsum_pos (same y) l) as (i & z & Hz & Hp); [lia|]. unfold same in Hp.
    case_decide; [|lia]. subst. by apply list_elem_of_lookup_2 in Hz.
  - intros H. split.
    + intros (i & Hi)%list_elem_of_lookup. pose proof (lsum_lookup (same y) _ _ _ Hi) as HL.
      specialize (H y). rewrite lsum_cons in H. unfold same in HL at 1, H at 1. case_decide; [lia|done].
    + intros x. specialize (H x). rewrite lsum_cons in H. lia.
Qed.

Lemma queue_occurs capacity q :
  reach (queue_step capacity) new_queue any_label q →
  ∀ x, occurs x (submitted q) = (in_flight x q + occurs x (ranLocal q) + occurs x (ranRemote q))%nat.
Proof.
  intros HR x. pattern q. refine (reach_inv _ _ _ _ q _ _ HR); [by intros ? ->|].
  intros s l s' IH _ Hs. by eapply task_conserved_step.
Qed.

(** ** The counters *)

(** The tasks counted as queued, running, and run but not yet counted as completed. *)
Definition queued_weight (_ : bool) (r : runner) : nat := match r with RStart _ => 1 | _ => 0 end.
Definition running_weight (side b : bool) (r : runner) : nat :=
  if Bool.eqb side b then match r with RRun _ | RDec _ => 1 | _ => 0 end else 0.
Definition finishing_weight (side b : bool) (r : runner) : nat :=
  if Bool.eqb side b then match r with RDec _ | RInc _ => 1 | _ => 0 end else 0.

Definition queued (q : SplitQueue) : nat := total (λ _, 1%nat) queued_weight q.
Definition running (remote : bool) (q : SplitQueue) : nat :=
  lsum (worker_weight (λ _, 0%nat) (running_weight remote remote)) (workers (pool_of remote q)).
Definition finishing (remote : bool) (q : SplitQueue) : nat :=
  lsum (worker_weight (λ _, 0%nat) (finishing_weight remote remote)) (workers (pool_of remote q)).

(** A weight that ignores queued tasks and one pool is a sum over the other's workers. *)
Lemma total_side (h : bool → runner → nat) side q :
  (∀ r, h (negb side) r = 0%nat) →
  total (λ _, 0%nat) h q = lsum (worker_weight (λ _, 0%nat) (h side)) (workers (pool_of side q)).
Proof.
  intros Hz. unfold total, chan_sum, pool_sum, manager_sum. rewrite !lsum_zero.
  assert (∀ l : list (option SplitTask),
    lsum (λ o, match o with Some _ => 0%nat | None => 0%nat end) l = 0%nat) as ->.
  { intros l. induction l as [|[] l IH]; [done|..]; by rewrite lsum_cons. }
  assert (∀ b (l : list (@worker SplitTask runner)), (∀ r, h b r = 0%nat) →
    lsum (worker_weight (λ _, 0%nat) (h b)) l = 0%nat) as HW.
  { intros b l Hb. induction l as [|[] l IH]; [done|..]; rewrite lsum_cons, IH; cbn; by rewrite ?Hb. }
  destruct side; cbn in *; rewrite (HW _ _ Hz); repeat case_match; lia.
Qed.

Lemma running_total b q : running b q = total (λ _, 0%nat) (running_weight b) q.
Proof. symmetry. apply total_side. by destruct b. Qed.
Lemma finishing_total b q : finishing b q = total (λ _, 0%nat) (finishing_weight b) q.
Proof. symmetry. apply total_side. by destruct b. Qed.

(** Counters and the numbers they should show; the completed counts lag behind the tasks
    that ran by those still in the deferred call. *)
Definition counters_ok (q : SplitQueue) : Prop :=
  let t := telemetry q in
  numQueued t = wrap32 (Z.of_nat (queued q)) ∧
  numRunning t = wrap32 (Z.of_nat (running false q)) ∧
  numDelegated t = wrap32 (Z.of_nat (running true q)) ∧
  numCompletedLocal t = wrap32 (Z.of_nat (length (ranLocal q)) - Z.of_nat (finishing false q)) ∧
  numCompletedRemote t = wrap32 (Z.of_nat (length (ranRemote q)) - Z.of_nat (finishing true q)).

(** The effect of a step on the counters. *)
Definition counter_effect (l : queue_label) (q : SplitQueue) : Telemetry → Telemetry :=
  match l with
  | QExec _ => incQueued
  | QRunner b w =>
      match workers (pool_of b q) !! w with
      | Some (WRun (RStart _)) => decQueued
      | Some (WRun (RCount _)) => if b then incDelegated else incRunning
      | Some (WRun (RDec _)) => if b then decDelegated_1 else decRunning_1
      | Some (WRun (RInc _)) => if b then decDelegated_2 else decRunning_2
      | _ => id
      end
  | _ => id
  end.

Lemma telemetry_step capacity l q q' :
  queue_step capacity l q = Some q' → telemetry q' = counter_effect l q (telemetry q).
Proof.
  intros H. destruct l as [t|t|b sh|b w|b w|b l]; unfold queue_step, pool_move, Exec_send in H.
  - by simplify_eq.
  - repeat case_match; by simplify_eq.
  - apply bind_Some in H as ([t q1] & Hsel & H). apply bind_Some in H as (? & _ & [= <-]).
    unfold duoQueue_Select in Hsel. repeat case_match; by simplify_eq.
  - unfold counter_effect.
    destruct (workers (pool_of b q) !! w) as [[| | |r| |]|] eqn:Ew; try discriminate.
    apply bind_Some in H as ([r' q1] & Hr & H). apply bind_Some in H as (? & _ & [= <-]).
    destruct r, b; by simplify_eq/=.
  - repeat case_match; try discriminate. by apply bind_Some in H as (? & _ & [= <-]).
  - case_match; [|discriminate]. by apply bind_Some in H as (? & _ & [= <-]).
Qed.

(** Closes an equation between a counter and its number after one update. *)
Ltac counter :=
  match goal with H : ?c = wrap32 _ |- context [?c] => rewrite H end;
  rewrite ?wrap_add, ?wrap_sub by lia; f_equal; lia.

Lemma counters_step capacity l q q' :
  queue_step capacity l q = Some q' → counters_ok q → counters_ok q'.
Proof.
  intros Hs (H1 & H2 & H3 & H4 & H5). pose proof (history_step _ _ _ _ Hs) as HH.
  pose proof (λ h, total_step capacity (λ _, 0%nat) h l q q') as HT0.
  pose proof (total_step capacity (λ _, 1%nat) queued_weight l q q' (λ _ _, eq_refl) (λ _ _, eq_refl) Hs) as Q1.
  pose proof (HT0 (running_weight false) (λ b _, ltac:(by destruct b)) (λ b _, ltac:(by destruct b)) Hs) as Q2.
  pose proof (HT0 (running_weight true) (λ b _, ltac:(by destruct b)) (λ b _, ltac:(by destruct b)) Hs) as Q3.
  pose proof (HT0 (finishing_weight false) (λ b _, ltac:(by destruct b)) (λ b _, ltac:(by destruct b)) Hs) as Q4.
  pose proof (HT0 (finishing_weight true) (λ b _, ltac:(by destruct b)) (λ b _, ltac:(by destruct b)) Hs) as Q5.
  clear HT0. unfold counters_ok. rewrite (telemetry_step _ _ _ _ Hs).
  unfold queued in *. rewrite !running_total, !finishing_total in *.
  destruct l as [t|t|b sh|b w|b w|b l]; cbn [loss gain] in *.
  1-3,6: destruct HH as (_ & -> & ->); cbn -[total]; split_and!; counter.
  - unfold next_weight, runner_weight, counter_effect in *. destruct HH as [_ HH].
    destruct (workers (pool_of b q) !! w) as [[| | |[]| |]|], b; cbn -[total] in *;
      destruct HH as [-> ->]; cbn [length]; split_and!; counter.
  - unfold runner_weight in *. destruct HH as (_ & -> & ->). unfold queue_step in Hs.
    destruct (workers (pool_of b q) !! w) as [[| | |[]| |]|], b; try discriminate; cbn -[total] in *;
      split_and!; counter.
Qed.

(** C27: The counters of [Telemetry] are right at every moment, in 32-bit arithmetic:
    [numQueued] is the number of tasks that no runner has picked up, [numRunning] and
    [numDelegated] the number of tasks each pool is running, and the two completed
    counters the number of tasks that ran, less those whose deferred call is under way. *)
Theorem queue_telemetry (capacity : nat) (q : SplitQueue)
    (HR : reach (queue_step capacity) new_queue any_label q) : counters_ok q.
Proof.
  pattern q. refine (reach_inv _ _ _ _ q _ _ HR); [by intros ? ->; vm_compute|].
  intros s l s' IH _ Hs. by eapply counters_step.
Qed.

(** ** Who runs a task, and who is stuck *)

(** The tasks a side may run. *)
Definition allowed (remote : bool) (t : SplitTask) : Prop :=
  Exclusivity t ≠ if remote then Local else Remote.
Definition runner_task (r : runner) : SplitTask :=
  match r with RStart t | RCount t | RRun t | RDec t | RInc t | RDone t => t end.
Definition allowed_runner (remote : bool) (r : runner) : Prop := allowed remote (runner_task r).

Record queue_inv (q : SplitQueue) : Prop := {
  inv_futures b : futures_ok (λ ft, owners ft (pool_of (negb b) q))
                             (λ ft, users ft (pool_of (negb b) q)) (futures q) (pool_of b q);
  inv_apart b : apart (pool_of b q) (pool_of (negb b) q);
  inv_alive b : crashed (pool_of b q) = false;
  inv_pool b : pool_ok (allowed b) (allowed_runner b) (pool_of b q);
  inv_chan b : chan_ok (allowed b) (futures q) (pool_of b q);
  inv_local : Forall (allowed false) (sharedQueue q ++ localQueue q ++ ranLocal q);
  inv_remote : Forall (allowed true) (sharedQueue q ++ remoteQueue q ++ ranRemote q);
}.

Lemma pool_of_same b fp q : pool_of b (with_pool b fp q) = fp.2.
Proof. by destruct b. Qed.
Lemma pool_of_other b fp q : pool_of (negb b) (with_pool b fp q) = pool_of (negb b) q.
Proof. by destruct b. Qed.

Lemma futures_ok_sym f (p p' : pool) :
  futures_ok (λ ft, owners ft p) (λ ft, users ft p) f p' →
  futures_ok (λ ft, owners ft p') (λ ft, users ft p') f p.
Proof. intros H ft. specialize (H ft). lia. Qed.

(** A step of one pool keeps the invariant, when the task it selects or runs is allowed. *)
Lemma pool_move_inv b l q q' :
  pool_move b l q = Some q' → label_ok (allowed b) (allowed_runner b) l → (∀ w, l ≠ PNil w) →
  queue_inv q → queue_inv q'.
Proof.
  unfold pool_move. intros ([f p] & Hp & [= <-])%bind_Some Hl Hn I.
  destruct (apart_step RStart l _ _ (pool_of (negb b) q) _ _ Hp (inv_futures q I b)) as [A1 A2].
  { apply (inv_apart q I b). } { pose proof (inv_apart q I (negb b)) as H. by rewrite negb_involutive in H. }
  assert (∀ c, c = b ∨ c = negb b) as HB by (intros []; destruct b; auto).
  split.
  all: try (intros c; destruct (HB c) as [->| ->];
    rewrite ?negb_involutive, ?pool_of_same, ?pool_of_other; cbn [futures with_pool fst snd]).
  - eapply futures_ok_step; [exact Hp|]. apply (inv_futures q I b).
  - apply futures_ok_sym. eapply futures_ok_step; [exact Hp|]. apply (inv_futures q I b).
  - exact A1.
  - exact A2.
  - eapply alive_step; [exact Hp|done].
  - apply (inv_alive q I).
  - eapply pool_ok_step; [exact Hp|done|exact Hl|apply (inv_chan q I)|apply (inv_pool q I)].
  - apply (inv_pool q I).
  - eapply chan_ok_step; [exact Hp|apply (inv_futures q I)|apply (inv_chan q I)|apply (inv_pool q I)].
  - eapply chan_ok_other; [exact Hp|apply (inv_apart q I b)|apply (inv_chan q I)].
  - apply (inv_local q I).
  - apply (inv_remote q I).
Qed.

(** Steps outside the pools only need the queues and the history checked. *)
Lemma queue_inv_frame q q' :
  queue_inv q → futures q' = futures q → (∀ b, pool_of b q' = pool_of b q) →
  Forall (allowed false) (sharedQueue q' ++ localQueue q' ++ ranLocal q') →
  Forall (allowed true) (sharedQueue q' ++ remoteQueue q' ++ ranRemote q') → queue_inv q'.
Proof. intros [] Ef Ep HL HR. split; intros; rewrite ?Ef, ?Ep; auto. Qed.

Lemma Exec_send_inv capacity t q q' : Exec_send capacity t q = Some q' → queue_inv q → queue_inv q'.
Proof.
  unfold Exec_send. intros H I. pose proof (inv_local q I) as HL. pose proof (inv_remote q I) as HR.
  rewrite !Forall_app in *.
  destruct (bool_decide _); [|discriminate]. destruct (Exclusivity t) eqn:E;
    (destruct (bool_decide _); [|discriminate]); simplify_eq;
    (apply (queue_inv_frame q); [done|done|by intros []|cbn..]);
    rewrite !Forall_app, ?Forall_singleton; unfold allowed at 2 || idtac; rewrite ?E; intuition congruence.
Qed.

Lemma Select_inv b sh q t q' :
  duoQueue_Select b sh q = Some (t, q') → queue_inv q → queue_inv q' ∧ allowed b t.
Proof.
  unfold duoQueue_Select. intros H I. pose proof (inv_local q I) as HL. pose proof (inv_remote q I) as HR.
  rewrite !Forall_app in *. destruct sh, b; case_match eqn:E; simplify_eq;
    rewrite ?E, ?Forall_cons in *; (split; [|intuition]);
    (apply (queue_inv_frame q); [done|done|by intros []|cbn..]);
    rewrite ?E, !Forall_app, ?Forall_cons; intuition.
Qed.

Lemma run_task_inv b w r q r' q' :
  workers (pool_of b q) !! w = Some (WRun r) → run_task b r q = Some (r', q') →
  queue_inv q → queue_inv q' ∧ allowed_runner b r'.
Proof.
  intros Hw H I. destruct (inv_pool q I b) as [_ HF].
  pose proof (Forall_lookup_1 _ _ _ _ HF Hw) as Hr. cbn in Hr.
  pose proof (inv_local q I) as HL. pose proof (inv_remote q I) as HR.
  rewrite !Forall_app in *. destruct r, b; simplify_eq/=; (split; [|exact Hr]);
    (apply (queue_inv_frame q); [done|done|by intros []|cbn..]);
    rewrite !Forall_app, ?Forall_cons; intuition.
Qed.

Lemma queue_inv_step capacity l q q' :
  queue_step capacity l q = Some q' → queue_inv q → queue_inv q'.
Proof.
  intros H I. destruct l as [t|t|b sh|b w|b w|b l]; unfold queue_step in H.
  - simplify_eq. apply (queue_inv_frame q); [done|done|by intros []|..]; apply I.
  - by eapply Exec_send_inv.
  - apply bind_Some in H as ([t q1] & Hsel & H). destruct (Select_inv _ _ _ _ _ Hsel I).
    by eapply (pool_move_inv _ _ _ _ H).
  - destruct (workers (pool_of b q) !! w) as [[| | |r| |]|] eqn:Ew; try discriminate.
    apply bind_Some in H as ([r' q1] & Hr & H). destruct (run_task_inv _ _ _ _ _ _ Ew Hr I).
    by eapply (pool_move_inv _ _ _ _ H).
  - repeat case_match; try discriminate. by eapply (pool_move_inv _ _ _ _ H).
  - destruct (pool_own l) eqn:E; [|discriminate].
    eapply (pool_move_inv _ _ _ _ H); [by destruct l|by intros w ->|done].
Qed.

Lemma queue_inv_reach capacity P q : reach (queue_step capacity) new_queue P q → queue_inv q.
Proof.
  apply reach_inv; [|by intros s l s' IH _ Hs; eapply queue_inv_step].
  intros ? ->. split; try (intros []); try (by constructor); try (by split).
  all: try (intros ft; repeat split; by vm_compute; auto).
Qed.

(** Exclusive tasks run where they must: a task with [Exclusivity] [Remote] is never
    run by the local pool and one with [Local] never by the remote pool, although both
    pools share the queue of the other tasks and the pool of futures. *)
Theorem queue_exclusive (capacity : nat) (q : SplitQueue)
    (HR : reach (queue_step capacity) new_queue any_label q) :
  (∀ t, t ∈ ranLocal q → Exclusivity t ≠ Remote) ∧ (∀ t, t ∈ ranRemote q → Exclusivity t ≠ Local).
Proof.
  apply queue_inv_reach in HR. pose proof (inv_local q HR) as HL. pose proof (inv_remote q HR) as HM.
  rewrite !Forall_app, !Forall_forall in *. split; intros t Ht; [by apply HL|by apply HM].
Qed.

(** Runs in which no worker is stopped: the usage managers of consumerd only resize a pool
    once, from zero. *)
Definition no_shrink (l : queue_label) : Prop :=
  match l with QPool _ l => no_stop l = true | _ => True end.

Definition all_delivered (q : SplitQueue) : Prop :=
  delivered (λ ft, filling_at ft (remoteWorkers q)) (λ ft, waiting_at ft (remoteWorkers q))
    (futures q) (localWorkers q).

Lemma delivered_sym f (p p' : pool) :
  delivered (λ ft, filling_at ft p) (λ ft, waiting_at ft p) f p' →
  delivered (λ ft, filling_at ft p') (λ ft, waiting_at ft p') f p.
Proof. intros H ft. specialize (H ft). lia. Qed.

Lemma delivered_move b l q q' :
  pool_move b l q = Some q' → no_stop l = true → queue_inv q → all_delivered q → all_delivered q'.
Proof.
  unfold pool_move, all_delivered. intros ([f p] & Hp & [= <-])%bind_Some Hn I HD.
  pose proof (inv_futures q I b) as HF. destruct b; cbn in *.
  - apply delivered_sym. eapply delivered_step; [exact Hp|done|exact HF|]. by apply delivered_sym.
  - eapply delivered_step; [exact Hp|done|exact HF|done].
Qed.

Lemma delivered_queue_step capacity l q q' :
  queue_step capacity l q = Some q' → no_shrink l → queue_inv q → all_delivered q → all_delivered q'.
Proof.
  intros H Hn I HD. destruct l as [t|t|b sh|b w|b w|b l]; unfold queue_step in H.
  - by simplify_eq.
  - unfold Exec_send in H. repeat case_match; by simplify_eq.
  - apply bind_Some in H as ([t q1] & Hsel & H). destruct (Select_inv _ _ _ _ _ Hsel I).
    eapply (delivered_move _ _ _ _ H); [done|done|].
    destruct (total_Select (λ _, 0%nat) (λ _ _, 0%nat) _ _ _ _ _ Hsel) as (Ef & Ep & _).
    pose proof (Ep true) as Et. pose proof (Ep false) as El. cbn in Et, El.
    unfold all_delivered. by rewrite Ef, Et, El.
  - destruct (workers (pool_of b q) !! w) as [[| | |r| |]|] eqn:Ew; try discriminate.
    apply bind_Some in H as ([r' q1] & Hr & H). destruct (run_task_inv _ _ _ _ _ _ Ew Hr I).
    eapply (delivered_move _ _ _ _ H); [done|done|]. destruct r, b; by simplify_eq/=.
  - repeat case_match; try discriminate. by eapply (delivered_move _ _ _ _ H).
  - destruct (pool_own l) eqn:E; [|discriminate]. by eapply (delivered_move _ _ _ _ H).
Qed.

Lemma delivered_reach capacity q :
  reach (queue_step capacity) new_queue no_shrink q → queue_inv q ∧ all_delivered q.
Proof.
  intros HR. split; [by eapply queue_inv_reach|].
  induction HR as [? ->|s l s' HR IH Hl Hs]; [by intros ft; vm_compute; lia|].
  eapply delivered_queue_step; eauto using queue_inv_reach.
Qed.

Lemma waiting_worker ft (p : pool) :
  (0 < waiting_at ft p)%nat → ∃ w, workers p !! w = Some (WWait ft).
Proof.
  intros (w & x & Hw & Hx)%lsum_pos. exists w. destruct x; cbn in Hx; try lia.
  unfold eq1 in Hx. case_decide; [by subst|lia].
Qed.

(** A task in a future has a worker that waits for it. *)
Lemma future_awaited capacity q ft t :
  reach (queue_step capacity) new_queue no_shrink q → chans (futures q) !! ft = Some (Some t) →
  ∃ b w, workers (pool_of b q) !! w = Some (WWait ft).
Proof.
  intros [I HD]%delivered_reach Hc. specialize (HD ft). rewrite (full_at_lookup _ _ _ Hc) in HD.
  assert (∃ b, 0 < waiting_at ft (pool_of b q))%nat as [b Hb]; [|by exists b; apply waiting_worker].
  destruct (decide (0 < waiting_at ft (localWorkers q))%nat); [by exists false|]. exists true. cbn. lia.
Qed.

(** C5: No task is run twice, and every task is accounted for: in every state the queue can
    reach, each task given to [Exec] is exactly once at the send of [Exec], in one of the
    three channels, in the channel of a future, with a manager, with a worker, or among the
    tasks that ran; so tasks given to [Exec] once run at most once, and never both on this
    machine and remotely. A task in the channel of a future is not lost as long as no pool is
    shrunk: there is a worker that waits on that future. (Stopping a worker can leave its
    future behind, with a task in it that nobody takes: [worker_pool_bugs].) *)
Theorem queue_conserves (capacity : nat) (q : SplitQueue)
    (HR : reach (queue_step capacity) new_queue any_label q) :
  (∀ x, occurs x (submitted q) =
        in_flight x q + occurs x (ranLocal q) + occurs x (ranRemote q))%nat ∧
  (NoDup (submitted q) → NoDup (ranLocal q ++ ranRemote q)) ∧
  (reach (queue_step capacity) new_queue no_shrink q →
   ∀ ft t, chans (futures q) !! ft = Some (Some t) → ∃ b w, workers (pool_of b q) !! w = Some (WWait ft)).
Proof.
  pose proof (queue_occurs _ _ HR) as HC. split; [exact HC|]. split; [|by eauto using future_awaited].
  rewrite !occurs_NoDup. intros Hn x. specialize (HC x). specialize (Hn x). unfold occurs in *. rewrite lsum_app. lia.
Qed.

(** C26: No task is stuck between a queue and a worker (when no pool is being shrunk): a
    manager that took a task from a queue can put it into its future at once, as the
    comment on that send claims, and a task in a future has a worker that can take it. *)
Theorem queue_no_limbo (capacity : nat) (q : SplitQueue)
    (HR : reach (queue_step capacity) new_queue no_shrink q) (ft : nat) (t : SplitTask) :
  (∀ b, wp_manager (pool_of b q) = MPut ft t → is_Some (queue_step capacity (QPool b PPut) q)) ∧
  (chans (futures q) !! ft = Some (Some t) →
     ∃ b w, is_Some (queue_step capacity (QPool b (PTake w)) q)).
Proof.
  destruct (delivered_reach _ _ HR) as [I HD]. split.
  - intros b Hm. destruct (inv_futures q I b ft) as (_ & HB & HC).
    unfold users in *. pose proof (filling_put _ _ _ Hm) as HF. rewrite HF in *.
    assert (chans (futures q) !! ft = Some None) as Hc.
    { destruct (lookup_lt_is_Some_2 (chans (futures q)) ft) as [[x|] Hx]; [lia| |done].
      rewrite (full_at_lookup _ _ _ Hx) in HB. lia. }
    unfold queue_step, pool_move, pool_step, manageQueue. cbn [pool_own].
    rewrite (inv_alive q I b), Hm, Hc. by eexists.
  - intros Hc. destruct (future_awaited _ _ _ _ HR Hc) as (b & w & Hw). exists b, w.
    unfold queue_step, pool_move, pool_step. cbn [pool_own].
    rewrite (inv_alive q I b), Hw. cbn. rewrite Hc. by eexists.
Qed.

(** ** Witnesses: a run with one worker per pool *)

Definition tA : SplitTask := mkTask 1 LocUnknown.
Definition tB : SplitTask := mkTask 2 Remote.
Definition grow1 (b : bool) : list queue_label := QPool b <$> [PResize 1; PGrow; PUnlock].
Definition serve (b sh : bool) (get : pool_label) : list queue_label :=
  [QPool b PCheck; QPool b get; QPool b (PAccept 0); QSelect b sh; QPool b PPut; QPool b (PTake 0);
   QPool b (PRecycle 0); QRunner b 0; QRunner b 0; QRunner b 0].
Definition demo : list queue_label :=
  grow1 false ++ grow1 true ++ [QExec tA; QExec tB; QSend tB; QSend tA] ++
  serve false true PGetNew ++ [remote_available] ++ serve true false (PGetOld 0).
Definition demo_state : SplitQueue := after_run (queue_step 10) NewSplitQueue demo.
Definition limbo_run : list queue_label :=
  grow1 false ++ [QExec tA; QSend tA; QPool false PCheck; QPool false PGetNew;
                  QPool false (PAccept 0); QSelect false true].
Definition limbo_state : SplitQueue := after_run (queue_step 10) NewSplitQueue limbo_run.

Lemma demo_reach : reach (queue_step 10) new_queue any_label demo_state.
Proof. apply after_run_reach; [done|by apply Forall_true]. Qed.

Lemma queue_conserves_witness :
  ranLocal demo_state = [tA] ∧ ranRemote demo_state = [tB] ∧
  (occurs tA (submitted demo_state) =
     in_flight tA demo_state + occurs tA (ranLocal demo_state) + occurs tA (ranRemote demo_state))%nat.
Proof.
  split; [by vm_compute|]. split; [by vm_compute|]. apply (queue_conserves 10 demo_state demo_reach).
Defined.

Lemma queue_telemetry_witness :
  counters_ok demo_state ∧ numRunning (telemetry demo_state) = 1 ∧ numQueued (telemetry demo_state) = 0.
Proof.
  split; [apply (queue_telemetry 10 demo_state demo_reach)|by vm_compute].
Defined.

Lemma queue_exclusive_witness :
  (ranLocal demo_state = [tA] ∧ Exclusivity tA ≠ Remote) ∧ (ranRemote demo_state = [tB] ∧ Exclusivity tB ≠ Local).
Proof.
  destruct (queue_exclusive 10 demo_state demo_reach) as [HL HM].
  split; (split; [vm_compute; reflexivity|]); [apply HL|apply HM]; vm_compute; left.
Defined.

Lemma queue_no_limbo_witness : is_Some (queue_step 10 (QPool false PPut) limbo_state).
Proof.
  apply (queue_no_limbo 10 limbo_state) with (ft := 0%nat) (t := tA); [|by vm_compute].
  apply after_run_reach; [done|by repeat constructor].
Defined.
