(* ===== verification/Telemetry.v ===== *)
(** * Telemetry entries: [pkg/consumerd/telemetry.go]

    The history buffer and the operations on lists of samples. Times are numbers and the
    zero [time.Time] is 0; the operations below only copy the [float64] values, whose type
    [V] is a parameter. [sort.Search] is the binary search of Go's standard library. *)
From S2P Require Import Prelude.

Inductive EntryKind : Set :=
  | Invalid | CompletedTasksLocal | CompletedTasksRemote | RunningTasks | QueuedTasks | DelegatedTasks.
#[export] Instance EntryKind_eq_dec : EqDecision EntryKind.
Proof. solve_decision. Defined.

Section entries.
Context {V : Type}.

Record Entry := mkEntry { X : Z; Y : V; Kind : EntryKind }.

Record History := mkHistory { recording : bool; history : list Entry }.

Definition RecordEntry (now : Z) (i : Entry) (t : History) : History :=
  if recording t then mkHistory true (history t ++ [mkEntry now (Y i) (Kind i)]) else t.
Definition Clear (t : History) : History := mkHistory (recording t) [].
Definition StopRecording (t : History) : History := mkHistory false (history t).

(** [Filter]. *)
Fixpoint Filter (include : Entry → bool) (e : list Entry) : list Entry :=
  match e with
  | [] => []
  | x :: e => if include x then x :: Filter include e else Filter include e
  end.

(** [sort.Search(n, f)] on the indices [i..j); [n] iterations are enough. *)
Fixpoint search (fuel : nat) (f : nat → bool) (i j : nat) : nat :=
  match fuel with
  | 0%nat => i
  | S fuel =>
      if (i <? j)%nat then
        let h := ((i + j) / 2)%nat in
        if f h then search fuel f i h else search fuel f (S h) j
      else i
  end.
Definition sort_Search (n : nat) (f : nat → bool) : nat := search n f 0 n.

(** [e[i].X] is at or after [t]. *)
Definition at_or_after (e : list Entry) (t : Z) (i : nat) : bool :=
  match e !! i with Some x => bool_decide (t ≤ X x) | None => false end.

Definition TimeRange (e : list Entry) (begin end_ : Z) : go (list Entry) :=
  if bool_decide (end_ < begin) then Panic "end must be after begin" else
  let startIndex :=
    if bool_decide (begin = 0) then 0 else Z.of_nat (sort_Search (length e) (at_or_after e begin)) in
  let endIndex :=
    if bool_decide (end_ = 0) then Z.of_nat (length e) - 1
    else Z.of_nat (sort_Search (length e) (at_or_after e end_)) in
  if bool_decide (0 ≤ startIndex ≤ endIndex)
  then Ret (take (Z.to_nat (endIndex - startIndex)) (drop (Z.to_nat startIndex) e))
  else Panic "slice bounds out of range".

(** ** Binary search *)

Lemma search_spec fuel f i j :
  (j - i ≤ fuel)%nat → (i ≤ j)%nat →
  (∀ a b, (a ≤ b < j)%nat → f a = true → f b = true) →
  let r := search fuel f i j in
  (i ≤ r ≤ j)%nat ∧ (∀ k, (i ≤ k < r)%nat → f k = false) ∧ (∀ k, (r ≤ k < j)%nat → f k = true).
Proof.
  revert i j. induction fuel as [|fuel IH]; intros i j Hf Hij Hm; cbn [search].
  { split_and!; intros; lia. }
  destruct (Nat.ltb_spec i j) as [Hlt|]; [|split_and!; intros; lia].
  set (h := ((i + j) / 2)%nat).
  assert (i ≤ h < j)%nat as Hh.
  { pose proof (Nat.div_mod_eq (i + j) 2). pose proof (Nat.mod_upper_bound (i + j) 2 ltac:(lia)).
    unfold h. lia. }
  clearbody h. destruct (f h) eqn:E.
  - destruct (IH i h) as (H1 & H2 & H3); [lia|lia|intros; eapply (Hm a); [lia|done]|].
    split_and!; [lia|lia|done|]. intros k Hk.
    destruct (decide (k < h)%nat); [apply H3; lia|apply (Hm h); [lia|done]].
  - destruct (IH (S h) j) as (H1 & H2 & H3); [lia|lia|intros; eapply (Hm a); [lia|done]|].
    split_and!; [lia|lia| |done]. intros k Hk.
    destruct (decide (k ≤ h)%nat); [|apply H2; lia].
    destruct (f k) eqn:Ek; [|done]. rewrite (Hm k h) in E; [done|lia|done].
Qed.

Definition sorted (e : list Entry) : Prop :=
  ∀ i j x y, (i ≤ j)%nat → e !! i = Some x → e !! j = Some y → X x ≤ X y.

(** In a sorted list the search splits the entries before and from [t] on. *)
Lemma search_split e t :
  sorted e →
  let r := sort_Search (length e) (at_or_after e t) in
  (r ≤ length e)%nat ∧
  (∀ k x, e !! k = Some x → (k < r)%nat ↔ X x < t).
Proof.
  intros Hs. destruct (search_spec (length e) (at_or_after e t) 0 (length e)) as (H1 & H2 & H3);
    [lia|lia| |].
  { intros a b Hab. unfold at_or_after.
    destruct (lookup_lt_is_Some_2 e a) as [x Hx]; [lia|]. destruct (lookup_lt_is_Some_2 e b) as [y Hy]; [lia|].
    rewrite Hx, Hy, !bool_decide_eq_true. pose proof (Hs a b x y ltac:(lia) Hx Hy). lia. }
  split; [unfold sort_Search; lia|]. intros k x Hk. fold (sort_Search (length e) (at_or_after e t)) in *.
  pose proof (lookup_lt_Some _ _ _ Hk).
  assert (at_or_after e t k = bool_decide (t ≤ X x)) as Ek by (unfold at_or_after; by rewrite Hk).
  destruct (decide (k < sort_Search (length e) (at_or_after e t))%nat).
  - specialize (H2 k ltac:(lia)). rewrite Ek in H2. apply bool_decide_eq_false in H2. lia.
  - specialize (H3 k ltac:(lia)). rewrite Ek in H3. apply bool_decide_eq_true in H3. lia.
Qed.

(** The middle part of a list, when a test holds exactly there. *)
Lemma filter_slice (p : Entry → bool) e a b :
  (a ≤ b)%nat → (b ≤ length e)%nat →
  (∀ k x, e !! k = Some x → p x = true ↔ (a ≤ k < b)%nat) →
  take (b - a) (drop a e) = Filter p e.
Proof.
  revert a b. induction e as [|x e IH]; intros a b Hab Hb Hp.
  - by rewrite drop_nil, take_nil.
  - pose proof (Hp 0%nat x eq_refl) as H0. cbn.
    assert (∀ a' b', (∀ k, (a ≤ S k < b ↔ a' ≤ k < b')%nat) → ∀ k y, e !! k = Some y →
      p y = true ↔ (a' ≤ k < b')%nat) as HP.
    { intros a' b' Hc k y Hy. rewrite <- Hc. by apply (Hp (S k)). }
    destruct a as [|a], b as [|b]; cbn in *.
    + assert (p x = false) as -> by (apply not_true_iff_false; rewrite H0; lia).
      change [] with (take (0 - 0) (drop 0 e)). apply (IH 0%nat 0%nat); [lia|lia|apply HP; lia].
    + rewrite (proj2 H0) by lia. f_equal. rewrite <- (IH 0%nat b); [by rewrite Nat.sub_0_r|lia|lia|].
      apply HP. lia.
    + lia.
    + assert (p x = false) as -> by (apply not_true_iff_false; rewrite H0; lia).
      apply IH; [lia|lia|apply HP; lia].
Qed.

(** On entries in time order, [TimeRange] with two real times, the first not after the
    second, returns exactly the entries in the half-open interval, as documented; its
    binary searches never go out of range. *)
Theorem TimeRange_spec (e : list Entry) (begin end_ : Z)
    (HS : sorted e) (HB : begin ≠ 0) (HE : end_ ≠ 0) (HL : begin ≤ end_) :
  TimeRange e begin end_ = Ret (Filter (λ x, bool_decide (begin ≤ X x < end_)) e).
Proof.
  unfold TimeRange. rewrite bool_decide_false by lia.
  rewrite (bool_decide_false (begin = 0)), (bool_decide_false (end_ = 0)) by done.
  destruct (search_split e begin HS) as [A1 A2]. destruct (search_split e end_ HS) as [B1 B2].
  revert A1 A2 B1 B2. generalize (sort_Search (length e) (at_or_after e begin)).
  generalize (sort_Search (length e) (at_or_after e end_)). intros b a A1 A2 B1 B2. cbn in *.
  assert (a ≤ b)%nat as Hab.
  { destruct (decide (a ≤ b)%nat); [done|]. destruct (lookup_lt_is_Some_2 e b) as [x Hx]; [lia|].
    specialize (A2 b x Hx). specialize (B2 b x Hx). lia. }
  rewrite bool_decide_true by lia. f_equal.
  replace (Z.to_nat (Z.of_nat b - Z.of_nat a)) with (b - a)%nat by lia. rewrite Nat2Z.id.
  apply filter_slice; [done|done|]. intros k x Hk. rewrite bool_decide_eq_true.
  specialize (A2 k x Hk). specialize (B2 k x Hk). lia.
Qed.

(** The zero times of [TimeRange] do not do what its comment says: a zero [end] with a
    real [begin] panics, as does any call with a zero [end] on no entries, and with two
    zero times the last entry is left out. *)
Theorem TimeRange_zero_end (e : list Entry) (begin : positive) (x : Entry) :
  TimeRange e (Zpos begin) 0 = Panic "end must be after begin" ∧
  TimeRange [] 0 0 = Panic "slice bounds out of range" ∧
  TimeRange (e ++ [x]) 0 0 = Ret e.
Proof.
  split_and!.
  - unfold TimeRange. by rewrite bool_decide_true by lia.
  - done.
  - unfold TimeRange. rewrite bool_decide_false by lia. rewrite !(bool_decide_true (0 = 0)) by done.
    rewrite length_app. cbn [length]. rewrite bool_decide_true by lia. rewrite drop_0. f_equal.
    replace (Z.to_nat _) with (length e) by lia. by rewrite take_app_length.
Qed.

End entries.

Definition samples : list (@Entry Z) := [mkEntry 1 10 QueuedTasks; mkEntry 2 20 QueuedTasks; mkEntry 4 30 QueuedTasks].

Lemma TimeRange_spec_witness :
  TimeRange samples 2 4 = Ret (Filter (λ x, bool_decide (2 ≤ X x < 4)) samples) ∧
  Filter (λ x, bool_decide (2 ≤ X x < 4)) samples = [mkEntry 2 20 QueuedTasks].
Proof.
  split; [|by vm_compute]. apply TimeRange_spec; [|lia..].
  intros i j x y Hij Hx Hy. unfold samples in *.
  destruct i as [|[|[|]]], j as [|[|[|]]]; simplify_eq/=; lia.
Defined.
