(* ===== verification/Toolchains.v ===== *)
(** * The toolchain store: [pkg/toolchains/store.go]

    A store maps the resolved path of a compiler to its toolchain, the modification time
    the data was read at, and the [Querier] that reads it. [Find] hands out pointers into
    the store and [UpdateIfNeeded] updates a toolchain through such a pointer, so that
    toolchains live in a heap. What the queriers answer at the moment of a call, and the
    symbolic links of the file system, are parameters. *)
From S2P Require Import Prelude Types.

(** A [Querier]: each method returns a value and an error; the error of [ModTime] may be
    a [*fs.PathError]. *)
Record Querier := mkQuerier {
  q_TargetArch : string → string * option error;
  q_Version : string → string * option error;
  q_IsPicDefault : string → bool * option error;
  q_Kind : string → ToolchainKind * option error;
  q_Lang : string → ToolchainLang * option error;
  q_ModTime : string → Z * option (bool * error);   (** [true]: a path error *)
}.

Definition WithMessage (e : error) (msg : string) : error := PlainError (msg +:+ ": " +:+ error_text e).

(** [fillInfo] assigns each answer, also the one that comes with an error. *)
Definition fillInfo (q : Querier) (tc : Toolchain) : Toolchain * option error :=
  let x := Executable tc in
  let '(arch, err) := q_TargetArch q x in
  let tc := mkToolchain (Kind tc) (Lang tc) x arch (Version tc) (PicDefault tc) (PieDefault tc) in
  match err with
  | Some e => (tc, Some (WithMessage e "Could not determine target arch"))
  | None =>
  let '(ver, err) := q_Version q x in
  let tc := mkToolchain (Kind tc) (Lang tc) x arch ver (PicDefault tc) (PieDefault tc) in
  match err with
  | Some e => (tc, Some (WithMessage e "Could not determine target version"))
  | None =>
  let '(pic, err) := q_IsPicDefault q x in
  let tc := mkToolchain (Kind tc) (Lang tc) x arch ver pic (PieDefault tc) in
  match err with
  | Some e => (tc, Some (WithMessage e "Could not determine compiler PIC defaults"))
  | None =>
  let '(kind, err) := q_Kind q x in
  let tc := mkToolchain kind (Lang tc) x arch ver pic (PieDefault tc) in
  match err with
  | Some e => (tc, Some (WithMessage e "Could not determine compiler kind (gcc/clang)"))
  | None =>
  let '(lang, err) := q_Lang q x in
  let tc := mkToolchain kind lang x arch ver pic (PieDefault tc) in
  match err with
  | Some e => (tc, Some (WithMessage e "Could not determine compiler language (c/cxx/multi)"))
  | None => (tc, None)
  end end end end end.

Section store.
(** The queriers of the program, what they answer now, and the file system's links. *)
Context {Q : Type} (ask : Q → Querier) (EvalSymlinks : string → option string).

Record toolchainData := mkData { d_toolchain : nat; d_modTime : Z; d_querier : Q }.

Record Store := mkStore {
  tc_heap : gmap nat Toolchain;            (** every toolchain object ever made *)
  toolchains : gmap string toolchainData;
}.

Definition NewStore : Store := mkStore ∅ ∅.

Definition evalPath (executable : string) : string := default executable (EvalSymlinks executable).

Definition Contains (executable : string) (s : Store) : bool :=
  bool_decide (is_Some (toolchains s !! evalPath executable)).

(** The pointer [Find] returns. *)
Definition Find (executable : string) (s : Store) : error + nat :=
  match toolchains s !! executable with
  | Some d => inr (d_toolchain d)
  | None =>
      match toolchains s !! evalPath executable with
      | Some d => inr (d_toolchain d)
      | None => inl (PlainError "Toolchain not found")
      end
  end.

(** [Add]; the object of a failed call is garbage. *)
Definition Add (executable : string) (q : Q) (s : Store) : Store * (error + nat) :=
  let executable := evalPath executable in
  if Contains executable s then (s, inl (PlainError "Tried to add an already existing toolchain"))
  else
    let '(tc, err) := fillInfo (ask q)
      (mkToolchain ToolchainKind_Unknown ToolchainLang_Unknown executable "" "" false false) in
    match err with
    | Some e => (s, inl e)
    | None =>
        match q_ModTime (ask q) executable with
        | (_, Some (_, e)) =>
            (s, inl (WithMessage e "Could not determine compiler modification time"))
        | (modTime, None) =>
            let ptr := fresh (dom (tc_heap s)) in
            (mkStore (<[ptr := tc]> (tc_heap s)) (<[executable := mkData ptr modTime q]> (toolchains s)),
             inr ptr)
        end
    end.

Definition Remove (executable : string) (s : Store) : Store :=
  mkStore (tc_heap s) (delete executable (toolchains s)).

(** [UpdateIfNeeded] on the toolchain object [ptr]: an entry that is missing is a nil
    pointer, dereferenced. *)
Definition UpdateIfNeeded (ptr : nat) (s : Store) : go (Store * (option error * bool)) :=
  match tc_heap s !! ptr with
  | None => Panic "invalid memory address or nil pointer dereference"
  | Some tc =>
      match toolchains s !! Executable tc with
      | None => Panic "invalid memory address or nil pointer dereference"
      | Some data =>
          let '(timestamp, err) := q_ModTime (ask (d_querier data)) (Executable tc) in
          match err with
          | Some (true, e) => Ret (Remove (Executable tc) s, (Some e, true))
          | _ =>
              if bool_decide (timestamp = d_modTime data) then Ret (s, (None, false))
              else
                let '(tc', err) := fillInfo (ask (d_querier data)) tc in
                let heap := <[ptr := tc']> (tc_heap s) in
                match err with
                | Some e => Ret (mkStore heap (toolchains s), (Some e, true))
                | None =>
                    Ret (mkStore heap (<[Executable tc := mkData (d_toolchain data) timestamp
                                                           (d_querier data)]> (toolchains s)),
                         (None, true))
                end
          end
      end
  end.

(** The toolchains of the store, in the order of their paths. *)
Definition ItemsList (s : Store) : list Toolchain :=
  omap (λ d, tc_heap s !! d_toolchain d) (map_to_list (toolchains s)).*2.

Definition store_Len (s : Store) : nat := size (toolchains s).

(** [TryMatch]; [items] is what the channel of [Items] yields, in Go's iteration order. *)
Definition TryMatch (items : list Toolchain) (other : option Toolchain) : error + Toolchain :=
  match List.find (λ tc, EquivalentTo (Some tc) other) items with
  | Some tc => inr tc
  | None => inl (PlainError "No local toolchain matches remote")
  end.

Definition Intersection (other s : Store) : list Toolchain :=
  tc ← ItemsList s;
  otherTc ← ItemsList other;
  if EquivalentTo (Some tc) (Some otherTc) then [tc] else [].

(** [Merge]: the loop over the other store's toolchains. *)
Fixpoint merge_items (other : Store) (tcs : list Toolchain) (s : Store) : go Store :=
  match tcs with
  | [] => Ret s
  | tc :: tcs =>
      if Contains (Executable tc) s then merge_items other tcs s
      else match toolchains other !! Executable tc with
           | None => Panic "invalid memory address or nil pointer dereference"
           | Some d => merge_items other tcs (Add (Executable tc) (d_querier d) s).1
           end
  end.
Definition Merge (other s : Store) : go Store := merge_items other (ItemsList other) s.

(** ** Well-formed stores

    Every entry points to an object whose path is the entry's key, and no two entries
    share an object. *)
Definition store_wf (s : Store) : Prop :=
  (∀ k d, toolchains s !! k = Some d → ∃ tc, tc_heap s !! d_toolchain d = Some tc ∧ Executable tc = k).

Lemma fillInfo_Executable q tc : Executable (fillInfo q tc).1 = Executable tc.
Proof. unfold fillInfo. by repeat case_match. Qed.

(** What the queriers say about a compiler. *)
Definition described (q : Querier) (x : string) (tc : Toolchain) : Prop :=
  Executable tc = x ∧ q_TargetArch q x = (TargetArch tc, None) ∧ q_Version q x = (Version tc, None) ∧
  q_IsPicDefault q x = (PicDefault tc, None) ∧ q_Kind q x = (Kind tc, None) ∧ q_Lang q x = (Lang tc, None).

Lemma fillInfo_described q tc tc' :
  fillInfo q tc = (tc', None) → described q (Executable tc) tc'.
Proof.
  unfold fillInfo, described. intros H. repeat (case_match; simplify_eq/=); by split_and!.
Qed.

Lemma Add_wf x q s : store_wf s → store_wf (Add x q s).1.
Proof.
  intros W. unfold Add. repeat (case_match; simplify_eq/=; try done).
  intros k d Hk. cbn in Hk. apply lookup_insert_Some in Hk as [[<- <-]|[Hne Hd]]; cbn.
  - rewrite lookup_insert_eq. eexists. split; [done|].
    match goal with E : fillInfo _ ?tc = _ |- _ =>
      pose proof (fillInfo_Executable (ask q) tc) as HE; rewrite E in HE end. done.
  - destruct (W k d Hd) as (tc & Ht & Hx). exists tc. split; [|done].
    rewrite lookup_insert_ne; [done|]. intros HF.
    apply (is_fresh (dom (tc_heap s))). rewrite HF. apply elem_of_dom. by exists tc.
Qed.

(** A toolchain that [Find] does not know can be added and is then found: after a
    successful [Add], [Find] on the same path returns the new object, which holds exactly
    what the querier says about the resolved path; the other entries and objects stay as
    they were and the store stays well formed. A second [Add] of the resolved path is
    refused. *)
Theorem Add_Find (x : string) (q : Q) (s s' : Store) (ptr : nat) (HW : store_wf s)
    (HP : evalPath (evalPath x) = evalPath x)
    (HN : Find x s = inl (PlainError "Toolchain not found")) (HA : Add x q s = (s', inr ptr)) :
  Find x s' = inr ptr ∧
  (∃ tc, tc_heap s' !! ptr = Some tc ∧ described (ask q) (evalPath x) tc) ∧
  (∀ y, y ≠ evalPath x → toolchains s' !! y = toolchains s !! y) ∧
  (∀ p tc, tc_heap s !! p = Some tc → tc_heap s' !! p = Some tc) ∧
  store_wf s' ∧
  Add x q s' = (s', inl (PlainError "Tried to add an already existing toolchain")).
Proof.
  pose proof (Add_wf x q s HW) as HW'. rewrite HA in HW'. cbn in HW'.
  unfold Add in HA. cbn zeta in HA. destruct (Contains (evalPath x) s) eqn:EC; [done|].
  destruct (fillInfo _ _) as [tc [e|]] eqn:EF; [done|].
  destruct (q_ModTime _ _) as [t [[b e]|]]; [done|]. injection HA as <- <-.
  assert (toolchains s !! x = None) as Hx by (unfold Find in HN; by repeat case_match).
  split_and!.
  - unfold Find. cbn. destruct (decide (evalPath x = x)) as [->|Hne].
    + by rewrite lookup_insert_eq.
    + rewrite lookup_insert_ne, Hx by done. by rewrite lookup_insert_eq.
  - exists tc. cbn. rewrite lookup_insert_eq. split; [done|]. by apply fillInfo_described in EF.
  - intros y Hy. cbn. by rewrite lookup_insert_ne.
  - intros p tc' Hp. cbn. rewrite lookup_insert_ne; [done|]. intros HF.
    apply (is_fresh (dom (tc_heap s))). rewrite HF. apply elem_of_dom. by exists tc'.
  - exact HW'.
  - unfold Add. cbn zeta. unfold Contains. rewrite HP. cbn. rewrite lookup_insert_eq.
    by rewrite bool_decide_true by by eexists.
Qed.

(** Updating an object in place keeps the store well formed. *)
Lemma update_heap_wf s ptr tc tc' :
  store_wf s → tc_heap s !! ptr = Some tc → Executable tc' = Executable tc →
  store_wf (mkStore (<[ptr := tc']> (tc_heap s)) (toolchains s)).
Proof.
  intros W Hp He k d Hd. destruct (W k d Hd) as (t & Ht & Hk). cbn.
  destruct (decide (ptr = d_toolchain d)) as [->|Hne].
  - rewrite lookup_insert_eq. exists tc'. split; [done|]. congruence.
  - rewrite lookup_insert_ne by done. by exists t.
Qed.

Lemma Remove_wf x s : store_wf s → store_wf (Remove x s).
Proof. intros W k d Hd. cbn in Hd. apply lookup_delete_Some in Hd as [_ Hd]. by apply W. Qed.

(** C38: [UpdateIfNeeded] on a toolchain of the store never dereferences a missing entry and
    does what its comment says: it reports no update exactly when the executable is there
    with the modification time that was stored, and then changes nothing; when it updates,
    the time was another one, the object holds what the querier says now and a second call
    finds nothing to do; when it returns an error, either the executable is gone and the
    entry removed, or the time was another one, the new data could not be read and the next
    call will try again. *)
Theorem UpdateIfNeeded_spec (k : string) (d : toolchainData) (s : Store)
    (HW : store_wf s) (HD : toolchains s !! k = Some d) :
  ∃ s' err updated, UpdateIfNeeded (d_toolchain d) s = Ret (s', (err, updated)) ∧ store_wf s' ∧
    match err, updated with
    | None, false =>
        s' = s ∧ (q_ModTime (ask (d_querier d)) k).1 = d_modTime d ∧
        ∀ e, (q_ModTime (ask (d_querier d)) k).2 ≠ Some (true, e)
    | None, true =>
        (q_ModTime (ask (d_querier d)) k).1 ≠ d_modTime d ∧
        (∀ e, (q_ModTime (ask (d_querier d)) k).2 ≠ Some (true, e)) ∧
        (∃ tc, tc_heap s' !! d_toolchain d = Some tc ∧ described (ask (d_querier d)) k tc) ∧
        UpdateIfNeeded (d_toolchain d) s' = Ret (s', (None, false))
    | Some e, _ =>
        updated = true ∧
        ((toolchains s' = delete k (toolchains s) ∧ (q_ModTime (ask (d_querier d)) k).2 = Some (true, e)) ∨
         (toolchains s' = toolchains s ∧ (q_ModTime (ask (d_querier d)) k).1 ≠ d_modTime d))
    end.
Proof.
  destruct (HW k d HD) as (tc & Ht & Hx). unfold UpdateIfNeeded at 1. rewrite Ht, Hx, HD.
  destruct (q_ModTime _ _) as [t err] eqn:EM. destruct (fillInfo (ask (d_querier d)) tc) as [tc' e'] eqn:EF.
  pose proof (fillInfo_Executable (ask (d_querier d)) tc) as HE. rewrite EF in HE. cbn in HE.
  pose proof (update_heap_wf s _ _ tc' HW Ht HE) as HU.
  destruct err as [[[] e]|].
  { do 3 eexists. split; [done|]. split; [by apply Remove_wf|]. split; [done|]. by left. }
  all: case_bool_decide as ET; [by do 3 eexists; split_and!|].
  all: destruct e' as [e''|]; do 3 eexists; (split; [done|]); (split; [|split_and!; auto]); auto.
  all: try (intros k' d' Hd'; cbn in Hd'; apply lookup_insert_Some in Hd' as [[<- <-]|[_ Hd']];
            [by eapply (HU k d)|by eapply (HU k' d')]).
  all: try (exists tc'; cbn; rewrite lookup_insert_eq; split; [done|]; apply fillInfo_described in EF; congruence).
  all: unfold UpdateIfNeeded; cbn; rewrite lookup_insert_eq, HE, Hx, lookup_insert_eq; cbn;
       rewrite EM; by rewrite bool_decide_true.
Qed.

(** [TryMatch] finds a toolchain exactly when an equivalent one is in the store. *)
Lemma TryMatch_spec items other s :
  items ≡ₚ ItemsList s →
  match TryMatch items other with
  | inr tc => tc ∈ ItemsList s ∧ EquivalentTo (Some tc) other = true
  | inl _ => ∀ tc, tc ∈ ItemsList s → EquivalentTo (Some tc) other = false
  end.
Proof.
  intros HP. unfold TryMatch. destruct (List.find _ _) eqn:E.
  - apply List.find_some in E. by rewrite <- list_elem_of_In, HP in E.
  - intros tc Ht. apply (List.find_none _ _ E). apply list_elem_of_In. by rewrite HP.
Qed.
End store.

(** ** A compiler that is upgraded *)

Definition gcc_querier (version : string) (time : Z) : Querier :=
  mkQuerier (λ _, ("x86_64"%string, None)) (λ _, (version, None)) (λ _, (true, None))
    (λ _, (Gnu, None)) (λ _, (C, None)) (λ _, (time, None)).
Definition links (x : string) : option string :=
  if bool_decide (x = "/usr/bin/gcc"%string) then Some "/usr/bin/gcc-10"%string else None.
Definition ask_old (_ : unit) : Querier := gcc_querier "10" 1.
Definition ask_new (_ : unit) : Querier := gcc_querier "11" 2.
Definition gcc_store : Store := (Add ask_old links "/usr/bin/gcc" tt NewStore).1.

Lemma Add_Find_witness : Find links "/usr/bin/gcc" gcc_store = inr 0%nat.
Proof.
  apply (Add_Find ask_old links "/usr/bin/gcc" tt NewStore gcc_store 0).
  - intros k d Hd. cbn in Hd. by rewrite lookup_empty in Hd.
  - reflexivity.
  - reflexivity.
  - vm_compute. reflexivity.
Defined.

Lemma UpdateIfNeeded_spec_witness :
  ∃ s' err updated, UpdateIfNeeded ask_new 0 gcc_store = Ret (s', (err, updated)) ∧ updated = true ∧ err = None.
Proof.
  destruct (UpdateIfNeeded_spec ask_new "/usr/bin/gcc-10" (mkData 0 1 tt) gcc_store) as (s' & err & u & H & _).
  - apply Add_wf. intros k d Hd. cbn in Hd. by rewrite lookup_empty in Hd.
  - vm_compute. reflexivity.
  - exists s', err, u. split; [exact H|]. vm_compute in H. by injection H as <- <- <-.
Defined.
