(* ===== verification/Consumerd.v ===== *)
(** * Running a request: [pkg/consumerd/server.go]

    [Run] is what a compiler invocation on a developer's machine becomes: look up the
    compiler's toolchain, parse its arguments, and queue a task that is run locally or by
    the cluster, again and again while the scheduler asks to retry. The worlds in which
    the attempts run ([hosts]), the choices of the split queue ([picks], constrained by
    [SplitQueue.queue_exclusive]) and the request ids are parameters; the attempts are the
    request managers of [CcController]. *)
From S2P Require Import Prelude Types CcArgs CcController SplitQueue Toolchains.

Section consumerd.
Context {Q : Type} (ask : Q → Querier) (EvalSymlinks : string → option string) (ExecQuerier : Q).

Definition set_Compiler (tc : option Toolchain) (req : RunRequest) : RunRequest :=
  mkRunRequest (RunRequest_Toolchain tc) (RunArgs req) (UID req) (GID req) (WorkDir req) (Env req)
    (Stdin req).

Definition GetPath (req : RunRequest) : string :=
  match Compiler req with RunRequest_Path p => p | _ => "" end.

(** [applyToolchainToReq]: the store, the request with its toolchain (the deferred
    assignment), the error, and whether an update of the store is announced. [errors.As]
    with a target of type [*fs.PathError] panics whatever the error is, because the
    struct itself is not an [error]. *)
Definition applyToolchainToReq (req : RunRequest) (s : Store) :
    go (@Store Q * RunRequest * option error * bool) :=
  if bool_decide (GetPath req = "") then
    Ret (s, req, Some (StatusError InvalidArgument "No compiler path given"), false)
  else
    match Find EvalSymlinks (GetPath req) s with
    | inl _ =>
        match Add ask EvalSymlinks (GetPath req) ExecQuerier s with
        | (s, inl e) =>
            Ret (s, set_Compiler None req,
                 Some (StatusError InvalidArgument
                         (error_text (WithMessage e "Could not add toolchain"))), false)
        | (s, inr ptr) => Ret (s, set_Compiler (tc_heap s !! ptr) req, None, true)
        end
    | inr ptr =>
        '(s, (err, updated)) ← UpdateIfNeeded ask ptr s;
        match err with
        | Some _ => Panic "errors: *target must be interface or implement error"
        | None => Ret (s, set_Compiler (tc_heap s !! ptr) req, None, updated)
        end
    end.

(** The kinds with a runner, for a server whose options give it the runners of the cc
    controller ([AddToStore]); those of the sleep toolchain, a test tool, are left out. *)
Definition tcRunStore (k : ToolchainKind) : bool :=
  match k with Gnu | Clang => true | _ => false end.

(** ** The retry loop *)

Section attempts.
Context (hosts : nat → Host) (ids : nat → string) (picks : nat → SplitTaskLocation).

(** Where attempt [n] runs: the queue chooses, unless the task is exclusive. *)
Definition placed (n : nat) (exclusivity : SplitTaskLocation) : SplitTaskLocation :=
  match exclusivity with
  | LocUnknown => match picks n with Remote => Remote | _ => Local end
  | l => l
  end.

(** Attempt [n], on a copy of the argument parser. *)
Definition attempt (n : nat) (where_ : SplitTaskLocation) (ap : ArgParser) (req : RunRequest) :
    go (list event * (error + RunResponse)) :=
  let tmpArgParser := DeepCopy ap in
  match where_ with
  | Remote => send_Process (hosts n) (ids n) tmpArgParser req
  | _ => local_Process (hosts n) tmpArgParser req
  end.

(** The [for] loop of [Run] from attempt [n]: the events of all attempts and the answer;
    [None] when [fuel] attempts were not enough. *)
Fixpoint run_loop (fuel n : nat) (exclusivity : SplitTaskLocation) (ap : ArgParser) (req : RunRequest) :
    go (list event * option (error + RunResponse)) :=
  match fuel with
  | 0%nat => Ret ([], None)
  | S fuel =>
      '(ev, res) ← attempt n (placed n exclusivity) ap req;
      match res with
      | inr resp => Ret (ev, Some (inr resp))
      | inl err =>
          if bool_decide (err = ErrNoAgentsRetry) then
            '(ev', r) ← run_loop fuel (S n) exclusivity ap req; Ret (ev ++ ev', r)
          else if bool_decide (err = ErrNoAgentsRunLocal) then
            '(ev', r) ← run_loop fuel (S n) Local ap req; Ret (ev ++ ev', r)
          else Ret (ev, Some (inl err))
      end
  end.

(** [Run]; [ctxErr] is the result of [meta.CheckContext]. *)
Definition Run (fuel : nat) (ctxErr : option error) (req : RunRequest) (s : Store) :
    go (@Store Q * list event * option (error + RunResponse)) :=
  match ctxErr with
  | Some e => Ret (s, [], Some (inl e))
  | None =>
      '(s, req, err, _) ← applyToolchainToReq req s;
      match err with
      | Some e => Ret (s, [], Some (inl e))
      | None =>
          if bool_decide (UID req = 0) || bool_decide (GID req = 0) then
            Ret (s, [], Some (inl (StatusError InvalidArgument "UID or GID cannot be 0")))
          else if negb (tcRunStore (GetKind (RunRequest_GetToolchain req))) then
            Ret (s, [], Some (inl (StatusError Unavailable "No toolchain runner available")))
          else
            ap ← Parse (NewArgParser (RunArgs req));
            let exclusivity := if CanRunRemote ap then LocUnknown else Local in
            '(ev, r) ← run_loop fuel 0 exclusivity ap req;
            Ret (s, ev, r)
      end
  end.

(** ** Properties of the loop *)

(** The operating system's errors are not the two sentinel errors of [pkg/run]. *)
Definition host_errors : Prop :=
  ∀ n cmd e, exec (hosts n) cmd = StartFailed e →
    PlainError e ≠ ErrNoAgentsRetry ∧ PlainError e ≠ ErrNoAgentsRunLocal.

(** A local attempt runs one command, sends nothing, and never asks for another attempt. *)
Lemma local_attempt n ap req ev res :
  host_errors → local_Process (hosts n) ap req = Ret (ev, res) →
  (∃ cmd, ev = [EvRun cmd]) ∧ res ≠ inl ErrNoAgentsRetry ∧ res ≠ inl ErrNoAgentsRunLocal.
Proof.
  intros HE H. unfold local_Process in H. apply go_bind_Ret_inv in H as (r & Hr & [= <- <-]).
  unfold compileTask_Run in Hr. apply go_bind_Ret_inv in Hr as (? & _ & Hr).
  unfold compile_output in Hr. cbn [opt_NoTempFile negb] in Hr. rewrite !andb_false_r in Hr.
  cbn in Hr. apply go_bind_Ret_inv in Hr as (p & _ & Hr).
  destruct (exec _ _) as [e|out e [y|]] eqn:Ex; injection Hr as <-; cbn; (split; [by eexists|]).
  - destruct (HE _ _ _ Ex). split; congruence.
  - done.
  - done.
Qed.

(** An exclusively local request takes one attempt. *)
Lemma run_loop_local fuel n ap req :
  host_errors →
  run_loop (S fuel) n Local ap req =
    ('(ev, res) ← local_Process (hosts n) (DeepCopy ap) req; Ret (ev, Some res)).
Proof.
  intros HE. cbn [run_loop]. unfold attempt, placed.
  destruct (local_Process (hosts n) (DeepCopy ap) req) as [[ev res]|w] eqn:EL; [|done]. cbn.
  apply local_attempt in EL as (_ & H1 & H2); [|done].
  destruct res as [err|resp]; [|done]. rewrite !bool_decide_false by congruence. done.
Qed.

(** What [applyToolchainToReq] leaves unchanged. *)
Lemma applyToolchain_req req s s' req' u :
  applyToolchainToReq req s = Ret (s', req', None, u) → ∃ tc, req' = set_Compiler tc req.
Proof.
  unfold applyToolchainToReq. intros H. case_bool_decide; [done|].
  destruct (Find _ _ _); [destruct (Add _ _ _ _ _) as [? [|]]; simplify_eq; by eexists|].
  apply go_bind_Ret_inv in H as ([? [[] ?]] & _ & H); [done|]. simplify_eq. by eexists.
Qed.

(** The toolchain it finds or adds is the one of the path that was given, or of what the path
    resolves to. *)
Lemma applyToolchain_executable req s s' req' u :
  store_wf s → applyToolchainToReq req s = Ret (s', req', None, u) →
  ∃ tc, RunRequest_GetToolchain req' = Some tc ∧
    (Executable tc = GetPath req ∨ Executable tc = evalPath EvalSymlinks (GetPath req)).
Proof.
  intros HW. unfold applyToolchainToReq. case_bool_decide as Hp; [done|]. intros H.
  destruct (Find EvalSymlinks (GetPath req) s) as [e|ptr] eqn:EF.
  - destruct (Add ask EvalSymlinks (GetPath req) ExecQuerier s) as [s1 [e1|ptr]] eqn:EA; [done|]. simplify_eq. cbn.
    unfold Add in EA. cbn zeta in EA. destruct (Contains _ _ _); [done|].
    destruct (fillInfo _ _) as [tc [e1|]] eqn:EI; [done|]. destruct (q_ModTime _ _) as [t [[b e1]|]]; [done|].
    injection EA as <- <-. cbn. rewrite lookup_insert_eq. exists tc. split; [done|]. right.
    apply fillInfo_described in EI as [-> _]. done.
  - assert (∃ k d, toolchains s !! k = Some d ∧ d_toolchain d = ptr ∧
      (k = GetPath req ∨ k = evalPath EvalSymlinks (GetPath req))) as (k & d & Hd & <- & Hk).
    { unfold Find in EF. repeat case_match; simplify_eq; eauto 10. }
    destruct (HW k d Hd) as (tc & Ht & Hx).
    apply go_bind_Ret_inv in H as ([s1 [[e|] up]] & HU & H); [done|]. simplify_eq. cbn. unfold UpdateIfNeeded in HU.
    rewrite Ht, Hd in HU. pose proof (fillInfo_Executable (ask (d_querier d)) tc) as HE.
    destruct (fillInfo (ask (d_querier d)) tc) as [tc' e'] eqn:EI. cbn in HE.
    repeat (case_match; simplify_eq/=; try done); rewrite ?lookup_insert_eq; eexists; (split; [done|]);
      rewrite ?HE; destruct Hk; auto.
Qed.

(** [Run] answers at once, or runs the loop on the parsed arguments. *)
Lemma Run_inv fuel ctxErr req s s' ev r ap :
  Run fuel ctxErr req s = Ret (s', ev, r) → Parse (NewArgParser (RunArgs req)) = Ret ap →
  (ev = [] ∧ is_Some r) ∨
  ∃ tc, run_loop fuel 0 (if CanRunRemote ap then LocUnknown else Local) ap (set_Compiler tc req) = Ret (ev, r).
Proof.
  unfold Run. intros H HP. destruct ctxErr as [e|]; [simplify_eq; left; by eauto|].
  apply go_bind_Ret_inv in H as ([[[s1 req1] [e|]] u] & HA & H); [simplify_eq; left; by eauto|].
  destruct (applyToolchain_req _ _ _ _ _ HA) as [tc ->].
  destruct (_ || _); [simplify_eq; left; by eauto|]. destruct (negb _); [simplify_eq; left; by eauto|].
  cbn [RunArgs set_Compiler] in H. rewrite HP in H. cbn in H.
  apply go_bind_Ret_inv in H as ([ev' r'] & HL & [= _ <- <-]). right. by exists tc.
Qed.

(** ** Requests that stay on this machine *)

(** The request passes all checks, and [tc] is its toolchain. *)
Definition accepted (ctxErr : option error) (req : RunRequest) (s : Store) (tc : Toolchain) : Prop :=
  ctxErr = None ∧ UID req ≠ 0 ∧ GID req ≠ 0 ∧ tcRunStore (Kind tc) = true ∧
  ∃ s' req' u, applyToolchainToReq req s = Ret (s', req', None, u) ∧ RunRequest_GetToolchain req' = Some tc.

(** The command of a local compile, and the answer made of how it ended. *)
Definition local_command (tc : Toolchain) (ap : ArgParser) (req : RunRequest) : Cmd :=
  mkCmd (Executable tc) (Args ap) (Env req) (WorkDir req) (Stdin req).
Definition local_answer (o : ExecOutcome) : error + RunResponse :=
  match o with
  | StartFailed e => inl (PlainError e)
  | Exited out err None => inr (mkRunResponse 0 out err)
  | Exited out err (Some _) => inr (mkRunResponse 1 out err)
  end.

Lemma local_Process_eq h ap req tc :
  RunRequest_GetToolchain req = Some tc →
  local_Process h ap req = Ret ([EvRun (local_command tc ap req)], local_answer (exec h (local_command tc ap req))).
Proof.
  intros Htc. unfold local_Process, compileTask_Run, compile_output, local_command. rewrite Htc.
  cbn [opt_NoTempFile negb]. rewrite !andb_false_r. cbn. by destruct (exec h _) as [|? ? []].
Qed.

Lemma accepted_executable ctxErr req s tc :
  store_wf s → accepted ctxErr req s tc →
  Executable tc = GetPath req ∨ Executable tc = evalPath EvalSymlinks (GetPath req).
Proof.
  intros HW (_ & _ & _ & _ & s' & req' & u & HA & Ht).
  destruct (applyToolchain_executable _ _ _ _ _ HW HA) as (tc' & Ht' & Hx). congruence.
Qed.

(** An accepted request that cannot run remotely is one command. *)
Lemma Run_accepted fuel ctxErr req s tc ap :
  host_errors → Parse (NewArgParser (RunArgs req)) = Ret ap → CanRunRemote ap = false →
  accepted ctxErr req s tc →
  ∃ s', Run (S fuel) ctxErr req s = Ret (s', [EvRun (local_command tc ap req)],
                                         Some (local_answer (exec (hosts 0) (local_command tc ap req)))).
Proof.
  intros HE HP HC (-> & HU & HG & HK & s' & req' & u & HA & Ht). exists s'. unfold Run. rewrite HA. cbn [mbind go_bind].
  destruct (applyToolchain_req _ _ _ _ _ HA) as [otc ->]. cbn in Ht. subst otc. cbn [UID GID RunArgs set_Compiler].
  rewrite !bool_decide_false by done. cbn [orb].
  assert (tcRunStore (GetKind (RunRequest_GetToolchain (set_Compiler (Some tc) req))) = true) as -> by exact HK.
  rewrite HP. cbn [negb mbind go_bind]. rewrite HC, run_loop_local by done.
  by rewrite (local_Process_eq _ _ (set_Compiler (Some tc) req) tc eq_refl).
Qed.

(** Every other request is refused before anything runs. *)
Lemma Run_refused fuel ctxErr req s s' ev r :
  (∀ tc, ¬ accepted ctxErr req s tc) → Run fuel ctxErr req s = Ret (s', ev, r) → ev = [] ∧ ∃ e, r = Some (inl e).
Proof.
  intros HN H. unfold Run in H. destruct ctxErr as [e|]; [simplify_eq; by eauto|].
  apply go_bind_Ret_inv in H as ([[[s1 req1] [e|]] u] & HA & H); [simplify_eq; by eauto|].
  destruct (applyToolchain_req _ _ _ _ _ HA) as [otc ->]. cbn [UID GID set_Compiler] in H.
  do 2 (case_bool_decide; cbn [orb] in H; [simplify_eq; by eauto|]).
  destruct (tcRunStore _) eqn:EK; cbn [negb] in H; [|simplify_eq; by eauto].
  destruct otc as [tc|]; [|by cbn in EK]. destruct (HN tc). split_and!; [done..|]. by exists s1, (set_Compiler (Some tc) req), u.
Qed.

(** C8: A request that cannot run remotely is compiled on this machine, whatever the queue
    and the scheduler do. When it passes the checks (context, user and group not zero, a
    toolchain found or added for its path and unchanged or updated, a runner for its kind),
    [Run] makes exactly one attempt: one command, whose executable is the given path or what
    it resolves to, with the parsed arguments and the directory, environment and input of
    the request; it sends nothing, and it returns what that command ended with (code 1 for
    every failure). When it does not pass them and the daemon does not crash (which
    [applyToolchain_panics] is about), nothing is run and an error is returned. The store of
    toolchains is one that [Add] and [UpdateIfNeeded] made. *)
Theorem Run_local_only (fuel : nat) (ctxErr : option error) (req : RunRequest) (s : Store)
    (ap : ArgParser) (HE : host_errors) (HW : store_wf s)
    (HP : Parse (NewArgParser (RunArgs req)) = Ret ap) (HC : CanRunRemote ap = false) :
  (∀ tc, accepted ctxErr req s tc →
     (∃ s', Run (S fuel) ctxErr req s = Ret (s', [EvRun (local_command tc ap req)],
                                             Some (local_answer (exec (hosts 0) (local_command tc ap req))))) ∧
     (Executable tc = GetPath req ∨ Executable tc = evalPath EvalSymlinks (GetPath req))) ∧
  ((∀ tc, ¬ accepted ctxErr req s tc) →
   ∀ s' ev r, Run (S fuel) ctxErr req s = Ret (s', ev, r) → ev = [] ∧ ∃ e, r = Some (inl e)).
Proof.
  split; [|intros HN s' ev r; by apply Run_refused]. intros tc Ha. split; [by apply Run_accepted|].
  by apply accepted_executable in Ha.
Qed.

(** The answer of attempt [n] of a request that may run anywhere is "retry". *)
Definition asks_retry (n : nat) (ap : ArgParser) (req : RunRequest) : Prop :=
  ∃ ev, attempt n (placed n LocUnknown) ap req = Ret (ev, inl ErrNoAgentsRetry).

Lemma run_loop_terminates fuel n m ap req ev r :
  host_errors → ¬ asks_retry (n + m) ap req → (m + 2 ≤ fuel)%nat →
  run_loop fuel n LocUnknown ap req = Ret (ev, r) → is_Some r.
Proof.
  intros HE HM HF HR. revert n ev r fuel HF HM HR. induction m as [|m IH]; intros n ev r [|fuel] HF HM HR; try lia;
    cbn [run_loop] in HR; apply go_bind_Ret_inv in HR as ([ev1 res] & HA & HR);
    (destruct res as [err|resp]; [|injection HR as _ <-; by eexists]);
    case_bool_decide as E1; subst.
  - destruct HM. rewrite Nat.add_0_r. by exists ev1.
  - case_bool_decide; [|injection HR as _ <-; by eexists].
    apply go_bind_Ret_inv in HR as ([ev2 r2] & HL & [= _ <-]).
    destruct fuel; [lia|]. rewrite run_loop_local in HL by done.
    apply go_bind_Ret_inv in HL as ([? ?] & _ & [= _ <-]). by eexists.
  - apply go_bind_Ret_inv in HR as ([ev2 r2] & HL & [= _ <-]).
    eapply (IH (S n)); [|by rewrite Nat.add_succ_comm|exact HL]. lia.
  - case_bool_decide; [|injection HR as _ <-; by eexists].
    apply go_bind_Ret_inv in HR as ([ev2 r2] & HL & [= _ <-]).
    destruct fuel; [lia|]. rewrite run_loop_local in HL by done.
    apply go_bind_Ret_inv in HL as ([? ?] & _ & [= _ <-]). by eexists.
Qed.

(** C9: [Run] terminates as soon as the scheduler stops asking for retries: if attempt [m]
    does not end with "retry", [Run] answers after at most two attempts more (the second
    one when the scheduler says "run locally"). *)
Theorem Run_terminates (m fuel : nat) (ctxErr : option error) (req : RunRequest) (s s' : Store)
    (ap : ArgParser) (ev : list event) (r : option (error + RunResponse)) (HE : host_errors)
    (HP : Parse (NewArgParser (RunArgs req)) = Ret ap)
    (HM : ∀ tc, ¬ asks_retry m ap (set_Compiler tc req)) (HF : (m + 2 ≤ fuel)%nat)
    (HR : Run fuel ctxErr req s = Ret (s', ev, r)) : is_Some r.
Proof.
  destruct (Run_inv _ _ _ _ _ _ _ _ HR HP) as [[-> ?]|[tc HL]]; [done|].
  destruct (CanRunRemote ap).
  - by eapply (run_loop_terminates fuel 0 m); [|apply (HM tc)| |].
  - destruct fuel; [lia|]. rewrite run_loop_local in HL by done.
    apply go_bind_Ret_inv in HL as ([? ?] & _ & [= _ <-]). by eexists.
Qed.
End attempts.
End consumerd.

(** A compiler that was removed or broken since the last request crashes the request:
    whenever [UpdateIfNeeded] returns an error for the toolchain [Find] returned,
    [applyToolchainToReq] panics in [errors.As] instead of returning its status error. *)
Theorem applyToolchain_panics {Q : Type} (ask : Q → Querier) (EvalSymlinks : string → option string)
    (q : Q) (req : RunRequest) (s s' : Store) (ptr : nat) (e : error) (u : bool)
    (HP : GetPath req ≠ "") (HF : Find EvalSymlinks (GetPath req) s = inr ptr)
    (HU : UpdateIfNeeded ask ptr s = Ret (s', (Some e, u))) :
  applyToolchainToReq ask EvalSymlinks q req s =
    Panic "errors: *target must be interface or implement error".
Proof. unfold applyToolchainToReq. rewrite bool_decide_false by done. rewrite HF, HU. done. Qed.

(** ** Witnesses: a scheduler that asks to retry, and a queue that then runs locally *)

Definition answering (a : RetryAction) : Host :=
  mkHost (exec ok_host) (stat ok_host) (mkdirAll ok_host) (mkdirTemp ok_host) (createTemp ok_host)
    (create ok_host) (copy_to ok_host) (readFile ok_host) (openFile ok_host)
    (λ r, inr (mkCompileResponse (RequestID r) CompileResponse_Retry (DataRetryAction a))).
Definition retry_hosts (n : nat) : Host :=
  match n with 0%nat => answering Retry | _ => answering DoNotRetry end.
Definition remote_first (n : nat) : SplitTaskLocation := match n with 0%nat => Remote | _ => Local end.
Definition gcc_request (args : list string) : RunRequest :=
  mkRunRequest (RunRequest_Path "/usr/bin/gcc") args 1000 1000 "/work" [] "".
Definition run_gcc (fuel : nat) (args : list string) :=
  Run ask_old links tt retry_hosts (λ _, "id"%string) remote_first fuel None (gcc_request args) gcc_store.
Definition parsed (args : list string) : ArgParser :=
  match Parse (NewArgParser args) with Ret ap => ap | Panic _ => NewArgParser args end.
Definition events_of {A B : Type} (m : go (A * list event * B)) : list event :=
  match m with Ret (_, ev, _) => ev | Panic _ => [] end.

Lemma ok_host_errors : host_errors retry_hosts.
Proof. intros [|n] cmd e H; discriminate H. Qed.

Lemma gcc_store_wf : store_wf gcc_store.
Proof. apply Add_wf. intros k d Hd. discriminate Hd. Qed.

Definition gcc_found : Toolchain := mkToolchain Gnu C "/usr/bin/gcc-10" "x86_64" "10" true false.

Lemma Run_local_only_witness :
  ∃ s', run_gcc 1 ["-E"; "a.c"] =
    Ret (s', [EvRun (mkCmd "/usr/bin/gcc-10" ["-E"; "a.c"] [] "/work" "")], Some (inr (mkRunResponse 0 "int x;" ""))).
Proof.
  refine (proj1 (proj1 (Run_local_only ask_old links tt retry_hosts (λ _, "id"%string) remote_first 0 None
    (gcc_request ["-E"; "a.c"]) gcc_store (parsed ["-E"; "a.c"]) ok_host_errors gcc_store_wf _ _) gcc_found _));
    [vm_compute; reflexivity..|].
  split_and!; [done..|]. do 3 eexists. split; vm_compute; reflexivity.
Defined.

Definition c_args : list string := ["-c"; "a.c"; "-o"; "a.o"]%string.

Lemma Run_terminates_witness :
  length (events_of (run_gcc 3 c_args)) = 3%nat ∧
  run_gcc 3 c_args = Ret (gcc_store, events_of (run_gcc 3 c_args),
                          Some (inr (mkRunResponse 0 "int x;" ""))) ∧
  is_Some (Some (@inr error RunResponse (mkRunResponse 0 "int x;" ""))).
Proof.
  assert (run_gcc 3 c_args = Ret (gcc_store, events_of (run_gcc 3 c_args),
    Some (inr (mkRunResponse 0 "int x;" "")))) as E by (vm_compute; reflexivity).
  split; [vm_compute; reflexivity|]. split; [exact E|].
  apply (Run_terminates ask_old links tt retry_hosts (λ _, "id"%string) remote_first 1 3 None
    (gcc_request c_args) gcc_store gcc_store (parsed c_args)
    (events_of (run_gcc 3 c_args)) _ ok_host_errors).
  - vm_compute. reflexivity.
  - intros tc [ev H]. destruct (local_attempt retry_hosts 1 _ _ _ _ ok_host_errors H) as (_ & H1 & _).
    by apply H1.
  - lia.
  - exact E.
Defined.

Lemma applyToolchain_panics_witness :
  applyToolchainToReq (λ _ : unit, mkQuerier (λ _, (""%string, None)) (λ _, (""%string, None))
      (λ _, (false, None)) (λ _, (Gnu, None)) (λ _, (C, None))
      (λ _, (0, Some (true, PlainError "no such file")))) links tt (gcc_request c_args) gcc_store =
    Panic "errors: *target must be interface or implement error".
Proof.
  eapply applyToolchain_panics; [done|vm_compute; reflexivity|vm_compute; reflexivity].
Defined.
