(* ===== verification/Agent.v ===== *)
(** * The agent: [pkg/agent/server.go]

    An agent receives compile requests from the scheduler and runs each in a goroutine of
    its own: [compile] finds a local toolchain equivalent to the requested one, runs the
    request manager of [CcController] and turns every error into a response, so that the
    scheduler always gets an answer for the request's id. The runners are those of the cc
    controller ([Consumerd.tcRunStore]). *)
From S2P Require Import Prelude GoStrings Types CcArgs CcArgsOps CcController Toolchains Consumerd.

Definition makeInternalErr (req : CompileRequest) (err : string) : CompileResponse :=
  mkCompileResponse (RequestID req) CompileResponse_InternalError (DataError err).

Definition set_Toolchain (tc : Toolchain) (req : CompileRequest) : CompileRequest :=
  mkCompileRequest (RequestID req) (Some tc) (ReqArgs req) (PreprocessedSource req) (ManagedFields req).

(** [AgentServer.compile] after [runningTasks.Inc()]; [items] are the toolchains of the
    agent's store, in some order. *)
Definition compile_counted (h : Host) (items : list Toolchain) (req : CompileRequest) :
    go (list event * CompileResponse) :=
  match ReqToolchain req with
  | None => Panic "invalid memory address or nil pointer dereference"
  | Some tc =>
      if negb (tcRunStore (Kind tc)) then Ret ([], makeInternalErr req "No toolchain runner available")
      else match TryMatch items (Some tc) with
           | inl err => Ret ([], makeInternalErr req (error_text err))
           | inr local =>
               '(ev, res) ← recv_Process h (set_Toolchain local req);
               match res with
               | inl err => Ret (ev, makeInternalErr req (error_text err))
               | inr resp => Ret (ev, resp)
               end
           end
  end.

(** [AgentServer.compile]; [ctxErr] is the result of [meta.CheckContext]. *)
Definition agent_compile (h : Host) (items : list Toolchain) (ctxErr : option error)
    (req : CompileRequest) : go (list event * CompileResponse) :=
  match ctxErr with
  | Some err => Ret ([], makeInternalErr req (error_text err))
  | None => compile_counted h items req
  end.

(** ** The server and its task stream *)






(** What an agent may do: run its toolchain's compiler, and handle files. *)
Definition local_event (tc : Toolchain) (e : event) : Prop :=
  match e with EvRun cmd => Path cmd = Executable tc | EvSend _ => False | _ => True end.

(** The compiler a task runs is the one of its toolchain, and a task without an error ran
    it successfully. *)
Lemma compileTask_events h tc o ap r :
  compileTask_Run h (Some tc) o ap = Ret r →
  Forall (local_event tc) (t_events r) ∧
  (t_err r = None → ∃ cmd out err, EvRun cmd ∈ t_events r ∧ exec h cmd = Exited out err None).
Proof.
  unfold compileTask_Run. intros H. apply go_bind_Ret_inv in H as (x & _ & H).
  apply go_bind_Ret_inv in H as ([e|[ap' tmp]] & _ & H); [by simplify_eq|].
  apply go_bind_Ret_inv in H as (path & [= <-] & H).
  destruct (exec h _) as [e|out err [e|]] eqn:Ex; simplify_eq/=; (split; [by repeat constructor|]); try done.
  intros _. eexists _, _, _. split; [by left|exact Ex].
Qed.

Lemma recv_events h req tc ev res :
  ReqToolchain req = Some tc → recv_Process h req = Ret (ev, res) →
  Forall (local_event tc) ev ∧
  ∀ resp, res = inr resp → RespRequestID resp = RequestID req ∧
    (RespResult resp = CompileResponse_Success →
     GetCompiledSource resp ≠ "" ∧
     ∃ cmd out err, EvRun cmd ∈ ev ∧ exec h cmd = Exited out err None).
Proof.
  intros Htc H. unfold recv_Process in H.
  apply go_bind_Ret_inv in H as (ap & _ & H). apply go_bind_Ret_inv in H as (inp & _ & H).
  destruct (recv_input _ _ _) as [e|tmp]; [by simplify_eq|].
  apply go_bind_Ret_inv in H as ([ap1 [e|]] & _ & H); [simplify_eq; by repeat constructor|].
  rewrite Htc in H. apply go_bind_Ret_inv in H as (r & Hr & H).
  apply compileTask_events in Hr as [Hev Hok]. destruct (t_err r) as [e|].
  { repeat case_match; simplify_eq; (split; [apply Forall_app; by repeat constructor|naive_solver]). }
  destruct (Hok eq_refl) as (cmd & out & err & Hin & Hex).
  destruct (readFile h (t_output r)) as [e|data]; [simplify_eq; split;
    [apply Forall_app; by repeat constructor|done]|].
  case_bool_decide; simplify_eq; (split; [apply Forall_app; by repeat constructor|]); [done|].
  intros resp [= <-]. split; [done|]. intros _. split; [done|].
  exists cmd, out, err. split; [|done]. apply elem_of_app. by left.
Qed.

(** Every compile request gets an answer with its own id, and what the agent runs is
    only a compiler of its own store that is equivalent to the one asked for: whenever
    [compile] returns, the response carries the request's id, each command it ran is the
    executable of such a toolchain, and nothing was sent anywhere. Without an equivalent
    toolchain nothing is run and the answer is an internal error. *)
Theorem agent_compile_sound {Q : Type} (h : Host) (s : @Store Q) (items : list Toolchain)
    (ctxErr : option error) (req : CompileRequest) (ev : list event) (resp : CompileResponse)
    (HI : items ≡ₚ ItemsList s) (HC : agent_compile h items ctxErr req = Ret (ev, resp)) :
  RespRequestID resp = RequestID req ∧
  (∀ cmd, EvRun cmd ∈ ev → ∃ tc, tc ∈ ItemsList s ∧
     EquivalentTo (Some tc) (ReqToolchain req) = true ∧ Path cmd = Executable tc) ∧
  (∀ c, EvSend c ∉ ev) ∧
  ((∀ tc, tc ∈ ItemsList s → EquivalentTo (Some tc) (ReqToolchain req) = false) →
   ev = [] ∧ RespResult resp = CompileResponse_InternalError).
Proof.
  unfold agent_compile, compile_counted in HC. destruct ctxErr as [e|].
  { simplify_eq. split_and!; [done|set_solver|set_solver|done]. }
  destruct (ReqToolchain req) as [tc|]; [|done].
  destruct (negb _).
  { simplify_eq. split_and!; [done|set_solver|set_solver|done]. }
  pose proof (TryMatch_spec items (Some tc) s HI) as HM.
  destruct (TryMatch items (Some tc)) as [e|local].
  { simplify_eq. split_and!; [done|set_solver|set_solver|done]. }
  destruct HM as [Hin Heq]. apply go_bind_Ret_inv in HC as ([ev' res] & HP & HC).
  destruct (recv_events h (set_Toolchain local req) local ev' res eq_refl HP) as [HE HID].
  rewrite Forall_forall in HE.
  assert (ev' = ev ∧ RespRequestID resp = RequestID req) as [-> Hid].
  { destruct res as [e|r]; simplify_eq; [done|]. split; [done|]. by apply (HID _ eq_refl). }
  split_and!.
  - done.
  - intros cmd Hc. exists local. split_and!; [done|done|]. apply (HE _ Hc).
  - intros c Hc. apply (HE _ Hc).
  - intros HN. by rewrite (HN local Hin) in Heq.
Qed.

(** ** One answer per request *)



Section answers.
Context (h : Host).









End answers.

(** ** From the developer's machine to the agent

    The sender of [CcController] with an agent at the other end: the scheduler passes a
    request to an agent and its response back (an agent that crashes loses the stream). *)

Definition via_agent (ha : Host) (items : list Toolchain) (creq : CompileRequest) :
    error + CompileResponse :=
  match agent_compile ha items None creq with
  | Ret (_, resp) => inr resp
  | Panic w => inl (StatusError Unavailable w)
  end.

(** An answer of the agent that reports success. *)
Lemma agent_success {Q : Type} (ha : Host) (s : @Store Q) items creq resp :
  (∃ e, readFile ha "" = inl e) → items ≡ₚ ItemsList s → via_agent ha items creq = inr resp →
  RespResult resp = CompileResponse_Success →
  ∃ cmd tc stdout stderr inp out,
    agent_compile ha items None creq = Ret ([EvRun cmd; EvRemove out; EvRemove (dir inp)], resp) ∧
    tc ∈ ItemsList s ∧ EquivalentTo (Some tc) (ReqToolchain creq) = true ∧ Path cmd = Executable tc ∧
    exec ha cmd = Exited stdout stderr None ∧ compiled ha (PreprocessedSource creq) inp cmd out ∧
    readFile ha out = inr (GetCompiledSource resp) ∧ GetCompiledSource resp ≠ "".
Proof.
  unfold via_agent. intros HN HI H HS. destruct (agent_compile ha items None creq) as [[aev r]|] eqn:EA; [|done].
  injection H as ->. pose proof EA as HC. unfold agent_compile, compile_counted in HC.
  destruct (ReqToolchain creq) as [tc|]; [|done]. destruct (negb _); [by simplify_eq|].
  pose proof (TryMatch_spec items (Some tc) s HI) as HM.
  destruct (TryMatch items (Some tc)) as [e|local]; [by simplify_eq|]. destruct HM as [Hin Heq].
  apply go_bind_Ret_inv in HC as ([ev' res] & HP & HC). destruct res as [e|r]; simplify_eq.
  destruct (recv_Process_sound ha (set_Toolchain local creq) local aev resp HN eq_refl HP) as (_ & cmd & inp & Hp & Hx).
  destruct (exec ha cmd) as [|o e [x|]] eqn:Ex; [done|by destruct Hx as (_ & ? & _); congruence|].
  destruct Hx as (out & data & -> & Hc & Hf & Hd & _ & HD).
  assert (GetCompiledSource resp = data) as -> by (unfold GetCompiledSource; by rewrite HD).
  exists cmd, local, o, e, inp, out. by split_and!.
Qed.

(** C3: A compile that succeeds through the cluster is a compile. When the sender reports
    success to the build, its preprocessor run on this machine succeeded, and its standard
    output is the source of the request that was sent, which carries the caller's id and
    toolchain and no option of the local machine. The agent ran exactly one command: its own
    compiler, equivalent to the requested one, with a file holding that source as an argument
    and a temporary file after [-o]; it exited successfully; and the non-empty contents of
    that output file are what the sender wrote to the output of the build. (Reading a file
    with an empty name is assumed to fail on the agent.) *)
Theorem compile_end_to_end {Q : Type} (h ha : Host) (s : @Store Q) (items : list Toolchain)
    (id : string) (ap : ArgParser) (req : RunRequest) (ev : list event) (r : RunResponse)
    (HN : ∃ e, readFile ha "" = inl e)
    (HI : items ≡ₚ ItemsList s) (HV : ∀ creq, remoteCompile h creq = via_agent ha items creq)
    (HP : send_Process h id ap req = Ret (ev, inr r)) (HR : ReturnCode r = 0) :
  ∃ pre preerr creq path resp cmd tc stdout stderr inp out,
    ev = [EvRun pre; EvSend creq; EvOpen path; EvWrite path (GetCompiledSource resp)] ∧
    exe (RunRequest_GetToolchain req) = Ret (Path pre) ∧
    exec h pre = Exited (PreprocessedSource creq) preerr None ∧
    RequestID creq = id ∧ ReqToolchain creq = RunRequest_GetToolchain req ∧
    Forall (λ a, is_local a = false) (ReqArgs creq) ∧
    agent_compile ha items None creq = Ret ([EvRun cmd; EvRemove out; EvRemove (dir inp)], resp) ∧
    tc ∈ ItemsList s ∧ EquivalentTo (Some tc) (RunRequest_GetToolchain req) = true ∧
    Path cmd = Executable tc ∧ exec ha cmd = Exited stdout stderr None ∧
    compiled ha (PreprocessedSource creq) inp cmd out ∧
    readFile ha out = inr (GetCompiledSource resp) ∧ GetCompiledSource resp ≠ "".
Proof.
  apply send_Process_inv in HP as (c & Hc & [[-> (r' & [= <-] & ?)]|(ap' & src & preerr & Hpre & HS)]); [congruence|].
  apply send_compile_inv in HS as [[-> HX]|(creq & path & Hid & Hsrc & Htc & Hargs & HX)]; [done|].
  rewrite HV in HX. destruct (via_agent ha items creq) as [e|resp] eqn:EV; [by destruct HX|].
  destruct HX as [-> HX]. unfold remote_response in *.
  destruct (RespResult resp) eqn:ER; try (repeat case_match; by simplify_eq/=).
  destruct (openFile h path); [by simplify_eq/=|].
  destruct (copy_to h path _); [by simplify_eq/=|].
  destruct (agent_success ha s items creq resp HN HI EV ER) as
    (cmd & tc & out & err & inp & f & HA & Hin & Heq & Hpath & Hx & Hcomp & Hf & Hd).
  exists c, preerr, creq, path, resp, cmd, tc, out, err, inp, f. rewrite Htc in Heq. subst src. by split_and!.
Qed.

Definition gcc_here : Toolchain := mkToolchain Gnu C "/opt/gcc/bin/gcc" "x86_64" "10" false false.
Definition agent_store : @Store unit :=
  mkStore {[ 0%nat := gcc_here ]} {[ "/opt/gcc/bin/gcc"%string := mkData 0 1 tt ]}.

Lemma agent_compile_sound_witness :
  ∃ ev resp, agent_compile ok_host (ItemsList agent_store) None test_creq = Ret (ev, resp) ∧
    RespResult resp = CompileResponse_Success ∧ RespRequestID resp = RequestID test_creq.
Proof.
  eexists _, _. split; [vm_compute; reflexivity|]. split; [reflexivity|].
  eapply (agent_compile_sound ok_host agent_store (ItemsList agent_store) None test_creq); [reflexivity|].
  vm_compute. reflexivity.
Defined.

(** The developer's machine of the examples, with an agent for its remote compiles. *)
Definition cluster_host : Host :=
  mkHost (exec ok_host) (stat ok_host) (mkdirAll ok_host) (mkdirTemp ok_host) (createTemp ok_host)
    (create ok_host) (copy_to ok_host) (readFile ok_host) (openFile ok_host)
    (via_agent ok_host (ItemsList agent_store)).

Lemma compile_end_to_end_witness :
  ∃ ev r path creq resp out,
    send_Process cluster_host "id" (NewArgParser test_args) (test_request test_args) = Ret (ev, inr r) ∧
    ReturnCode r = 0 ∧ EvSend creq ∈ ev ∧ EvWrite path (GetCompiledSource resp) ∈ ev ∧
    RequestID creq = "id" ∧ readFile ok_host out = inr (GetCompiledSource resp).
Proof.
  eexists _, _.
  destruct (compile_end_to_end cluster_host ok_host agent_store (ItemsList agent_store) "id"
    (NewArgParser test_args) (test_request test_args) _ _ ok_host_empty (reflexivity _) (λ _, eq_refl)
    ltac:(vm_compute; reflexivity) eq_refl)
    as (pre & preerr & creq & path & resp & cmd & tc & o & e & inp & out & H1 & _ & _ & H2 & _ & _ & _ & _ & _ & _ & _ & _ & H3 & _).
  exists path, creq, resp, out. split; [vm_compute; reflexivity|]. split; [reflexivity|].
  rewrite H1. split; [right; left|]. split; [do 3 right; left|]. split; [exact H2|exact H3].
Defined.


