(* ===== verification/RequestClient.v ===== *)
(** * The scheduler client of consumerd: [pkg/clients/scheduler.go]

    [CompileRequestClient] multiplexes concurrent calls of [Compile] over one stream to
    the scheduler. Each call sends its request, registers a channel under the request id
    and waits; one goroutine ([recvWorker]) receives responses and hands each to the call
    registered under its id, or, when the stream fails, the error to all of them. The
    calls are numbered by their request ids, which are unique. *)
From S2P Require Import Prelude Types.

(** A call of [Compile]: after [Send] and before [pending.Store], at the select, returned. *)
Inductive call :=
  | CSent
  | CWaiting
  | CReturned (res : error + CompileResponse).
#[export] Instance call_eq_dec : EqDecision call.
Proof. solve_decision. Defined.

(** [recvWorker]: waiting for a stream, at [Recv], at the send of a response on the
    channel of a call, inside [pending.Range] with the entries still to visit, before
    [rc.stream = nil], and dead after a send on a closed channel. *)
Inductive recv_worker :=
  | WaitStream
  | AtRecv
  | AtDeliver (id : string) (resp : CompileResponse)
  | AtRange (err : error) (todo : gset string)
  | AtReset
  | Crashed.

Record CompileRequestClient := mkClient {
  stream : option nat;                (** the stream object, or nil *)
  pending : gset string;
  calls : gmap string call;
  rc_worker : recv_worker;
  ctx_done : bool;
  inbox : list CompileResponse;       (** responses on the wire *)
}.

Definition NewCompileRequestClient (stream : option nat) : CompileRequestClient :=
  mkClient stream ∅ ∅ WaitStream false [].

Definition ErrStreamNotReady : error := PlainError "Stream is not ready yet".
Definition ctx_Err : error := StatusError Canceled "context canceled".

Inductive client_label :=
  | KLoad (s : nat)                       (** [LoadNewStream] *)
  | KCompile (id : string) (sent : option error)  (** [Compile] up to [Send] *)
  | KStore (id : string)                  (** [pending.Store] *)
  | KReturnCtx (id : string)              (** the select sees [ctx.Done()] *)
  | KServer (resp : CompileResponse)      (** the scheduler sends a response *)
  | KWake                                 (** the goroutine finds a stream *)
  | KRecv                                 (** [Recv] returns a response *)
  | KRecvErr (err : error)                (** [Recv] fails *)
  | KDeliver                              (** the send on the call's channel *)
  | KRange (id : string)                  (** [Range] visits an entry *)
  | KRangeEnd
  | KReset                                (** [rc.stream = nil] *)
  | KCtxDone.

Definition set_call (id : string) (c : call) (s : CompileRequestClient) : CompileRequestClient :=
  mkClient (stream s) (pending s) (<[id := c]> (calls s)) (rc_worker s) (ctx_done s) (inbox s).
Definition set_pending (p : gset string) (s : CompileRequestClient) : CompileRequestClient :=
  mkClient (stream s) p (calls s) (rc_worker s) (ctx_done s) (inbox s).
Definition set_worker (w : recv_worker) (s : CompileRequestClient) : CompileRequestClient :=
  mkClient (stream s) (pending s) (calls s) w (ctx_done s) (inbox s).
Definition set_stream (x : option nat) (s : CompileRequestClient) : CompileRequestClient :=
  mkClient x (pending s) (calls s) (rc_worker s) (ctx_done s) (inbox s).
Definition set_inbox (l : list CompileResponse) (s : CompileRequestClient) : CompileRequestClient :=
  mkClient (stream s) (pending s) (calls s) (rc_worker s) (ctx_done s) l.

(** [Compile] up to the return of [Send], under the stream lock. *)
Definition Compile (id : string) (sent : option error) (s : CompileRequestClient) : CompileRequestClient :=
  match stream s, sent with
  | None, _ => set_call id (CReturned (inl ErrStreamNotReady)) s
  | Some _, Some err => set_call id (CReturned (inl err)) s
  | Some _, None => set_call id CSent s
  end.

(** A send on the channel of call [id]: it needs a call at the select; the channel of a
    call that returned is closed, and sending on it panics. *)
Definition send_call (id : string) (res : error + CompileResponse) (next : recv_worker)
    (s : CompileRequestClient) : option CompileRequestClient :=
  match calls s !! id with
  | Some CWaiting => Some (set_worker next (set_call id (CReturned res) s))
  | Some (CReturned _) => Some (set_worker Crashed s)
  | _ => None
  end.

(** [recvWorker]. *)
Definition recvWorker (l : client_label) (s : CompileRequestClient) : option CompileRequestClient :=
  match l, rc_worker s with
  | KWake, WaitStream => match stream s with Some _ => Some (set_worker AtRecv s) | None => None end
  | KRecv, AtRecv =>
      match inbox s with
      | [] => None
      | resp :: rest =>
          let s := set_inbox rest s in
          let id := RespRequestID resp in
          if bool_decide (id ∈ pending s)
          then Some (set_worker (AtDeliver id resp) (set_pending (pending s ∖ {[id]}) s))
          else Some s
      end
  | KRecvErr err, AtRecv => Some (set_worker (AtRange err (pending s)) s)
  | KDeliver, AtDeliver id resp => send_call id (inr resp) AtRecv s
  | KRange id, AtRange err todo =>
      if bool_decide (id ∈ pending s) then
        s ← send_call id (inl err) (AtRange err (todo ∖ {[id]})) s;
        Some (set_pending (pending s ∖ {[id]}) s)
      else None
  | KRangeEnd, AtRange err todo => if bool_decide (todo = ∅) then Some (set_worker AtReset s) else None
  | KReset, AtReset => Some (set_worker WaitStream (set_stream None s))
  | _, _ => None
  end.

Definition is_crashed (w : recv_worker) : bool := match w with Crashed => true | _ => false end.

Definition client_step (l : client_label) (s : CompileRequestClient) : option CompileRequestClient :=
  if is_crashed (rc_worker s) then None else
  match l with
  | KLoad x => Some (set_stream (Some x) s)
  | KCompile id sent => match calls s !! id with None => Some (Compile id sent s) | _ => None end
  | KStore id =>
      match calls s !! id with
      | Some CSent => Some (set_pending ({[id]} ∪ pending s) (set_call id CWaiting s))
      | _ => None
      end
  | KReturnCtx id =>
      match calls s !! id, ctx_done s with
      | Some CWaiting, true => Some (set_call id (CReturned (inl ctx_Err)) s)
      | _, _ => None
      end
  | KServer resp => Some (set_inbox (inbox s ++ [resp]) s)
  | KCtxDone =>
      Some (mkClient (stream s) (pending s) (calls s) (rc_worker s) true (inbox s))
  | _ => recvWorker l s
  end.

Definition is_new_client (s : CompileRequestClient) : Prop :=
  ∃ stream, s = NewCompileRequestClient stream.

(** ** Answers go to the right call *)

(** The calls that returned a response returned one with their id, and so does the one
    being delivered. *)
Definition matched (s : CompileRequestClient) : Prop :=
  (∀ id resp, calls s !! id = Some (CReturned (inr resp)) → RespRequestID resp = id) ∧
  (∀ id resp, rc_worker s = AtDeliver id resp → RespRequestID resp = id).

(** Splits a step of the client into its cases. *)
Ltac client_cases H :=
  unfold client_step in H; destruct (is_crashed _) eqn:? in H; [discriminate|];
  match type of H with context [match ?l with _ => _ end] =>
    match type of l with client_label => destruct l end end;
  unfold recvWorker, send_call in H;
  repeat first
    [ discriminate
    | match type of H with
      | (_ ≫= _) = Some _ => apply bind_Some in H as (? & ? & H)
      | (match ?x with _ => _ end) = Some _ => destruct x eqn:?
      end
    | match goal with E : (match ?x with _ => _ end) = Some _ |- _ => destruct x eqn:? end ];
  simplify_eq/=.

(** Reads a table with one entry overwritten. *)
Ltac lookups :=
  repeat case_match; cbn in *;
  repeat match goal with
  | E : <[_ := _]> _ !! _ = Some _ |- _ => apply lookup_insert_Some in E as [[? ?]|[? ?]]
  end; simplify_eq/=.

Lemma Compile_call id sent s :
  ∃ c, Compile id sent s = set_call id c s ∧ (c = CSent ∨ ∃ e, c = CReturned (inl e)).
Proof. unfold Compile. destruct (stream s), sent; eexists; (split; [done|]); eauto. Qed.

Lemma matched_step l s s' : client_step l s = Some s' → matched s → matched s'.
Proof.
  intros H [HM HD]. client_cases H.
  all: try match goal with |- matched (Compile ?id ?sent ?x) =>
    destruct (Compile_call id sent x) as (c & -> & [->|[e ->]]) end.
  all: split; cbn; try done.
  all: intros id' resp' E; lookups; eauto; first [by apply HD|congruence].
Qed.

(** ** While the client's context lives *)

(** The call a response is being delivered to, and the entries [Range] still visits. *)
Definition delivering (w : recv_worker) : gset string :=
  match w with AtDeliver id _ => {[id]} | _ => ∅ end.
Definition ranging (w : recv_worker) : gset string :=
  match w with AtRange _ todo => todo | _ => ∅ end.

(** The waiting calls are those registered and the one being answered. *)
Definition waiting_are (cs : gmap string call) (P D : gset string) : Prop :=
  ∀ id, cs !! id = Some CWaiting ↔ id ∈ P ∨ id ∈ D.

Ltac waiting_solve HW id :=
  let x := fresh "x" in
  intros x; specialize (HW x); destruct (decide (x = id)) as [->|];
  [rewrite lookup_insert_eq|rewrite lookup_insert_ne by done];
  rewrite ?elem_of_union, ?elem_of_difference, ?elem_of_singleton, ?elem_of_empty in *;
  intuition congruence.

Lemma waiting_other cs P D id c :
  waiting_are cs P D → cs !! id ≠ Some CWaiting → c ≠ CWaiting → waiting_are (<[id := c]> cs) P D.
Proof. intros HW Hid Hc. waiting_solve HW id. Qed.

Lemma waiting_store cs P D id :
  waiting_are cs P D → waiting_are (<[id := CWaiting]> cs) ({[id]} ∪ P) D.
Proof. intros HW. waiting_solve HW id. Qed.

Lemma waiting_take cs P id : waiting_are cs P ∅ → id ∈ P → waiting_are cs (P ∖ {[id]}) {[id]}.
Proof.
  intros HW Hid x. specialize (HW x). destruct (decide (x = id)) as [->|];
    rewrite ?elem_of_difference, ?elem_of_singleton, ?elem_of_empty in *; intuition congruence.
Qed.

Lemma waiting_answer cs P id c :
  waiting_are cs P {[id]} → id ∉ P → c ≠ CWaiting → waiting_are (<[id := c]> cs) P ∅.
Proof. intros HW Hid Hc. waiting_solve HW id. Qed.

Lemma waiting_fail cs P id c :
  waiting_are cs P ∅ → c ≠ CWaiting → waiting_are (<[id := c]> cs) (P ∖ {[id]}) ∅.
Proof. intros HW Hc. waiting_solve HW id. Qed.

Record live (s : CompileRequestClient) : Prop := {
  live_ctx : ctx_done s = false;
  live_worker : rc_worker s ≠ Crashed;
  live_waiting : waiting_are (calls s) (pending s) (delivering (rc_worker s));
  live_deliver id : id ∈ delivering (rc_worker s) → id ∉ pending s;
  live_range id : id ∈ ranging (rc_worker s) → id ∈ pending s;
}.

Definition ctx_alive (l : client_label) : Prop := l ≠ KCtxDone.

Lemma live_step l s s' : client_step l s = Some s' → ctx_alive l → live s → live s'.
Proof.
  intros H Hl [Hc Hw Hwait Hdel Hran]. client_cases H; try congruence; try (by destruct Hl).
  all: try match goal with E : rc_worker ?x = _ |- _ => rewrite E in *; cbn in * end.
  all: try match goal with E : bool_decide _ = true |- _ => apply bool_decide_eq_true in E end.
  all: try match goal with |- live (Compile ?id ?sent ?x) =>
    destruct (Compile_call id sent x) as (c & -> & Hcall) end.
  all: try match goal with E : calls ?x !! ?id = Some (CReturned _) |- live _ =>
    assert (calls x !! id = Some CWaiting)
      by (apply Hwait; first [by left|right; by apply elem_of_singleton]); congruence end.
  all: split; cbn; try done; try congruence.
  - apply waiting_other; [done|congruence|]. by destruct Hcall as [->|[e ->]].
  - by apply waiting_store.
  - intros x Hx [->%elem_of_singleton|Hp]%elem_of_union; [|by eapply Hdel].
    pose proof (proj2 (Hwait id) (or_intror Hx)). congruence.
  - intros x Hx. apply elem_of_union_r. by apply Hran.
  - by apply waiting_take.
  - intros x ->%elem_of_singleton. by rewrite elem_of_difference, elem_of_singleton; intros [_ ?].
  - match goal with E : rc_worker _ = _ |- _ => by rewrite E end.
  - match goal with E : rc_worker _ = _ |- _ => by rewrite E end.
  - match goal with E : rc_worker _ = _ |- _ => by rewrite E end.
  - apply waiting_answer; [done|apply Hdel; by apply elem_of_singleton|done].
  - by apply waiting_fail.
  - intros x [Hx Hne]%elem_of_difference. apply elem_of_difference. split; [by apply Hran|done].
Qed.

Lemma live_reach s : reach client_step is_new_client ctx_alive s → live s.
Proof.
  apply reach_inv; [|by intros x l x' IH Hl Hs; eapply live_step].
  intros ? [? ->]. split; cbn; try done. intros id. rewrite lookup_empty. set_solver.
Qed.

(** C31: [Compile] returns answers to its own request only: whatever the scheduler sends and
    however calls, receptions, stream failures and reconnections interleave, a call that
    returns a response returns one with the id of its request. And as long as the client's
    context is not done, the calls that wait are exactly those registered or being
    answered, and no response is sent on a closed channel. *)
Theorem client_matches_responses (s : CompileRequestClient)
    (HR : reach client_step is_new_client ctx_alive s) :
  (∀ id resp, calls s !! id = Some (CReturned (inr resp)) → RespRequestID resp = id) ∧
  waiting_are (calls s) (pending s) (delivering (rc_worker s)) ∧ rc_worker s ≠ Crashed.
Proof.
  pose proof (live_reach s HR) as [_ Hw Hwait _ _]. split_and!; [|done|done].
  enough (matched s) as [? _] by done. refine (reach_inv _ _ _ matched s _ _ HR).
  - intros ? [? ->]. split; cbn; [|done]. intros id resp E. by rewrite lookup_empty in E.
  - intros x l x' IH _ Hs. by eapply matched_step.
Qed.

(** Running [Range] over a list of entries. *)
Lemma range_run err ids s :
  live s → rc_worker s = AtRange err (list_to_set ids) → NoDup ids →
  ∃ s', run_labels client_step ((KRange <$> ids) ++ [KRangeEnd]) s = Some s' ∧
        (∀ id, calls s' !! id =
               if bool_decide (id ∈ ids) then Some (CReturned (inl err)) else calls s !! id).
Proof.
  revert s. induction ids as [|id ids IH]; intros s L Hw Hnd; cbn.
  - unfold client_step. rewrite Hw. cbn. rewrite Hw, bool_decide_true by done. cbn.
    eexists. split; [done|]. intros x. by rewrite bool_decide_false by set_solver.
  - apply NoDup_cons in Hnd as [Hid Hnd].
    assert (id ∈ pending s) as Hp by (apply (live_range s L); rewrite Hw; set_solver).
    assert (calls s !! id = Some CWaiting) as Hc by (apply (live_waiting s L); by left).
    pose (s1 := set_pending (pending s ∖ {[id]})
      (set_worker (AtRange err (list_to_set ids)) (set_call id (CReturned (inl err)) s))).
    assert (client_step (KRange id) s = Some s1) as Hs.
    { unfold client_step, recvWorker, send_call. rewrite Hw. cbn. rewrite bool_decide_true by done.
      rewrite Hc. cbn. unfold s1. do 3 f_equal. f_equal. cbn. set_solver. }
    rewrite Hs. cbn. destruct (IH s1) as (s' & HR & HC); [|done|done|].
    { eapply live_step; [exact Hs|done|done]. }
    exists s'. split; [done|]. intros x. rewrite HC. cbn.
    destruct (decide (x = id)) as [->|Hne].
    + rewrite (bool_decide_false (id ∈ ids)), bool_decide_true by set_solver. by rewrite lookup_insert_eq.
    + rewrite lookup_insert_ne by done. repeat case_bool_decide; set_solver.
Qed.

(** A failure of the stream reaches every waiting call: from each reachable state in
    which the goroutine has just seen the error, it can visit all registered calls and
    finish, and then every call that was waiting has returned that error. *)
Theorem client_failure_wakes_all (s : CompileRequestClient) (err : error) (s1 : CompileRequestClient)
    (HR : reach client_step is_new_client ctx_alive s)
    (HE : client_step (KRecvErr err) s = Some s1) :
  ∃ ls s', run_labels client_step ls s1 = Some s' ∧ rc_worker s' = AtReset ∧
    ∀ id, calls s !! id = Some CWaiting → calls s' !! id = Some (CReturned (inl err)).
Proof.
  pose proof (live_reach s HR) as L.
  assert (live s1) as L1 by by eapply live_step.
  assert (rc_worker s = AtRecv ∧ s1 = set_worker (AtRange err (pending s)) s) as [Hw ->].
  { unfold client_step in HE. destruct (is_crashed _); [done|]. unfold recvWorker in HE.
    destruct (rc_worker s) eqn:E; by simplify_eq. }
  destruct (range_run err (elements (pending s)) _ L1) as (s' & HS & HC).
  { cbn. by rewrite list_to_set_elements_L. } { apply NoDup_elements. }
  eexists _, s'. split; [exact HS|]. split.
  - apply run_labels_app in HS as (s2 & _ & HS). cbn in HS.
    apply bind_Some in HS as (s3 & HS & [= <-]). unfold client_step in HS.
    destruct (is_crashed _); [done|]. unfold recvWorker in HS. repeat case_match; by simplify_eq.
  - intros id Hid. rewrite HC, bool_decide_true; [done|]. apply elem_of_elements.
    apply (live_waiting s L) in Hid as [Hid|Hid]; [done|]. rewrite Hw in Hid. set_solver.
Qed.

(** ** Races *)

Definition client_after : list client_label → CompileRequestClient :=
  after_run client_step (NewCompileRequestClient None).
Definition answer (id : string) : CompileResponse :=
  mkCompileResponse id CompileResponse_Success (DataCompiledSource "OBJ").

(** The response arrives between [Send] and [pending.Store]. *)
Definition early_response : list client_label :=
  [KLoad 1; KWake; KCompile "r" None; KServer (answer "r"); KRecv; KStore "r"].
(** The new stream is loaded while the goroutine still reports the old one's failure. *)
Definition lost_stream : list client_label :=
  [KLoad 1; KWake; KRecvErr (PlainError "EOF"); KRangeEnd; KLoad 2; KReset].
(** The client's context ends while a response is being handed over. *)
Definition closed_channel : list client_label :=
  [KLoad 1; KWake; KCompile "r" None; KStore "r"; KServer (answer "r"); KRecv; KCtxDone;
   KReturnCtx "r"; KDeliver].

(** Three races of the client. A response that arrives before [pending.Store] is dropped
    and its call waits although nothing is on the wire; a stream loaded before the
    goroutine resets the old one is forgotten; and a response handed to a call that left
    with the context panics. *)
Theorem client_races :
  (calls (client_after early_response) !! "r" = Some CWaiting ∧ inbox (client_after early_response) = []) ∧
  (stream (client_after lost_stream) = None ∧ rc_worker (client_after lost_stream) = WaitStream) ∧
  rc_worker (client_after closed_channel) = Crashed.
Proof. vm_compute. done. Qed.

(** ** Witnesses *)

Definition two_calls : list client_label :=
  [KLoad 1; KWake; KCompile "a" None; KStore "a"; KCompile "b" None; KStore "b";
   KServer (answer "b"); KRecv; KDeliver].

Lemma two_calls_reach : reach client_step is_new_client ctx_alive (client_after two_calls).
Proof. apply after_run_reach; [by eexists|by repeat constructor]. Qed.

Lemma client_matches_responses_witness :
  calls (client_after two_calls) !! "b" = Some (CReturned (inr (answer "b"))) ∧
  RespRequestID (answer "b") = "b".
Proof.
  assert (calls (client_after two_calls) !! "b" = Some (CReturned (inr (answer "b")))) as E by by vm_compute.
  split; [exact E|]. by apply (client_matches_responses (client_after two_calls) two_calls_reach).
Defined.

Lemma client_failure_wakes_all_witness :
  ∃ ls s', run_labels client_step ls (client_after (two_calls ++ [KRecvErr (PlainError "EOF")])) = Some s' ∧
    rc_worker s' = AtReset ∧
    ∀ id, calls (client_after two_calls) !! id = Some CWaiting →
          calls s' !! id = Some (CReturned (inl (PlainError "EOF"))).
Proof.
  apply (client_failure_wakes_all (client_after two_calls) (PlainError "EOF") _ two_calls_reach).
  vm_compute. reflexivity.
Defined.
