(* ===== verification/Tasks.v ===== *)
(** * Tasks and executors: [pkg/run], [pkg/util/errors.go], [pkg/sleep/controller]

    The error cell of a task, task options, the task that runs a command, requests packaged
    for later, the store of toolchain runners, the request managers of the sleep toolchain,
    and the two executors beside the split queue. *)
From S2P Require Import Prelude GoStrings Types Contexts CcArgs CcController RequestClient.

(** ** [NullableError] *)

Record NullableError := mkNullable { isSet : bool; null_err : option error }.
Definition unset : NullableError := mkNullable false None.
Definition SetErr (err : option error) (_ : NullableError) : NullableError := mkNullable true err.
Definition NullableError_Err (ae : NullableError) : go (option error) :=
  if isSet ae then Ret (null_err ae) else Panic "Error has not been set".

(** ** Task options *)

(** Writers and readers are given by name; a nil one is [None]. *)
Record RunOptions := mkRunOptions {
  ro_Stdout : option string;
  ro_Stderr : option string;
  ro_Stdin : option string;
  ro_Env : list string;
  ro_Args : list string;
  ro_WorkDir : string;
  ro_UID : Z;
  ro_GID : Z;
  ro_OutputWriter : option string;
  ro_OutputVar : option string;
  ro_NoTempFile : bool;
  ro_Context : option (Context string);
  ro_Log : option string;
}.
Definition no_options : RunOptions :=
  mkRunOptions None None None [] [] "" 0 0 None None false None None.

Definition TaskOption : Type := RunOptions → RunOptions.
Definition Apply (opts : list TaskOption) (o : RunOptions) : RunOptions :=
  foldl (λ o opt, opt o) o opts.

Definition WithEnv (env : list string) : TaskOption := λ o,
  mkRunOptions (ro_Stdout o) (ro_Stderr o) (ro_Stdin o) env (ro_Args o) (ro_WorkDir o) (ro_UID o)
    (ro_GID o) (ro_OutputWriter o) (ro_OutputVar o) (ro_NoTempFile o) (ro_Context o) (ro_Log o).
Definition WithArgs (args : list string) : TaskOption := λ o,
  mkRunOptions (ro_Stdout o) (ro_Stderr o) (ro_Stdin o) (ro_Env o) args (ro_WorkDir o) (ro_UID o)
    (ro_GID o) (ro_OutputWriter o) (ro_OutputVar o) (ro_NoTempFile o) (ro_Context o) (ro_Log o).
Definition WithWorkDir (dir : string) : TaskOption := λ o,
  mkRunOptions (ro_Stdout o) (ro_Stderr o) (ro_Stdin o) (ro_Env o) (ro_Args o) dir (ro_UID o)
    (ro_GID o) (ro_OutputWriter o) (ro_OutputVar o) (ro_NoTempFile o) (ro_Context o) (ro_Log o).
Definition WithOutputStreams (stdout stderr : option string) : TaskOption := λ o,
  mkRunOptions stdout stderr (ro_Stdin o) (ro_Env o) (ro_Args o) (ro_WorkDir o) (ro_UID o)
    (ro_GID o) (ro_OutputWriter o) (ro_OutputVar o) (ro_NoTempFile o) (ro_Context o) (ro_Log o).
Definition WithStdin (stdin : option string) : TaskOption := λ o,
  mkRunOptions (ro_Stdout o) (ro_Stderr o) stdin (ro_Env o) (ro_Args o) (ro_WorkDir o) (ro_UID o)
    (ro_GID o) (ro_OutputWriter o) (ro_OutputVar o) (ro_NoTempFile o) (ro_Context o) (ro_Log o).
Definition WithUidGid (uid gid : Z) : TaskOption := λ o,
  mkRunOptions (ro_Stdout o) (ro_Stderr o) (ro_Stdin o) (ro_Env o) (ro_Args o) (ro_WorkDir o) uid
    gid (ro_OutputWriter o) (ro_OutputVar o) (ro_NoTempFile o) (ro_Context o) (ro_Log o).
Definition WithOutputWriter (w : option string) : TaskOption := λ o,
  mkRunOptions (ro_Stdout o) (ro_Stderr o) (ro_Stdin o) (ro_Env o) (ro_Args o) (ro_WorkDir o) (ro_UID o)
    (ro_GID o) w (ro_OutputVar o) (ro_NoTempFile o) (ro_Context o) (ro_Log o).
Definition WithOutputVar (v : option string) : TaskOption := λ o,
  mkRunOptions (ro_Stdout o) (ro_Stderr o) (ro_Stdin o) (ro_Env o) (ro_Args o) (ro_WorkDir o) (ro_UID o)
    (ro_GID o) (ro_OutputWriter o) v (ro_NoTempFile o) (ro_Context o) (ro_Log o).
Definition InPlace (inPlace : bool) : TaskOption := λ o,
  mkRunOptions (ro_Stdout o) (ro_Stderr o) (ro_Stdin o) (ro_Env o) (ro_Args o) (ro_WorkDir o) (ro_UID o)
    (ro_GID o) (ro_OutputWriter o) (ro_OutputVar o) inPlace (ro_Context o) (ro_Log o).
Definition WithContext (ctx : Context string) : TaskOption := λ o,
  mkRunOptions (ro_Stdout o) (ro_Stderr o) (ro_Stdin o) (ro_Env o) (ro_Args o) (ro_WorkDir o) (ro_UID o)
    (ro_GID o) (ro_OutputWriter o) (ro_OutputVar o) (ro_NoTempFile o) (Some ctx) (ro_Log o).
Definition WithLog (lg : option string) : TaskOption := λ o,
  mkRunOptions (ro_Stdout o) (ro_Stderr o) (ro_Stdin o) (ro_Env o) (ro_Args o) (ro_WorkDir o) (ro_UID o)
    (ro_GID o) (ro_OutputWriter o) (ro_OutputVar o) (ro_NoTempFile o) (ro_Context o) lg.

(** ** [ExecCommandTask] *)

Record ExecCommandTask := mkExecTask {
  et_tc : option Toolchain;
  et_opts : RunOptions;
  et_err : NullableError;
}.
Definition NewExecCommandTask (tc : option Toolchain) (opts : list TaskOption) : ExecCommandTask :=
  mkExecTask tc (Apply opts no_options) unset.

(** [exec.CommandContext] panics on a nil context; a command of a context that is already done
    is not started. *)
Definition ExecCommandTask_Run (h : Host) (t : ExecCommandTask) : go (list event * ExecCommandTask) :=
  match ro_Context (et_opts t) with
  | None => Panic "nil Context"
  | Some ctx =>
      path ← exe (et_tc t);
      let o := et_opts t in
      let cmd := mkCmd path (ro_Args o) (ro_Env o) (ro_WorkDir o) (default "" (ro_Stdin o)) in
      let set err := mkExecTask (et_tc t) o (SetErr err (et_err t)) in
      match Contexts.Err ctx with
      | Some err => Ret ([], set (Some err))
      | None =>
          match exec h cmd with
          | StartFailed err => Ret ([EvRun cmd], set (Some (PlainError err)))
          | Exited _ _ (Some err) => Ret ([EvRun cmd], set (Some (PlainError err)))
          | Exited _ _ None => Ret ([EvRun cmd], set None)
          end
      end
  end.

(** [RunWait]: run, then read the error. *)
Definition RunWait (h : Host) (t : ExecCommandTask) : go (list event * option error) :=
  '(evs, t) ← ExecCommandTask_Run h t;
  err ← NullableError_Err (et_err t);
  Ret (evs, err).

(** [RunAsync]: the values the channel delivers before it is closed. *)
Definition RunAsync (h : Host) (t : ExecCommandTask) : go (list event * list (option error)) :=
  '(evs, err) ← RunWait h t; Ret (evs, [err]).

(** ** The sleep toolchain's request managers *)

Definition sleep_local_Process (h : Host) (ctx : Context string) (req : RunRequest) :
    go (list event * (RunResponse * option error)) :=
  let t := NewExecCommandTask (RunRequest_GetToolchain req)
    [WithContext ctx; WithArgs (RunArgs req); WithEnv (Env req); WithWorkDir (WorkDir req);
     WithOutputStreams (Some "os.Stdout") (Some "os.Stderr")] in
  '(evs, t) ← ExecCommandTask_Run h t;
  err ← NullableError_Err (et_err t);
  Ret (evs, match err with
            | Some err => (mkRunResponse 1 "" "", Some err)
            | None => (mkRunResponse 0 "" "", None)
            end).

Definition sleep_recv_Process (h : Host) (ctx : Context string) (req : CompileRequest) :
    go (list event * (CompileResponse * option error)) :=
  let t := NewExecCommandTask (ReqToolchain req) [WithContext ctx; WithArgs (ReqArgs req)] in
  '(evs, t) ← ExecCommandTask_Run h t;
  err ← NullableError_Err (et_err t);
  Ret (evs, match err with
            | Some err => (mkCompileResponse (RequestID req) CompileResponse_Fail (DataError (error_text err)), Some err)
            | None => (mkCompileResponse (RequestID req) CompileResponse_Success (DataCompiledSource ""), None)
            end).

(** The sender looks at the error of the call only, not at the result of the compile; [None] is
    a nil response. *)
Definition sleep_send_Process (h : Host) (id : string) (req : RunRequest) :
    list event * (option RunResponse * option error) :=
  let creq := mkCompileRequest id (RunRequest_GetToolchain req) (RunArgs req) "" None in
  ([EvSend creq],
   match remoteCompile h creq with
   | inl err => if bool_decide (err = ErrStreamNotReady) then (None, Some err)
                else (Some (mkRunResponse 1 "" ""), Some err)
   | inr _ => (Some (mkRunResponse 0 "" ""), None)
   end).

(** ** Packaged requests *)

(** A closure over the world [W] with its error cell and its channel of capacity one. *)
Record PackagedRequest (W R : Type) := mkPackaged {
  pr_f : W → go (W * (R * option error));
  pr_err : NullableError;
  pr_chan : list R;
  pr_closed : bool;
}.
Arguments mkPackaged {_ _}. Arguments pr_f {_ _}. Arguments pr_err {_ _}.
Arguments pr_chan {_ _}. Arguments pr_closed {_ _}.

Definition PackageRequest {W R} (process : W → go (W * (R * option error))) : PackagedRequest W R :=
  mkPackaged process unset [] false.

Definition PackagedRequest_Run {W R} (w : W) (pr : PackagedRequest W R) :
    go (W * PackagedRequest W R) :=
  '(w, (response, err)) ← pr_f pr w;
  let e := SetErr err (pr_err pr) in
  if pr_closed pr then Panic "send on closed channel"
  else Ret (w, mkPackaged (pr_f pr) e (pr_chan pr ++ [response]) true).

(** ** The store of runners *)

Inductive ToolchainController : Set := CCToolchainCtrl | SleepToolchainCtrl.

(** The map as an association list; keys are distinct because [Add] refuses a second one. *)
Abbreviation ToolchainRunnerStore := (list (ToolchainKind * ToolchainController)).
Definition NewToolchainRunnerStore : ToolchainRunnerStore := [].

Fixpoint runner_of (s : ToolchainRunnerStore) (kind : ToolchainKind) : option ToolchainController :=
  match s with
  | [] => None
  | (k, r) :: s => if decide (k = kind) then Some r else runner_of s kind
  end.

Definition runner_Add (kind : ToolchainKind) (r : ToolchainController) (s : ToolchainRunnerStore) :
    go ToolchainRunnerStore :=
  match runner_of s kind with
  | Some _ => Panic "Tried to add an already existing runner"
  | None => Ret (s ++ [(kind, r)])
  end.

(** The error of a missing runner; asking for its text is itself a panic. *)
Inductive NoRunnerForKind : Set := NoRunner.
Definition NoRunner_Error (_ : NoRunnerForKind) : go string := Panic "No runner available".
Definition runner_Get (kind : ToolchainKind) (s : ToolchainRunnerStore) :
    NoRunnerForKind + ToolchainController :=
  match runner_of s kind with Some r => inr r | None => inl NoRunner end.

Definition cc_AddToStore (s : ToolchainRunnerStore) : go ToolchainRunnerStore :=
  s ← runner_Add Gnu CCToolchainCtrl s; runner_Add Clang CCToolchainCtrl s.
Definition sleep_AddToStore (s : ToolchainRunnerStore) : go ToolchainRunnerStore :=
  runner_Add Sleep SleepToolchainCtrl s.

(** [for _, add := range options.toolchainRunners { add(runStore) }] *)
Definition add_runners (adds : list (ToolchainRunnerStore → go ToolchainRunnerStore)) : go ToolchainRunnerStore :=
  foldl (λ s add, s ← s; add s) (Ret NewToolchainRunnerStore) adds.

(** ** Lemmas and properties *)

Lemma runner_of_app s k r kind :
  runner_of (s ++ [(k, r)]) kind
  = match runner_of s kind with Some r' => Some r' | None => if decide (k = kind) then Some r else None end.
Proof. induction s as [|[k' r'] s IH]; cbn; [done|]. by destruct (decide (k' = kind)). Qed.

(** A runner that was added is the one that is found, and no other kind is affected; adding a
    kind twice ends the program. *)
Theorem runner_Add_spec kind r s s' :
  (runner_Add kind r s = Ret s' →
     ∀ k, runner_Get k s' = if decide (k = kind) then inr r else runner_Get k s)
  ∧ (runner_Get kind s ≠ inl NoRunner → is_ret (runner_Add kind r s) = false).
Proof.
  unfold runner_Add, runner_Get. split.
  - destruct (runner_of s kind) eqn:E; [done|]. intros [= <-] k. rewrite runner_of_app.
    case_decide as Hk; [subst; by rewrite E, decide_True|].
    rewrite decide_False by done. by destruct (runner_of s k).
  - by destruct (runner_of s kind).
Qed.

(** The servers' runners: C and C++ compilers of both families go to the cc controller, the sleep
    toolchain to its own; every other kind has none. Giving the cc runners twice panics. *)
Theorem server_runners :
  (∃ s, add_runners [cc_AddToStore; sleep_AddToStore] = Ret s ∧
     ∀ k, runner_Get k s = match k with
                           | Gnu | Clang => inr CCToolchainCtrl
                           | Sleep => inr SleepToolchainCtrl
                           | _ => inl NoRunner
                           end)
  ∧ is_ret (add_runners [cc_AddToStore; sleep_AddToStore; cc_AddToStore]) = false.
Proof. split; [|done]. eexists. split; [reflexivity|]. by intros []. Qed.

(** A packaged request runs its closure once: the first run delivers the response on the
    channel, closes it and makes the error readable, which it was not before; a second run
    panics. *)
Theorem packaged_once {W R} (f : W → go (W * (R * option error))) (w w' : W) r err :
  f w = Ret (w', (r, err)) →
  is_ret (NullableError_Err (pr_err (PackageRequest f))) = false
  ∧ ∃ pr, PackagedRequest_Run w (PackageRequest f) = Ret (w', pr)
    ∧ pr_chan pr = [r] ∧ pr_closed pr = true ∧ NullableError_Err (pr_err pr) = Ret err
    ∧ ∀ w2, is_ret (PackagedRequest_Run w2 pr) = false.
Proof.
  intros Hf. split; [done|]. eexists. split; [unfold PackagedRequest_Run; cbn; rewrite Hf; reflexivity|].
  split_and!; [done..|]. intros w2. unfold PackagedRequest_Run. cbn. by destruct (f w2) as [[? [? ?]]|].
Qed.

(** The sleep sender reports success whatever the agent answered, also when the compile failed
    or was refused. *)
Theorem sleep_send_ignores_result h id req resp :
  let creq := mkCompileRequest id (RunRequest_GetToolchain req) (RunArgs req) "" None in
  remoteCompile h creq = inr resp →
  snd (sleep_send_Process h id req) = (Some (mkRunResponse 0 "" ""), None).
Proof. intros creq Hr. unfold sleep_send_Process. fold creq. cbn. by rewrite Hr. Qed.

(** The receiver runs the agent's executable with the arguments of the request, and the response
    says whether it failed. *)
Theorem sleep_recv_spec h ctx req tc :
  ReqToolchain req = Some tc → Contexts.Err ctx = None →
  ∃ cmd resp err, sleep_recv_Process h ctx req = Ret ([EvRun cmd], (resp, err))
    ∧ Path cmd = Executable tc ∧ CmdArgs cmd = ReqArgs req ∧ RespRequestID resp = RequestID req
    ∧ (RespResult resp = CompileResponse_Success ↔ ∃ out errtxt, exec h cmd = Exited out errtxt None).
Proof.
  intros Ht Hc. unfold sleep_recv_Process, ExecCommandTask_Run. cbn. rewrite Hc, Ht. cbn.
  set (cmd := mkCmd (Executable tc) (ReqArgs req) [] "" ""). exists cmd.
  destruct (exec h cmd) as [e|o e [w|]] eqn:E; cbn; do 2 eexists;
    (split; [reflexivity|]); split_and!; try done; split; try done; try naive_solver.
Qed.

(** ** [QueuedExecutor] *)

(** Where a call of [Exec] is; [task_done] says whether a worker has run its task. *)
Inductive xpc : Set :=
  | XQueued     (** counted in [numQueued], sending the task on the unbuffered channel *)
  | XTaken      (** a worker has the task *)
  | XWaiting    (** counted in [numRunning], at [<-ctx.Done()] *)
  | XReturned.
#[export] Instance xpc_eq_dec : EqDecision xpc.
Proof. solve_decision. Defined.

Record xcall := mkXcall { x_pc : xpc; task_done : bool }.
Record QueuedExecutor := mkExecutor {
  x_calls : list xcall;
  numQueued : Z;
  numRunning : Z;
}.
Definition NewQueuedExecutor : QueuedExecutor := mkExecutor [] 0 0.

Inductive xlabel : Set := XCall | XTake (i : nat) | XStart (i : nat) | XFinish (i : nat) | XWake (i : nat).

Definition set_call (i : nat) (c : xcall) (x : QueuedExecutor) : list xcall := <[i := c]> (x_calls x).

(** The context of the call is [context.Background()], whose [Done] is never ready. *)
Definition executor_step (l : xlabel) (x : QueuedExecutor) : option QueuedExecutor :=
  match l with
  | XCall => Some (mkExecutor (x_calls x ++ [mkXcall XQueued false]) (wrap32 (numQueued x + 1)) (numRunning x))
  | XTake i =>
      c ← x_calls x !! i;
      if decide (x_pc c = XQueued)
      then Some (mkExecutor (set_call i (mkXcall XTaken (task_done c)) x) (wrap32 (numQueued x - 1)) (numRunning x))
      else None
  | XStart i =>
      c ← x_calls x !! i;
      if decide (x_pc c = XTaken)
      then Some (mkExecutor (set_call i (mkXcall XWaiting (task_done c)) x) (numQueued x) (wrap32 (numRunning x + 1)))
      else None
  | XFinish i =>
      c ← x_calls x !! i;
      if decide (x_pc c = XQueued) then None
      else Some (mkExecutor (set_call i (mkXcall (x_pc c) true) x) (numQueued x) (numRunning x))
  | XWake i =>
      c ← x_calls x !! i;
      if decide (x_pc c = XWaiting) then
        match Contexts.Err (V:=string) Background with
        | Some _ => Some (mkExecutor (set_call i (mkXcall XReturned (task_done c)) x) (numQueued x)
                            (wrap32 (numRunning x - 1)))
        | None => None
        end
      else None
  end.

Definition waiting (c : xcall) : bool := bool_decide (x_pc c = XWaiting).

(** Replacing one element changes a count by the difference of the tests. *)
Lemma count_set {A} (p : A → bool) (l : list A) i x y :
  l !! i = Some x →
  count p (<[i := y]> l) = count p l - (if p x then 1 else 0) + (if p y then 1 else 0).
Proof.
  revert i. induction l as [|a l IH]; intros [|i]; cbn; try done.
  - intros [= ->]. rewrite !count_cons. lia.
  - intros Hi. change (count p (a :: <[i := y]> l)
      = count p (a :: l) - (if p x then 1 else 0) + (if p y then 1 else 0)).
    rewrite !count_cons, (IH i Hi). lia.
Qed.

(** [Exec] never returns: it waits for the background context. Also when its task has been run
    it stays counted among the running ones. *)
Theorem Exec_never_returns (x : QueuedExecutor) :
  reach executor_step (λ x, x = NewQueuedExecutor) (λ _, True) x →
  (∀ i c, x_calls x !! i = Some c → x_pc c ≠ XReturned)
  ∧ numRunning x = wrap32 (count waiting (x_calls x)).
Proof.
  apply (reach_inv _ _ _ (λ x, (∀ i c, x_calls x !! i = Some c → x_pc c ≠ XReturned)
    ∧ numRunning x = wrap32 (count waiting (x_calls x)))); [by intros ? ->|].
  clear x. intros x l x' [Hr Hn] _ Hs.
  assert (∀ i c c', x_calls x !! i = Some c → x_pc c' ≠ XReturned →
    ∀ j d, set_call i c' x !! j = Some d → x_pc d ≠ XReturned) as Hset.
  { intros i c c' Hi Hc' j d. unfold set_call.
    intros [(_ & <- & _)|[_ Hj]]%list_lookup_insert_Some; [done|by eapply Hr]. }
  destruct l as [|i|i|i|i]; cbn in Hs.
  - injection Hs as <-. cbn. split.
    + intros i c [Hi|(_ & Hi)]%lookup_app_Some; [by eapply Hr|].
      by apply list_lookup_singleton_Some in Hi as [_ <-].
    + rewrite Hn. unfold count. by rewrite List.filter_app, app_nil_r.
  - apply bind_Some in Hs as (c & Hi & Hs). case_decide as E; [|done]. injection Hs as <-. cbn.
    split; [by eapply Hset|]. unfold set_call. rewrite (count_set _ _ _ _ _ Hi), Hn.
    assert (waiting c = false) as -> by (unfold waiting; by rewrite E).
    change (waiting (mkXcall XTaken (task_done c))) with false. f_equal. lia.
  - apply bind_Some in Hs as (c & Hi & Hs). case_decide as E; [|done]. injection Hs as <-. cbn.
    split; [by eapply Hset|]. unfold set_call. rewrite (count_set _ _ _ _ _ Hi), Hn, wrap_add by lia.
    assert (waiting c = false) as -> by (unfold waiting; by rewrite E).
    change (waiting (mkXcall XWaiting (task_done c))) with true. f_equal. lia.
  - apply bind_Some in Hs as (c & Hi & Hs). case_decide as E; [done|]. injection Hs as <-. cbn.
    split; [eapply Hset; [exact Hi|exact (Hr i c Hi)]|]. unfold set_call. rewrite (count_set _ _ _ _ _ Hi), Hn.
    change (waiting (mkXcall (x_pc c) true)) with (waiting c). f_equal. lia.
  - apply bind_Some in Hs as (c & Hi & Hs). by case_decide.
Qed.

(** ** [DelegatingExecutor] *)

Inductive dpc : Set := DRunning | DReturned (err : option error).
Record DelegatingExecutor := mkDelegating { d_calls : list dpc; numTasks : Z }.
Definition NewDelegatingExecutor : DelegatingExecutor := mkDelegating [] 0.
Inductive dlabel : Set := DCall | DFinish (i : nat) (err : option error).

Definition delegating_step (l : dlabel) (x : DelegatingExecutor) : option DelegatingExecutor :=
  match l with
  | DCall => Some (mkDelegating (d_calls x ++ [DRunning]) (wrap32 (numTasks x + 1)))
  | DFinish i err =>
      c ← d_calls x !! i;
      match c with
      | DRunning => Some (mkDelegating (<[i := DReturned err]> (d_calls x)) (wrap32 (numTasks x - 1)))
      | DReturned _ => None
      end
  end.

Definition d_running (c : dpc) : bool := match c with DRunning => true | DReturned _ => false end.

(** The number of delegated tasks that is reported is that of the calls in progress. *)
Theorem delegating_counts (x : DelegatingExecutor) :
  reach delegating_step (λ x, x = NewDelegatingExecutor) (λ _, True) x →
  numTasks x = wrap32 (count d_running (d_calls x)).
Proof.
  apply (reach_inv _ _ _ (λ x, numTasks x = wrap32 (count d_running (d_calls x)))); [by intros ? ->|].
  clear x. intros x l x' Hn _ Hs. destruct l as [|i err]; cbn in Hs.
  - injection Hs as <-. cbn. rewrite Hn, wrap_add by lia. f_equal. unfold count.
    rewrite List.filter_app, length_app. cbn. lia.
  - apply bind_Some in Hs as (c & Hi & Hs). destruct c; [|done]. injection Hs as <-. cbn.
    rewrite (count_set _ _ _ _ _ Hi), Hn.
    rewrite <- Z.add_opp_r, wrap_add by lia. cbn [d_running]. f_equal. lia.
Qed.

Lemma packaged_once_witness :
  ∃ pr, PackagedRequest_Run 5 (PackageRequest (λ w : Z, Ret (w + 1, ("done", None)))) = Ret (6, pr)
    ∧ pr_chan pr = ["done"].
Proof.
  destruct (packaged_once (λ w : Z, Ret (w + 1, ("done", None))) 5 6 "done" None eq_refl)
    as (_ & pr & Hrun & Hc & _). exists pr. by split.
Defined.
