(* ===== verification/StreamManager.v ===== *)
(** * Reconnecting streams: [pkg/clients/stream.go]

    A [StreamManager] keeps a stream to another component open: [Run] connects, hands the
    stream to its handler, and starts again when it ends with an error, waiting between
    attempts. While it is not connected it holds a condition of the component's
    [StatusController] (file [Status]), so that the component's health shows the missing
    peer. The manager runs beside everything else that uses the controller. *)
From S2P Require Import Prelude Status.

Inductive StatusCtrlKind : Set := Optional | Required.

(** The interfaces a handler may implement to be told about the connection. *)
Inductive handler_event : Set := OnConnected | OnLostConnection | OnConnectFailed.

Inductive ctx_error : Set := CtxCanceled | CtxDeadlineExceeded.

(** Where [Run] is: before its first statement, at [TryConnect], in [HandleStream], in
    the select of [waitBackoff], and returned. *)
Inductive sm_pc : Set := SMStart | SMConnect | SMHandle | SMBackoff | SMReturned.

Record StreamManager := mkStreamManager {
  sm_status : StatusController;
  sm_pc_of : sm_pc;
  condCtx : nat;
  sm_ctxs : list nat;               (** every context [applyCondition] made *)
  sm_ctx : option ctx_error;        (** [sm.ctx.Err()] *)
  sm_events : list handler_event;   (** what the handler was told, newest first *)
}.

Definition NewStreamManager (st : StatusController) : StreamManager :=
  mkStreamManager st SMStart 0 [] None [].

Definition set_status (st : StatusController) (s : StreamManager) : StreamManager :=
  mkStreamManager st (sm_pc_of s) (condCtx s) (sm_ctxs s) (sm_ctx s) (sm_events s).
Definition goto (pc : sm_pc) (s : StreamManager) : StreamManager :=
  mkStreamManager (sm_status s) pc (condCtx s) (sm_ctxs s) (sm_ctx s) (sm_events s).
Definition tell (e : handler_event) (s : StreamManager) : StreamManager :=
  mkStreamManager (sm_status s) (sm_pc_of s) (condCtx s) (sm_ctxs s) (sm_ctx s) (e :: sm_events s).

Section manager.
(** The options of the manager ([None]: no controller) and the handler's [Target()]. *)
Context (statusKind : option StatusCtrlKind) (target : string).

Definition kind_condition (k : StatusCtrlKind) : StatusConditions :=
  match k with Optional => MissingOptionalComponent | Required => MissingCriticalComponent end.
Definition connecting_msg : string := "Attempting to connect to " +:+ target.

(** [applyCondition]: a fresh context, and a condition that lasts as long as it. *)
Definition applyCondition (s : StreamManager) : StreamManager :=
  let st := sm_status s in
  let ctx := next_ctx st in
  let st := match statusKind with
            | Some k => ApplyCondition ctx (kind_condition k) [connecting_msg] st
            | None => mkController (conditions st) (watchers st) (done_ctxs st) (srv_done st)
                        (S ctx) (cancelPending st)
            end in
  mkStreamManager st (sm_pc_of s) ctx (ctx :: sm_ctxs s) (sm_ctx s) (sm_events s).

Definition cancelCond (s : StreamManager) : StreamManager := set_status (cancel (condCtx s) (sm_status s)) s.

(** [if condCtx.Err() != nil { condCtx, cancelCond = sm.applyCondition() }] *)
Definition reapply (s : StreamManager) : StreamManager :=
  if bool_decide (condCtx s ∈ done_ctxs (sm_status s)) then applyCondition s else s.

(** [return], with the deferred call of [cancelCond]. *)
Definition sm_return (s : StreamManager) : StreamManager := goto SMReturned (cancelCond s).

(** [TryConnect] failed. *)
Definition connect_failed (s : StreamManager) : StreamManager :=
  let s := tell OnConnectFailed s in
  match sm_ctx s with
  | Some CtxCanceled => sm_return s
  | _ => goto SMBackoff (reapply s)
  end.

(** [TryConnect] returned a stream. *)
Definition connected (s : StreamManager) : StreamManager :=
  goto SMHandle (tell OnConnected (cancelCond s)).

(** [HandleStream] returned, with an error or without. *)
Definition stream_ended (failed : bool) (s : StreamManager) : StreamManager :=
  let s := tell OnLostConnection (reapply s) in
  if failed then
    match sm_ctx s with
    | Some CtxCanceled => sm_return s
    | _ => goto SMBackoff s
    end
  else sm_return s.

Inductive sm_label :=
  | GStart
  | GConnect (ok : bool)
  | GStreamEnd (failed : bool)
  | GBackoff                        (** the timer, [TryImmediately] or the context *)
  | GCtx (e : ctx_error)
  | GStatus (l : status_label).     (** another user of the status controller *)

(** The other users of the controller own other contexts, cancel contexts that exist, and
    do not initialize it again. *)
Definition other_status (l : status_label) (s : StreamManager) : bool :=
  match l with
  | TApply ctx _ _ => bool_decide (ctx ∉ sm_ctxs s)
  | TCancel ctx => bool_decide (ctx ∉ sm_ctxs s) && bool_decide (ctx < next_ctx (sm_status s))%nat
  | TBegin => false
  | _ => true
  end.

Definition sm_step (l : sm_label) (s : StreamManager) : option StreamManager :=
  match l, sm_pc_of s with
  | GStart, SMStart => Some (goto SMConnect (applyCondition s))
  | GConnect false, SMConnect => Some (connect_failed s)
  | GConnect true, SMConnect => Some (connected s)
  | GStreamEnd failed, SMHandle => Some (stream_ended failed s)
  | GBackoff, SMBackoff => Some (goto SMConnect s)
  | GCtx e, _ =>
      match sm_ctx s with
      | None => Some (mkStreamManager (sm_status s) (sm_pc_of s) (condCtx s) (sm_ctxs s) (Some e)
                        (sm_events s))
      | Some _ => None
      end
  | GStatus l, _ =>
      if other_status l s then st ← status_step l (sm_status s); Some (set_status st s) else None
  | _, _ => None
  end.

(** A controller whose contexts are numbered below [next_ctx]. *)
Record ctl_ok (st : StatusController) (mine : list nat) : Prop := {
  co_watched : watched st;
  co_done : ∀ c, c ∈ done_ctxs st → (c < next_ctx st)%nat;
  co_pending : ∀ c, cancelPending st = Some c → (c < next_ctx st)%nat ∧ c ∉ mine;
  co_mine : ∀ c, c ∈ mine → (c < next_ctx st)%nat;
}.

Definition sm_init (s : StreamManager) : Prop := ∃ st, ctl_ok st [] ∧ s = NewStreamManager st.

(** The condition of the manager is in force. *)
Definition holds_condition (s : StreamManager) : Prop :=
  condCtx s ∉ done_ctxs (sm_status s) ∧
  ∀ k, statusKind = Some k → srv_done (sm_status s) = false →
    conditions (sm_status s) !! condCtx s = Some (mkCondition (kind_condition k) [connecting_msg]).

(** Contexts the manager no longer uses are cancelled. *)
Definition old_done (s : StreamManager) : Prop :=
  condCtx s ∈ sm_ctxs s ∧ ∀ c, c ∈ sm_ctxs s → c ≠ condCtx s → c ∈ done_ctxs (sm_status s).

Definition sm_at (s : StreamManager) : Prop :=
  match sm_pc_of s with
  | SMStart => sm_ctxs s = []
  | SMConnect | SMBackoff => holds_condition s ∧ old_done s
  | SMHandle | SMReturned => condCtx s ∈ done_ctxs (sm_status s) ∧ old_done s
  end.

Definition sm_inv (s : StreamManager) : Prop := ctl_ok (sm_status s) (sm_ctxs s) ∧ sm_at s.

Lemma applyCondition_ok s :
  ctl_ok (sm_status s) (sm_ctxs s) → (∀ c, c ∈ sm_ctxs s → c ∈ done_ctxs (sm_status s)) →
  let s' := applyCondition s in
  ctl_ok (sm_status s') (sm_ctxs s') ∧ holds_condition s' ∧ old_done s'.
Proof.
  intros [W D P M] HD. cbn zeta.
  assert (next_ctx (sm_status s) ∉ done_ctxs (sm_status s)) as HN by (intros Hc%D; lia).
  assert (next_ctx (sm_status (applyCondition s)) = S (next_ctx (sm_status s))) as HX
    by (unfold applyCondition; destruct statusKind; cbn; lia).
  assert (done_ctxs (sm_status (applyCondition s)) = done_ctxs (sm_status s)) as HE
    by (unfold applyCondition; by destruct statusKind).
  assert (cancelPending (sm_status (applyCondition s)) = cancelPending (sm_status s)) as HP
    by (unfold applyCondition; by destruct statusKind).
  unfold holds_condition, old_done. rewrite HE. split_and!.
  - split; rewrite ?HX, ?HE, ?HP.
    + intros ctx Hc. unfold applyCondition in *. destruct statusKind as [k|]; cbn in *; [|by apply W].
      apply lookup_insert_is_Some in Hc as [->|[_ Hc]]; [by left|right; by apply W].
    + intros c Hc%D. lia.
    + intros c Hc%P. split; [lia|]. cbn. rewrite elem_of_cons. intros [->|?]; [lia|tauto].
    + intros c [->|Hc%M]%elem_of_cons; lia.
  - done.
  - unfold applyCondition. destruct statusKind as [k|]; [|done]. intros k' [= <-] _. cbn.
    by rewrite lookup_insert_eq.
  - by left.
  - intros c [->|Hc]%elem_of_cons Hne; [done|by apply HD].
Qed.

Lemma ctl_ok_cancel st mine c : ctl_ok st mine → c ∈ mine → ctl_ok (cancel c st) mine.
Proof.
  intros [W D P M] Hc. split; try done. cbn. intros c' [->%elem_of_singleton|H]%elem_of_union; auto.
Qed.

Lemma cancelCond_ok s :
  ctl_ok (sm_status s) (sm_ctxs s) → old_done s →
  ctl_ok (sm_status (cancelCond s)) (sm_ctxs s) ∧
  condCtx s ∈ done_ctxs (sm_status (cancelCond s)) ∧ old_done (cancelCond s).
Proof.
  intros HC [H1 H2]. split; [by apply ctl_ok_cancel|]. unfold old_done. cbn.
  split; [set_solver|]. split; [done|]. intros c Hc Hne. apply elem_of_union_r. auto.
Qed.

(** What another user of the controller does leaves the manager's condition alone. *)
Lemma other_status_ok l s st :
  ctl_ok (sm_status s) (sm_ctxs s) → other_status l s = true → status_step l (sm_status s) = Some st →
  ctl_ok st (sm_ctxs s) ∧ done_ctxs (sm_status s) ⊆ done_ctxs st ∧
  (∀ c, c ∈ sm_ctxs s → c ∈ done_ctxs st → c ∈ done_ctxs (sm_status s)) ∧
  ∀ c x, c ∈ sm_ctxs s → c ∉ done_ctxs (sm_status s) → srv_done st = false →
    srv_done (sm_status s) = false ∧
    (conditions (sm_status s) !! c = Some x → conditions st !! c = Some x).
Proof.
  intros [W D P M] HO HS. pose proof (watched_step _ _ _ HS W) as W'.
  destruct l as [ctx c m| | |ctx| |ctx]; cbn in HS, HO.
  - simplify_eq/=. apply bool_decide_eq_true in HO. split_and!; try done.
    + split; cbn; try done; [intros c' Hc; specialize (D c' Hc); lia| |intros c' Hc; specialize (M c' Hc); lia].
      intros c' Hc. destruct (P c' Hc). split; [lia|done].
    + cbn. intros c' x Hc Hd Hs. split; [done|]. intros Hx. rewrite lookup_insert_ne; [done|]. by intros ->.
  - done.
  - unfold EndInitialize in HS. destruct (cancelPending (sm_status s)) as [p|] eqn:E; simplify_eq/=.
    destruct (P p eq_refl) as [Hp1 Hp2]. split_and!; [|set_solver|set_solver|done].
    split; cbn; rewrite ?E; try done. intros c' Hc. apply elem_of_union in Hc as [->%elem_of_singleton|Hc]; auto.
  - simplify_eq/=. apply andb_true_iff in HO as [H1%bool_decide_eq_true H2%bool_decide_eq_true].
    split_and!; [|set_solver|set_solver|done].
    split; cbn; try done. intros c' Hc. apply elem_of_union in Hc as [->%elem_of_singleton|Hc]; auto.
  - simplify_eq/=. split_and!; [by split|done|done|done].
  - destruct (awake _ _) eqn:EA; [|done]. case_bool_decide; [|done]. simplify_eq/=.
    split_and!; [by split|done|done|]. intros c' x Hc Hd Hs. split; [done|]. intros Hx.
    rewrite lookup_delete_ne; [done|]. intros <-. unfold awake in EA. cbn in Hs. rewrite Hs in EA.
    by apply bool_decide_eq_true in EA.
Qed.

Lemma sm_at_other l s st :
  sm_inv s → other_status l s = true → status_step l (sm_status s) = Some st → sm_inv (set_status st s).
Proof.
  intros [HC HA] HO HS. destruct (other_status_ok l s st HC HO HS) as (HC' & HD & HK & HX).
  split; [done|]. unfold sm_at, holds_condition, old_done in *. cbn.
  destruct (sm_pc_of s); cbn in *; try done.
  all: repeat match goal with H : _ ∧ _ |- _ => destruct H end; split_and!; auto.
  all: intros k Hk Hs; destruct (HX (condCtx s) (mkCondition (kind_condition k) [connecting_msg])) as [H5 H6];
    try done; auto.
Qed.

Lemma sm_inv_return s : ctl_ok (sm_status s) (sm_ctxs s) → old_done s → sm_inv (sm_return s).
Proof. intros HC HO. destruct (cancelCond_ok s HC HO) as (H1 & H2 & H3). by split. Qed.

Lemma sm_inv_step l s s' : sm_inv s → sm_step l s = Some s' → sm_inv s'.
Proof.
  intros HI H. unfold sm_step in H. destruct l as [|ok|failed| |e|l].
  6: { assert (H' : (if other_status l s then st ← status_step l (sm_status s); Some (set_status st s)
                     else None) = Some s') by (by destruct (sm_pc_of s)).
       destruct (other_status l s) eqn:EO; [|done]. apply bind_Some in H' as (st & HS & [= <-]).
       by eapply sm_at_other. }
  5: { assert (∃ c, s' = mkStreamManager (sm_status s) (sm_pc_of s) (condCtx s) (sm_ctxs s) c (sm_events s))
         as [c ->] by (destruct (sm_pc_of s), (sm_ctx s); inversion H; by eexists). exact HI. }
  all: destruct HI as [HC HA]; unfold sm_at in HA; destruct (sm_pc_of s) eqn:EP; try (by destruct ok);
    cbn in H; try discriminate H.
  - injection H as <-. destruct (applyCondition_ok s HC) as (H1 & H2 & H3); [rewrite HA; set_solver|].
    exact (conj H1 (conj H2 H3)).
  - destruct HA as [HH HO]. destruct ok; injection H as <-.
    + destruct (cancelCond_ok s HC HO) as (H1 & H2 & H3). by split.
    + unfold connect_failed. cbn. assert (reapply (tell OnConnectFailed s) = tell OnConnectFailed s) as ->.
      { unfold reapply. rewrite bool_decide_false; [done|]. apply HH. }
      destruct (sm_ctx s) as [[|]|]; [by apply sm_inv_return|by split..].
  - destruct HA as [HD HO]. injection H as <-. unfold stream_ended, reapply.
    rewrite bool_decide_true by done.
    destruct (applyCondition_ok s HC) as (H1 & H2 & H3).
    { intros c Hc. destruct (decide (c = condCtx s)) as [->|]; [done|]. by apply HO. }
    destruct failed; [|by apply sm_inv_return]. cbn.
    destruct (sm_ctx s) as [[|]|]; [by apply sm_inv_return|by split..].
  - injection H as <-. by split.
Qed.

(** The status reported while the condition of the manager is in force. *)
Lemma health_of s k h :
  conditions (sm_status s) !! condCtx s = Some (mkCondition (kind_condition k) [connecting_msg]) →
  GetHealth (sm_status s) h →
  Status h ≠ Ready ∧ (k = Required → Status h = Unavailable_ ∨ Status h = Initializing).
Proof.
  intros HL HG. rewrite (status_of_GetHealth _ _ HG). unfold status_of.
  assert (∀ p, p (kind_condition k) = true → has p (active (sm_status s)) = true) as HP.
  { intros p Hp. unfold has. apply existsb_exists.
    exists (mkCondition (kind_condition k) [connecting_msg]). split; [|exact Hp].
    apply list_elem_of_In, list_elem_of_fmap. exists (condCtx s, mkCondition (kind_condition k) [connecting_msg]).
    split; [done|]. by apply elem_of_map_to_list. }
  destruct (has is_pending _); [by auto|]. destruct (srv_done (sm_status s)); [by auto|].
  destruct k; cbn in *.
  - destruct (has is_critical _); [by auto|]. by rewrite (HP is_optional).
  - rewrite (HP is_critical) by done. auto.
Qed.

(** What the handler was told, as an automaton: connected or not after the events. *)
Fixpoint told (l : list handler_event) : option bool :=
  match l with
  | [] => Some false
  | e :: l =>
      match told l, e with
      | Some false, OnConnected => Some true
      | Some true, OnLostConnection => Some false
      | Some false, OnConnectFailed => Some false
      | _, _ => None
      end
  end.

Definition in_stream (pc : sm_pc) : bool := match pc with SMHandle => true | _ => false end.

Lemma told_step l s s' :
  told (sm_events s) = Some (in_stream (sm_pc_of s)) → sm_step l s = Some s' →
  told (sm_events s') = Some (in_stream (sm_pc_of s')).
Proof.
  intros HT H.
  destruct l as [|[]|[]| |e|l], (sm_pc_of s) eqn:EP; cbn in H; try discriminate H;
    unfold connect_failed, stream_ended, reapply, applyCondition in H; repeat case_match;
    try (apply bind_Some in H as (? & _ & H)); simplify_eq/=; rewrite ?EP, ?HT; done.
Qed.

Lemma sm_reach_inv P s : reach sm_step sm_init P s → sm_inv s.
Proof.
  apply reach_inv; [|by eauto using sm_inv_step]. intros ? (st & HC & ->). by split.
Qed.

(** C13: The health of a component shows whether its streams are connected. In every
    interleaving of the manager with the other users of the status controller: while the
    manager is not connected (and the server runs) the reported status is not ready, and
    it is unavailable or initializing when the peer is required; once it is connected or
    has returned, none of its conditions is left as soon as the controller's goroutines
    have run; and the handler is told of a connection and of its loss alternately. *)
Theorem stream_health (P : sm_label → Prop) (s : StreamManager) (HR : reach sm_step sm_init P s) :
  (∀ k h, statusKind = Some k → sm_pc_of s = SMConnect ∨ sm_pc_of s = SMBackoff →
     srv_done (sm_status s) = false → GetHealth (sm_status s) h →
     Status h ≠ Ready ∧ (k = Required → Status h = Unavailable_ ∨ Status h = Initializing)) ∧
  (sm_pc_of s = SMHandle ∨ sm_pc_of s = SMReturned → quiescent (sm_status s) →
     ∀ c, c ∈ sm_ctxs s → conditions (sm_status s) !! c = None) ∧
  told (sm_events s) = Some (in_stream (sm_pc_of s)).
Proof.
  pose proof (sm_reach_inv P s HR) as [HC HA]. split_and!.
  - intros k h Hk Hpc Hs HG.
    assert (holds_condition s) as [_ HH] by (unfold sm_at in HA; destruct Hpc as [E|E]; rewrite E in HA; apply HA).
    by apply (health_of s k h (HH k Hk Hs)).
  - intros Hpc HQ c Hc.
    assert (c ∈ done_ctxs (sm_status s)) as Hd.
    { unfold sm_at in HA. destruct Hpc as [E|E]; rewrite E in HA; destruct HA as [Hd [_ HO]];
        destruct (decide (c = condCtx s)) as [->|]; auto. }
    destruct (conditions (sm_status s) !! c) eqn:E; [|done].
    specialize (HQ c (co_watched _ _ HC c ltac:(by rewrite E))). unfold awake in HQ.
    rewrite bool_decide_true, orb_true_r in HQ by done. done.
  - refine (reach_inv _ _ _ (λ s, told (sm_events s) = Some (in_stream (sm_pc_of s))) s _ _ HR).
    + by intros ? (st & _ & ->).
    + eauto using told_step.
Qed.
End manager.

(** ** Witness: a required peer that is reached, lost, and being looked for again *)

Definition new_ctl : StatusController := mkController ∅ [] ∅ false 0 None.
Definition monitor_run : list sm_label :=
  [GStart; GConnect false; GBackoff; GConnect true; GStatus (TClear 0); GStreamEnd true].
Definition monitor_state : StreamManager :=
  after_run (sm_step (Some Required) "monitor") (NewStreamManager new_ctl) monitor_run.

Lemma stream_health_witness :
  sm_pc_of monitor_state = SMBackoff ∧ told (sm_events monitor_state) = Some false ∧
  ∃ h, GetHealth (sm_status monitor_state) h ∧ Status h ≠ Ready.
Proof.
  assert (reach (sm_step (Some Required) "monitor") sm_init (λ _, True) monitor_state) as HR.
  { apply after_run_reach; [|by apply Forall_true]. exists new_ctl. split; [|done].
    split; try done; [|set_solver]. intros c Hc. cbn in Hc. rewrite lookup_empty in Hc. by destruct Hc. }
  destruct (stream_health (Some Required) "monitor" _ monitor_state HR) as (H1 & _ & H3).
  split; [by vm_compute|]. split; [exact H3|].
  exists (health false (active (sm_status monitor_state))).
  assert (GetHealth (sm_status monitor_state) (health false (active (sm_status monitor_state)))) as HG
    by (eexists; split; [reflexivity|by vm_compute]).
  split; [exact HG|]. eapply H1; [reflexivity|right; by vm_compute|by vm_compute|exact HG].
Defined.
