(* ===== verification/Finders.v ===== *)
(** * Finding compilers: [pkg/consumer/path_search.go], [pkg/cc/finder.go],
    [pkg/toolchains/query.go], [pkg/toolchains/discovery.go], [pkg/sleep/querier.go]

    The consumer, which is invoked under a compiler's name, looks for the real compiler in
    [PATH]; consumerd and the agents look for all compilers of the machine and describe
    each by asking it. The file system and the outcome of running a compiler are
    parameters. *)
From S2P Require Import Prelude GoStrings Types Toolchains.

(** ** The file system *)

(** [fs.FileMode]: [IsDir], the symlink bit, and [m & 0111 != 0]. *)
Record FileMode := mkMode { m_dir : bool; m_symlink : bool; m_exec : bool }.

Inductive StatResult :=
  | StatOk (m : FileMode)
  | StatNotExist             (** an error for which [os.IsNotExist] holds *)
  | StatFailed (e : error).  (** any other error *)

(** ** The consumer's search in PATH *)

Section path_search.
Context (stat : string → StatResult) (EvalSymlinks : string → option string) (PATH : string).

Definition samePath (a b : string) : bool :=
  if bool_decide (a = b) then true
  else match EvalSymlinks a, EvalSymlinks b with
       | Some a, Some b => bool_decide (a = b)
       | _, _ => false
       end.

Definition ErrPermission : error := PlainError "permission denied".

Definition findExecutable (file : string) : option error :=
  match stat file with
  | StatNotExist => Some (PlainError "file does not exist")
  | StatFailed e => Some e
  | StatOk m => if negb (m_dir m) && m_exec m then None else Some ErrPermission
  end.

Definition colon : ascii := ":"%char.

(** [filepath.SplitList] *)
Definition SplitList (path : string) : list string :=
  if bool_decide (path = "") then [] else split path colon.

Definition candidate (file dir : string) : string :=
  path_join [if bool_decide (dir = "") then "."%string else dir; file].

Fixpoint look_dirs (file self : string) (dirs : list string) : option string :=
  match dirs with
  | [] => None
  | dir :: dirs =>
      let path := candidate file dir in
      if samePath path self then look_dirs file self dirs
      else match findExecutable path with
           | None => Some path
           | Some _ => look_dirs file self dirs
           end
  end.

Definition lookPath (file self : string) : error + string :=
  if contains file "/" then
    match findExecutable file with
    | None => inr file
    | Some err => inl (PlainError ("exec: " +:+ file +:+ ": " +:+ error_text err))
    end
  else match look_dirs file self (SplitList PATH) with
       | Some path => inr path
       | None => inl (PlainError ("exec: " +:+ file +:+ ": executable file not found in $PATH"))
       end.

(** [findCompilerOrDie] with [os.Args[0]] and the path of the running executable;
    [None] is the end of the process. *)
Definition findCompilerOrDie (arg0 : string) (executable : option string) : option string :=
  match executable with
  | None => None
  | Some self =>
      match EvalSymlinks self with
      | None => None
      | Some self =>
          match lookPath (base arg0) self with
          | inr compiler => Some compiler
          | inl _ => None
          end
      end
  end.

(** A directory whose candidate is the consumer itself or cannot be executed. *)
Definition skipped (file self dir : string) : Prop :=
  samePath (candidate file dir) self = true ∨ findExecutable (candidate file dir) ≠ None.

Lemma look_dirs_spec file self dirs :
  match look_dirs file self dirs with
  | Some p => ∃ before dir after, dirs = before ++ dir :: after ∧ p = candidate file dir ∧
      Forall (skipped file self) before ∧ samePath p self = false ∧ findExecutable p = None
  | None => Forall (skipped file self) dirs
  end.
Proof.
  induction dirs as [|d dirs IH]; [by constructor|]. cbn.
  assert (skipped file self d → match look_dirs file self dirs with
    | Some p => ∃ before dir after, d :: dirs = before ++ dir :: after ∧ p = candidate file dir ∧
        Forall (skipped file self) before ∧ samePath p self = false ∧ findExecutable p = None
    | None => Forall (skipped file self) (d :: dirs)
    end) as HS.
  { intros Hd. destruct (look_dirs file self dirs); [|by constructor].
    destruct IH as (b & x & a & -> & H1 & H2 & H3). exists (d :: b), x, a.
    split_and!; try done; [by constructor|naive_solver|naive_solver]. }
  destruct (samePath _ self) eqn:ES; [by apply HS; left|].
  destruct (findExecutable _) eqn:EF; [apply HS; right; congruence|].
  by exists [], d, dirs.
Qed.

(** The consumer never starts itself: the compiler it finds is the first executable in
    the directories of [PATH] under the name it was invoked with that does not resolve to
    the consumer's own executable; it gives up only when every directory has to be
    skipped. ("/" is a directory, and the resolved path of the consumer has no links.) *)
Theorem findCompiler_not_self (arg0 x self : string) (root : FileMode)
    (HX : EvalSymlinks x = Some self) (HS : EvalSymlinks self = Some self)
    (HR : stat "/" = StatOk root) (HD : m_dir root = true) :
  match findCompilerOrDie arg0 (Some x) with
  | Some p => EvalSymlinks p ≠ Some self ∧ p ≠ self ∧ findExecutable p = None ∧
      ∃ before dir after, SplitList PATH = before ++ dir :: after ∧ p = candidate (base arg0) dir ∧
        Forall (skipped (base arg0) self) before
  | None => base arg0 = "/" ∨ Forall (skipped (base arg0) self) (SplitList PATH)
  end.
Proof.
  unfold findCompilerOrDie, lookPath. rewrite HX.
  destruct (contains (base arg0) "/") eqn:EC.
  { apply base_slash in EC. rewrite EC. unfold findExecutable. rewrite HR, HD. cbn. by left. }
  pose proof (look_dirs_spec (base arg0) self (SplitList PATH)) as HL.
  destruct (look_dirs _ _ _) as [p|]; [|by right].
  destruct HL as (b & d & a & H1 & H2 & H3 & H4 & H5). unfold samePath in H4.
  case_bool_decide as HE; [done|]. rewrite HS in H4. split_and!; try done; [|by exists b, d, a].
  intros Hp. rewrite Hp, bool_decide_true in H4 by done. done.
Qed.
End path_search.

(** The consumer is installed as gcc in a directory before the compiler's. *)
Definition demo_stat (p : string) : StatResult :=
  if bool_decide (p = "/"%string) then StatOk (mkMode true false true) else StatOk (mkMode false false true).
Definition demo_links (p : string) : option string :=
  if bool_decide (p = "/opt/bin/gcc"%string) then Some "/opt/kubecc"%string else Some p.

Lemma findCompiler_not_self_witness :
  findCompilerOrDie demo_stat demo_links "/opt/bin:/usr/bin" "/opt/bin/gcc" (Some "/opt/kubecc"%string) =
    Some "/usr/bin/gcc"%string ∧ demo_links "/usr/bin/gcc" ≠ Some "/opt/kubecc"%string.
Proof.
  split; [vm_compute; reflexivity|].
  exact (proj1 (findCompiler_not_self demo_stat demo_links "/opt/bin:/usr/bin" "/opt/bin/gcc"
    "/opt/kubecc" "/opt/kubecc" (mkMode true false true) eq_refl eq_refl eq_refl eq_refl)).
Defined.

(** ** Regular expressions

    The part of [regexp] the finder's pattern uses, by derivatives. *)

Inductive regex :=
  | REps
  | RNone
  | RChar (p : ascii → bool)
  | RSeq (r1 r2 : regex)
  | RAlt (r1 r2 : regex)
  | RStar (r : regex).

Inductive re_lang : regex → list ascii → Prop :=
  | re_eps : re_lang REps []
  | re_char p c : p c = true → re_lang (RChar p) [c]
  | re_seq r1 r2 s1 s2 : re_lang r1 s1 → re_lang r2 s2 → re_lang (RSeq r1 r2) (s1 ++ s2)
  | re_alt_l r1 r2 s : re_lang r1 s → re_lang (RAlt r1 r2) s
  | re_alt_r r1 r2 s : re_lang r2 s → re_lang (RAlt r1 r2) s
  | re_star_nil r : re_lang (RStar r) []
  | re_star_cons r s1 s2 : re_lang r s1 → re_lang (RStar r) s2 → re_lang (RStar r) (s1 ++ s2).

Fixpoint nullable (r : regex) : bool :=
  match r with
  | REps | RStar _ => true
  | RNone | RChar _ => false
  | RSeq r1 r2 => nullable r1 && nullable r2
  | RAlt r1 r2 => nullable r1 || nullable r2
  end.

Fixpoint deriv (c : ascii) (r : regex) : regex :=
  match r with
  | REps | RNone => RNone
  | RChar p => if p c then REps else RNone
  | RSeq r1 r2 =>
      if nullable r1 then RAlt (RSeq (deriv c r1) r2) (deriv c r2) else RSeq (deriv c r1) r2
  | RAlt r1 r2 => RAlt (deriv c r1) (deriv c r2)
  | RStar r => RSeq (deriv c r) (RStar r)
  end.

Fixpoint re_match (r : regex) (s : list ascii) : bool :=
  match s with
  | [] => nullable r
  | c :: s => re_match (deriv c r) s
  end.

Lemma nullable_spec r : nullable r = true ↔ re_lang r [].
Proof.
  induction r as [| | |r1 IH1 r2 IH2|r1 IH1 r2 IH2|r IH]; cbn.
  - split; constructor.
  - by split; inversion 1.
  - by split; inversion 1.
  - rewrite andb_true_iff, IH1, IH2. split; [intros [? ?]; by apply (re_seq _ _ [] [])|].
    inversion 1 as [| |? ? s1 s2 H1 H2| | | |]; subst. destruct s1, s2; by simplify_eq.
  - rewrite orb_true_iff, IH1, IH2. split; [intros [?|?]; by constructor|]. inversion 1; auto.
  - split; constructor.
Qed.

(** A word of a starred expression that starts with [c] has a first non-empty factor. *)
Lemma star_cons r c s :
  re_lang (RStar r) (c :: s) → ∃ s1 s2, s = s1 ++ s2 ∧ re_lang r (c :: s1) ∧ re_lang (RStar r) s2.
Proof.
  intros H. remember (RStar r) as q eqn:Eq. remember (c :: s) as w eqn:Ew.
  revert r c s Eq Ew. induction H as [| | | | | |r0 s1 s2 H1 _ H2 IH]; intros r' c' w' Eq Ew; simplify_eq.
  destruct s1 as [|d s1]; cbn in Ew; [by apply IH|]. injection Ew as -> <-. by exists s1, s2.
Qed.

Lemma deriv_spec r c s : re_lang (deriv c r) s ↔ re_lang r (c :: s).
Proof.
  revert s. induction r as [| |p|r1 IH1 r2 IH2|r1 IH1 r2 IH2|r IH]; intros s; cbn.
  - by split; inversion 1.
  - by split; inversion 1.
  - split.
    + destruct (p c) eqn:E; inversion 1; subst. by constructor.
    + inversion 1 as [|? ? E| | | | |]; subst. rewrite E. constructor.
  - assert (re_lang (RSeq (deriv c r1) r2) s → re_lang (RSeq r1 r2) (c :: s)) as HL.
    { inversion 1 as [| |? ? s1 s2 H1 H2| | | |]; subst. apply IH1 in H1.
      by apply (re_seq _ _ (c :: s1) s2). }
    split.
    + destruct (nullable r1) eqn:EN; [|done]. inversion 1; subst; [by apply HL|].
      apply nullable_spec in EN. apply (re_seq _ _ [] (c :: s)); [done|]. by apply IH2.
    + inversion 1 as [| |? ? s1 s2 H1 H2 E1 E2| | | |]; subst. destruct s1 as [|d s1]; cbn in *.
      * subst. rewrite (proj2 (nullable_spec r1)) by done. apply re_alt_r. by apply IH2.
      * injection E2 as -> <-. apply IH1 in H1.
        destruct (nullable r1); [apply re_alt_l|]; by constructor.
  - split; inversion 1; subst; (by apply re_alt_l, IH1) || (by apply re_alt_r, IH2).
  - split.
    + inversion 1 as [| |? ? s1 s2 H1 H2| | | |]; subst. apply IH in H1.
      by apply (re_star_cons _ (c :: s1) s2).
    + intros (s1 & s2 & -> & H1 & H2)%star_cons. constructor; [by apply IH|done].
Qed.

Lemma re_match_spec r s : re_match r s = true ↔ re_lang r s.
Proof.
  revert r. induction s as [|c s IH]; intros r; cbn; [apply nullable_spec|]. rewrite IH. apply deriv_spec.
Qed.

(** ** The finder's pattern *)

Definition rlit (s : string) : regex :=
  foldr (λ c, RSeq (RChar (λ d, bool_decide (d = c)))) REps (chars s).
Definition rplus (r : regex) : regex := RSeq r (RStar r).
Definition ropt (r : regex) : regex := RAlt r REps.

Definition char_in (lo hi c : ascii) : bool :=
  let n := nat_of_ascii c in (nat_of_ascii lo <=? n)%nat && (n <=? nat_of_ascii hi)%nat.
(** [\w] and [[\d.]] *)
Definition word_char (c : ascii) : bool :=
  char_in "0" "9" c || char_in "A" "Z" c || char_in "a" "z" c || bool_decide (c = "_"%char).
Definition version_char (c : ascii) : bool := char_in "0" "9" c || bool_decide (c = dot).

Definition triple_part : regex := RSeq (rplus (RChar word_char)) (rlit "-").
Definition compiler_names : regex :=
  RAlt (rlit "gcc") (RAlt (rlit "g++") (RSeq (rlit "clang") (ropt (rlit "++")))).

Definition pattern : regex :=
  RSeq (ropt (RSeq triple_part (RSeq triple_part triple_part)))
    (RSeq compiler_names (ropt (RSeq (rlit "-") (rplus (RChar version_char))))).

Definition is_compiler_name (name : string) : bool := re_match pattern (chars name).

Example name_ex1 : is_compiler_name "x86_64-linux-gnu-g++-10.2" = true. Proof. reflexivity. Qed.
Example name_ex2 : is_compiler_name "clang++" = true. Proof. reflexivity. Qed.
Example name_ex3 : is_compiler_name "gcc-ar" = false. Proof. reflexivity. Qed.
Example name_ex4 : is_compiler_name "cc" = false. Proof. reflexivity. Qed.

Lemma rlit_lang s w : re_lang (rlit s) w ↔ w = chars s.
Proof.
  unfold rlit. induction (chars s) as [|c l IH] in w |- *; cbn.
  - split; [by inversion 1|intros ->; constructor].
  - split.
    + inversion 1 as [| |? ? s1 s2 H1 H2| | | |]; subst. apply IH in H2 as ->.
      inversion H1 as [|? ? E| | | | |]; subst. by apply bool_decide_eq_true in E as ->.
    + intros ->. apply (re_seq _ _ [c] l); [|by apply IH]. constructor. by apply bool_decide_eq_true.
Qed.

Lemma re_seq_iff r1 r2 w : re_lang (RSeq r1 r2) w ↔ ∃ s1 s2, w = s1 ++ s2 ∧ re_lang r1 s1 ∧ re_lang r2 s2.
Proof. split; [inversion 1; subst; by eauto|]. intros (s1 & s2 & -> & ? & ?). by constructor. Qed.
Lemma re_alt_iff r1 r2 w : re_lang (RAlt r1 r2) w ↔ re_lang r1 w ∨ re_lang r2 w.
Proof. split; [inversion 1; subst; auto|]. intros [?|?]; by constructor. Qed.
Lemma re_eps_iff w : re_lang REps w ↔ w = [].
Proof. split; [by inversion 1|intros ->; constructor]. Qed.
Lemma re_char_iff p w : re_lang (RChar p) w ↔ ∃ c, w = [c] ∧ p c = true.
Proof. split; [inversion 1; subst; by eauto|]. intros (c & -> & ?). by constructor. Qed.

Lemma rstar_char p w : re_lang (RStar (RChar p)) w ↔ Forall (λ c, p c = true) w.
Proof.
  induction w as [|c w IH]; [split; [done|intros _; constructor]|]. rewrite Forall_cons, <- IH. split.
  - intros (s1 & s2 & -> & H1 & H2)%star_cons. apply re_char_iff in H1 as (d & [= -> ->] & ?). done.
  - intros [Hc Hw]. apply (re_star_cons _ [c] w); [by constructor|done].
Qed.

(** Languages of strings. *)
Definition str_lang (r : regex) (s : string) : Prop := re_lang r (chars s).

(** A non-empty word over a class of characters. *)
Definition word_of (p : ascii → bool) (s : string) : Prop := s ≠ "" ∧ Forall (λ c, p c = true) (chars s).

Lemma str_plus p s : str_lang (rplus (RChar p)) s ↔ word_of p s.
Proof.
  unfold str_lang, rplus, word_of. rewrite re_seq_iff. setoid_rewrite re_char_iff. setoid_rewrite rstar_char. split.
  - intros (? & s2 & E & (c & -> & Hc) & H2). cbn in E. rewrite E. split; [by intros ->|by constructor].
  - intros [Hne HF]. destruct (chars s) as [|c l] eqn:E; [destruct Hne; by apply chars_inj|].
    apply Forall_cons in HF as [Hc HF]. exists [c], l. eauto.
Qed.

(** The names of compilers, as the comment on the pattern describes them: an optional host
    triple, one of the four names, an optional number. *)
Definition host_triple (t : string) : Prop :=
  ∃ a b c, t = a +:+ "-" +:+ b +:+ "-" +:+ c +:+ "-" ∧ word_of word_char a ∧ word_of word_char b ∧ word_of word_char c.
Definition compiler_name (name : string) : Prop :=
  ∃ triple c version, name = triple +:+ c +:+ version ∧
    (triple = "" ∨ host_triple triple) ∧
    c ∈ ["gcc"; "g++"; "clang"; "clang++"]%string ∧
    (version = "" ∨ ∃ v, version = "-" +:+ v ∧ word_of version_char v).

Lemma str_seq r1 r2 s : str_lang (RSeq r1 r2) s ↔ ∃ s1 s2, s = s1 +:+ s2 ∧ str_lang r1 s1 ∧ str_lang r2 s2.
Proof.
  unfold str_lang. rewrite re_seq_iff. split.
  - intros (l1 & l2 & E & H1 & H2). exists (of_chars l1), (of_chars l2). rewrite !chars_of_chars. split; [|done].
    apply chars_inj. by rewrite chars_app, !chars_of_chars.
  - intros (s1 & s2 & -> & H1 & H2). exists (chars s1), (chars s2). by rewrite chars_app.
Qed.
Lemma str_opt r s : str_lang (ropt r) s ↔ s = "" ∨ str_lang r s.
Proof.
  unfold str_lang, ropt. rewrite re_alt_iff, re_eps_iff. split; [|intros [->|?]; auto].
  intros [?|E]; [by right|left]. by apply chars_inj.
Qed.
Lemma str_lit t s : str_lang (rlit t) s ↔ s = t.
Proof. unfold str_lang. rewrite rlit_lang. split; [apply chars_inj|by intros ->]. Qed.

Lemma triple_lang s : str_lang (RSeq triple_part (RSeq triple_part triple_part)) s ↔ host_triple s.
Proof.
  assert (∀ s, str_lang triple_part s ↔ ∃ a, s = a +:+ "-" ∧ word_of word_char a) as HT.
  { intros t. unfold triple_part. rewrite str_seq. setoid_rewrite str_lit. setoid_rewrite str_plus. split.
    - intros (a & ? & -> & Ha & ->). by exists a.
    - intros (a & -> & Ha). by exists a, "-"%string. }
  split.
  - intros (s1 & s2 & -> & H1 & (s3 & s4 & -> & H3 & H4)%str_seq)%str_seq. apply HT in H1 as (a & -> & Ha), H3 as (b & -> & Hb), H4 as (c & -> & Hc).
    exists a, b, c. split; [|done]. apply chars_inj. by rewrite !chars_app, <- !app_assoc.
  - intros (a & b & c & -> & Ha & Hb & Hc). apply str_seq. exists (a +:+ "-"), ((b +:+ "-") +:+ (c +:+ "-")).
    split; [apply chars_inj; by rewrite !chars_app, <- !app_assoc|]. split; [apply HT; by eauto|].
    apply str_seq. exists (b +:+ "-"), (c +:+ "-"). split_and!; [done|apply HT; by eauto..].
Qed.

Lemma compiler_names_lang s : str_lang compiler_names s ↔ s ∈ ["gcc"; "g++"; "clang"; "clang++"]%string.
Proof.
  unfold compiler_names. assert (∀ r1 r2, str_lang (RAlt r1 r2) s ↔ str_lang r1 s ∨ str_lang r2 s) as HA.
  { intros. apply re_alt_iff. }
  rewrite !HA, !str_lit, str_seq. setoid_rewrite str_lit. setoid_rewrite str_opt. setoid_rewrite str_lit.
  rewrite !elem_of_cons. split.
  - intros [->|[->|(? & ? & -> & -> & [-> | ->])]]; auto.
  - intros [->|[->|[->|[->|?%not_elem_of_nil]]]]; [by left|right; by left|right; right|right; right|done].
    + exists "clang"%string, ""%string. auto.
    + exists "clang"%string, "++"%string. auto.
Qed.

(** The pattern accepts exactly the names of compilers. *)
Lemma is_compiler_name_spec name : is_compiler_name name = true ↔ compiler_name name.
Proof.
  unfold is_compiler_name. rewrite re_match_spec. change (str_lang pattern name ↔ compiler_name name).
  unfold pattern, compiler_name. rewrite str_seq. setoid_rewrite str_seq. setoid_rewrite str_opt.
  setoid_rewrite triple_lang. setoid_rewrite compiler_names_lang. setoid_rewrite str_seq. setoid_rewrite str_lit.
  setoid_rewrite str_plus. split.
  - intros (t & ? & -> & Ht & c & v & -> & Hc & Hv). exists t, c, v. split_and!; [done..|].
    destruct Hv as [->|(? & w & -> & -> & Hw)]; [by left|right; by exists w].
  - intros (t & c & v & -> & Ht & Hc & Hv). exists t, (c +:+ v). split_and!; [done..|]. exists c, v. split_and!; [done..|].
    destruct Hv as [->|(w & -> & Hw)]; [by left|right; by exists "-"%string, w].
Qed.

(** Every name the finder accepts contains one of the four compiler names. *)
Lemma compiler_name_parts name :
  is_compiler_name name = true →
  ∃ a m b, name = a +:+ m +:+ b ∧ m ∈ ["gcc"; "g++"; "clang"; "clang++"]%string.
Proof. intros (t & c & v & -> & _ & Hc & _)%is_compiler_name_spec. by exists t, c, v. Qed.

(** ** Asking a compiler *)

(** [strings.TrimSpace] on ASCII text. *)
Definition is_space (c : ascii) : bool :=
  bool_decide (c = " "%char) || char_in "009" "013" c.
Definition TrimSpace (s : string) : string :=
  of_chars (rev (drop_while is_space (rev (drop_while is_space (chars s))))).

Section exec_querier.
(** Running a compiler with arguments and standard input: output, errors, exit error. *)
Context (run : string → list string → string → string * string * option error).
Context (stat : string → StatResult) (mtime : string → Z).

Definition picCheck : string :=
  "
#if defined __PIC__ || defined __pic__       
# error                                                    
#endif                                                                          
".
Definition pieCheck : string :=
  "
#if defined __PIE__ || defined __pie__  
# error                                                    
#endif                                                                          
".

Definition default_check (check compiler : string) : bool * option error :=
  let '(_, stderr, err) := run compiler ["-E"; "-o"; "/dev/null"; "-"]%string check in
  match err with
  | None => (false, None)
  | Some _ => (contains stderr "#error", None)
  end.
Definition exec_IsPicDefault : string → bool * option error := default_check picCheck.
Definition exec_IsPieDefault : string → bool * option error := default_check pieCheck.

Definition exec_TargetArch (compiler : string) : string * option error :=
  let '(stdout, _, err) := run compiler ["-dumpmachine"]%string "" in
  match err with
  | Some e => ("", Some e)
  | None =>
      match split stdout "-" with
      | arch :: _ :: _ :: _ => (TrimSpace arch, None)
      | _ => ("", Some (PlainError "GCC returned an invalid target triple with -dumpmachine"))
      end
  end.

Definition exec_Version (compiler : string) : string * option error :=
  let '(stdout, _, err) := run compiler ["-dumpversion"]%string "" in
  match err with
  | Some e => ("", Some e)
  | None => (TrimSpace stdout, None)
  end.

Definition exec_Kind (compiler : string) : ToolchainKind * option error :=
  let b := base compiler in
  if contains b "clang" then (Clang, None)
  else if contains b "++" then (Gnu, None)
  else if contains b "cc" then (Gnu, None)
  else (ToolchainKind_Unknown, Some (PlainError "Unknown compiler")).

Definition exec_Lang (compiler : string) : ToolchainLang * option error :=
  let b := base compiler in
  if contains b "clang" then (Multi, None)
  else if contains b "++" then (CXX, None)
  else if contains b "cc" then (C, None)
  else (ToolchainLang_Unknown, Some (PlainError "Unknown compiler")).

(** Every error of [os.Stat] is a [*fs.PathError]. *)
Definition exec_ModTime (compiler : string) : Z * option (bool * error) :=
  match stat compiler with
  | StatOk _ => (mtime compiler, None)
  | StatNotExist => (zero_time, Some (true, PlainError "file does not exist"))
  | StatFailed e => (zero_time, Some (true, e))
  end.

Definition ExecQuerier : Querier := 
  mkQuerier exec_TargetArch exec_Version exec_IsPicDefault exec_Kind exec_Lang exec_ModTime.

Definition SleepQuerier : Querier :=
  mkQuerier (λ _, ("internal"%string, None)) (λ _, ("1.0"%string, None)) (λ _, (true, None))
    (λ _, (Sleep, None)) (λ _, (ToolchainLang_Unknown, None)) exec_ModTime.
End exec_querier.

(** Every compiler the finder looks at is one the querier knows: a file whose name
    matches the finder's pattern is given a kind and a language, and the two fit, clang
    being the compiler of several languages and a GNU compiler that of C or C++. *)
Theorem found_compilers_known (run : string → list string → string → string * string * option error)
    (stat : string → StatResult) (mtime : string → Z) (compiler : string)
    (HN : is_compiler_name (base compiler) = true) :
  let q := ExecQuerier run stat mtime in
  (q_Kind q compiler = (Clang, None) ∧ q_Lang q compiler = (Multi, None)) ∨
  (q_Kind q compiler = (Gnu, None) ∧
   ((q_Lang q compiler = (CXX, None) ∧ contains (base compiler) "++" = true) ∨
    (q_Lang q compiler = (C, None) ∧ contains (base compiler) "gcc" = true))).
Proof.
  apply compiler_name_parts in HN as (a & m & b & E & Hm). cbn. unfold exec_Kind, exec_Lang.
  assert (∀ sub u v, m = u +:+ sub +:+ v → contains (base compiler) sub = true) as HC.
  { intros sub u v ->. apply contains_spec. exists (a +:+ u), (v +:+ b). rewrite E.
    apply chars_inj. by rewrite !chars_app, <- !app_assoc. }
  rewrite !elem_of_cons in Hm. destruct Hm as [->|[->|[->|[->|[]%not_elem_of_nil]]]].
  - rewrite (HC "cc" "g" ""), (HC "gcc" "" "") by done.
    destruct (contains _ "clang"); [by left|]. destruct (contains _ "++"); right; eauto.
  - rewrite (HC "++" "g" "") by done. destruct (contains _ "clang"); [by left|]. right. eauto.
  - rewrite (HC "clang" "" "") by done. by left.
  - rewrite (HC "clang" "" "++") by done. by left.
Qed.

(** ** Finding all compilers *)

Section finder.
Context {Q : Type} (ask : Q → Querier) (EvalSymlinks : string → option string).
Context (stat : string → StatResult) (ReadDir : string → option (list string)) (PATH : option string).

Record FindOptions := mkFindOptions { o_Querier : Q; o_Path : bool; o_SearchPaths : list string }.

Definition default_SearchPaths : list string := ["/usr/bin"; "/usr/local/bin"; "/bin"]%string.

(** The file mode of an error other than "not exist" is read through a nil pointer. *)
Definition addPath (path : string) (set : gset string) : go (gset string) :=
  match stat path with
  | StatNotExist => Ret set
  | StatFailed _ => Panic "invalid memory address or nil pointer dereference"
  | StatOk m =>
      if m_symlink m then
        match EvalSymlinks path with
        | None => Ret set
        | Some path => Ret ({[path]} ∪ set)
        end
      else Ret ({[path]} ∪ set)
  end.

Fixpoint addPaths (paths : list string) (set : gset string) : go (gset string) :=
  match paths with
  | [] => Ret set
  | path :: paths => set ← addPath path set; addPaths paths set
  end.

(** The files of a directory with a compiler's name. *)
Definition compiler_files (dirname : string) : list string :=
  match ReadDir dirname with
  | None => []
  | Some names => path_join <$> ((λ n, [dirname; n]) <$> List.filter (λ n, is_compiler_name (base n)) names)
  end.

(** The loop that fills the store. *)
Fixpoint add_compilers (q : Q) (compilers : list string) (s : Store) : Store :=
  match compilers with
  | [] => s
  | c :: compilers =>
      if Contains EvalSymlinks c s then add_compilers q compilers s
      else add_compilers q compilers (Add ask EvalSymlinks c q s).1
  end.

(** [FindToolchains]; [order] is the order in which a set is iterated over. *)
Definition FindToolchains (order : gset string → list string) (o : FindOptions) : go Store :=
  searchPaths ← addPaths (o_SearchPaths o) ∅;
  searchPaths ← (if o_Path o then
                   match PATH with
                   | Some paths => addPaths (split paths colon) searchPaths
                   | None => Ret searchPaths
                   end
                 else Ret searchPaths);
  compilers ← addPaths (order searchPaths ≫= compiler_files) ∅;
  Ret (add_compilers (o_Querier o) (order compilers) NewStore).

(** [Aggregate]: the results of several finders, merged. *)
Fixpoint Aggregate (found : list Store) (s : Store) : go Store :=
  match found with
  | [] => Ret s
  | other :: found => s ← Merge ask EvalSymlinks other s; Aggregate found s
  end.

(** What [addPath] adds. *)
Definition resolve (path : string) : option string :=
  match stat path with
  | StatOk m => if m_symlink m then EvalSymlinks path else Some path
  | _ => None
  end.

Lemma addPaths_spec paths set :
  (∀ p e, stat p ≠ StatFailed e) →
  addPaths paths set = Ret (list_to_set (omap resolve paths) ∪ set).
Proof.
  intros HN. revert set. induction paths as [|p paths IH]; intros set; cbn.
  { f_equal. set_solver. }
  unfold addPath, resolve at 1. destruct (stat p) as [m| |e] eqn:E; [| |by apply HN in E].
  - destruct (m_symlink m); [destruct (EvalSymlinks p)|]; cbn; rewrite IH; f_equal; set_solver.
  - cbn. by rewrite IH.
Qed.

(** A compiler file for which every answer of the querier is without an error. *)
Definition answers (q : Q) (path : string) : Prop :=
  (∃ tc, described (ask q) path tc) ∧ (q_ModTime (ask q) path).2 = None.

Lemma fillInfo_answers q x tc tc' :
  Executable tc = x → described q x tc' → (fillInfo q tc).2 = None.
Proof.
  intros <- (_ & H1 & H2 & H3 & H4 & H5). unfold fillInfo. by rewrite H1, H2, H3, H4, H5.
Qed.

Definition entries_described (q : Q) (s : @Store Q) : Prop :=
  ∀ k d, toolchains s !! k = Some d →
    ∃ tc, tc_heap s !! d_toolchain d = Some tc ∧ described (ask q) k tc.

(** [Add] of a path the store does not contain. *)
Lemma Add_spec q c (s : @Store Q) :
  (∀ x, evalPath EvalSymlinks (evalPath EvalSymlinks x) = evalPath EvalSymlinks x) →
  entries_described q s → Contains EvalSymlinks c s = false →
  let s' := (Add ask EvalSymlinks c q s).1 in
  entries_described q s' ∧
  ∀ p, is_Some (toolchains s' !! p) ↔
    is_Some (toolchains s !! p) ∨ (answers q p ∧ evalPath EvalSymlinks c = p).
Proof.
  intros HI HE HC. unfold Add. cbn zeta. unfold Contains in *. rewrite HI, HC.
  set (x := evalPath EvalSymlinks c) in *.
  destruct (fillInfo _ _) as [tc [e|]] eqn:EF.
  { split; [done|]. intros p. split; [by left|]. intros [?|[[[tc' Ht] _] <-]]; [done|].
    pose proof (fillInfo_answers (ask q) x (mkToolchain ToolchainKind_Unknown ToolchainLang_Unknown x "" "" false false)
      tc' eq_refl Ht) as H. by rewrite EF in H. }
  apply fillInfo_described in EF. cbn in EF.
  destruct (q_ModTime (ask q) x) as [t [[b e]|]] eqn:EM; cbn.
  { split; [done|]. intros p. split; [by left|]. intros [?|[[_ Hm] <-]]; [done|]. by rewrite EM in Hm. }
  split.
  - intros k d. cbn. intros [[<- <-]|[_ Hd]]%lookup_insert_Some; cbn.
    + rewrite lookup_insert_eq. by exists tc.
    + destruct (HE k d Hd) as (tc' & Hh & Ht). exists tc'. split; [|done].
      rewrite lookup_insert_ne; [done|]. intros HF.
      apply (is_fresh (dom (tc_heap s))). rewrite HF. apply elem_of_dom. by exists tc'.
  - intros p. rewrite lookup_insert_is_Some'. split.
    + intros [<-|?]; [right|by left]. split; [|done]. split; [by exists tc|]. by rewrite EM.
    + intros [?|[_ ?]]; [by right|by left].
Qed.

Lemma add_compilers_spec q cs (s : @Store Q) :
  (∀ x, evalPath EvalSymlinks (evalPath EvalSymlinks x) = evalPath EvalSymlinks x) →
  entries_described q s →
  entries_described q (add_compilers q cs s) ∧
  ∀ p, is_Some (toolchains (add_compilers q cs s) !! p) ↔
    is_Some (toolchains s !! p) ∨ (answers q p ∧ ∃ c, c ∈ cs ∧ evalPath EvalSymlinks c = p).
Proof.
  intros HI. revert s. induction cs as [|c cs IH]; intros s HE; cbn.
  { split; [done|]. intros p. set_solver. }
  destruct (Contains EvalSymlinks c s) eqn:EC.
  - destruct (IH s HE) as [H1 H2]. split; [done|]. intros p. rewrite H2. split; [set_solver|].
    intros [?|(Ha & c' & [->|Hc]%elem_of_cons & <-)]; [by left| |by eauto].
    left. by apply bool_decide_eq_true in EC.
  - destruct (Add_spec q c s HI HE EC) as [H1 H2]. destruct (IH _ H1) as [H3 H4]. split; [done|].
    intros p. rewrite H4, H2. set_solver.
Qed.

(** The directories searched, and the compilers in them: files with the name of a compiler,
    resolved. *)
Definition search_dirs (o : FindOptions) : list string :=
  o_SearchPaths o ++ (if o_Path o then from_option (λ p, split p colon) [] PATH else []).
Definition found (o : FindOptions) (c : string) : Prop :=
  ∃ d dirname names name, d ∈ search_dirs o ∧ resolve d = Some dirname ∧ ReadDir dirname = Some names ∧
    name ∈ names ∧ compiler_name (base name) ∧ resolve (path_join [dirname; name]) = Some c.

Lemma compiler_files_spec dirname file :
  file ∈ compiler_files dirname ↔
  ∃ names name, ReadDir dirname = Some names ∧ name ∈ names ∧ compiler_name (base name) ∧ file = path_join [dirname; name].
Proof.
  unfold compiler_files. destruct (ReadDir dirname) as [names|].
  - rewrite list_elem_of_fmap. setoid_rewrite list_elem_of_fmap. split.
    + intros (? & -> & n & -> & Hn). apply list_elem_of_In, filter_In in Hn as [Hn HC].
      exists names, n. split_and!; [done|by apply list_elem_of_In|by apply is_compiler_name_spec|done].
    + intros (ns & n & [= <-] & Hn & HC & ->). exists [dirname; n]. split; [done|]. exists n. split; [done|].
      apply list_elem_of_In, filter_In. split; [by apply list_elem_of_In|by apply is_compiler_name_spec].
  - split; [by intros ?%not_elem_of_nil|]. by intros (? & ? & ? & _).
Qed.

Lemma found_files o c :
  found o c ↔ ∃ d dirname file, d ∈ search_dirs o ∧ resolve d = Some dirname ∧ file ∈ compiler_files dirname ∧ resolve file = Some c.
Proof.
  unfold found. setoid_rewrite compiler_files_spec. split.
  - intros (d & dirname & names & name & H1 & H2 & H3 & H4 & H5 & H6). exists d, dirname, (path_join [dirname; name]). eauto 10.
  - intros (d & dirname & file & H1 & H2 & (names & name & H3 & H4 & H5 & ->) & H6). exists d, dirname, names, name. eauto 10.
Qed.

(** C15: The finder finds exactly the compilers that are there, when examining a path fails
    only because it does not exist (any other error of [Stat] panics:
    [FindToolchains_panics]): it returns, in whatever order Go iterates over its sets, a store
    whose entries are the resolved paths of the files in the search directories (those given
    and, if asked for, those of the path) whose name is that of a compiler, that is an
    optional host triple, gcc, g++, clang or clang++, and an optional version, and for which
    every question was answered, each described as the querier describes it. *)
Theorem FindToolchains_spec (order : gset string → list string) (o : FindOptions)
    (HO : ∀ X, order X ≡ₚ elements X)
    (HI : ∀ x, evalPath EvalSymlinks (evalPath EvalSymlinks x) = evalPath EvalSymlinks x)
    (HN : ∀ p e, stat p ≠ StatFailed e) :
  ∃ s, FindToolchains order o = Ret s ∧ entries_described (o_Querier o) s ∧
    ∀ p, is_Some (toolchains s !! p) ↔
      answers (o_Querier o) p ∧ ∃ c, found o c ∧ evalPath EvalSymlinks c = p.
Proof.
  unfold FindToolchains. rewrite addPaths_spec, go_bind_ret by done.
  assert (∀ X, (if o_Path o then match PATH with
            | Some paths => addPaths (split paths colon) X | None => Ret X end else Ret X) =
    Ret (list_to_set (omap resolve (if o_Path o then from_option (λ p, split p colon) [] PATH else [])) ∪ X))
    as HP.
  { intros X. destruct (o_Path o); [destruct PATH; [by apply addPaths_spec|]|]; cbn; f_equal; set_solver. }
  rewrite HP, go_bind_ret, addPaths_spec, go_bind_ret by done. eexists. split; [done|].
  destruct (add_compilers_spec (o_Querier o)
    (order (list_to_set (omap resolve (order (list_to_set (omap resolve (if o_Path o then
       from_option (λ p, split p colon) [] PATH else [])) ∪ (list_to_set (omap resolve (o_SearchPaths o)) ∪ ∅))
       ≫= compiler_files)) ∪ ∅)) NewStore HI) as [H1 H2].
  { intros k d Hd. cbn in Hd. by rewrite lookup_empty in Hd. }
  split; [done|]. intros p. rewrite H2. cbn. rewrite lookup_empty.
  setoid_rewrite HO. setoid_rewrite elem_of_elements. setoid_rewrite elem_of_union.
  setoid_rewrite elem_of_list_to_set. setoid_rewrite list_elem_of_omap. setoid_rewrite list_elem_of_bind.
  setoid_rewrite HO. setoid_rewrite elem_of_elements. setoid_rewrite elem_of_union.
  setoid_rewrite elem_of_union. setoid_rewrite elem_of_list_to_set. setoid_rewrite list_elem_of_omap.
  setoid_rewrite found_files. unfold search_dirs. setoid_rewrite elem_of_app. set_solver.
Qed.
End finder.

(** ** Witnesses: a machine with one compiler, linked twice *)

Definition demo_compiler (compiler : string) (args : list string) (stdin : string) :
    string * string * option error :=
  match args with
  | ["-dumpmachine"%string] => ("x86_64-linux-gnu", ""%string, None)
  | ["-dumpversion"%string] => ("10", ""%string, None)
  | _ => ("", "#error"%string, Some (PlainError "exit status 1"))
  end.
Definition bin_stat (p : string) : StatResult :=
  if bool_decide (p ∈ ["/usr/bin"; "/usr/bin/gcc"; "/usr/bin/gcc-10"]%string)
  then StatOk (mkMode false false true) else StatNotExist.
Definition bin_dir (d : string) : option (list string) :=
  if bool_decide (d = "/usr/bin"%string) then Some ["gcc"; "gcc-10"; "ls"]%string else None.
Definition bin_querier (_ : unit) : Querier := ExecQuerier demo_compiler bin_stat (λ _, 7).
Definition bin_options : FindOptions := mkFindOptions tt false default_SearchPaths.

Lemma found_compilers_known_witness : q_Kind (bin_querier tt) "/usr/bin/gcc-10" = (Gnu, None).
Proof.
  destruct (found_compilers_known demo_compiler bin_stat (λ _, 7) "/usr/bin/gcc-10" eq_refl)
    as [[H _]|[H _]]; [discriminate H|exact H].
Defined.

Lemma links_idem x : evalPath links (evalPath links x) = evalPath links x.
Proof. unfold evalPath, links. case_bool_decide; cbn; [done|]. by rewrite bool_decide_false. Qed.

Lemma FindToolchains_spec_witness :
  ∃ s, FindToolchains bin_querier links bin_stat bin_dir None elements bin_options = Ret s ∧
    is_Some (toolchains s !! "/usr/bin/gcc-10"%string).
Proof.
  destruct (FindToolchains_spec bin_querier links bin_stat bin_dir None elements bin_options)
    as (s & Hs & _ & HE).
  - done.
  - apply links_idem.
  - intros p e. unfold bin_stat. by case_bool_decide.
  - exists s. split; [exact Hs|]. apply HE. split.
    + split; [|reflexivity].
      exists (mkToolchain Gnu C "/usr/bin/gcc-10" "x86_64" "10" true false). repeat split.
    + exists "/usr/bin/gcc"%string. split; [|reflexivity].
      exists "/usr/bin"%string, "/usr/bin"%string, ["gcc"; "gcc-10"; "ls"]%string, "gcc"%string.
      split_and!; [left|reflexivity|reflexivity|left|by apply is_compiler_name_spec|reflexivity].
Defined.

(** A directory entry that may not be examined ends the search with a panic. *)
Theorem FindToolchains_panics :
  FindToolchains bin_querier links (λ _, StatFailed (PlainError "permission denied")) bin_dir None elements
    bin_options = Panic "invalid memory address or nil pointer dereference".
Proof. reflexivity. Qed.
