(* ===== verification/MetricsClient.v ===== *)
(** * Metrics clients: [pkg/clients/monitor.go]

    A provider posts metrics through a queue that a goroutine sends to the monitor; a
    listener follows the keys of the monitor and, on the meta bucket, the set of connected
    providers, starting a handler for each provider and cancelling it when the provider
    leaves. *)
From S2P Require Import Prelude.

(** ** The post queue *)

Definition Buffered : Z := 1.
Definition Discard : Z := 2.
Definition Block : Z := 4.
Definition has_flag (qs flag : Z) : bool := bool_decide (Z.land qs flag ≠ 0).

Record monitorMetricsProvider {M : Type} := mkProvider {
  postQueue : list M;
  queue_cap : Z;
  queueStrategy : Z;
}.
Arguments mkProvider {M} postQueue queue_cap queueStrategy.

(** [NewMetricsProvider] chooses the capacity by the strategy, but does not store it. *)
Definition NewMetricsProvider {M : Type} (qs : Z) : @monitorMetricsProvider M :=
  mkProvider [] (if has_flag qs Buffered then 1000000 else 0) 0.

(** The provider of [NewKeyedBufferMonitorProvider]. *)
Definition keyed_provider {M : Type} : @monitorMetricsProvider M := mkProvider [] 10 Block.

Definition set_queue {M : Type} (q : list M) (p : @monitorMetricsProvider M) : monitorMetricsProvider :=
  mkProvider q (queue_cap p) (queueStrategy p).

(** A send without a receiver waiting; [None] when it blocks. *)
Definition chan_send {M : Type} (m : M) (p : @monitorMetricsProvider M) : option monitorMetricsProvider :=
  if bool_decide (Z.of_nat (length (postQueue p)) < queue_cap p)
  then Some (set_queue (postQueue p ++ [m]) p) else None.

(** [Post] while no other goroutine uses the queue; [None] when it blocks. The drain loop
    receives [cap / 4] times, or until the channel is empty. *)
Definition Post {M : Type} (m : M) (p : @monitorMetricsProvider M) : option monitorMetricsProvider :=
  if negb (has_flag (queueStrategy p) Discard) then chan_send m p
  else match chan_send m p with
       | Some p => Some p
       | None =>
           if negb (has_flag (queueStrategy p) Buffered) then Some p
           else match chan_send m p with
                | Some p => Some p
                | None => chan_send m (set_queue (drop (Z.to_nat (queue_cap p / 4)) (postQueue p)) p)
                end
       end.

(** With a buffered queue that discards, [Post] never blocks (the capacity being at least
    four), the new message is the last one, and what is kept of the others is their end. *)
Theorem Post_discards {M : Type} (m : M) (p : @monitorMetricsProvider M)
    (HD : has_flag (queueStrategy p) Discard = true) (HB : has_flag (queueStrategy p) Buffered = true)
    (HC : 4 ≤ queue_cap p) (HL : Z.of_nat (length (postQueue p)) ≤ queue_cap p) :
  ∃ old new p', Post m p = Some p' ∧ postQueue p = old ++ new ∧ postQueue p' = new ++ [m] ∧
    Z.of_nat (length (postQueue p')) ≤ queue_cap p' ∧
    (Z.of_nat (length (postQueue p)) < queue_cap p → old = []).
Proof.
  assert (1 ≤ queue_cap p / 4) by (apply Z.div_le_lower_bound; lia).
  unfold Post, chan_send. rewrite HD, HB. cbn. case_bool_decide as HS.
  - exists [], (postQueue p). eexists. split_and!; try done. cbn. rewrite length_app. cbn. lia.
  - rewrite bool_decide_true.
    + exists (take (Z.to_nat (queue_cap p / 4)) (postQueue p)), (drop (Z.to_nat (queue_cap p / 4)) (postQueue p)).
      eexists. split_and!; [done|by rewrite take_drop|done| |lia].
      cbn. rewrite length_app, length_drop. cbn. lia.
    + cbn. rewrite length_drop. lia.
Qed.

(** The strategy is never stored, so that a provider made with any strategy blocks when its
    queue is full, also one that was asked to discard. *)
Theorem NewMetricsProvider_blocks {M : Type} (qs : Z) (m : M) (q : list M)
    (HF : Z.of_nat (length q) = queue_cap (@NewMetricsProvider M qs)) :
  Post m (set_queue q (NewMetricsProvider qs)) = None.
Proof. unfold Post, chan_send. cbn in *. rewrite bool_decide_false; [done|]. lia. Qed.

(** ** Following the providers *)

(** The state of [OnProviderAdded]: the known providers with the context of their
    handler, every handler started, and the contexts that were cancelled. *)
Record provider_listener := mkListener {
  knownProviders : gmap string nat;
  started : list (string * nat);
  cancelled : gset nat;
}.

Definition new_listener : provider_listener := mkListener ∅ [] ∅.

(** Cancels and forgets a provider that is gone. *)
Definition remove_provider (uuid : string) (s : provider_listener) : provider_listener :=
  mkListener (delete uuid (knownProviders s)) (started s)
    (match knownProviders s !! uuid with Some c => {[c]} ∪ cancelled s | None => cancelled s end).

(** A new context and handler for a provider. *)
Definition add_provider (uuid : string) (s : provider_listener) : provider_listener :=
  let ctx := length (started s) in
  mkListener (<[uuid := ctx]> (knownProviders s)) (started s ++ [(uuid, ctx)]) (cancelled s).

(** [doUpdate]; [None] is the nil message of an expired key. [removed] and [added] are the
    differences of the two sets, in the order in which they are iterated over. *)
Definition doUpdate (order : gset string → list string) (providers : option (gset string))
    (s : provider_listener) : provider_listener :=
  let known := dom (knownProviders s) in
  let updated := default ∅ providers in
  let s := foldr remove_provider s (rev (order (known ∖ updated))) in
  foldr add_provider s (rev (order (updated ∖ known))).

(** The handlers whose context is alive. *)
Definition running (s : provider_listener) (uuid : string) (ctx : nat) : Prop :=
  (uuid, ctx) ∈ started s ∧ ctx ∉ cancelled s.

Record listener_ok (s : provider_listener) : Prop := {
  lo_ctx : ∀ i uuid ctx, started s !! i = Some (uuid, ctx) → ctx = i;
  lo_cancelled : ∀ c, c ∈ cancelled s → (c < length (started s))%nat;
  lo_known : ∀ uuid ctx, running s uuid ctx ↔ knownProviders s !! uuid = Some ctx;
}.

Lemma started_fresh s uuid ctx : listener_ok s → (uuid, ctx) ∈ started s → (ctx < length (started s))%nat.
Proof.
  intros [HC _ _] [i Hi]%list_elem_of_lookup. rewrite (HC _ _ _ Hi). by eapply lookup_lt_Some.
Qed.

Lemma remove_provider_ok uuid s : listener_ok s → listener_ok (remove_provider uuid s).
Proof.
  intros L. pose proof L as [HC HX HK]. unfold remove_provider. split; cbn; [done| |].
  - intros c Hc. destruct (knownProviders s !! uuid) as [d|] eqn:E; [|by apply HX].
    apply elem_of_union in Hc as [->%elem_of_singleton|Hc]; [|by apply HX].
    apply HK in E as [E _]. by eapply started_fresh.
  - intros u ctx. unfold running. cbn. rewrite lookup_delete_Some, <- HK. unfold running.
    destruct (knownProviders s !! uuid) as [d|] eqn:E.
    + pose proof (proj2 (HK uuid d) E) as [Hd _]. split.
      * intros [Hs Hn]. split_and!; [|done|set_solver]. intros <-.
        assert (running s uuid ctx) as Hr by (split; [done|set_solver]). apply HK in Hr. set_solver.
      * intros (Hne & Hs & Hn). split; [done|]. intros [->%elem_of_singleton|?]%elem_of_union; [|done].
        apply Hne. assert (running s u d) as Hr by done. apply list_elem_of_lookup in Hs as [i Hi], Hd as [j Hj].
        pose proof (HC _ _ _ Hi). pose proof (HC _ _ _ Hj). congruence.
    + split; [|tauto]. intros [Hs Hn]. split_and!; [|done|done]. intros <-.
      assert (running s uuid ctx) as Hr by done. apply HK in Hr. congruence.
Qed.

Lemma add_provider_ok uuid s :
  listener_ok s → knownProviders s !! uuid = None → listener_ok (add_provider uuid s).
Proof.
  intros L HU. pose proof L as [HC HX HK]. unfold add_provider. split; cbn.
  - intros i u c [Hi|[Hl Hi]]%lookup_app_Some; [by eapply HC|].
    apply list_lookup_singleton_Some in Hi as [Hi [= <- <-]]. lia.
  - intros c Hc. rewrite length_app. cbn. specialize (HX c Hc). lia.
  - intros u c. unfold running. cbn. rewrite elem_of_app, list_elem_of_singleton, lookup_insert_Some.
    rewrite <- HK. unfold running. split.
    + intros [[Hs|[= -> ->]] Hn]; [right|by left]. split_and!; [|done|done]. intros <-.
      assert (running s uuid c) as Hr by done. apply HK in Hr. congruence.
    + intros [[<- <-]|(Hne & Hs & Hn)]; [|by auto]. split; [by right|]. intros Hc%HX. lia.
Qed.

Lemma remove_all us s :
  listener_ok s → let s' := foldr remove_provider s us in
  listener_ok s' ∧ ∀ u, knownProviders s' !! u = (if bool_decide (u ∈ us) then None else knownProviders s !! u).
Proof.
  intros L. induction us as [|u us [IH1 IH2]]; cbn; [by split|].
  split; [by apply remove_provider_ok|]. intros v. cbn.
  destruct (decide (u = v)) as [->|Hne].
  - rewrite lookup_delete_eq, bool_decide_true; [done|by left].
  - rewrite lookup_delete_ne, IH2 by done. repeat case_bool_decide; set_solver.
Qed.

Lemma add_all us s :
  listener_ok s → NoDup us → (∀ u, u ∈ us → knownProviders s !! u = None) →
  let s' := foldr add_provider s us in
  listener_ok s' ∧ dom (knownProviders s') = list_to_set us ∪ dom (knownProviders s) ∧
  ∀ u, u ∉ us → knownProviders s' !! u = knownProviders s !! u.
Proof.
  intros L. induction us as [|u us IH]; cbn; intros HN HU; [split_and!; [done|set_solver|done]|].
  apply NoDup_cons in HN as [Hu HN]. destruct IH as (IH1 & IH2 & IH3); [done|set_solver|].
  split_and!.
  - apply add_provider_ok; [done|]. rewrite IH3 by done. apply HU. by left.
  - rewrite dom_insert_L, IH2. set_solver.
  - intros v Hv. rewrite lookup_insert_ne by set_solver. apply IH3. set_solver.
Qed.

(** One update: afterwards the live handlers are one for each provider of the update,
    whatever the order in which Go's sets are iterated over. *)
Lemma doUpdate_ok (order : gset string → list string) (s : provider_listener)
    (providers : option (gset string)) (HO : ∀ X, order X ≡ₚ elements X) (HL : listener_ok s) :
  let s' := doUpdate order providers s in
  listener_ok s' ∧
  (∀ uuid, uuid ∈ default ∅ providers ↔ ∃ ctx, running s' uuid ctx) ∧
  (∀ uuid c c', running s' uuid c → running s' uuid c' → c = c') ∧
  (∀ uuid c, running s uuid c → uuid ∈ default ∅ providers → running s' uuid c).
Proof.
  unfold doUpdate. cbn zeta. set (upd := default ∅ providers).
  assert (∀ X u, u ∈ rev (order X) ↔ u ∈ X) as HE.
  { intros X u. rewrite list_elem_of_In, <- in_rev, <- list_elem_of_In, HO. apply elem_of_elements. }
  destruct (remove_all (rev (order (dom (knownProviders s) ∖ upd))) s HL) as [L1 H1].
  set (s1 := foldr remove_provider s _) in *.
  destruct (add_all (rev (order (upd ∖ dom (knownProviders s)))) s1 L1) as (L2 & H2 & H3).
  { rewrite <- Permutation_rev, HO. apply NoDup_elements. }
  { intros u Hu%HE. rewrite H1. case_bool_decide; [done|]. apply not_elem_of_dom. by apply elem_of_difference in Hu as [_ ?]. }
  set (s2 := foldr add_provider s1 _) in *.
  assert (∀ u, is_Some (knownProviders s2 !! u) ↔ u ∈ upd) as HD.
  { intros u. rewrite <- elem_of_dom, H2, elem_of_union, elem_of_list_to_set, HE, elem_of_dom, H1.
    rewrite bool_decide_decide. destruct (decide _) as [Hu|Hu]; rewrite HE in Hu.
    all: rewrite elem_of_difference in Hu |- *.
    - split; [intros [?|[? ?]]; [tauto|done]|tauto].
    - rewrite <- elem_of_dom. destruct (decide (u ∈ dom (knownProviders s))), (decide (u ∈ upd)); tauto. }
  split_and!; [done| | |].
  - intros u. rewrite <- HD. unfold is_Some. by setoid_rewrite (lo_known s2 L2).
  - intros u c c' Hc Hc'. apply (lo_known s2 L2) in Hc, Hc'. congruence.
  - intros u c Hr Hu. apply (lo_known s HL) in Hr. apply (lo_known s2 L2).
    rewrite H3, H1, bool_decide_false; [done| |]; rewrite HE, ?elem_of_difference; [tauto|].
    intros [_ Hn]. apply Hn. apply elem_of_dom. by exists c.
Qed.

(** ** Listening to a key *)

Inductive RetryOptions : Set := NoRetry | RetryListen.

Inductive listen_result :=
  | Listening                       (** waiting in [Recv] *)
  | ListenEnded (err : option error).

Section change_listener.
(** The listener's state, the values received and how they are decoded. *)
Context {S V W : Type} (decode : W → error + V) (handler : V → S → S)
  (expiredHandler : option (S → S * RetryOptions)) (ctxCanceled : bool).

(** An error of [Recv] that is not a decoding error. *)
Definition recv_failed (err : error) (s : S) : S * listen_result :=
  match status_code (Some err) with
  | Aborted | Unavailable | Canceled =>
      if bool_decide (status_code (Some err) = Canceled) && ctxCanceled then (s, ListenEnded None)
      else match expiredHandler with
           | Some f =>
               let '(s, retry) := f s in
               match retry with
               | RetryListen => (s, ListenEnded (Some err))
               | NoRetry => (s, ListenEnded None)
               end
           | None => (s, ListenEnded None)
           end
  | _ => (s, ListenEnded (Some err))
  end.

(** [changeListener.HandleStream] on what [Recv] returned so far. *)
Fixpoint listen (recvs : list (error + W)) (s : S) : S * listen_result :=
  match recvs with
  | [] => (s, Listening)
  | inl err :: _ => recv_failed err s
  | inr w :: recvs =>
      match decode w with
      | inl err => (s, ListenEnded (Some err))
      | inr v => listen recvs (handler v s)
      end
  end.
End change_listener.

(** [OnProviderAdded]: [doUpdate] on each value, and with nil when the key expires. *)
Definition OnProviderAdded {W : Type} (decode : W → error + gset string) (order : gset string → list string)
    (ctxCanceled : bool) : list (error + W) → provider_listener → provider_listener * listen_result :=
  listen decode (λ v, doUpdate order (Some v))
    (Some (λ s, (doUpdate order None s, RetryListen))) ctxCanceled.

(** An error after which the key counts as expired. *)
Definition expires (ctxCanceled : bool) (err : error) : bool :=
  match status_code (Some err) with
  | Aborted | Unavailable => true
  | Canceled => negb ctxCanceled
  | _ => false
  end.

Section providers.
Context {W : Type} (decode : W → error + gset string) (order : gset string → list string)
  (ctxCanceled : bool) (HO : ∀ X, order X ≡ₚ elements X).

(** A stream of values that can all be decoded. *)
Lemma listen_values ws vs s :
  listener_ok s → Forall2 (λ w v, decode w = inr v) ws vs →
  ∃ s', listener_ok s' ∧
    (∀ rest, OnProviderAdded decode order ctxCanceled ((inr <$> ws) ++ rest) s =
             OnProviderAdded decode order ctxCanceled rest s') ∧
    (∀ v, last vs = Some v → ∀ uuid, uuid ∈ v ↔ ∃ ctx, running s' uuid ctx) ∧
    (∀ uuid c, running s uuid c → Forall (uuid ∈.) vs → running s' uuid c).
Proof.
  intros L HF. revert s L. induction HF as [|w v ws vs Hw HF IH]; intros s L.
  { exists s. split_and!; [done|done|done|auto]. }
  destruct (doUpdate_ok order s (Some v) HO L) as (L1 & H1 & _ & H3). cbn in H1, H3.
  destruct (IH _ L1) as (s' & L' & HE & HL & HK). exists s'. split_and!; [done| | |].
  - intros rest. rewrite <- HE. unfold OnProviderAdded. cbn. by rewrite Hw.
  - intros u Hu. destruct vs as [|v' vs]; [|by apply HL]. injection Hu as <-.
    inversion HF; subst. specialize (HE []). unfold OnProviderAdded in HE. cbn in HE. by injection HE as <-.
  - intros u c Hr [Hu Hus]%Forall_cons. by apply HK; [apply H3|].
Qed.

(** C23: A listener runs one handler for each connected provider. After any values of the
    providers key the handlers whose context is alive are exactly one for each provider of
    the last value, and a provider present in all of them keeps the handler it had. When the
    stream then breaks with code Aborted, Unavailable or (unless the listener's own context
    was cancelled) Canceled, every handler is cancelled and the error is returned, so that
    the stream manager connects again. With any other error (Internal, or the end of the
    stream) the code returns it without cancelling: the handlers stay as they were until the
    next value; and after a cancellation of its own context the listener just ends. *)
Theorem providers_follow (s : provider_listener) (ws : list W) (vs : list (gset string)) (v : gset string)
    (err : error) (HL : listener_ok s) (HD : Forall2 (λ w v, decode w = inr v) ws vs)
    (HV : last vs = Some v) :
  ∃ s1 s2 r,
    OnProviderAdded decode order ctxCanceled (inr <$> ws) s = (s1, Listening) ∧
    (∀ uuid, uuid ∈ v ↔ ∃ ctx, running s1 uuid ctx) ∧
    (∀ uuid c c', running s1 uuid c → running s1 uuid c' → c = c') ∧
    (∀ uuid c, running s uuid c → Forall (uuid ∈.) vs → running s1 uuid c) ∧
    OnProviderAdded decode order ctxCanceled ((inr <$> ws) ++ [inl err]) s = (s2, ListenEnded r) ∧ listener_ok s2 ∧
    if expires ctxCanceled err then r = Some err ∧ ∀ uuid c, ¬ running s2 uuid c
    else s2 = s1 ∧ r = if bool_decide (status_code (Some err) = Canceled) then None else Some err.
Proof.
  destruct (listen_values ws vs s HL HD) as (s1 & L1 & H1 & H2 & H3).
  destruct (doUpdate_ok order s1 None HO L1) as (L2 & H4 & _ & _). cbn in H4.
  exists s1, (if expires ctxCanceled err then doUpdate order None s1 else s1),
    (if expires ctxCanceled err then Some err else if bool_decide (status_code (Some err) = Canceled) then None else Some err).
  split_and!; [| | |done| |by destruct (expires _ _)|].
  - specialize (H1 []). rewrite app_nil_r in H1. exact H1.
  - by apply H2.
  - intros u c c' Hc Hc'. apply (lo_known s1 L1) in Hc, Hc'. congruence.
  - rewrite H1. unfold OnProviderAdded, listen, recv_failed, expires.
    destruct (status_code (Some err)), ctxCanceled; done.
  - destruct (expires _ _); [|done]. split; [done|].
    intros u c Hr. assert (u ∈ (∅ : gset string)) as Hu by (apply H4; by exists c). by apply not_elem_of_empty in Hu.
Qed.
End providers.

Lemma new_listener_ok : listener_ok new_listener.
Proof.
  split; [done|set_solver|]. intros u c. unfold running. cbn. rewrite lookup_empty. set_solver.
Qed.

Lemma providers_follow_witness :
  ∃ s1 s2, OnProviderAdded inr elements false [inr {["a"]}; inr {["a"; "b"]}] new_listener = (s1, Listening) ∧
    (∃ ctx, running s1 "b" ctx) ∧
    OnProviderAdded inr elements false [inr {["a"]}; inr {["a"; "b"]}; inl (StatusError Unavailable "EOF")] new_listener
      = (s2, ListenEnded (Some (StatusError Unavailable "EOF"))) ∧ ∀ uuid c, ¬ running s2 uuid c.
Proof.
  destruct (providers_follow inr elements false ltac:(done) new_listener [{["a"]}; {["a"; "b"]}]
    [{["a"]}; {["a"; "b"]}] {["a"; "b"]} (StatusError Unavailable "EOF") new_listener_ok
    ltac:(by repeat constructor) eq_refl) as (s1 & s2 & r & H1 & H2 & _ & _ & H5 & _ & -> & H6).
  exists s1, s2. split; [exact H1|]. split; [apply H2; set_solver|]. split; [exact H5|exact H6].
Defined.

(** ** Metrics with a lifetime: [PostContext]

    Each call posts the metric, cancels the goroutine of the previous call for the same
    key and starts one that posts a deleter when the caller's context ends. The
    goroutine's own context is a child of the caller's. *)

Inductive posted_metric : Set :=
  | PMetric (key : string) (ctx : nat)
  | PDeleter (key : string).
#[export] Instance posted_metric_eq_dec : EqDecision posted_metric.
Proof. solve_decision. Defined.

(** A goroutine of [PostContext]: in its select, before its deferred call, ended. *)
Inductive waiter : Set :=
  | WSelect (key : string) (ctx : nat)
  | WDefer (key : string)
  | WEnded.

Record post_state := mkPost {
  metricCtxMap : gmap string nat;     (** key to the goroutine whose context it cancels *)
  waiters : list waiter;
  local_done : gset nat;              (** goroutines whose own context was cancelled *)
  user_done : gset nat;               (** contexts of callers that ended *)
  posts : list posted_metric;
}.

Inductive post_label :=
  | XPost (key : string) (ctx : nat)
  | XEnd (ctx : nat)          (** a caller's context ends *)
  | XDeleter (g : nat)        (** the select takes [ctx.Done()] *)
  | XLocal (g : nat)          (** the select takes [localCtx.Done()] *)
  | XDefer (g : nat).

Definition PostContext (key : string) (ctx : nat) (s : post_state) : post_state :=
  let done := match metricCtxMap s !! key with Some g => {[g]} ∪ local_done s | None => local_done s end in
  mkPost (<[key := length (waiters s)]> (metricCtxMap s)) (waiters s ++ [WSelect key ctx]) done
    (user_done s) (posts s ++ [PMetric key ctx]).

Definition post_step (l : post_label) (s : post_state) : option post_state :=
  let set_waiter g w ps := mkPost (metricCtxMap s) (<[g := w]> (waiters s)) (local_done s) (user_done s) ps in
  match l with
  | XPost key ctx => Some (PostContext key ctx s)
  | XEnd ctx =>
      Some (mkPost (metricCtxMap s) (waiters s) (local_done s) ({[ctx]} ∪ user_done s) (posts s))
  | XDeleter g =>
      match waiters s !! g with
      | Some (WSelect key ctx) =>
          if bool_decide (ctx ∈ user_done s)
          then Some (set_waiter g (WDefer key) (posts s ++ [PDeleter key])) else None
      | _ => None
      end
  | XLocal g =>
      match waiters s !! g with
      | Some (WSelect key ctx) =>
          if bool_decide (g ∈ local_done s) || bool_decide (ctx ∈ user_done s)
          then Some (set_waiter g (WDefer key) (posts s)) else None
      | _ => None
      end
  | XDefer g =>
      match waiters s !! g with
      | Some (WDefer key) =>
          Some (mkPost (delete key (metricCtxMap s)) (<[g := WEnded]> (waiters s)) (local_done s)
                  (user_done s) (posts s))
      | _ => None
      end
  end.

Definition post_after : list post_label → post_state := after_run post_step (mkPost ∅ [] ∅ ∅ []).

(** Two faults of [PostContext]. The goroutine's own context ends with the caller's, and
    when the select takes it the deleter is never posted. And the deferred call of a
    replaced goroutine deletes the map entry of its successor, which the next call then
    does not cancel: when the successor's context ends, the metric of the last call is
    deleted although its context is alive. *)
Theorem PostContext_faults :
  (let s := post_after [XPost "k" 1; XEnd 1; XLocal 0; XDefer 0] in
   posts s = [PMetric "k" 1] ∧ waiters s = [WEnded] ∧ 1%nat ∈ user_done s) ∧
  (let s := post_after [XPost "k" 1; XPost "k" 2; XLocal 0; XDefer 0; XPost "k" 3; XEnd 2; XDeleter 1] in
   posts s = [PMetric "k" 1; PMetric "k" 2; PMetric "k" 3; PDeleter "k"] ∧ 3%nat ∉ user_done s).
Proof.
  split; cbn zeta; split_and!; try (vm_compute; reflexivity).
  apply (bool_decide_unpack _). vm_compute. exact I.
Qed.

(** A deleter is posted only for a key whose metric was posted under a context that ended. *)
Definition deleters_ok (s : post_state) : Prop :=
  (∀ key, PDeleter key ∈ posts s → ∃ ctx, ctx ∈ user_done s ∧ PMetric key ctx ∈ posts s) ∧
  ∀ g key ctx, waiters s !! g = Some (WSelect key ctx) → PMetric key ctx ∈ posts s.

Lemma deleters_ok_step l s s' : deleters_ok s → post_step l s = Some s' → deleters_ok s'.
Proof.
  intros [H1 H2] H.
  assert (∀ g w ps, (∀ key ctx, w ≠ WSelect key ctx) → posts s ⊆ ps →
    ∀ g' key ctx, <[g := w]> (waiters s) !! g' = Some (WSelect key ctx) → PMetric key ctx ∈ ps) as HW.
  { intros g w ps Hw Hp g' key ctx [(_ & -> & _)|[_ Hg]]%list_lookup_insert_Some; [by edestruct Hw|].
    by apply Hp, (H2 g'). }
  destruct l as [key ctx|ctx|g|g|g]; cbn in H; repeat case_match; simplify_eq/=; (split; cbn; [|try by eapply HW]).
  - intros k [Hk|Hk%list_elem_of_singleton]%elem_of_app; [|done]. destruct (H1 k Hk) as (c & ? & ?). set_solver.
  - intros g k c [Hg%H2|[_ Hg]]%lookup_app_Some; [set_solver|].
    apply list_lookup_singleton_Some in Hg as [_ [= <- <-]]. set_solver.
  - intros k Hk. destruct (H1 k Hk) as (c & ? & ?). exists c. set_solver.
  - done.
  - intros k [Hk|[= ->]%list_elem_of_singleton]%elem_of_app.
    + destruct (H1 k Hk) as (c & ? & ?). exists c. set_solver.
    + case_bool_decide; [|done]. eexists. split; [done|]. apply elem_of_app. left. by eapply H2.
  - eapply HW; [done|set_solver].
  - done.
  - done.
Qed.
