(* ===== verification/KeyedBuffer.v ===== *)
(** * The keyed buffer: [pkg/clients/keyedbuffer.go]

    A metrics provider that, while the monitor is away, keeps only the latest message of
    each type: a goroutine ([runWaitReceiver]) takes messages from the post queue while
    the connection is down and puts the latest of each key back when it is up again. The
    stream manager of [StreamManager] tells it of connection and loss over an unbuffered
    channel, blocking until the goroutine listens. *)
From S2P Require Import Prelude.

(** A message: its type URL and its contents. *)
Record message := mkMessage { m_key : string; m_value : nat }.
#[export] Instance message_eq_dec : EqDecision message.
Proof. solve_decision. Defined.

(** [runWaitReceiver]: at the outer receive, at the select, and sending. *)
Inductive wait_receiver : Set := RxDisabled | RxEnabled | RxFlush.

(** The stream manager: connecting, calling [OnConnected], in [HandleStream], calling
    [OnLostConnection]. *)
Inductive link : Set := LDown | LConnected | LUp | LLost.

Record keyedBuffer := mkKeyed {
  kq : list message;                    (** [postQueue] *)
  latestMessages : gmap string message;
  rx : wait_receiver;
  lk : link;
  sentMsgs : list message;              (** what [HandleStream] sent, oldest first *)
  postedMsgs : list message;            (** what was posted, oldest first *)
}.

Definition newKeyedBuffer : keyedBuffer := mkKeyed [] ∅ RxDisabled LDown [] [].

Inductive keyed_label :=
  | KPost (m : message)
  | KConnect                (** [TryConnect] succeeds *)
  | KOnConnected            (** [enableWaitRx <- false] meets the receiver *)
  | KSend (ok : bool)       (** [HandleStream] takes a message and sends it, or fails *)
  | KLose                   (** the stream ends *)
  | KOnLost                 (** [enableWaitRx <- true] meets the receiver *)
  | KTake                   (** the select of the receiver takes a message *)
  | KFlush (k : string)     (** it puts back the message of a key *)
  | KFlushEnd.

Definition capacity : nat := 10.

Definition keyed_step (l : keyed_label) (s : keyedBuffer) : option keyedBuffer :=
  let '(mkKeyed q lm r c sent posted) := s in
  match l, r, c with
  | KPost m, _, _ =>
      if bool_decide (length q < capacity)%nat
      then Some (mkKeyed (q ++ [m]) lm r c sent (posted ++ [m])) else None
  | KConnect, _, LDown => Some (mkKeyed q lm r LConnected sent posted)
  | KOnConnected, RxDisabled, LConnected => Some (mkKeyed q lm RxDisabled LUp sent posted)
  | KOnConnected, RxEnabled, LConnected => Some (mkKeyed q lm RxFlush LUp sent posted)
  | KSend ok, _, LUp =>
      match q with
      | m :: q => if ok then Some (mkKeyed q lm r LUp (sent ++ [m]) posted)
                  else Some (mkKeyed q lm r LLost sent posted)
      | [] => None
      end
  | KLose, _, LUp => Some (mkKeyed q lm r LLost sent posted)
  | KOnLost, RxDisabled, LLost | KOnLost, RxEnabled, LLost => Some (mkKeyed q lm RxEnabled LDown sent posted)
  | KTake, RxEnabled, _ =>
      match q with
      | m :: q => Some (mkKeyed q (<[m_key m := m]> lm) r c sent posted)
      | [] => None
      end
  | KFlush k, RxFlush, _ =>
      match lm !! k with
      | Some m => if bool_decide (length q < capacity)%nat
                  then Some (mkKeyed (q ++ [m]) (delete k lm) r c sent posted) else None
      | None => None
      end
  | KFlushEnd, RxFlush, _ => if bool_decide (lm = ∅) then Some (mkKeyed q lm RxDisabled c sent posted) else None
  | _, _, _ => None
  end.

Definition is_new_keyed (s : keyedBuffer) : Prop := s = newKeyedBuffer.

(** ** The newest message of each key *)

(** Everything of key [k] (and other messages) in the order it reaches the monitor. *)
Definition content (k : string) (s : keyedBuffer) : list message :=
  sentMsgs s ++ option_list (latestMessages s !! k) ++ kq s.

Definition newest (k : string) (l : list message) : option message :=
  last (filter (λ m, m_key m = k) l).

Definition queue_keys (s : keyedBuffer) : gset string := list_to_set (m_key <$> kq s).

(** The steps that do not put a buffered message behind a newer one of its key: the
    connection comes back when no buffered key is in the queue, and no buffered key is
    posted while the buffer is put back. A message being sent is not lost with its stream. *)
Definition in_order (l : keyed_label) (s : keyedBuffer) : bool :=
  match l with
  | KOnConnected => bool_decide (dom (latestMessages s) ## queue_keys s)
  | KPost m =>
      match rx s with RxFlush => bool_decide (m_key m ∉ dom (latestMessages s)) | _ => true end
  | KSend ok => ok
  | _ => true
  end.
Definition ordered_step (l : keyed_label) (s : keyedBuffer) : option keyedBuffer :=
  if in_order l s then keyed_step l s else None.

Record keyed_inv (s : keyedBuffer) : Prop := {
  ki_keys : ∀ k m, latestMessages s !! k = Some m → m_key m = k;
  ki_newest : ∀ k, newest k (content k s) = newest k (postedMsgs s);
  ki_disabled : rx s = RxDisabled → latestMessages s = ∅;
  ki_up : lk s = LUp → rx s ≠ RxEnabled;
  ki_flush : rx s = RxFlush → dom (latestMessages s) ## queue_keys s;
}.

Lemma newest_app k l1 l2 :
  newest k (l1 ++ l2) = match newest k l2 with Some m => Some m | None => newest k l1 end.
Proof. unfold newest. rewrite filter_app, last_app. done. Qed.

Lemma newest_one k m : newest k [m] = if decide (m_key m = k) then Some m else None.
Proof. unfold newest. rewrite filter_cons. by case_decide. Qed.

Lemma newest_none k l : k ∉ ((list_to_set (m_key <$> l)) : gset string) → newest k l = None.
Proof.
  induction l as [|m l IH]; [done|]. intros H. change (m :: l) with ([m] ++ l).
  rewrite newest_app, IH, newest_one by set_solver. case_decide; [|done]. set_solver.
Qed.

Lemma newest_buffered k (lm : gmap string message) :
  (∀ k m, lm !! k = Some m → m_key m = k) → newest k (option_list (lm !! k)) = lm !! k.
Proof.
  intros HK. destruct (lm !! k) as [m|] eqn:E; [|done]. cbn. rewrite newest_one.
  by rewrite decide_True by by apply HK.
Qed.

Lemma keyed_inv_step l s s' : keyed_inv s → ordered_step l s = Some s' → keyed_inv s'.
Proof.
  unfold ordered_step. intros [HK HN HD HU HF] H. destruct (in_order l s) eqn:EO; [|done].
  destruct s as [q lm r c sent posted]. unfold content in HN.
  cbn [sentMsgs latestMessages kq postedMsgs rx lk] in *. cbn in H.
  assert (∀ k, newest k (option_list (lm !! k)) = lm !! k) as HB by (intros; by apply newest_buffered).
  assert (∀ q' r' c', q' = q → (r' = RxDisabled → lm = ∅) → (c' = LUp → r' ≠ RxEnabled) →
    (r' = RxFlush → dom lm ## (list_to_set (m_key <$> q) : gset string)) →
    keyed_inv (mkKeyed q' lm r' c' sent posted)) as HS by (intros ? ? ? -> ? ? ?; by split).
  destruct l as [m| | |ok| | | |k|].
  - case_bool_decide; [|destruct r, c; discriminate H].
    assert (s' = mkKeyed (q ++ [m]) lm r c sent (posted ++ [m])) as -> by (destruct r, c; by simplify_eq).
    split; cbn [sentMsgs latestMessages kq postedMsgs rx lk]; try done.
    + intros k. unfold content. cbn [sentMsgs latestMessages kq postedMsgs].
      rewrite !app_assoc, newest_app, (newest_app k posted), <- HN, <- app_assoc. done.
    + intros ->. apply bool_decide_eq_true in EO. specialize (HF eq_refl). unfold queue_keys in *. cbn in *.
      rewrite fmap_app, list_to_set_app. set_solver.
  - destruct r, c; simplify_eq; apply HS; try done; auto.
  - apply bool_decide_eq_true in EO. destruct r, c; simplify_eq; apply HS; try done; auto.
  - destruct ok; [|done]. destruct c; try (destruct r; discriminate H).
    destruct q as [|m q]; [destruct r; discriminate H|].
    assert (s' = mkKeyed q lm r LUp (sent ++ [m]) posted) as -> by (destruct r; by simplify_eq).
    split; cbn [sentMsgs latestMessages kq postedMsgs rx lk]; try done.
    + intros k. unfold content. cbn [sentMsgs latestMessages kq postedMsgs]. rewrite <- HN. change (m :: q) with ([m] ++ q). rewrite !newest_app, !HB, newest_one.
      destruct (newest k q); [done|]. case_decide as Hk; [|done].
      destruct (lm !! k) eqn:El; [|done]. exfalso. destruct r; [| |].
      * specialize (HD eq_refl). by rewrite HD, lookup_empty in El.
      * by specialize (HU eq_refl).
      * specialize (HF eq_refl). apply (HF k); [by apply elem_of_dom|]. set_solver.
    + intros ->. specialize (HF eq_refl). unfold queue_keys in *. cbn in *. set_solver.
  - destruct r, c; simplify_eq; apply HS; try done; auto.
  - destruct r, c; simplify_eq; apply HS; try done; auto.
  - destruct r; try discriminate H. destruct q as [|m q]; [done|]. injection H as <-.
    split; cbn [sentMsgs latestMessages kq postedMsgs rx lk]; try done.
    + intros k m'. intros [[<- <-]|[_ Hl]]%lookup_insert_Some; [done|by apply HK].
    + intros k. unfold content. cbn [sentMsgs latestMessages kq postedMsgs]. rewrite <- HN. change (m :: q) with ([m] ++ q). rewrite !newest_app, HB, newest_one.
      destruct (newest k q); [done|]. case_decide as Hk.
      * subst. rewrite lookup_insert_eq. cbn. rewrite newest_one. by rewrite decide_True.
      * rewrite lookup_insert_ne by done. by rewrite HB.
  - destruct r; try discriminate H. destruct (lm !! k) as [m|] eqn:El; [|done].
    case_bool_decide; [|done]. injection H as <-. specialize (HF eq_refl). pose proof (HK k m El) as Hm.
    split; cbn [sentMsgs latestMessages kq postedMsgs rx lk]; try done.
    + intros k' m'. intros [_ Hl]%lookup_delete_Some. by apply HK.
    + intros k'. unfold content. cbn [sentMsgs latestMessages kq postedMsgs]. rewrite <- HN, !newest_app, HB, newest_one. destruct (decide (m_key m = k')) as [<-|Hne].
      * rewrite Hm, El, (newest_none k q); [done|]. intros Hq. apply (HF k); [by apply elem_of_dom|done].
      * rewrite lookup_delete_ne, HB by congruence. done.
    + intros _. unfold queue_keys in *. cbn. rewrite dom_delete_L, fmap_app, list_to_set_app. set_solver.
  - destruct r; try discriminate H. case_bool_decide; [|done]. simplify_eq. by apply HS.
Qed.

(** No key is left behind by the buffer: in every execution in which no buffered
    message is put back behind a newer one of its key, the newest message posted under
    each key is the last of that key among those sent, buffered and queued, in this order;
    so that once the queue is empty and the receiver idle, the last message the monitor
    was sent under each key is the newest one posted. *)
Theorem keyed_newest (P : keyed_label → Prop) (s : keyedBuffer)
    (HR : reach ordered_step is_new_keyed P s) :
  (∀ k, newest k (content k s) = newest k (postedMsgs s)) ∧
  (kq s = [] → rx s = RxDisabled → ∀ k, newest k (sentMsgs s) = newest k (postedMsgs s)).
Proof.
  assert (keyed_inv s) as [_ HN HD _ _].
  { revert HR. apply reach_inv; [|by eauto using keyed_inv_step].
    intros ? ->. by split. }
  split; [done|]. intros Hq Hr k. rewrite <- HN. unfold content. rewrite (HD Hr), Hq, lookup_empty.
  cbn. by rewrite app_nil_r.
Qed.

Definition keyed_after (step : keyed_label → keyedBuffer → option keyedBuffer) : list keyed_label → keyedBuffer :=
  after_run step newKeyedBuffer.
Definition lose : list keyed_label := [KConnect; KOnConnected; KLose; KOnLost].
Definition msg (k : string) (n : nat) : message := mkMessage k n.

(** A message of the buffer overtaken by a newer one in the queue. *)
Definition stale_run : list keyed_label :=
  lose ++ [KPost (msg "k" 1); KTake; KPost (msg "k" 2); KConnect; KOnConnected; KFlush "k"; KFlushEnd;
           KSend true; KSend true].
(** The connection is lost again while the buffer is put back into a full queue. *)
Definition stuck_run : list keyed_label :=
  lose ++ [KPost (msg "k" 1); KTake] ++ repeat (KPost (msg "j" 0)) 10 ++ [KConnect; KOnConnected; KLose].

(** Three faults: the monitor can end with an old message of a key although a newer one was
    sent; the receiver and the stream manager can wait for each other for ever, after
    which every [Post] blocks too; and before the first connection nothing is buffered, so
    that the eleventh [Post] blocks. *)
Theorem keyed_faults :
  sentMsgs (keyed_after keyed_step stale_run) = [msg "k" 2; msg "k" 1] ∧
  (lk (keyed_after keyed_step stuck_run) = LLost ∧
   ∀ l, keyed_step l (keyed_after keyed_step stuck_run) = None) ∧
  (∀ m l s', l = KPost m ∨ l = KTake →
   keyed_step l (keyed_after keyed_step (repeat (KPost (msg "j" 0)) 10)) ≠ Some s').
Proof.
  split; [vm_compute; reflexivity|]. split; [split; [vm_compute; reflexivity|]|].
  - assert (keyed_after keyed_step stuck_run =
      mkKeyed (repeat (msg "j" 0) 10) {["k" := msg "k" 1]} RxFlush LLost []
        (msg "k" 1 :: repeat (msg "j" 0) 10)) as -> by (vm_compute; reflexivity).
    intros [m| | |ok| | | |k|]; try reflexivity. cbn [keyed_step].
    by destruct ({["k" := msg "k" 1]} !! k).
  - assert (keyed_after keyed_step (repeat (KPost (msg "j" 0)) 10) =
      mkKeyed (repeat (msg "j" 0) 10) ∅ RxDisabled LDown [] (repeat (msg "j" 0) 10)) as ->
      by (vm_compute; reflexivity).
    intros m l s' [->| ->]; discriminate.
Qed.

(** A loss of the connection during which two messages of a key are posted. *)
Definition offline_run : list keyed_label :=
  lose ++ [KPost (msg "k" 1); KTake; KPost (msg "k" 2); KTake; KConnect; KOnConnected; KFlush "k"; KFlushEnd;
           KSend true].

Lemma keyed_newest_witness :
  newest "k" (sentMsgs (keyed_after ordered_step offline_run)) =
    newest "k" (postedMsgs (keyed_after ordered_step offline_run)) ∧
  newest "k" (postedMsgs (keyed_after ordered_step offline_run)) = Some (msg "k" 2).
Proof.
  split; [|vm_compute; reflexivity].
  refine (proj2 (keyed_newest (λ _, True) (keyed_after ordered_step offline_run) _) _ _ "k").
  - apply after_run_reach; [done|by apply Forall_true].
  - vm_compute. reflexivity.
  - vm_compute. reflexivity.
Defined.
