(* ===== verification/SchedulerServer.v ===== *)
(** * The scheduler's streams: [pkg/scheduler/server.go]

    Every agent has a call of [StreamIncomingTasks] in the scheduler and every consumer
    daemon one of [StreamOutgoingTasks]; both count themselves and keep a condition of the
    scheduler's status in force while the count is zero. The two functions do the same
    with variables of their own, so that one model stands for both. A condition lasts
    until its context is cancelled (file [Status]). *)
From S2P Require Import Prelude.

(** A call: before [Inc], before the lock of the cancel function, in the select, before
    [ApplyCondition], before the lock that stores the new cancel function, returned. *)
Inductive call_pc : Set :=
  | CInc
  | CCancel
  | CServing
  | CApply
  | CStoreCancel (ctx : nat)
  | CReturned.
#[export] Instance call_pc_eq_dec : EqDecision call_pc.
Proof. solve_decision. Defined.

Record schedulerServer := mkServer {
  agentCount : Z;
  condNoAgentsCancel : nat;      (** the context the cancel function belongs to *)
  made : nat;                    (** contexts made so far *)
  ended : gset nat;              (** contexts cancelled *)
  calls_ : list call_pc;
}.

(** [NewSchedulerServer] applies the condition once. *)
Definition NewSchedulerServer : schedulerServer := mkServer 0 0 1 ∅ [].

(** A condition is in force. *)
Definition in_force (c : nat) (s : schedulerServer) : Prop := (c < made s)%nat ∧ c ∉ ended s.

Inductive server_label :=
  | VOpen           (** a stream is opened by a caller with a valid context *)
  | VStep (i : nat) (** call [i] runs to its next point *).

Definition set_call (i : nat) (pc : call_pc) (s : schedulerServer) : schedulerServer :=
  mkServer (agentCount s) (condNoAgentsCancel s) (made s) (ended s) (<[i := pc]> (calls_ s)).
Definition set_count (n : Z) (s : schedulerServer) : schedulerServer :=
  mkServer n (condNoAgentsCancel s) (made s) (ended s) (calls_ s).

Definition call_step (i : nat) (pc : call_pc) (s : schedulerServer) : option schedulerServer :=
  match pc with
  | CInc =>
      let n := wrap64 (agentCount s + 1) in
      Some (set_call i (if bool_decide (n = 1) then CCancel else CServing) (set_count n s))
  | CCancel =>
      Some (set_call i CServing
              (mkServer (agentCount s) (condNoAgentsCancel s) (made s)
                 ({[condNoAgentsCancel s]} ∪ ended s) (calls_ s)))
  | CServing =>
      let n := wrap64 (agentCount s - 1) in
      Some (set_call i (if bool_decide (n = 0) then CApply else CReturned) (set_count n s))
  | CApply =>
      Some (set_call i (CStoreCancel (made s))
              (mkServer (agentCount s) (condNoAgentsCancel s) (S (made s)) (ended s) (calls_ s)))
  | CStoreCancel ctx =>
      Some (set_call i CReturned (mkServer (agentCount s) ctx (made s) (ended s) (calls_ s)))
  | CReturned => None
  end.

Definition server_step (l : server_label) (s : schedulerServer) : option schedulerServer :=
  match l with
  | VOpen => Some (mkServer (agentCount s) (condNoAgentsCancel s) (made s) (ended s) (calls_ s ++ [CInc]))
  | VStep i => pc ← calls_ s !! i; call_step i pc s
  end.

(** ** The count *)

Definition serving (pc : call_pc) : nat := match pc with CCancel | CServing => 1 | _ => 0 end.
Definition serving_count (s : schedulerServer) : nat := lsum serving (calls_ s).

Definition count_inv (s : schedulerServer) : Prop := agentCount s = wrap64 (Z.of_nat (serving_count s)).

Lemma count_inv_step l s s' : count_inv s → server_step l s = Some s' → count_inv s'.
Proof.
  unfold count_inv, serving_count. intros HC H. destruct l as [|i]; cbn in H.
  { injection H as <-. cbn. by rewrite lsum_snoc, Nat.add_0_r. }
  apply bind_Some in H as (pc & Hi & H).
  assert (∀ pc', Z.of_nat (lsum serving (<[i:=pc']> (calls_ s))) =
    Z.of_nat (lsum serving (calls_ s)) + Z.of_nat (serving pc') - Z.of_nat (serving pc)) as HL.
  { intros pc'. pose proof (lsum_insert serving _ i pc pc' Hi). lia. }
  destruct pc; cbn in H; simplify_eq/=; rewrite HL; cbn; rewrite HC.
  - case_bool_decide; cbn; rewrite wrap_add by lia; f_equal; lia.
  - f_equal. lia.
  - assert (∀ a, wrap64 (wrap64 a - 1) = wrap64 (a - 1)) as HW by (intros a; by apply (wrap_add 64 a (-1))).
    case_bool_decide; cbn; rewrite HW; f_equal; lia.
  - f_equal. lia.
  - f_equal. lia.
Qed.

(** ** The condition, when calls do not overlap inside a change of the count *)

(** A call between the change of the count and the end of what follows from it. *)
Definition changing (pc : call_pc) : bool :=
  match pc with CCancel | CApply | CStoreCancel _ => true | _ => false end.

(** The steps of an execution in which at most one call at a time is inside a change, with
    fewer than 2^63 calls in all. *)
Definition serial_step (l : server_label) (s : schedulerServer) : option schedulerServer :=
  let ok := match l with
            | VStep i => forallb (λ pc, negb (changing pc)) (take i (calls_ s) ++ drop (S i) (calls_ s))
            | VOpen => bool_decide (Z.of_nat (length (calls_ s)) < 2 ^ 63 - 1)
            end in
  if ok then server_step l s else None.

(** No condition but possibly [c] is in force. *)
Definition others_ended (c : nat) (s : schedulerServer) : Prop :=
  (c < made s)%nat ∧ ∀ x, (x < made s)%nat → x ≠ c → x ∈ ended s.

Definition phase_inv (s : schedulerServer) : Prop :=
  let b := condNoAgentsCancel s in
  (∀ x, x ∈ ended s → (x < made s)%nat) ∧
  match List.filter changing (calls_ s) with
  | [] => others_ended b s ∧ (b ∈ ended s ↔ serving_count s ≠ 0%nat)
  | [CCancel] => others_ended b s ∧ serving_count s = 1%nat
  | [CApply] => others_ended b s ∧ b ∈ ended s ∧ serving_count s = 0%nat
  | [CStoreCancel c] => others_ended c s ∧ c ∉ ended s ∧ serving_count s = 0%nat
  | _ => False
  end.

Definition serial_inv (s : schedulerServer) : Prop :=
  count_inv s ∧ Z.of_nat (length (calls_ s)) < 2 ^ 63 ∧ phase_inv s.

Lemma serving_le l : (lsum serving l ≤ length l)%nat.
Proof. induction l as [|pc l IH]; [done|]. rewrite lsum_cons. cbn. destruct pc; cbn; lia. Qed.

Lemma filter_quiet l : forallb (λ pc, negb (changing pc)) l = true → List.filter changing l = [].
Proof.
  induction l as [|pc l IH]; [done|]. cbn. destruct (changing pc); cbn; [done|]. apply IH.
Qed.

(** The list of calls around the one that steps. *)
Lemma calls_split l i pc :
  l !! i = Some pc → forallb (λ pc, negb (changing pc)) (take i l ++ drop (S i) l) = true →
  ∃ l1 l2, l = l1 ++ pc :: l2 ∧ List.filter changing l1 = [] ∧ List.filter changing l2 = [] ∧
    ∀ pc', <[i := pc']> l = l1 ++ pc' :: l2.
Proof.
  intros Hi HQ. exists (take i l), (drop (S i) l). rewrite forallb_app in HQ.
  apply andb_true_iff in HQ as [H1%filter_quiet H2%filter_quiet].
  split; [symmetry; by apply take_drop_middle|]. split_and!; [done..|]. intros pc'.
  by rewrite insert_take_drop by by eapply lookup_lt_Some.
Qed.

Lemma filter_around l1 l2 pc :
  List.filter changing l1 = [] → List.filter changing l2 = [] →
  List.filter changing (l1 ++ pc :: l2) = if changing pc then [pc] else [].
Proof. intros H1 H2. rewrite List.filter_app, H1. cbn. rewrite H2. by destruct (changing pc). Qed.

Lemma serial_inv_step l s s' : serial_inv s → serial_step l s = Some s' → serial_inv s'.
Proof.
  unfold serial_step. intros (HC & HB & HP) H. cbn zeta in H.
  destruct (match l with VOpen => _ | VStep i => _ end) eqn:EO; [|done].
  pose proof (count_inv_step l s s' HC H) as HC'. pose proof (serving_le (calls_ s) : (serving_count s ≤ _)%nat) as HS.
  assert (agentCount s = Z.of_nat (serving_count s)) as HA.
  { rewrite HC. apply wrap_id; [lia|]. unfold in_range. change (64 - 1) with 63. lia. }
  split; [done|]. destruct l as [|i]; cbn in H.
  { injection H as <-. apply bool_decide_eq_true in EO. cbn. rewrite length_app. cbn.
    split; [lia|]. unfold phase_inv, serving_count in *. cbn. rewrite List.filter_app, lsum_snoc. cbn.
    by rewrite app_nil_r, Nat.add_0_r. }
  apply bind_Some in H as (pc & Hi & H).
  destruct (calls_split _ _ _ Hi EO) as (l1 & l2 & EL & H1 & H2 & HI).
  pose proof (serving_le l1). pose proof (serving_le l2).
  unfold phase_inv, serving_count in *. rewrite EL, filter_around in HP by done.
  rewrite EL in HA, HB, HS. rewrite lsum_app, lsum_cons in *. rewrite length_app in *. cbn in HB, HS.
  assert (∀ x, in_range 64 x → wrap64 x = x) as HWI by (intros x; by apply wrap_id).
  unfold in_range in HWI. change (64 - 1) with 63 in HWI.
  destruct pc; cbn in H, HP, HA; try discriminate H;
    [rewrite HWI in H by lia; destruct (bool_decide _) eqn:EB in H| |
     rewrite HWI in H by lia; destruct (bool_decide _) eqn:EB in H| |];
    injection H as <-; try (apply bool_decide_eq_true in EB); try (apply bool_decide_eq_false in EB); cbn;
    rewrite HI, length_app; (split; [cbn; lia|]); rewrite filter_around, lsum_app, lsum_cons by done; cbn.
  - destruct HP as (HE & HO & HN). split; [done|]. split; [done|]. lia.
  - destruct HP as (HE & HO & HN). split; [done|]. split; [done|]. split; [intros _; lia|].
    intros _. apply HN. lia.
  - destruct HP as (HE & [HO1 HO2] & HN). split; [|split; [split|split]].
    + intros x [->%elem_of_singleton|Hx]%elem_of_union; auto.
    + done.
    + intros x Hx Hne. apply elem_of_union_r. by apply HO2.
    + intros _. lia.
    + intros _. set_solver.
  - destruct HP as (HE & HO & HN). split; [done|]. split; [done|]. split; [apply HN; lia|lia].
  - destruct HP as (HE & HO & HN). split; [done|]. split; [done|]. split; [intros _; lia|].
    intros _. apply HN. lia.
  - destruct HP as (HE & [HO1 HO2] & HD & HN). split; [intros x Hx; specialize (HE x Hx); lia|].
    split; [split; [cbn; lia|]|split].
    + cbn. intros x Hx Hne. destruct (decide (x = condNoAgentsCancel s)) as [->|]; [done|].
      apply HO2; [lia|done].
    + intros Hx%HE. lia.
    + cbn. lia.
  - destruct HP as (HE & HO & HD & HN). split; [done|]. split; [done|]. cbn. split; [done|]. lia.
Qed.

(** The scheduler knows whether it has agents: in every execution in which calls do not
    overlap inside a change of the count, whenever no call is inside one, the count is
    the number of streams being served and the condition "no agents" is in force, once,
    exactly when that number is zero. *)
Theorem agents_condition (P : server_label → Prop) (s : schedulerServer)
    (HR : reach serial_step (eq NewSchedulerServer) P s) (HQ : List.filter changing (calls_ s) = []) :
  agentCount s = Z.of_nat (serving_count s) ∧
  ∀ c, in_force c s ↔ serving_count s = 0%nat ∧ c = condNoAgentsCancel s.
Proof.
  assert (serial_inv s) as (HC & HB & HE & HP).
  { revert HR. apply reach_inv; [|by eauto using serial_inv_step].
    intros ? <-. split; [done|]. split; [done|]. split; [set_solver|]. split; [|set_solver].
    split; cbn; lia. }
  rewrite HQ in HP. destruct HP as [[HO1 HO2] HN]. pose proof (serving_le (calls_ s) : (serving_count s ≤ _)%nat). split.
  - rewrite HC. apply wrap_id; [lia|]. unfold in_range. change (64 - 1) with 63. lia.
  - intros c. unfold in_force. split.
    + intros [Hc Hn]. destruct (decide (c = condNoAgentsCancel s)) as [->|Hne]; [|by specialize (HO2 c Hc Hne)].
      split; [|done]. destruct (decide (serving_count s = 0%nat)); [done|]. tauto.
    + intros [H0 ->]. split; [done|]. rewrite HN. tauto.
Qed.

(** An agent connects and leaves, and another one connects before the condition of the
    first is in place; then the second leaves and a third connects. *)
Definition race_run : list server_label :=
  [VOpen; VStep 0; VStep 0; VStep 0; VOpen; VStep 1; VStep 1; VStep 0; VStep 0;
   VStep 1; VStep 1; VStep 1; VOpen; VStep 2; VStep 2].
Definition after_race : schedulerServer := after_run server_step NewSchedulerServer race_run.

Definition leaked (c : nat) (s : schedulerServer) : Prop :=
  in_force c s ∧ condNoAgentsCancel s ≠ c ∧ ∀ i, calls_ s !! i ≠ Some (CStoreCancel c).

Lemma leaked_step c l s s' : leaked c s → server_step l s = Some s' → leaked c s'.
Proof.
  intros ([H1 H2] & H3 & H4) H. destruct l as [|i]; cbn in H.
  { injection H as <-. split_and!; [done..|]. cbn. intros j [Hj|[_ Hj]]%lookup_app_Some; [by eapply H4|].
    by apply list_lookup_singleton_Some in Hj as [_ ?]. }
  apply bind_Some in H as (pc & Hi & H).
  assert (∀ pc', pc' ≠ CStoreCancel c → ∀ j, <[i:=pc']> (calls_ s) !! j ≠ Some (CStoreCancel c)) as HI.
  { intros pc' Hne j [(_ & ? & _)|[_ Hj]]%list_lookup_insert_Some; [done|by eapply H4]. }
  destruct pc; cbn in H; try discriminate H; injection H as <-; unfold leaked, in_force; cbn.
  - split_and!; [done..|]. apply HI. by case_bool_decide.
  - split_and!; [done|set_solver|done|by apply HI].
  - split_and!; [done..|]. apply HI. by case_bool_decide.
  - split_and!; [lia|done|done|]. apply HI. intros [= HX]. lia.
  - split_and!; [done|done| |by apply HI]. intros ->. by eapply H4.
Qed.

(** When calls do overlap, the condition can leak: after the race above an agent is being
    served and the count is one, but a condition "no agents" is in force, and it stays in
    force whatever happens afterwards. *)
Theorem agents_condition_leaks (s : schedulerServer) (ls : list server_label)
    (HR : run_labels server_step ls after_race = Some s) :
  (agentCount after_race = 1 ∧ in_force 1 after_race) ∧ in_force 1 s.
Proof.
  assert (leaked 1 after_race) as HL.
  { assert (after_race = mkServer 1 2 3 {[0; 2]}%nat [CReturned; CReturned; CServing]) as -> by by vm_compute.
    split; [split; [cbn; lia|cbn; set_solver]|]. split; [done|]. by intros [|[|[|i]]]. }
  split; [split; [by vm_compute|apply HL]|].
  enough (leaked 1 s) as [? _] by done. revert HL HR. generalize after_race. induction ls as [|l ls IH]; cbn.
  - by intros s0 HL [= <-].
  - intros s0 HL HR. apply bind_Some in HR as (s1 & Hs & HR). apply (IH s1); [|done]. by eapply leaked_step.
Qed.

(** ** Witness *)

Definition serial_run : list server_label :=
  [VOpen; VStep 0; VStep 0; VOpen; VStep 1; VStep 0; VStep 1; VStep 1; VStep 1].

Lemma agents_condition_witness :
  in_force 1 (after_run serial_step NewSchedulerServer serial_run) ∧
  agentCount (after_run serial_step NewSchedulerServer serial_run) = 0.
Proof.
  destruct (agents_condition (λ _, True) (after_run serial_step NewSchedulerServer serial_run)) as [HC HF].
  - apply after_run_reach; [done|by apply Forall_true].
  - vm_compute. reflexivity.
  - split; [apply HF; split; vm_compute; reflexivity|]. rewrite HC. vm_compute. reflexivity.
Defined.
