(* ===== verification/Availability.v ===== *)
(** * Watching for a component: [pkg/clients/availability.go]

    [OnComponentAvailable] runs in a goroutine for each component that the filter
    accepts: it marks the component's kind as available, waits for the component's context
    and marks it as unavailable. [EnsureAvailable] waits until it is available and returns
    a context that a goroutine cancels once it finds it unavailable. *)
From S2P Require Import Prelude Types.

Definition ComponentFilter (cs : list Component) (c : Component) : bool := bool_decide (c ∈ cs).

(** A call of [OnComponentAvailable]: before its first lock, at [<-ctx.Done()], returned. *)
Inductive watch_pc : Set := AStart | AUp | AGone.
#[export] Instance watch_pc_eq_dec : EqDecision watch_pc.
Proof. solve_decision. Defined.

(** A call of [EnsureAvailable] and the goroutine it leaves: waiting for the component,
    returned with a live context, context cancelled. *)
Inductive ensure_pc : Set := EWait | ELive | ECancelled.

Record AvailabilityChecker := mkChecker {
  available : bool;
  watches : list watch_pc;
  ensures : list ensure_pc;
}.
Definition NewAvailabilityChecker : AvailabilityChecker := mkChecker false [] [].

Inductive avail_label :=
  | AvFound (c : Component)   (** a provider is added, with its [Whois] answer *)
  | AvSet (i : nat)
  | AvGone (i : nat)          (** the component's context is done *)
  | AvEnsure
  | AvReturn (j : nat)        (** the wait loop of [EnsureAvailable] ends *)
  | AvCancel (j : nat).       (** the goroutine sees the component unavailable *)

Definition avail_step (filter : Component → bool) (l : avail_label) (s : AvailabilityChecker) :
    option AvailabilityChecker :=
  match l with
  | AvFound c => Some (mkChecker (available s) (watches s ++ [if filter c then AStart else AGone]) (ensures s))
  | AvSet i =>
      match watches s !! i with
      | Some AStart => Some (mkChecker true (<[i := AUp]> (watches s)) (ensures s))
      | _ => None
      end
  | AvGone i =>
      match watches s !! i with
      | Some AUp => Some (mkChecker false (<[i := AGone]> (watches s)) (ensures s))
      | _ => None
      end
  | AvEnsure => Some (mkChecker (available s) (watches s) (ensures s ++ [EWait]))
  | AvReturn j =>
      match ensures s !! j with
      | Some EWait => if available s then Some (mkChecker true (watches s) (<[j := ELive]> (ensures s))) else None
      | _ => None
      end
  | AvCancel j =>
      match ensures s !! j with
      | Some ELive => if available s then None else Some (mkChecker false (watches s) (<[j := ECancelled]> (ensures s)))
      | _ => None
      end
  end.

Definition avail_inv (s : AvailabilityChecker) : Prop := available s = true → AUp ∈ watches s.

Lemma avail_inv_step f l s s' : avail_inv s → avail_step f l s = Some s' → avail_inv s'.
Proof.
  unfold avail_inv. intros HI H. destruct l as [c|i|i| |j|j]; cbn in H; repeat case_match; simplify_eq/=; try done.
  all: try (intros Ha; apply elem_of_app; left; by apply HI).
  intros _. apply list_elem_of_lookup. exists i. rewrite list_lookup_insert_eq; [done|]. by eapply lookup_lt_Some.
Qed.

(** The checker never reports a component that is not there: whenever it says available,
    some accepted component is connected. With two of them the converse fails: when one
    leaves, the checker says unavailable although the other one is still there, and the
    contexts it handed out are cancelled. *)
Theorem availability_one_sided (filter : Component → bool) (P : avail_label → Prop) (s : AvailabilityChecker)
    (HR : reach (avail_step filter) (eq NewAvailabilityChecker) P s) :
  (available s = true → AUp ∈ watches s) ∧
  let t := after_run (avail_step (ComponentFilter [Cache])) NewAvailabilityChecker
             [AvFound Cache; AvSet 0; AvEnsure; AvReturn 0; AvFound Cache; AvSet 1; AvGone 0; AvCancel 0] in
  available t = false ∧ watches t = [AGone; AUp] ∧ ensures t = [ECancelled].
Proof.
  split; [|by vm_compute]. revert HR. apply (reach_inv _ _ _ avail_inv); [|by eauto using avail_inv_step].
  by intros ? <-.
Qed.
