(* ===== verification/Operator.v ===== *)
(** * The operator's resources: [pkg/resources], [pkg/resources/buildcluster], [api/v1alpha1],
    [controllers/buildcluster_controller.go]

    The reconciler turns a [BuildCluster] into Kubernetes objects and applies them in order.
    The objects are records with the fields the code sets.  The API server, the resource
    reconciler of the operator library, owner references and the YAML encoder are
    parameters. *)
From S2P Require Import Prelude GoStrings Config.

(** ** Objects of the Kubernetes API *)

(** A value of the API that the operator copies from its input without looking at it
    (resource requirements, node affinity). *)
Inductive Opaque : Set := opaque (text : string).
#[export] Instance Opaque_eq_dec : EqDecision Opaque.
Proof. solve_decision. Defined.

Abbreviation Labels := (gmap string string).

Record ObjectMeta := mkObjectMeta {
  Name : string;
  Namespace : string;
  MetaLabels : Labels;
  OwnerReferences : list string;
}.
Definition meta (name namespace : string) : ObjectMeta := mkObjectMeta name namespace ∅ [].

Record ContainerPort := mkPort { PortName : string; PortNumber : Z; Protocol : string }.
Record VolumeMount := mkMount { MountName : string; MountPath : string; SubPath : string }.
Record EnvVar := mkEnv { EnvName : string; FieldPath : string }.
Record Container := mkContainer {
  ContainerName : string;
  Image : string;
  ImagePullPolicy : string;
  Command : list string;
  Args : list string;
  Ports : list ContainerPort;
  VolumeMounts : list VolumeMount;
  EnvVars : list EnvVar;
  Resources : Opaque;
}.
Inductive VolumeSource : Set :=
  | ConfigMapSource (name : string) (items : list (string * string))
  | EmptyDir.
Record Volume := mkVolume { VolumeName : string; Source : VolumeSource }.

(** A required pod anti-affinity term: no pod with these labels on the same topology
    domain. *)
Record PodAffinityTerm := mkTerm { MatchLabels : Labels; TopologyKey : string }.
Record PodSpec := mkPodSpec {
  PriorityClassName : string;
  PodAntiAffinity : list PodAffinityTerm;
  NodeAffinity : option Opaque;
  InitContainers : list Container;
  Containers : list Container;
  Volumes : list Volume;
}.
Record PodTemplate := mkTemplate { PodLabels : Labels; TemplateSpec : PodSpec }.

Inductive Object :=
  | PriorityClass (m : ObjectMeta) (value : Z) (globalDefault : bool)
  | ConfigMap (m : ObjectMeta) (data : gmap string string)
  | Service (m : ObjectMeta) (selector : Labels) (ports : list ContainerPort)
  | Deployment (m : ObjectMeta) (selector : Labels) (template : PodTemplate)
  | DaemonSet (m : ObjectMeta) (selector : Labels) (template : PodTemplate).

Definition object_meta (o : Object) : ObjectMeta :=
  match o with
  | PriorityClass m _ _ | ConfigMap m _ | Service m _ _ | Deployment m _ _ | DaemonSet m _ _ => m
  end.
Definition with_meta (m : ObjectMeta) (o : Object) : Object :=
  match o with
  | PriorityClass _ v d => PriorityClass m v d
  | ConfigMap _ d => ConfigMap m d
  | Service _ s p => Service m s p
  | Deployment _ s t => Deployment m s t
  | DaemonSet _ s t => DaemonSet m s t
  end.

(** ** [api/v1alpha1/buildcluster_types.go] *)

Record ToolchainSpec := mkToolchainSpec {
  TcName : option string;
  TcKind : string;
  TcVersion : string;
  TcArch : string;
  CustomImage : option string;
}.
Record ComponentSpec := mkComponentSpec {
  Component_NodeAffinity : option Opaque;
  Component_Resources : Opaque;
}.
Record CacheComponent := mkCacheComponent {
  Enabled : bool;
  Cache_Component : ComponentSpec;
  Cache_VolatileStorage : option VolatileStorageSpec;
  Cache_LocalStorage : option LocalStorageSpec;
  Cache_RemoteStorage : option RemoteStorageSpec;
}.
Record ComponentsSpec := mkComponents {
  AgentComponent : ComponentSpec;
  SchedulerComponent : ComponentSpec;
  MonitorComponent : ComponentSpec;
  CacheComponentSpec : CacheComponent;
}.
Record BuildClusterSpec := mkBuildClusterSpec {
  SpecImage : string;
  SpecImagePullPolicy : string;
  Components : ComponentsSpec;
  Toolchains : list ToolchainSpec;
  DeployToolbox : bool;
}.
Record BuildCluster := mkBuildCluster {
  bc_meta : ObjectMeta;
  Spec : BuildClusterSpec;
  DefaultImageName : string;   (* its status *)
}.

(** ** Desired states: [resources.go] *)

Inductive DesiredState : Set := StateAbsent | StatePresent | StateCreated.
#[export] Instance DesiredState_eq_dec : EqDecision DesiredState.
Proof. solve_decision. Defined.

(** A [Resource] is a function that returns its object, its state and no error. *)
Abbreviation Resource := (Object * DesiredState)%type.
Definition Absent (o : Object) : Resource := (o, StateAbsent).
Definition Present (o : Object) : Resource := (o, StatePresent).
Definition Created (o : Object) : Resource := (o, StateCreated).

(** ** [util.go] *)

Definition grpcPort : ContainerPort := mkPort "grpc" 9090 "TCP".

Definition genericService (name namespace : string) (labels : Labels) : Object :=
  Service (meta name namespace) labels [mkPort "grpc" 9090 "TCP"].

Definition downwardApiEnv : list EnvVar :=
  [mkEnv "KUBECC_POD_NAME" "metadata.name"; mkEnv "KUBECC_NAMESPACE" "metadata.namespace";
   mkEnv "KUBECC_NODE" "spec.nodeName"].

Definition configVolumeMount : VolumeMount := mkMount "config" "/etc/kubecc" "".
Definition configVolume : Volume :=
  mkVolume "config" (ConfigMapSource "kubecc" [("config.yaml", "config.yaml")]).

Definition kubeccImage (bc : BuildCluster) : error + string * string :=
  if bool_decide (SpecImage (Spec bc) ≠ "") then
    inr (SpecImage (Spec bc), SpecImagePullPolicy (Spec bc))
  else if bool_decide (DefaultImageName bc ≠ "") then
    inr (DefaultImageName bc, SpecImagePullPolicy (Spec bc))
  else inl (PlainError "failed to get default image name, retrying").

Definition agentAntiAffinity : list PodAffinityTerm :=
  [mkTerm {["kubecc-role" := "agent"]} "kubernetes.io/hostname"].
Definition controlPlaneAntiAffinity : list PodAffinityTerm :=
  [mkTerm {["kubecc-role" := "control-plane"]} "kubernetes.io/hostname"].

(** ** The builders

    [owned] is [ctrl.SetControllerReference(r.buildCluster, obj, scheme)] with its error
    dropped, as the code drops it. *)

Class OperatorLib := {
  SetControllerReference : ObjectMeta → ObjectMeta → ObjectMeta * option error;
  yaml_Marshal : KubeccSpec → error + string;
}.

(** What the library documents: the reference is set on an object of the owner's
    namespace, an object elsewhere is left as it was, and nothing else changes. *)
Class OperatorLibLaws `{OperatorLib} := {
  owner_set : ∀ owner obj, Namespace obj = Namespace owner →
    fst (SetControllerReference owner obj)
    = mkObjectMeta (Name obj) (Namespace obj) (MetaLabels obj) (Name owner :: OwnerReferences obj);
  owner_frame : ∀ owner obj, let obj' := fst (SetControllerReference owner obj) in
    Name obj' = Name obj ∧ Namespace obj' = Namespace obj ∧ MetaLabels obj' = MetaLabels obj;
}.

Section builders.
Context `{OperatorLib} (bc : BuildCluster).

Definition owned (o : Object) : Object :=
  with_meta (fst (SetControllerReference (bc_meta bc) (object_meta o))) o.

Definition ns : string := Namespace (bc_meta bc).
Definition comps : ComponentsSpec := Components (Spec bc).

Definition priorityClasses : error + list Resource :=
  inr [Present (owned (PriorityClass (meta "kubecc-high-priority" "") 1000 false));
       Present (owned (PriorityClass (meta "kubecc-low-priority" "") 500 false))].

(** The address of a service: [fmt.Sprintf] with the namespace. *)
Definition svc_address (svc : string) : string :=
  svc +:+ "." +:+ ns +:+ ".svc.cluster.local:9090".

Definition cluster_config : KubeccSpec :=
  let cache := CacheComponentSpec comps in
  {| Global := mkGlobal "info" "";
     Agent := mkAgentSpec zero_Global (Some (mkUsageLimitsSpec (-1)))
       (svc_address "kubecc-scheduler") (svc_address "kubecc-monitor");
     Consumer := Consumer zero_KubeccSpec;
     Consumerd := Consumerd zero_KubeccSpec;
     Scheduler := mkSchedulerSpec zero_Global (svc_address "kubecc-monitor")
       (svc_address "kubecc-cache") ":9090";
     Monitor := mkMonitorSpec zero_Global ":9090" false;
     Cache := mkCacheSpec zero_Global (Cache_VolatileStorage cache) (Cache_LocalStorage cache)
       (Cache_RemoteStorage cache) ":9090" (svc_address "kubecc-monitor");
     Kcctl := mkKcctlSpec zero_Global (svc_address "kubecc-monitor")
       (svc_address "kubecc-scheduler") true |}.

Definition configMap : error + list Resource :=
  match yaml_Marshal cluster_config with
  | inl err => inl err
  | inr configData =>
      inr [Present (owned (ConfigMap (meta "kubecc" ns) {["config.yaml" := configData]}))]
  end.

Definition control_plane_labels (app : string) : Labels :=
  <["app" := app]> {["kubecc-role" := "control-plane"]}.

(** The deployment that [monitor], [scheduler] and [cacheSrv] each write out. *)
Definition control_plane_deployment (name cmd img pullPolicy : string) (res : Opaque) : Object :=
  let labels := control_plane_labels name in
  Deployment (meta name ns) labels (mkTemplate labels {|
    PriorityClassName := "kubecc-low-priority";
    PodAntiAffinity := agentAntiAffinity;
    NodeAffinity := None;
    InitContainers := [];
    Containers := [mkContainer name img pullPolicy ["/kubecc"; "run"; cmd] [] [grpcPort]
      [configVolumeMount] downwardApiEnv res];
    Volumes := [configVolume] |}).

Definition monitor : error + list Resource :=
  match kubeccImage bc with
  | inl err => inl err
  | inr (img, pullPolicy) =>
      inr [Created (owned (genericService "kubecc-monitor" ns (control_plane_labels "kubecc-monitor")));
           Present (owned (control_plane_deployment "kubecc-monitor" "monitor" img pullPolicy
             (Component_Resources (MonitorComponent comps))))]
  end.

Definition scheduler : error + list Resource :=
  match kubeccImage bc with
  | inl err => inl err
  | inr (img, pullPolicy) =>
      inr [Created (owned (genericService "kubecc-scheduler" ns (control_plane_labels "kubecc-scheduler")));
           Present (owned (control_plane_deployment "kubecc-scheduler" "scheduler" img pullPolicy
             (Component_Resources (SchedulerComponent comps))))]
  end.

Definition cacheSrv : error + list Resource :=
  match kubeccImage bc with
  | inl err => inl err
  | inr (img, pullPolicy) =>
      let deployment := owned (control_plane_deployment "kubecc-cache" "cache" img pullPolicy
        (Component_Resources (Cache_Component (CacheComponentSpec comps)))) in
      inr [Created (owned (genericService "kubecc-cache" ns (control_plane_labels "kubecc-cache")));
           if Enabled (CacheComponentSpec comps) then Present deployment else Absent deployment]
  end.

(** The container and volume that hand the kubecc binary to another image. *)
Definition copy_binaries (img pullPolicy : string) : Container :=
  mkContainer "copy-binaries" img pullPolicy ["/bin/sh"; "-c"; "cp /kubecc /tmp/kubecc-bin"] []
    [] [mkMount "kubecc-binary" "/tmp/kubecc-bin" ""] [] (opaque "").
Definition binary_mount : VolumeMount := mkMount "kubecc-binary" "/usr/bin/kubecc" "kubecc".
Definition binary_volume : Volume := mkVolume "kubecc-binary" EmptyDir.

Definition toolbox : error + list Resource :=
  match kubeccImage bc with
  | inl err => inl err
  | inr (img, pullPolicy) =>
      let labels := control_plane_labels "kubecc-toolbox" in
      let toolbox := owned (Deployment (mkObjectMeta "kubecc-toolbox" ns labels []) labels
        (mkTemplate labels {|
          PriorityClassName := "kubecc-low-priority";
          PodAntiAffinity := agentAntiAffinity;
          NodeAffinity := None;
          InitContainers := [copy_binaries img pullPolicy];
          Containers := [mkContainer "kubecc-toolbox" "alpine:latest" "" ["sleep"] ["infinity"] []
            [configVolumeMount; binary_mount] [] (opaque "")];
          Volumes := [configVolume; binary_volume] |})) in
      inr [if DeployToolbox (Spec bc) then Present toolbox else Absent toolbox]
  end.

Definition toolchainName (tc : ToolchainSpec) : string :=
  match TcName tc with
  | None => "kubecc-agent-" +:+ TcKind tc +:+ "-" +:+ TcVersion tc
  | Some name => name
  end.

Definition compilerImage (tc : ToolchainSpec) : error + string :=
  if bool_decide (TcKind tc = "gcc") then
    match CustomImage tc with
    | None => inr ("docker.io/gcc:" +:+ TcVersion tc)
    | Some img => inr img
    end
  else if bool_decide (TcKind tc = "custom") then
    match CustomImage tc with
    | None => inl (PlainError "toolchain kind is custom, but customImage is not set")
    | Some img => inr (img +:+ ":" +:+ TcVersion tc)
    end
  else inl (PlainError "toolchain kind is not supported").

Definition agent_labels (tc : ToolchainSpec) : Labels :=
  <["app" := "kubecc-agent"]> (<["kubecc-role" := "agent"]> {["toolchain" := toolchainName tc]}).

Definition toolchain (tc : ToolchainSpec) : error + list Resource :=
  match compilerImage tc with
  | inl err => inl err
  | inr compilerImage =>
      match kubeccImage bc with
      | inl err => inl err
      | inr (img, pullPolicy) =>
          let labels := agent_labels tc in
          inr [Present (owned (DaemonSet (mkObjectMeta (toolchainName tc) ns labels []) labels
            (mkTemplate labels {|
              PriorityClassName := "kubecc-high-priority";
              PodAntiAffinity := controlPlaneAntiAffinity;
              NodeAffinity := Component_NodeAffinity (AgentComponent comps);
              InitContainers := [copy_binaries img pullPolicy];
              Containers := [mkContainer "compiler" compilerImage ""
                ["/usr/bin/kubecc"; "run"; "agent"] [] [grpcPort]
                [configVolumeMount; binary_mount] downwardApiEnv
                (Component_Resources (AgentComponent comps))];
              Volumes := [configVolume; binary_volume] |})))]
      end
  end.

(** The builders one after the other, stopping at the first error. *)
Fixpoint collect (bs : list (error + list Resource)) : error + list Resource :=
  match bs with
  | [] => inr []
  | inl err :: _ => inl err
  | inr items :: bs =>
      match collect bs with
      | inl err => inl err
      | inr rest => inr (items ++ rest)
      end
  end.

Definition desired : error + list Resource :=
  collect ([priorityClasses; configMap; monitor; scheduler; cacheSrv; toolbox]
           ++ (toolchain <$> Toolchains (Spec bc))).
End builders.

(** ** The API server and the reconciliation loop *)

Record Result := mkResult { Requeue : bool; RequeueAfter : Z }.

(** The cluster [W] as the operator uses it.  [operator_containers] is the Get of the
    operator's own deployment (names and images of its containers), [get_cluster] and
    [update_status] are the Get and the status update of the build cluster. *)
Class ClusterApi (W : Type) := {
  operator_containers : W → error + list (string * string);
  get_cluster : W → error + BuildCluster;
  IsNotFound : error → bool;
  update_status : BuildCluster → W → W * option error;
  RetryOnConflict : (W * BuildCluster → (W * BuildCluster) * option error) →
    W * BuildCluster → (W * BuildCluster) * option error;
  ReconcileResource : Object → DesiredState → W → W * (option Result * option error);
}.

Section reconcile.
Context {W : Type} `{ClusterApi W} `{OperatorLib}.

(** The image of the last container called "manager". *)
Fixpoint manager_image (l : list (string * string)) (imageName : string) : string :=
  match l with
  | [] => imageName
  | (name, image) :: l =>
      manager_image l (if bool_decide (name = "manager") then image else imageName)
  end.

Definition set_default_image (image : string) (bc : BuildCluster) : BuildCluster :=
  mkBuildCluster (bc_meta bc) (Spec bc) image.

(** The function that is retried: read the cluster again, set the status, write it. *)
Definition update_image (image : string) (st : W * BuildCluster) :
    (W * BuildCluster) * option error :=
  match get_cluster (fst st) with
  | inl err => (st, Some err)
  | inr bc =>
      let bc := set_default_image image bc in
      let '(w, err) := update_status bc (fst st) in ((w, bc), err)
  end.

Definition configureDefaultImage (st : W * BuildCluster) :
    go ((W * BuildCluster) * (error + bool)) :=
  match operator_containers (fst st) with
  | inl err => Ret (st, inl err)
  | inr containers =>
      let imageName := manager_image containers "" in
      if bool_decide (imageName = "") then
        Panic "could not find image name in kubecc-operator deployment"
      else
        let imageName := if bool_decide (SpecImage (Spec (snd st)) ≠ "")
                         then SpecImage (Spec (snd st)) else imageName in
        if bool_decide (DefaultImageName (snd st) ≠ imageName) then
          match RetryOnConflict (update_image imageName) st with
          | (st, Some err) => Ret (st, inl err)
          | (st, None) => Ret (st, inr true)
          end
        else Ret (st, inr false)
  end.

(** The last loop: apply the objects, stop at an error or when the library asks to be
    called again. *)
Fixpoint apply_all (items : list Resource) (w : W) : W * (option Result * option error) :=
  match items with
  | [] => (w, (Some (mkResult false 0), None))
  | (o, state) :: items =>
      let '(w, (result, err)) := ReconcileResource o state w in
      match err with
      | Some _ => (w, (result, err))
      | None =>
          match result with
          | Some r => if Requeue r || (0 <? RequeueAfter r) then (w, (result, err))
                      else apply_all items w
          | None => apply_all items w
          end
      end
  end.

Definition Reconcile (bc : BuildCluster) (w : W) : go (W * (option Result * option error)) :=
  '(st, r) ← configureDefaultImage (w, bc);
  match r with
  | inl err => Ret (fst st, (None, Some err))
  | inr true => Ret (fst st, (Some (mkResult true 0), None))
  | inr false =>
      match desired (snd st) with
      | inl err => Ret (fst st, (None, Some err))
      | inr items => Ret (apply_all items (fst st))
      end
  end.

(** The controller: a missing cluster is not an error. *)
Definition controller_Reconcile (w : W) : go (W * (Result * option error)) :=
  match get_cluster w with
  | inl err =>
      Ret (w, (mkResult false 0, if IsNotFound err then None else Some err))
  | inr bc =>
      '(w, (res, err)) ← Reconcile bc w;
      match err with
      | Some err => Ret (w, (mkResult false 0, Some err))
      | None => Ret (w, (default (mkResult false 0) res, None))
      end
  end.
End reconcile.
