(* ===== verification/OperatorProps.v ===== *)
(** * Properties of the operator's resources

    The objects that [Operator.desired] builds refer only to each other, services select
    the pods of their deployment and no other, agents and control plane repel each other,
    and a reconciliation that ends has put the cluster into the desired state. *)
From S2P Require Import Prelude GoStrings Config Operator.
From stdpp Require Import pretty.
#[local] Open Scope Z_scope.

(** ** Identity of an object, and its pods *)

Inductive kind : Set := KPriorityClass | KConfigMap | KService | KDeployment | KDaemonSet.
#[export] Instance kind_eq_dec : EqDecision kind.
Proof. solve_decision. Defined.

Definition object_kind (o : Object) : kind :=
  match o with
  | PriorityClass _ _ _ => KPriorityClass
  | ConfigMap _ _ => KConfigMap
  | Service _ _ _ => KService
  | Deployment _ _ _ => KDeployment
  | DaemonSet _ _ _ => KDaemonSet
  end.

Definition key (o : Object) : kind * string * string :=
  (object_kind o, Namespace (object_meta o), Name (object_meta o)).

(** Selector and pod template of a workload. *)
Definition workload (o : Object) : option (Labels * PodTemplate) :=
  match o with
  | Deployment _ sel t | DaemonSet _ sel t => Some (sel, t)
  | _ => None
  end.

Definition selects (sel pod : Labels) : Prop := sel ⊆ pod.

(** Pods of [t1] are kept off the nodes of pods of [t2]. *)
Definition repels (t1 t2 : PodTemplate) : Prop :=
  ∃ term, term ∈ PodAntiAffinity (TemplateSpec t1)
    ∧ TopologyKey term = "kubernetes.io/hostname" ∧ selects (MatchLabels term) (PodLabels t2).

Definition all_containers (t : PodTemplate) : list Container :=
  InitContainers (TemplateSpec t) ++ Containers (TemplateSpec t).

(** Splits a [Forall] over an explicit list. *)
Ltac each_resource := repeat (apply Forall_cons; split); [..|apply Forall_nil; exact I].

(** The references inside a pod template, as a test: mounts name volumes of the pod, config
    maps are the configuration's, and the priority class is one of the two. *)
Definition template_ok (t : PodTemplate) : bool :=
  forallb (λ c, forallb (λ v, existsb (String.eqb (MountName v)) (VolumeName <$> Volumes (TemplateSpec t)))
    (VolumeMounts c)) (all_containers t)
  && forallb (λ v, match Source v with
       | ConfigMapSource name ks =>
           String.eqb name "kubecc" && forallb (λ k, String.eqb k "config.yaml") ks.*1
       | EmptyDir => true
       end) (Volumes (TemplateSpec t))
  && (String.eqb (PriorityClassName (TemplateSpec t)) "kubecc-high-priority"
      || String.eqb (PriorityClassName (TemplateSpec t)) "kubecc-low-priority").

Lemma template_ok_spec t :
  template_ok t = true →
  (∀ c v, c ∈ all_containers t → v ∈ VolumeMounts c →
     MountName v ∈ (VolumeName <$> Volumes (TemplateSpec t)))
  ∧ (∀ v name ks, v ∈ Volumes (TemplateSpec t) → Source v = ConfigMapSource name ks →
       name = "kubecc" ∧ ∀ k, k ∈ ks.*1 → k = "config.yaml")
  ∧ (PriorityClassName (TemplateSpec t) = "kubecc-high-priority"
     ∨ PriorityClassName (TemplateSpec t) = "kubecc-low-priority").
Proof.
  unfold template_ok. rewrite !andb_true_iff, !forallb_forall, orb_true_iff, !String.eqb_eq.
  intros [[Hm Hv] Hp]. split_and!; [| |done].
  - intros c v Hc Hin. specialize (Hm c ltac:(by apply list_elem_of_In)).
    rewrite forallb_forall in Hm. specialize (Hm v ltac:(by apply list_elem_of_In)).
    apply existsb_exists in Hm as (x & Hx & ->%String.eqb_eq). by apply list_elem_of_In.
  - intros v name ks Hin Hs. specialize (Hv v ltac:(by apply list_elem_of_In)).
    rewrite Hs, andb_true_iff, String.eqb_eq, forallb_forall in Hv. destruct Hv as [-> Hk].
    split; [done|]. intros k Hin'. by apply String.eqb_eq, Hk, list_elem_of_In.
Qed.

(** Finds an element in an explicit list. *)
Ltac in_list := repeat first [apply list_elem_of_here | apply list_elem_of_further].

(** ** Collecting the builders *)

Lemma collect_inv (bs : list (error + list Resource)) items :
  collect bs = inr items → ∃ rss, bs = inr <$> rss ∧ items = concat rss.
Proof.
  revert items. induction bs as [|[err|rs] bs IH]; intros items; cbn.
  - intros [= <-]. by exists [].
  - done.
  - destruct (collect bs) as [|rest]; [done|]. intros [= <-].
    destruct (IH _ eq_refl) as (rss & -> & ->). by exists (rs :: rss).
Qed.

Section props.
Context `{OperatorLibLaws} (bc : BuildCluster).
Implicit Types (items : list Resource) (o : Object).

Lemma owned_kind o : object_kind (owned bc o) = object_kind o.
Proof. by destruct o. Qed.
Lemma owned_name o : Name (object_meta (owned bc o)) = Name (object_meta o).
Proof. destruct o; apply owner_frame. Qed.
Lemma owned_namespace o : Namespace (object_meta (owned bc o)) = Namespace (object_meta o).
Proof. destruct o; apply owner_frame. Qed.
Lemma owned_workload o : workload (owned bc o) = workload o.
Proof. by destruct o. Qed.
Lemma owned_owner o :
  Namespace (object_meta o) = ns bc →
  OwnerReferences (object_meta (owned bc o))
  = Name (bc_meta bc) :: OwnerReferences (object_meta o).
Proof. intros E. destruct o; cbn in *; by rewrite owner_set. Qed.
Lemma owned_key o : key (owned bc o) = key o.
Proof. unfold key. by rewrite owned_kind, owned_name, owned_namespace. Qed.

(** *** The desired objects, written out *)

Definition control_plane (img pol data : string) : list (Object * DesiredState) :=
  [(PriorityClass (meta "kubecc-high-priority" "") 1000 false, StatePresent);
   (PriorityClass (meta "kubecc-low-priority" "") 500 false, StatePresent);
   (ConfigMap (meta "kubecc" (ns bc)) {["config.yaml" := data]}, StatePresent);
   (genericService "kubecc-monitor" (ns bc) (control_plane_labels "kubecc-monitor"), StateCreated);
   (control_plane_deployment bc "kubecc-monitor" "monitor" img pol
      (Component_Resources (MonitorComponent (comps bc))), StatePresent);
   (genericService "kubecc-scheduler" (ns bc) (control_plane_labels "kubecc-scheduler"), StateCreated);
   (control_plane_deployment bc "kubecc-scheduler" "scheduler" img pol
      (Component_Resources (SchedulerComponent (comps bc))), StatePresent);
   (genericService "kubecc-cache" (ns bc) (control_plane_labels "kubecc-cache"), StateCreated);
   (control_plane_deployment bc "kubecc-cache" "cache" img pol
      (Component_Resources (Cache_Component (CacheComponentSpec (comps bc)))),
    if Enabled (CacheComponentSpec (comps bc)) then StatePresent else StateAbsent);
   (Deployment (mkObjectMeta "kubecc-toolbox" (ns bc) (control_plane_labels "kubecc-toolbox") [])
      (control_plane_labels "kubecc-toolbox")
      (mkTemplate (control_plane_labels "kubecc-toolbox") {|
         PriorityClassName := "kubecc-low-priority";
         PodAntiAffinity := agentAntiAffinity;
         NodeAffinity := None;
         InitContainers := [copy_binaries img pol];
         Containers := [mkContainer "kubecc-toolbox" "alpine:latest" "" ["sleep"] ["infinity"] []
           [configVolumeMount; binary_mount] [] (opaque "")];
         Volumes := [configVolume; binary_volume] |}),
    if DeployToolbox (Spec bc) then StatePresent else StateAbsent)].

Definition agent_set (img pol cimg : string) (tc : ToolchainSpec) : Object :=
  DaemonSet (mkObjectMeta (toolchainName tc) (ns bc) (agent_labels tc) []) (agent_labels tc)
    (mkTemplate (agent_labels tc) {|
      PriorityClassName := "kubecc-high-priority";
      PodAntiAffinity := controlPlaneAntiAffinity;
      NodeAffinity := Component_NodeAffinity (AgentComponent (comps bc));
      InitContainers := [copy_binaries img pol];
      Containers := [mkContainer "compiler" cimg "" ["/usr/bin/kubecc"; "run"; "agent"] [] [grpcPort]
        [configVolumeMount; binary_mount] downwardApiEnv
        (Component_Resources (AgentComponent (comps bc)))];
      Volumes := [configVolume; binary_volume] |}).

Definition apply_owner : Object * DesiredState → Resource := prod_map (owned bc) id.

Lemma toolchains_inv img pol tcs rss :
  kubeccImage bc = inr (img, pol) → toolchain bc <$> tcs = inr <$> rss →
  ∃ cimgs, Forall2 (λ tc cimg, compilerImage tc = inr cimg) tcs cimgs
    ∧ concat rss = zip_with (λ tc cimg, (owned bc (agent_set img pol cimg tc), StatePresent)) tcs cimgs.
Proof.
  intros Himg. revert rss. induction tcs as [|tc tcs IH]; intros [|rs rss]; cbn; try done.
  { intros _. by exists []. }
  intros [= E E']. destruct (IH rss E') as (cimgs & HF & ->).
  unfold toolchain in E. destruct (compilerImage tc) as [|cimg] eqn:Ec; [done|].
  rewrite Himg in E. injection E as <-. exists (cimg :: cimgs). split; [by constructor|done].
Qed.

Lemma desired_inv items :
  desired bc = inr items →
  ∃ img pol data cimgs, kubeccImage bc = inr (img, pol)
    ∧ yaml_Marshal (cluster_config bc) = inr data
    ∧ Forall2 (λ tc cimg, compilerImage tc = inr cimg) (Toolchains (Spec bc)) cimgs
    ∧ items = (apply_owner <$> control_plane img pol data)
        ++ zip_with (λ tc cimg, (owned bc (agent_set img pol cimg tc), StatePresent))
             (Toolchains (Spec bc)) cimgs.
Proof.
  intros (rss & Hb & ->)%collect_inv.
  do 6 (destruct rss as [|? rss]; [done|]). cbn in Hb.
  injection Hb as E1 E2 E3 E4 E5 E6 E7.
  unfold configMap in E2. destruct (yaml_Marshal (cluster_config bc)) as [|data] eqn:Ed; [done|].
  unfold monitor in E3. destruct (kubeccImage bc) as [|[img pol]] eqn:Ei; [done|].
  unfold scheduler in E4. unfold cacheSrv in E5. unfold toolbox in E6. rewrite Ei in E4, E5, E6.
  injection E2 as <-. injection E3 as <-. injection E4 as <-. injection E5 as <-.
  injection E6 as <-. subst.
  destruct (toolchains_inv img pol _ _ Ei E7) as (cimgs & HF & Hc).
  exists img, pol, data, cimgs. split_and!; [done..|]. cbn. rewrite Hc.
  by destruct (Enabled _), (DeployToolbox _).
Qed.

(** Case analysis on a desired resource: one of the ten of the control plane, or the daemon
    set of a toolchain. *)
Lemma desired_cases items (P : Object → DesiredState → Prop) img pol data cimgs :
  items = (apply_owner <$> control_plane img pol data)
    ++ zip_with (λ tc cimg, (owned bc (agent_set img pol cimg tc), StatePresent))
         (Toolchains (Spec bc)) cimgs →
  Forall (λ r, P (owned bc (fst r)) (snd r)) (control_plane img pol data) →
  (∀ tc cimg, tc ∈ Toolchains (Spec bc) → P (owned bc (agent_set img pol cimg tc)) StatePresent) →
  ∀ o st, (o, st) ∈ items → P o st.
Proof.
  intros -> Hc Ha o st [Ho|Ho]%elem_of_app.
  - apply list_elem_of_fmap in Ho as ([o' st'] & [= -> ->] & Hin).
    rewrite Forall_forall in Hc. by apply (Hc (o', st')).
  - apply elem_of_zip_with in Ho as (tc & cimg & [= -> ->] & Htc & _). by apply Ha.
Qed.

(** Selector, labels, anti-affinity and priority of a workload. *)
Lemma workload_inv items o st sel t :
  desired bc = inr items → (o, st) ∈ items → workload o = Some (sel, t) →
  sel = PodLabels t ∧ Namespace (object_meta o) = ns bc
  ∧ (object_kind o = KDeployment ∧ PodLabels t = control_plane_labels (Name (object_meta o))
     ∧ Name (object_meta o) ≠ "kubecc-agent"
     ∧ PodAntiAffinity (TemplateSpec t) = agentAntiAffinity
     ∨ object_kind o = KDaemonSet
     ∧ (∃ tc, tc ∈ Toolchains (Spec bc) ∧ PodLabels t = agent_labels tc)
     ∧ PodAntiAffinity (TemplateSpec t) = controlPlaneAntiAffinity).
Proof.
  intros (img & pol & data & cimgs & _ & _ & _ & Hi)%desired_inv. revert o st.
  apply (desired_cases items (λ o st, workload o = Some (sel, t) → _) _ _ _ _ Hi).
  - unfold control_plane. each_resource; cbn [fst snd];
      rewrite owned_workload, owned_name, owned_namespace, owned_kind; intros [= <- <-]; cbn;
      (split; [done|]); (split; [done|]); left; done.
  - intros tc cimg Htc. rewrite owned_workload, owned_name, owned_namespace, owned_kind.
    intros [= <- <-]. cbn. do 2 (split; [done|]). right. split_and!; [done| |done]. by exists tc.
Qed.

(** Owner and internal references of a workload. *)
Lemma workload_refs items o st sel t :
  desired bc = inr items → (o, st) ∈ items → workload o = Some (sel, t) →
  OwnerReferences (object_meta o) = [Name (bc_meta bc)] ∧ template_ok t = true.
Proof.
  intros (img & pol & data & cimgs & _ & _ & _ & Hi)%desired_inv. revert o st.
  apply (desired_cases items (λ o st, workload o = Some (sel, t) → _) _ _ _ _ Hi).
  - unfold control_plane. each_resource; cbn [fst snd]; rewrite owned_workload;
      intros [= <- <-]; (split; [by rewrite owned_owner|done]).
  - intros tc cimg Htc. rewrite owned_workload.
    intros [= <- <-]. split; [by rewrite owned_owner|done].
Qed.
End props.

(** ** Labels *)

Lemma role_of_control_plane app :
  control_plane_labels app !! "kubecc-role" = Some "control-plane"
  ∧ control_plane_labels app !! "app" = Some app.
Proof. by split. Qed.

Lemma role_of_agent tc :
  agent_labels tc !! "kubecc-role" = Some "agent"
  ∧ agent_labels tc !! "app" = Some "kubecc-agent".
Proof. by split. Qed.

Lemma singleton_selects k v (pod : Labels) : selects {[k := v]} pod ↔ pod !! k = Some v.
Proof. unfold selects. by rewrite map_singleton_subseteq_l. Qed.

(** A service's selector matches a pod iff the pod has the same app and is of the control
    plane. *)
Lemma control_plane_selects app (pod : Labels) :
  selects (control_plane_labels app) pod
  ↔ pod !! "app" = Some app ∧ pod !! "kubecc-role" = Some "control-plane".
Proof.
  unfold control_plane_labels. rewrite <- (singleton_selects "kubecc-role").
  unfold selects. split.
  - intros Hs. split.
    + eapply lookup_weaken; [|exact Hs]. by rewrite lookup_insert_eq.
    + etrans; [|exact Hs]. apply insert_subseteq. by rewrite lookup_singleton_ne.
  - intros [Ha Hr]. by apply insert_subseteq_l.
Qed.

(** ** Properties *)

(** C18: Agents and control plane never share a node: a pod of one workload is kept off the
    nodes of another's pods exactly when one of the two is an agent and the other is not. *)
Theorem roles_separated `{OperatorLibLaws} (bc : BuildCluster) items o1 st1 o2 st2 sel1 t1 sel2 t2 :
  desired bc = inr items → (o1, st1) ∈ items → (o2, st2) ∈ items →
  workload o1 = Some (sel1, t1) → workload o2 = Some (sel2, t2) →
  repels t1 t2 ↔ object_kind o1 ≠ object_kind o2.
Proof.
  intros Hd H1 H2 Hw1 Hw2.
  destruct (workload_inv bc _ _ _ _ _ Hd H1 Hw1) as (_ & _ & C1).
  destruct (workload_inv bc _ _ _ _ _ Hd H2 Hw2) as (_ & _ & C2).
  assert (PodLabels t2 !! "kubecc-role"
    = Some (if decide (object_kind o2 = KDeployment) then "control-plane" else "agent")) as Hr2.
  { destruct C2 as [(-> & -> & _)|(-> & (tc & _ & ->) & _)]; [apply role_of_control_plane|apply role_of_agent]. }
  assert (PodAntiAffinity (TemplateSpec t1)
    = [mkTerm {["kubecc-role" := if decide (object_kind o1 = KDeployment) then "agent" else "control-plane"]}
         "kubernetes.io/hostname"]) as Ha1.
  { by destruct C1 as [(-> & _ & _ & ->)|(-> & _ & ->)]. }
  unfold repels. rewrite Ha1. setoid_rewrite list_elem_of_singleton.
  trans (selects {["kubecc-role" := if decide (object_kind o1 = KDeployment) then "agent" else "control-plane"]}
           (PodLabels t2)).
  { split; [by intros (? & -> & _ & ?)|]. eauto. }
  rewrite singleton_selects, Hr2.
  destruct C1 as [(-> & _)|(-> & _)], C2 as [(-> & _)|(-> & _)]; cbn; naive_solver.
Qed.

(** The name under which a service answers, with its port. *)
Definition dns_address (m : ObjectMeta) (port : ContainerPort) : string :=
  Name m +:+ "." +:+ Namespace m +:+ ".svc.cluster.local:" +:+ pretty (PortNumber port).

(** The address on which "kubecc run" of a server listens. *)
Definition listen_address (cfg : KubeccSpec) (component : string) : option string :=
  if bool_decide (component = "monitor") then Some (Monitor_ListenAddress (Monitor cfg))
  else if bool_decide (component = "scheduler") then Some (Scheduler_ListenAddress (Scheduler cfg))
  else if bool_decide (component = "cache") then Some (Cache_ListenAddress (Cache cfg)) else None.

(** The addresses that the components and the command line read from the configuration. *)
Definition config_addresses (cfg : KubeccSpec) : list string :=
  [Agent_SchedulerAddress (Agent cfg); Agent_MonitorAddress (Agent cfg);
   Scheduler_MonitorAddress (Scheduler cfg); Scheduler_CacheAddress (Scheduler cfg);
   Cache_MonitorAddress (Cache cfg); Kcctl_MonitorAddress (Kcctl cfg);
   Kcctl_SchedulerAddress (Kcctl cfg)].

(** The service [m] leads to the deployment of its name and namespace and to no other pods.
    That deployment is to be present (the one of the cache when the cache is enabled), and its
    pods run a server that reads the mounted configuration and listens on the port of the
    service, which the container declares. *)
Definition resolves (bc : BuildCluster) (cfg : KubeccSpec) (items : list Resource) (m : ObjectMeta) (sel : Labels)
    (port : ContainerPort) : Prop :=
  (∀ o st sel' t, (o, st) ∈ items → workload o = Some (sel', t) →
     selects sel (PodLabels t) ↔ object_kind o = KDeployment ∧ Name (object_meta o) = Name m)
  ∧ ∃ o st sel' t c component, (o, st) ∈ items ∧ workload o = Some (sel', t)
     ∧ object_kind o = KDeployment ∧ Name (object_meta o) = Name m ∧ Namespace (object_meta o) = Namespace m
     ∧ (component ≠ "cache" ∨ Enabled (CacheComponentSpec (comps bc)) = true → st = StatePresent)
     ∧ Containers (TemplateSpec t) = [c] ∧ Command c = ["/kubecc"; "run"; component]
     ∧ configVolumeMount ∈ VolumeMounts c ∧ configVolume ∈ Volumes (TemplateSpec t)
     ∧ listen_address cfg component = Some (":" +:+ pretty (PortNumber port)) ∧ port ∈ Ports c.

Section resolve.
Context `{OperatorLibLaws} (bc : BuildCluster).

Lemma control_plane_item items img pol data cimgs r :
  items = (apply_owner bc <$> control_plane bc img pol data)
    ++ zip_with (λ tc cimg, (owned bc (agent_set bc img pol cimg tc), StatePresent))
         (Toolchains (Spec bc)) cimgs →
  r ∈ control_plane bc img pol data → (owned bc (fst r), snd r) ∈ items.
Proof.
  intros -> Hr. apply elem_of_app. left. apply list_elem_of_fmap. exists r.
  split; [by destruct r|done].
Qed.

(** The three deployments behind services. *)
Lemma deployment_item img pol data name :
  name ∈ ["kubecc-monitor"; "kubecc-scheduler"; "kubecc-cache"] →
  ∃ component res st, (control_plane_deployment bc name component img pol res, st) ∈ control_plane bc img pol data
    ∧ (component ≠ "cache" ∨ Enabled (CacheComponentSpec (comps bc)) = true → st = StatePresent)
    ∧ listen_address (cluster_config bc) component = Some ":9090".
Proof.
  rewrite !elem_of_cons. intros [->|[->|[->|[]%not_elem_of_nil]]].
  - exists "monitor". do 2 eexists. split; [unfold control_plane; in_list|done].
  - exists "scheduler". do 2 eexists. split; [unfold control_plane; in_list|done].
  - exists "cache". do 2 eexists. split; [unfold control_plane; in_list|]. split; [|done]. intros [? | ->]; done.
Qed.

Lemma service_resolves items name cfg m sel st :
  desired bc = inr items → name ∈ ["kubecc-monitor"; "kubecc-scheduler"; "kubecc-cache"] →
  (∀ component, listen_address cfg component = listen_address (cluster_config bc) component) →
  (Service m sel [grpcPort], st) ∈ items → Name m = name → Namespace m = ns bc → sel = control_plane_labels name →
  resolves bc cfg items m sel grpcPort.
Proof.
  intros Hd Hn HL Hs <- Hns ->. split.
  - intros o st' sel' t Ho Hw. destruct (workload_inv bc _ _ _ _ _ Hd Ho Hw) as (_ & _ & C).
    rewrite control_plane_selects.
    destruct C as [(-> & -> & _)|(-> & (tc & _ & ->) & _)].
    + destruct (role_of_control_plane (Name (object_meta o))) as [-> ->].
      split; [intros [[= ?] _]|intros [_ ?]]; split; congruence.
    + destruct (role_of_agent tc) as [-> ->]. split; intros [? ?]; done.
  - destruct (desired_inv bc _ Hd) as (img & pol & data & cimgs & _ & _ & _ & Hi).
    destruct (deployment_item img pol data _ Hn) as (component & res & st' & Hdep & Hst & Hla).
    pose proof (control_plane_item _ _ _ _ _ _ Hi Hdep) as Hin. cbn [fst snd] in Hin.
    do 5 eexists. exists component. split; [exact Hin|]. rewrite owned_workload, owned_kind, owned_name, owned_namespace, HL, Hns.
    split_and!; try done; cbn; by left.
Qed.

(** The three services, with their owner references. *)
Lemma service_item items name :
  desired bc = inr items → name ∈ ["kubecc-monitor"; "kubecc-scheduler"; "kubecc-cache"] →
  ∃ m, (Service m (control_plane_labels name) [grpcPort], StateCreated) ∈ items
    ∧ Name m = name ∧ Namespace m = ns bc.
Proof.
  intros Hd Hn. destruct (desired_inv bc _ Hd) as (img & pol & data & cimgs & _ & _ & _ & Hi).
  assert ((genericService name (ns bc) (control_plane_labels name), StateCreated)
    ∈ control_plane bc img pol data) as Hs.
  { rewrite !elem_of_cons in Hn. destruct Hn as [->|[->|[->|[]%not_elem_of_nil]]]; unfold control_plane; in_list. }
  pose proof (control_plane_item _ _ _ _ _ _ Hi Hs) as Hin.
  eexists. split; [exact Hin|].
  cbn. destruct (owner_frame (bc_meta bc) (meta name (ns bc))) as (-> & -> & _). done.
Qed.
End resolve.

(** C16: Every address that a component of the cluster finds in the configuration mounted
    into its pod is the name and port of a service that the operator creates; that service
    leads to the pods of the deployment of its name and to no others, the deployment is to be
    present (the one of the cache: when the cache is enabled in the specification), and its
    container runs the server that, by the same configuration, listens on that port. *)
Theorem addresses_resolve `{OperatorLibLaws} `{MergoLaws} `{Decoders}
    (bc : BuildCluster) (items : list Resource) (h : ConfigHost) m data config :
  (∀ enc, yaml_Marshal (cluster_config bc) = inr enc →
     yaml_Unmarshal enc = (cluster_config bc, None)) →
  desired bc = inr items →
  (ConfigMap m data, StatePresent) ∈ items → data !! "config.yaml" = Some config →
  exists_ h "/etc/kubecc/config.yaml" = true → ReadFile h "/etc/kubecc/config.yaml" = inr config →
  ∃ cfg, Load h = Ret (Loaded cfg)
    ∧ ∀ addr, addr ∈ config_addresses cfg →
      ∃ ms sel port, (Service ms sel [port], StateCreated) ∈ items ∧ addr = dns_address ms port
        ∧ resolves bc cfg items ms sel port.
Proof.
  intros Hrt Hd Hcm Hdata He Hread.
  destruct (desired_inv bc _ Hd) as (img & pol & d & cimgs & _ & Hy & _ & Hi).
  assert (config = d) as ->.
  { revert Hcm Hdata. revert m data.
    pose proof (desired_cases bc items (λ o st, ∀ m data, o = ConfigMap m data →
      data !! "config.yaml" = Some config → config = d) _ _ _ _ Hi) as C.
    intros m data Hcm. refine (C _ _ _ _ Hcm m data eq_refl); [|done].
    unfold control_plane. each_resource; cbn; intros ?? [= <- <-].
    rewrite lookup_singleton_eq. by intros [= <-]. }
  destruct (proj1 (Load_order h) 0%nat "/etc/kubecc/config.yaml" eq_refl He) as (cfg & HL & ->); [lia|].
  exists cfg. split; [done|]. unfold LoadFile in HL. cbn in HL. rewrite Hread in HL.
  change (has_suffix _ _) with false in HL. rewrite (Hrt _ Hy) in HL. cbn in HL.
  assert (config_addresses cfg = config_addresses (cluster_config bc)
    ∧ ∀ component, listen_address cfg component = listen_address (cluster_config bc) component) as [-> Hla].
  { revert HL. unfold ApplyGlobals. rewrite !Merge_spec. by intros [= <-]. }
  assert (∀ name, name ∈ ["kubecc-monitor"; "kubecc-scheduler"; "kubecc-cache"] →
    ∃ ms sel port, (Service ms sel [port], StateCreated) ∈ items
      ∧ svc_address bc name = dns_address ms port ∧ resolves bc cfg items ms sel port) as Hsvc.
  { intros name Hn. destruct (service_item bc _ _ Hd Hn) as (ms & Hin & Hname & Hns).
    exists ms, (control_plane_labels name), grpcPort. split; [done|].
    split; [by unfold svc_address, dns_address; rewrite Hname, Hns|].
    by eapply service_resolves. }
  intros addr. cbn. set_unfold. naive_solver.
Qed.

(** Every reference of a workload stays inside the desired objects: its pods match its
    selector, each mount names a volume of the pod, each config map volume a desired config
    map with the mounted keys, the priority class is desired, and the build cluster owns it. *)
Theorem desired_closed `{OperatorLibLaws} (bc : BuildCluster) items o st sel t :
  desired bc = inr items → (o, st) ∈ items → workload o = Some (sel, t) →
  selects sel (PodLabels t)
  ∧ (∀ c v, c ∈ all_containers t → v ∈ VolumeMounts c →
       MountName v ∈ (VolumeName <$> Volumes (TemplateSpec t)))
  ∧ (∀ v name ks, v ∈ Volumes (TemplateSpec t) → Source v = ConfigMapSource name ks →
       ∃ m data, (ConfigMap m data, StatePresent) ∈ items ∧ Name m = name
         ∧ Namespace m = Namespace (object_meta o)
         ∧ ∀ k, k ∈ ks.*1 → is_Some (data !! k))
  ∧ (∃ m v d, (PriorityClass m v d, StatePresent) ∈ items
       ∧ Name m = PriorityClassName (TemplateSpec t))
  ∧ OwnerReferences (object_meta o) = [Name (bc_meta bc)].
Proof.
  intros Hd Ho Hw. destruct (workload_inv bc _ _ _ _ _ Hd Ho Hw) as (-> & Hns & _).
  destruct (workload_refs bc _ _ _ _ _ Hd Ho Hw) as [Hown Hok]. rewrite Hns.
  split; [done|]. destruct (template_ok_spec _ Hok) as (Hm & Hv & Hp).
  destruct (desired_inv bc _ Hd) as (img & pol & data & cimgs & _ & _ & _ & Hi).
  split; [done|]. split; [|split; [|done]].
  - intros v name ks Hin Hs. destruct (Hv v name ks Hin Hs) as [-> Hks].
    pose proof (control_plane_item bc _ _ _ _ _
      (ConfigMap (meta "kubecc" (ns bc)) {["config.yaml" := data]}, StatePresent) Hi
      ltac:(unfold control_plane; in_list)) as Hcm.
    do 2 eexists. split; [exact Hcm|]. cbn.
    destruct (owner_frame (bc_meta bc) (meta "kubecc" (ns bc))) as (-> & -> & _).
    split_and!; [done..|]. intros k Hk. rewrite (Hks k Hk), lookup_singleton_eq. done.
  - assert (∃ v, (PriorityClass (meta (PriorityClassName (TemplateSpec t)) "") v false, StatePresent)
      ∈ control_plane bc img pol data) as [v Hpc].
    { destruct Hp as [->| ->]; eexists; unfold control_plane; in_list. }
    do 3 eexists. split; [exact (control_plane_item bc _ _ _ _ _ _ Hi Hpc)|]. apply owner_frame.
Qed.

(** ** Reconciliation *)

Abbreviation object_key := (kind * string * string)%type.

Definition requeues (r : option Result) : bool :=
  match r with Some r => Requeue r || (0 <? RequeueAfter r) | None => false end.

(** What the operator library documents of [ReconcileResource]: when it neither fails nor
    asks to be called again the object is in the desired state ([view] is the configuration
    last applied); it never touches another object.  And of the API server: a status update
    that succeeds is what is read afterwards. *)
Class ClusterLaws (W : Type) `{ClusterApi W} := {
  view : W → object_key → option Object;
  reconcile_present : ∀ o w w' r, ReconcileResource o StatePresent w = (w', (r, None)) →
    requeues r = false → view w' (key o) = Some o;
  reconcile_created : ∀ o w w' r, ReconcileResource o StateCreated w = (w', (r, None)) →
    requeues r = false →
    view w' (key o) = match view w (key o) with Some o' => Some o' | None => Some o end;
  reconcile_absent : ∀ o w w' r, ReconcileResource o StateAbsent w = (w', (r, None)) →
    requeues r = false → view w' (key o) = None;
  reconcile_frame : ∀ o st w w' res k, ReconcileResource o st w = (w', res) → k ≠ key o →
    view w' k = view w k;
  retry_result : ∀ f st st', RetryOnConflict f st = (st', None) → ∃ st1, f st1 = (st', None);
  status_updated : ∀ bc w w', update_status bc w = (w', None) → get_cluster w' = inr bc;
}.

(** The object is in its desired state. *)
Definition satisfied {W} `{ClusterLaws W} (w : W) (r : Resource) : Prop :=
  match snd r with
  | StatePresent => view w (key (fst r)) = Some (fst r)
  | StateCreated => is_Some (view w (key (fst r)))
  | StateAbsent => view w (key (fst r)) = None
  end.

Section converge.
Context {W : Type} `{ClusterLaws W} `{OperatorLibLaws}.

Lemma satisfied_ext (w w' : W) r :
  view w' (key (fst r)) = view w (key (fst r)) → satisfied w r → satisfied w' r.
Proof. unfold satisfied. by intros ->. Qed.

(** A pass over the list that reaches its end leaves every object in its state, when no two
    have the same identity. *)
Lemma apply_all_satisfied items (w w' : W) :
  NoDup (key ∘ fst <$> items) → apply_all items w = (w', (Some (mkResult false 0), None)) →
  Forall (satisfied w') items ∧ ∀ k, k ∉ (key ∘ fst <$> items) → view w' k = view w k.
Proof.
  revert w. induction items as [|[o st] items IH]; intros w Hnd; cbn; [by intros [= <-]|].
  inversion_clear Hnd as [|?? Hk Hnd'].
  destruct (ReconcileResource o st w) as [w1 [res err]] eqn:ER.
  destruct err; [by intros [=]|]. intros Hrun.
  assert (requeues res = false ∧ apply_all items w1 = (w', (Some (mkResult false 0), None)))
    as [Hreq Hrest].
  { destruct res as [[rq after]|]; cbn in *; [|done].
    destruct (rq || (0 <? after)) eqn:E; [|done]. injection Hrun as -> -> ->. done. }
  destruct (IH w1 Hnd' Hrest) as [HF Hother]. split.
  - constructor; [|done]. eapply satisfied_ext; [by apply Hother|]. unfold satisfied. cbn.
    destruct st; [by eapply reconcile_absent|by eapply reconcile_present|].
    erewrite reconcile_created by done. by destruct (view w (key o)).
  - intros k Hn. rewrite not_elem_of_cons in Hn. destruct Hn as [Hne Hn].
    rewrite Hother by done. by eapply reconcile_frame.
Qed.

(** A call that neither fails nor asks to be called again. *)
Definition answers (o : Object) (st : DesiredState) (w : W) : Prop :=
  let '(_, (res, err)) := ReconcileResource o st w in err = None ∧ requeues res = false.

Lemma apply_all_ends items (w : W) :
  (∀ o st w, answers o st w) → ∃ w', apply_all items w = (w', (Some (mkResult false 0), None)).
Proof.
  intros Ha. revert w. induction items as [|[o st] items IH]; intros w; cbn; [by eexists|].
  pose proof (Ha o st w) as Hw. unfold answers in Hw.
  destruct (ReconcileResource o st w) as [w1 [[r|] err]]; destruct Hw as [-> Hr]; [|apply IH].
  cbn in Hr. rewrite Hr. apply IH.
Qed.

Lemma desired_keys bc items :
  desired bc = inr items → NoDup (toolchainName <$> Toolchains (Spec bc)) →
  NoDup (key ∘ fst <$> items).
Proof.
  intros (img & pol & data & cimgs & _ & _ & HF & ->)%desired_inv Hnd.
  assert (key ∘ fst <$> zip_with (λ tc cimg, (owned bc (agent_set bc img pol cimg tc), StatePresent))
    (Toolchains (Spec bc)) cimgs
    = (λ name, (KDaemonSet, ns bc, name)) <$> (toolchainName <$> Toolchains (Spec bc))) as E2.
  { clear Hnd. induction HF as [|tc cimg tcs cimgs _ _ IH]; [done|].
    apply (f_equal2 cons); [exact (owned_key bc (agent_set bc img pol cimg tc))|exact IH]. }
  assert (key ∘ fst <$> (apply_owner bc <$> control_plane bc img pol data)
    = key ∘ fst <$> control_plane bc img pol data) as E1.
  { rewrite <- list_fmap_compose. apply list_fmap_ext. intros _ [o st] _. apply (owned_key bc o). }
  rewrite fmap_app, E1, E2. apply NoDup_app. split; [|split].
  - apply (NoDup_fmap_1 (λ k : object_key, (k.1.1, k.2))). cbn. refine (bool_decide_unpack (NoDup _) _). by vm_compute.
  - intros k Hk (name & -> & _)%list_elem_of_fmap. revert Hk. cbn.
    rewrite !elem_of_cons, elem_of_nil. intros Hk. destruct_or! Hk; done.
  - by apply NoDup_fmap_2; [intros ?? [=]|].
Qed.
End converge.

(** C17: When the default image is set, the specification is valid and the API answers, a
    reconciliation ends without error and without asking to be called again; and whenever one
    ends so, every desired object is in its state, provided that no two toolchains have the
    same name. *)
Theorem Reconcile_converges {W} `{ClusterLaws W} `{OperatorLibLaws} (bc : BuildCluster) (w : W) :
  NoDup (toolchainName <$> Toolchains (Spec bc)) →
  (∀ items, configureDefaultImage (w, bc) = Ret ((w, bc), inr false) → desired bc = inr items →
     (∀ o st (w : W), answers o st w) →
     ∃ w', Reconcile bc w = Ret (w', (Some (mkResult false 0), None)))
  ∧ ∀ w', Reconcile bc w = Ret (w', (Some (mkResult false 0), None)) →
     ∃ items, desired bc = inr items ∧ Forall (satisfied w') items.
Proof.
  intros Hnd. split.
  { intros items Hc Hd Ha. unfold Reconcile. rewrite Hc. cbn [mbind go_bind fst snd]. rewrite Hd.
    destruct (apply_all_ends items w Ha) as [w' ->]. by exists w'. }
  intros w'. unfold Reconcile. intros ([st r] & Hc & Hrun)%go_bind_Ret_inv.
  assert (∀ b, r = inr b → b = false → st = (w, bc)) as Hst.
  { intros b -> ->. revert Hc. unfold configureDefaultImage.
    destruct (operator_containers (w, bc).1); [done|].
    destruct (bool_decide _); [done|]. destruct (bool_decide (DefaultImageName _ ≠ _)); [|by intros [= <-]].
    by destruct (RetryOnConflict _ _) as [? []]. }
  destruct r as [err|[]]; [discriminate..|]. rewrite (Hst false eq_refl eq_refl) in Hrun.
  cbn [fst snd] in Hrun.
  destruct (desired bc) as [|items] eqn:Hd; [discriminate|]. exists items. split; [done|].
  injection Hrun as Hrun. eapply apply_all_satisfied; [by eapply desired_keys|exact Hrun].
Qed.

(** Setting the default image asks for one more round, and only one: in the state it leaves,
    if the operator's deployment and the image of the specification are still the same, the
    image is not set again. *)
Theorem image_settles {W} `{ClusterLaws W} (bc bc' : BuildCluster) (w w' : W) :
  configureDefaultImage (w, bc) = Ret ((w', bc'), inr true) →
  operator_containers w' = operator_containers w → SpecImage (Spec bc') = SpecImage (Spec bc) →
  get_cluster w' = inr bc' ∧ configureDefaultImage (w', bc') = Ret ((w', bc'), inr false).
Proof.
  unfold configureDefaultImage. cbn [fst snd]. intros Hc -> ->.
  destruct (operator_containers w) as [|cs]; [done|].
  destruct (bool_decide (manager_image cs "" = "")); [done|].
  set (image := if bool_decide (SpecImage (Spec bc) ≠ "") then _ else _) in *.
  case_bool_decide; [|done].
  destruct (RetryOnConflict _ _) as [st' [|]] eqn:ER; [done|]. injection Hc as ->.
  apply retry_result in ER as ([w1 bc1] & Hu). unfold update_image in Hu. cbn [fst] in Hu.
  destruct (get_cluster w1) as [|bc2]; [done|].
  destruct (update_status _ w1) as [w2 err] eqn:Eu. injection Hu as -> <- ->.
  split; [by eapply status_updated|]. cbn. by rewrite bool_decide_eq_false_2 by auto.
Qed.

(** Two toolchains with the same name (here two gcc images of one version) describe one daemon
    set: the second replaces the first at each reconciliation. *)
Theorem same_name_collides `{OperatorLibLaws} (bc : BuildCluster) img1 img2 :
  kubeccImage bc = inr ("kubecc", "") →
  let tc img := mkToolchainSpec None "gcc" "10" "amd64" (Some img) in
  ∃ o1 o2, toolchain bc (tc img1) = inr [Present o1] ∧ toolchain bc (tc img2) = inr [Present o2]
    ∧ key o1 = key o2 ∧ (img1 ≠ img2 → o1 ≠ o2).
Proof.
  intros Hi tc. exists (owned bc (agent_set bc "kubecc" "" img1 (tc img1))),
    (owned bc (agent_set bc "kubecc" "" img2 (tc img2))).
  split; [by unfold toolchain; cbn [compilerImage tc]; rewrite Hi|].
  split; [by unfold toolchain; cbn [compilerImage tc]; rewrite Hi|].
  split; [by rewrite !owned_key|]. intros Hne E%(f_equal workload). rewrite !owned_workload in E.
  by injection E.
Qed.

(** The comments of the API say otherwise: the default name is "kind-version" and a custom gcc
    image is given without its tag; the code puts "kubecc-agent-" before the name and runs the
    custom image as it is, without the version. *)
Theorem toolchain_docs kind version img :
  toolchainName (mkToolchainSpec None kind version "amd64" None)
  = "kubecc-agent-" +:+ kind +:+ "-" +:+ version
  ∧ compilerImage (mkToolchainSpec None "gcc" version "amd64" (Some img)) = inr img.
Proof. done. Qed.

(** ** A concrete cluster *)

#[local] Instance sample_lib : OperatorLib := {
  SetControllerReference owner obj :=
    if bool_decide (Namespace obj = Namespace owner)
    then (mkObjectMeta (Name obj) (Namespace obj) (MetaLabels obj)
            (Name owner :: OwnerReferences obj), None)
    else (obj, Some (PlainError "cross-namespace owner reference"));
  yaml_Marshal _ := inr "encoded";
}.
#[local] Instance sample_lib_laws : OperatorLibLaws.
Proof.
  split; intros owner obj; cbn.
  - intros E. by rewrite bool_decide_eq_true_2.
  - by case_bool_decide.
Qed.

Definition no_limits : ComponentSpec := mkComponentSpec None (opaque "").
Definition sample_bc : BuildCluster := mkBuildCluster (meta "cluster" "kubecc-ns")
  (mkBuildClusterSpec "" "" (mkComponents no_limits no_limits no_limits
     (mkCacheComponent true no_limits None None None))
     [mkToolchainSpec None "gcc" "10" "amd64" None] false) "kubecc:1".

#[local] Instance sample_decoders : Decoders := {
  json_Unmarshal _ := (zero_KubeccSpec, None);
  yaml_Unmarshal _ := (cluster_config sample_bc, None);
}.
Definition pod_host : ConfigHost := mkConfigHost (λ _, inr "encoded") (λ _, true) "/root".

Definition sample_items : list Resource :=
  match desired sample_bc with inr items => items | inl _ => [] end.
Lemma sample_desired : desired sample_bc = inr sample_items.
Proof. reflexivity. Qed.

Definition item (n : nat) : Resource := default (Created (PriorityClass (meta "" "") 0 false)) (sample_items !! n).
Definition template_of (o : Object) : PodTemplate :=
  match workload o with Some (_, t) => t | None => mkTemplate ∅ (mkPodSpec "" [] None [] [] []) end.

(** The agents (item 10) keep away from the scheduler (item 6), which keeps away from them;
    scheduler and monitor (item 4) may share a node. *)
Lemma roles_separated_witness :
  repels (template_of (fst (item 10))) (template_of (fst (item 6)))
  ∧ ¬ repels (template_of (fst (item 4))) (template_of (fst (item 6))).
Proof.
  split.
  - apply (roles_separated sample_bc sample_items (fst (item 10)) (snd (item 10)) (fst (item 6))
      (snd (item 6)) (agent_labels (mkToolchainSpec None "gcc" "10" "amd64" None)) _
      (control_plane_labels "kubecc-scheduler") _ sample_desired);
      [apply (list_elem_of_lookup_2 _ 10); reflexivity|apply (list_elem_of_lookup_2 _ 6); reflexivity
      |reflexivity|reflexivity|discriminate].
  - intros Hr. apply (roles_separated sample_bc sample_items (fst (item 4)) (snd (item 4))
      (fst (item 6)) (snd (item 6)) (control_plane_labels "kubecc-monitor") _
      (control_plane_labels "kubecc-scheduler") _ sample_desired) in Hr;
      [by apply Hr|apply (list_elem_of_lookup_2 _ 4); reflexivity
      |apply (list_elem_of_lookup_2 _ 6); reflexivity|reflexivity|reflexivity].
Defined.

Lemma addresses_resolve_witness :
  ∃ cfg ms sel port, (Service ms sel [port], StateCreated) ∈ sample_items
    ∧ "kubecc-scheduler.kubecc-ns.svc.cluster.local:9090" = dns_address ms port
    ∧ resolves sample_bc cfg sample_items ms sel port.
Proof.
  destruct (addresses_resolve sample_bc sample_items pod_host
    (mkObjectMeta "kubecc" "kubecc-ns" ∅ ["cluster"]) {["config.yaml" := "encoded"]} "encoded")
    as (cfg & HL & Hall); [by intros ? _|reflexivity
    |apply (list_elem_of_lookup_2 _ 2); reflexivity|reflexivity|reflexivity|reflexivity|].
  exists cfg. apply Hall. injection HL as <-. left.
Defined.

(** A cluster that applies everything at once. *)
Record SampleCluster := mkSampleCluster {
  objects : object_key → option Object;
  stored : BuildCluster;
}.
Definition put (k : object_key) (v : option Object) (w : SampleCluster) : SampleCluster :=
  mkSampleCluster (λ k', if decide (k' = k) then v else objects w k') (stored w).

#[local] Instance sample_api : ClusterApi SampleCluster := {
  operator_containers _ := inr [("manager", "kubecc:1")];
  get_cluster w := inr (stored w);
  IsNotFound _ := false;
  update_status bc w := (mkSampleCluster (objects w) bc, None);
  RetryOnConflict f st := f st;
  ReconcileResource o st w :=
    (match st with
     | StatePresent => put (key o) (Some o) w
     | StateAbsent => put (key o) None w
     | StateCreated => match objects w (key o) with Some _ => w | None => put (key o) (Some o) w end
     end, (None, None));
}.
#[local] Instance sample_api_laws : ClusterLaws SampleCluster.
Proof.
  refine {| view := objects |}; cbn.
  - intros o w w' r [= <- <-] _. cbn. by rewrite decide_True.
  - intros o w w' r [= <- <-] _. destruct (objects w (key o)) eqn:E; [done|]. cbn. by rewrite decide_True.
  - intros o w w' r [= <- <-] _. cbn. by rewrite decide_True.
  - intros o st w w' res k [= <- _] Hne. destruct st; cbn; [by rewrite decide_False..|].
    destruct (objects w (key o)); [done|]. cbn. by rewrite decide_False.
  - intros f st st' E. by exists st.
  - by intros bc w w' [= <-].
Qed.

Definition empty_cluster : SampleCluster := mkSampleCluster (λ _, None) sample_bc.
Definition final_cluster : SampleCluster := fst (apply_all sample_items empty_cluster).
Lemma Reconcile_converges_witness :
  (∃ w', Reconcile sample_bc empty_cluster = Ret (w', (Some (mkResult false 0), None)))
  ∧ ∃ items, desired sample_bc = inr items ∧ Forall (satisfied final_cluster) items.
Proof.
  destruct (Reconcile_converges sample_bc empty_cluster) as [H1 H2]; [by apply NoDup_singleton|].
  split; [|by apply H2].
  by apply (H1 sample_items); [reflexivity|reflexivity|].
Defined.
