(* ===== verification/Setup.v ===== *)
(** * Installing and removing kubecc: [pkg/kubecc/commands/setup.go], [teardown.go]

    The commands work on the machine: its files, its systemd units, its shell.  A function is
    a state transformer over [Machine] that may return an error ([inl]) or panic; what the
    operating system, the user and the libraries answer is a record [Sys].  Messages on the
    terminal are left out. *)
From stdpp Require Import sorting.
From S2P Require Import Prelude GoStrings Types Config Finders.

(** ** The machine *)

Inductive node : Set := File (data : string) | Dir | Link (target : string).
#[export] Instance node_eq_dec : EqDecision node.
Proof. solve_decision. Defined.

Inductive mode : Set := SystemMode | UserMode.
Inductive sd_call : Set := DaemonReload | Restart | Start | Enable | Stop | Disable.
#[export] Instance mode_eq_dec : EqDecision mode. Proof. solve_decision. Defined.
#[export] Instance sd_call_eq_dec : EqDecision sd_call. Proof. solve_decision. Defined.

Record Machine := mkMachine {
  fs : gmap string node;
  sd_calls : list (mode * sd_call);   (** the calls to systemd, in order *)
}.

(** File operations that may be refused. *)
Inductive fs_op : Set :=
  | OpOpen (path : string) | OpCreate (path : string) | OpWrite (path : string)
  | OpMkdirAll (path : string) | OpRemove (path : string) | OpSymlink (path : string)
  | OpReadDir (path : string).

Record Sys := mkSys {
  refuse : fs_op → option error;            (** the operating system *)
  stat_err : string → option error;         (** an error of [os.Stat] other than not-exist *)
  Executable_ : error + string;             (** [os.Executable] *)
  LookPath : option string;                 (** [exec.LookPath("kubecc")] *)
  uid0 : bool;                              (** [os.Getuid() == 0] *)
  sudo : bool;
  home : string;                            (** [home.HomeDir()] *)
  Expand : string → error + string;         (** [homedir.Expand] *)
  md5 : string → string;
  IsActive : mode → list (mode * sd_call) → error + bool;
  systemctl : mode → sd_call → option error;
  catUnit_output : string → error + string; (** [systemctl --option cat consumerd.service] *)
  marshal : KubeccSpec → error + string;    (** [yaml.Marshal] *)
  GetToolchains : error + list Toolchain;   (** of the consumer daemon *)
  dial : error + unit;
  Shell : error + string;
  shell_echo : Machine → error + string;    (** what the shell prints for $KUBECC_BINARY *)
  LookupEnv : string → option string;
}.

(** ** The monad *)

Definition M (A : Type) : Type := Machine → go (Machine * (error + A)).
#[export] Instance M_ret : MRet M := λ A a m, Ret (m, inr a).
#[export] Instance M_bind : MBind M := λ A B f c m,
  '(m, r) ← c m;
  match r with
  | inl err => Ret (m, inl err)
  | inr a => f a m
  end.
Definition throw {A} (err : error) : M A := λ m, Ret (m, inl err).
Definition lift {A} (r : error + A) : M A := λ m, Ret (m, r).
Definition get : M Machine := λ m, Ret (m, inr m).
Definition put_fs (f : gmap string node) : M unit := λ m, Ret (mkMachine f (sd_calls m), inr tt).
Definition panics {A} (why : string) : M A := λ _, Panic why.
(** Runs [c] and keeps its error as a value. *)
Definition try {A} (c : M A) : M (error + A) := λ m, '(m, r) ← c m; Ret (m, inr r).

(** The questions: each returns an error or the answer.  The prompts of a loop are numbered
    by the rounds that are left. *)
Record Prompts := mkPrompts {
  select_dir : nat → error + string;     (** "Choose an install location" *)
  input_dir : nat → error + string;      (** "Enter an install path" *)
  survey_config : error + (string * string * string * bool); (** port, scheduler, monitor, TLS *)
  select_rc : nat → error + string;      (** "Retry", "Do this for me" or "Skip this step" *)
  confirm_rc : nat → error + bool;
}.

Section setup.
Context (sys : Sys) (ui : Prompts).

Definition permitted (op : fs_op) : M unit :=
  match refuse sys op with Some err => throw err | None => mret tt end.

Definition not_exist : error := PlainError "no such file or directory".
Definition file_exists : error := PlainError "file exists".
Definition not_a_directory : error := PlainError "not a directory".
Definition is_a_directory : error := PlainError "is a directory".
Definition not_empty : error := PlainError "directory not empty".

(** A link is followed once: the links of this program lead to files. *)
Definition resolve (f : gmap string node) (path : string) : string :=
  match f !! path with Some (Link t) => t | _ => path end.

Inductive stat_result : Set := StatNode (n : node) | StatNotExist | StatError (err : error).
Definition Stat (path : string) : M stat_result := λ m,
  Ret (m, inr match stat_err sys path with
              | Some err => StatError err
              | None => match fs m !! resolve (fs m) path with
                        | Some n => StatNode n
                        | None => StatNotExist
                        end
              end).
Definition stat_ok (path : string) : M bool :=
  r ← Stat path; mret match r with StatNode _ => true | _ => false end.

Definition ReadFile_ (path : string) : M string :=
  _ ← permitted (OpOpen path);
  m ← get;
  match fs m !! resolve (fs m) path with
  | Some (File d) => mret d
  | Some _ => throw is_a_directory
  | None => throw not_exist
  end.
Definition has_parent (f : gmap string node) (path : string) : bool :=
  bool_decide (f !! dir path = Some Dir).
Definition WriteFile (path data : string) : M unit :=
  _ ← permitted (OpWrite path);
  m ← get;
  let path := resolve (fs m) path in
  match fs m !! path with
  | Some Dir => throw is_a_directory
  | _ => if has_parent (fs m) path then put_fs (<[path := File data]> (fs m)) else throw not_exist
  end.
(** [os.OpenFile] with O_APPEND and without O_CREATE, and a write. *)
Definition AppendFile (path data : string) : M unit :=
  _ ← permitted (OpOpen path);
  m ← get;
  let path := resolve (fs m) path in
  match fs m !! path with
  | Some (File old) => put_fs (<[path := File (old +:+ data)]> (fs m))
  | Some _ => throw is_a_directory
  | None => throw not_exist
  end.
(** [os.OpenFile] with O_CREATE and O_EXCL, and the copy of the data. *)
Definition CreateExcl (path data : string) : M unit :=
  _ ← permitted (OpCreate path);
  m ← get;
  match fs m !! path with
  | Some _ => throw file_exists
  | None => if has_parent (fs m) path then put_fs (<[path := File data]> (fs m)) else throw not_exist
  end.
(** [p] is strictly below the directory [path]. *)
Definition inside (path p : string) : bool := has_prefix p (path +:+ "/").
Definition below (path p : string) : bool := bool_decide (p = path) || inside path p.
Definition empty_dir (f : gmap string node) (path : string) : bool :=
  bool_decide (filter (λ e, inside path (fst e) = true) f = ∅).
(** [os.Remove] does not follow links, and refuses a directory that has entries. *)
Definition Remove (path : string) : M unit :=
  _ ← permitted (OpRemove path);
  m ← get;
  match fs m !! path with
  | Some Dir => if empty_dir (fs m) path then put_fs (delete path (fs m)) else throw not_empty
  | Some _ => put_fs (delete path (fs m))
  | None => throw not_exist
  end.
(** [os.RemoveAll]: the path and everything below it. *)
Definition RemoveAll (path : string) : M unit :=
  _ ← permitted (OpRemove path);
  m ← get;
  put_fs (filter (λ e, below path (fst e) = false) (fs m)).
Definition mkdir (path : string) : M unit :=
  m ← get;
  match fs m !! resolve (fs m) path with
  | Some Dir => mret tt
  | Some _ => throw not_a_directory
  | None => put_fs (<[path := Dir]> (fs m))
  end.
Fixpoint mkdirs (paths : list string) : M unit :=
  match paths with
  | [] => mret tt
  | p :: paths => _ ← mkdir p; mkdirs paths
  end.
(** "/a/b" has the directories "/a" and "/a/b". *)
Fixpoint prefixes (before : list string) (es : list string) : list (list string) :=
  match es with
  | [] => []
  | e :: es => (before ++ [e]) :: prefixes (before ++ [e]) es
  end.
Definition ancestors (path : string) : list string :=
  filter (λ p, p ≠ "") (join "/" <$> prefixes [] (split path slash)).
Definition MkdirAll (path : string) : M unit :=
  _ ← permitted (OpMkdirAll path);
  mkdirs (ancestors path).
Definition Symlink (target path : string) : M unit :=
  _ ← permitted (OpSymlink path);
  m ← get;
  match fs m !! path with
  | Some _ => throw file_exists
  | None => if has_parent (fs m) path then put_fs (<[path := Link target]> (fs m)) else throw not_exist
  end.
(** [os.ReadDir]: the names of the entries, sorted, and whether each is a directory. *)
Definition strip (pre s : string) : option string :=
  if has_prefix s pre then Some (of_chars (drop (length (chars pre)) (chars s))) else None.
Definition entry (path p : string) : option string :=
  name ← strip (path +:+ "/") p;
  if contains name "/" then None else Some name.
Definition by_name (a b : string * bool) : Prop := String.leb (fst a) (fst b) = true.
#[local] Instance by_name_dec a b : Decision (by_name a b).
Proof. unfold by_name. apply _. Defined.
Definition ReadDir (path : string) : M (list (string * bool)) :=
  _ ← permitted (OpReadDir path);
  m ← get;
  match fs m !! path with
  | Some Dir =>
      let es := omap (λ '(p, n), name ← entry path p; Some (name, bool_decide (n = Dir)))
                  (map_to_list (fs m)) in
      mret (merge_sort by_name es)
  | Some _ => throw not_a_directory
  | None => throw not_exist
  end.

Definition sd (md : mode) (c : sd_call) : M unit := λ m,
  Ret (mkMachine (fs m) (sd_calls m ++ [(md, c)]),
       match systemctl sys md c with Some err => inl err | None => inr tt end).
Definition sd_IsActive (md : mode) : M bool := λ m, Ret (m, IsActive sys md (sd_calls m)).

(** ** The binary *)

Definition md5sum (path : string) : M string := d ← ReadFile_ path; mret (md5 sys d).

Definition copySelfTo (destFolder : string) : M string :=
  executable ← lift (Executable_ sys);
  self ← ReadFile_ executable;
  let destFilePath := path_join [destFolder; base executable] in
  there ← stat_ok destFilePath;
  _ ← (if there : bool then Remove destFilePath else mret tt);
  _ ← CreateExcl destFilePath self;
  mret destFilePath.

Definition binaryNeedsUpdate (existing : string) : M bool :=
  self ← lift (Executable_ sys);
  selfMd5 ← md5sum self;
  pathMd5 ← md5sum existing;
  mret (negb (String.eqb selfMd5 pathMd5)).

Inductive installResult : Set :=
  | installResultInstalled | installResultUpdated | installResultUpToDate | installResultFailed.

(** What the settings of [checkNonInteractiveConfig] are. *)
Record NonInteractive := mkNonInteractive {
  Enabled : bool;
  SchedulerAddress : string;
  MonitorAddress : string;
  InstallDir : string;
  ConsumerdListenPort : string;
  TLSEnabled : bool;
  ShellRCConfig : bool;
}.

Definition checkNonInteractiveConfig : NonInteractive :=
  match LookupEnv sys "KUBECC_SETUP_SCHEDULER_ADDRESS", LookupEnv sys "KUBECC_SETUP_MONITOR_ADDRESS" with
  | Some sch, Some mon =>
      {| Enabled := true; SchedulerAddress := sch; MonitorAddress := mon;
         InstallDir := default "" (LookupEnv sys "KUBECC_SETUP_INSTALL_DIR");
         ConsumerdListenPort := default "10991" (LookupEnv sys "KUBECC_SETUP_CONSUMERD_LISTEN_PORT");
         TLSEnabled := bool_decide (LookupEnv sys "KUBECC_SETUP_TLS_ENABLED" = Some "true");
         ShellRCConfig := negb (bool_decide (LookupEnv sys "KUBECC_SETUP_SHELL_RC_CONFIG" = Some "false")) |}
  | _, _ => mkNonInteractive false "" "" "" "10991" false true
  end.

Definition defaultPath : string := if sudo sys then "/usr/local/bin" else "~/.local/bin".

(** One round: the directory chosen, and whether the loop ends. The expansion is stored in
    a variable of the loop body, [dirName'], which hides [dirName]. *)
Definition install_round (dirName : string) : M bool :=
  dirName' ← lift (Expand sys dirName);
  r ← Stat dirName';
  match r with
  | StatNotExist =>
      e ← try (MkdirAll dirName');
      mret match e with inl _ => false | inr _ => true end
  | StatNode Dir => mret true
  | StatNode _ => mret false
  | StatError _ => panics "invalid memory address or nil pointer dereference"
  end.

(** The loop, for as many rounds as [rounds]; [None] when it has not ended. *)
Fixpoint choose_dir (ni : NonInteractive) (rounds : nat) : M (option string) :=
  match rounds with
  | O => mret None
  | S n =>
      dirName ← (if Enabled ni
                 then mret (or_default (InstallDir ni) defaultPath)
                 else selected ← lift (select_dir ui n);
                      if String.eqb selected "(other)" then lift (input_dir ui n) else mret selected);
      ok ← install_round dirName;
      if ok : bool then mret (Some dirName) else choose_dir ni n
  end.

Definition installOrUpdateBinary (ni : NonInteractive) (rounds : nat) :
    M (option (string * installResult)) :=
  match LookPath sys with
  | Some path =>
      needsUpdate ← binaryNeedsUpdate path;
      if needsUpdate : bool then
        _ ← copySelfTo (dir path); mret (Some (path, installResultUpdated))
      else mret (Some (path, installResultUpToDate))
  | None =>
      d ← choose_dir ni rounds;
      match d with
      | None => mret None
      | Some dirName => dest ← copySelfTo dirName; mret (Some (dest, installResultInstalled))
      end
  end.

(** ** The configuration *)

Definition config_dir (option_ : string) : string :=
  if String.eqb option_ "user" then path_join [home sys; ".kubecc"] else "/etc/kubecc".

Fixpoint any_exists (paths : list string) : M bool :=
  match paths with
  | [] => mret false
  | p :: paths => ok ← stat_ok p; if ok : bool then mret true else any_exists paths
  end.

Definition configExists (option_ : string) : M bool :=
  any_exists ((λ name, path_join [config_dir option_; name]) <$> config_filenames).

(** The answers of the interactive questions, or the environment's. *)
Definition installed_config (port sch mon : string) (tls : bool) : KubeccSpec := {|
  Global := mkGlobal "info" "";
  Agent := Agent zero_KubeccSpec;
  Consumer := mkConsumerSpec zero_Global ("127.0.0.1:" +:+ port);
  Consumerd := mkConsumerdSpec zero_Global (Some (mkUsageLimitsSpec (-1))) sch mon
    ("127.0.0.1:" +:+ port) (negb tls);
  Scheduler := Scheduler zero_KubeccSpec;
  Monitor := Monitor zero_KubeccSpec;
  Cache := Cache zero_KubeccSpec;
  Kcctl := mkKcctlSpec (mkGlobal "warn" "") mon sch (negb tls);
|}.

Definition installConfig (option_ : string) (ni : NonInteractive) : M unit :=
  a ← (if Enabled ni
       then mret (ConsumerdListenPort ni, SchedulerAddress ni, MonitorAddress ni, TLSEnabled ni)
       else lift (survey_config ui));
  let '(port, sch, mon, tls) := a in
  data ← lift (marshal sys (installed_config port sch mon tls));
  _ ← MkdirAll (config_dir option_);
  WriteFile (path_join [config_dir option_; "config.yaml"]) data.

Definition checkConfig (option_ : string) (ni : NonInteractive) : M unit :=
  there ← configExists option_;
  if there : bool then mret tt else installConfig option_ ni.

(** ** The service *)

Definition nl : ascii := "010"%char.
Definition newline : string := String nl "".

(** [strings.TrimSpace(fmt.Sprintf(serviceTmpl, binaryPath))] *)
Definition serviceTmpl (binaryPath : string) : string :=
  join newline ["[Unit]"; "Description=Kubecc Consumerd Service"; "After=network.target"; "";
    "[Install]"; "WantedBy=multi-user.target"; ""; "[Service]"; "Type=simple";
    "StandardOutput=journal"; "ExecStart=" +:+ binaryPath +:+ " consumerd"; "Restart=on-failure"; ""].
Definition serviceContents (binaryPath : string) : string := TrimSpace (serviceTmpl binaryPath).

Definition systemServiceFilepath : string := "/etc/systemd/system/consumerd.service".

Definition writeUserService (contents : string) : M unit :=
  d ← lift (Expand sys "~/.config/systemd/user");
  _ ← MkdirAll d;
  WriteFile (path_join [d; "consumerd.service"]) contents.
Definition writeSystemService (contents : string) : M unit := WriteFile systemServiceFilepath contents.

Definition write_service (md : mode) : string → M unit :=
  match md with SystemMode => writeSystemService | UserMode => writeUserService end.
Definition mode_name (md : mode) : string := match md with SystemMode => "system" | UserMode => "user" end.

Definition updateService (md : mode) (newContents : string) : M unit :=
  _ ← write_service md newContents;
  _ ← sd md DaemonReload;
  sd md Restart.

(** The unit that systemd has, without the comment line that "systemctl cat" puts first. *)
Definition catUnit (option_ : string) : error + string :=
  match catUnit_output sys option_ with
  | inl err => inl err
  | inr stdout =>
      let output := split stdout nl in
      if (length output <=? 2)%nat then inl (PlainError "unexpected output from systemctl")
      else inr (TrimSpace (join newline (drop 1 output)))
  end.

(** An error of [catUnit] is ignored. *)
Definition refresh_service (md : mode) (contents : string) : M unit :=
  match catUnit (mode_name md) with
  | inr existing => if String.eqb existing contents then mret tt else updateService md contents
  | inl _ => mret tt
  end.

Definition installConsumerd (binaryPath : string) : M mode :=
  let contents := serviceContents binaryPath in
  active ← sd_IsActive SystemMode;
  if active : bool then _ ← refresh_service SystemMode contents; mret SystemMode
  else if uid0 sys then _ ← write_service SystemMode contents; mret SystemMode
  else
    active ← sd_IsActive UserMode;
    if active : bool then _ ← refresh_service UserMode contents; mret UserMode
    else _ ← write_service UserMode contents; mret UserMode.

Definition startConsumerd (md : mode) : M unit :=
  _ ← sd md DaemonReload; _ ← sd md Start; sd md Enable.
Definition restartConsumerd (md : mode) : M unit := _ ← sd md DaemonReload; sd md Restart.

(** ** Toolchain links *)

(** One name: remove an old link (if it resolves), then link the name to the binary. *)
Definition make_link (binaryPath binDir name : string) : M unit :=
  let link := path_join [binDir; name] in
  there ← stat_ok link;
  _ ← (if there : bool then Remove link else mret tt);
  Symlink binaryPath link.

Fixpoint make_links (binaryPath binDir : string) (names : list string) : M unit :=
  match names with
  | [] => mret tt
  | n :: names => _ ← make_link binaryPath binDir n; make_links binaryPath binDir names
  end.

Definition link_names (items : list Toolchain) : list string :=
  tc ← filter (λ tc, Kind tc ≠ Sleep) items; CommonNames tc.

(** The loop of ten rounds looks at the same answer each time: with no toolchain it only
    sleeps. *)
Definition setupToolchains (binaryPath : string) : M unit :=
  binDir ← lift (Expand sys "~/.kubecc/bin");
  there ← stat_ok binDir;
  _ ← (if there : bool then RemoveAll binDir else mret tt);
  _ ← MkdirAll binDir;
  items ← lift (GetToolchains sys);
  make_links binaryPath binDir (link_names items).

(** ** The environment files *)

Definition quote : string := String "034" "".

(** [strings.Replace(s, old, new, 1)] *)
Fixpoint replace_first (s old new : string) : string :=
  match strip old s with
  | Some rest => new +:+ rest
  | None => match s with
            | EmptyString => ""
            | String c s => String c (replace_first s old new)
            end
  end.

(** [strings.ReplaceAll] and [strings.NewReplacer(...).Replace]: at each byte the first pair
    whose old string starts there; [skip] counts the bytes of a match that are left. *)
Fixpoint replacer_scan (pairs : list (string * string)) (skip : nat) (s : string) : string :=
  match s with
  | EmptyString => ""
  | String c t =>
      match skip with
      | S k => replacer_scan pairs k t
      | O => match List.find (λ p, has_prefix s (fst p)) pairs with
             | Some (old, new) => new +:+ replacer_scan pairs (String.length old - 1) t
             | None => String c (replacer_scan pairs O t)
             end
      end
  end.
Definition Replace (pairs : list (string * string)) (s : string) : string := replacer_scan pairs 0 s.

Definition indent (str : string) : string :=
  "  " +:+ Replace [(newline, newline +:+ "  ")] (TrimSpace str).

Definition alias_line (binDir name : string) : string :=
  "alias " +:+ name +:+ "='PATH=" +:+ quote +:+ binDir +:+ "${PATH:+:${PATH}}" +:+ quote +:+ " "
    +:+ name +:+ "'".
Definition unalias_line (alias : string) : string :=
  default "" (head (split (replace_first alias "alias" "unalias") "=")).

Definition makeAliases : M (list string) :=
  binDir ← lift (Expand sys "~/.kubecc/bin");
  entries ← ReadDir binDir;
  mret (alias_line binDir "make" ::
        (alias_line binDir <$> (fst <$> filter (λ e : string * bool, snd e = false) entries))).

Definition dotEnvTmpl : string := join newline [
  "# This file is auto-generated, do not edit!";
  "export KUBECC_HOME=" +:+ quote +:+ "{home}" +:+ quote;
  "export KUBECC_BINARY=" +:+ quote +:+ "{bin}" +:+ quote;
  "";
  "kubecc_enable() {";
  "  if [ " +:+ quote +:+ "$KUBECC_ENABLED" +:+ quote +:+ " = " +:+ quote +:+ "1" +:+ quote +:+ " ]; then";
  "    return";
  "  fi";
  "{aliases}";
  "  eval ${KUBECC_BINARY} enable > /dev/null";
  "  export KUBECC_ENABLED=" +:+ quote +:+ "1" +:+ quote;
  "}";
  "";
  "kubecc_disable() {";
  "  if [ " +:+ quote +:+ "$KUBECC_ENABLED" +:+ quote +:+ " = " +:+ quote +:+ "0" +:+ quote +:+ " ]; then";
  "    return";
  "  fi";
  "{unaliases}";
  "  eval ${KUBECC_BINARY} disable > /dev/null";
  "  export KUBECC_ENABLED=" +:+ quote +:+ "0" +:+ quote;
  "}";
  ""].
Definition dotEnv (binPath kubeccHome : string) (aliases : list string) : string :=
  Replace [("{bin}", binPath);
           ("{aliases}", indent (join newline aliases));
           ("{unaliases}", indent (join newline (unalias_line <$> aliases)));
           ("{home}", kubeccHome)] dotEnvTmpl.

Definition env_file (kubeccHome action : string) : string := join newline [
  "# Edit this file using 'kubecc enable' and 'kubecc disable'";
  "unset KUBECC_ENABLED";
  "source " +:+ kubeccHome +:+ "/.env";
  action; ""].
Definition envEnabled (kubeccHome : string) : string := env_file kubeccHome "kubecc_enable".
Definition envDisabled (kubeccHome : string) : string := env_file kubeccHome "kubecc_disable".

Definition source_line : string := "source " +:+ quote +:+ "$HOME/.kubecc/env" +:+ quote.
Definition doAppend (rc : string) : M unit :=
  expanded ← lift (Expand sys rc);
  AppendFile expanded (newline +:+ source_line +:+ newline).

Definition ErrShellUnsupported : error := PlainError "Sorry, your shell is not supported yet.".
Definition rcPath (shell : string) : error + string :=
  let b := base shell in
  if String.eqb b "bash" then inr "~/.bashrc"
  else if String.eqb b "zsh" then inr "~/.zshrc"
  else if String.eqb b "ash" then inr "~/.ashrc"
  else inl ErrShellUnsupported.
Definition appendToShellRC : M unit :=
  shell ← lift (Shell sys);
  rc ← lift (rcPath shell);
  doAppend rc.

(** The loop of [setupEnv], for at most [rounds] rounds; [false] when it has not ended. *)
Fixpoint check_sourced (ni : NonInteractive) (binPath : string) (rounds : nat) : M bool :=
  match rounds with
  | O => mret false
  | S n =>
      _ ← lift (Shell sys);
      m ← get;
      out ← lift (shell_echo sys m);
      if String.eqb (TrimSpace out) binPath then mret true
      else
        response ← (if Enabled ni
                    then mret (if ShellRCConfig ni then "Do this for me" else "Skip this step")
                    else lift (select_rc ui n));
        if String.eqb response "Skip this step" then mret true
        else if String.eqb response "Do this for me" then
          confirm ← (if Enabled ni then mret true else lift (confirm_rc ui n));
          if confirm : bool then _ ← try appendToShellRC; mret true
          else check_sourced ni binPath n
        else check_sourced ni binPath n
  end.

Definition setupEnv (ni : NonInteractive) (binPath : string) (rounds : nat) : M bool :=
  kubeccHome ← lift (Expand sys "~/.kubecc");
  envPath ← lift (Expand sys "~/.kubecc/env");
  dotEnvPath ← lift (Expand sys "~/.kubecc/.env");
  aliases ← makeAliases;
  _ ← WriteFile dotEnvPath (dotEnv binPath kubeccHome aliases);
  _ ← WriteFile envPath (envEnabled kubeccHome);
  check_sourced ni binPath rounds.

(** ** The commands *)

(** An error ends the process with status 1; [false] when a loop has not ended after
    [rounds] rounds. *)
Definition setup_Run (rounds : nat) : M bool :=
  let ni := checkNonInteractiveConfig in
  b ← installOrUpdateBinary ni rounds;
  match b with
  | None => mret false
  | Some (binPath, result) =>
      md ← installConsumerd binPath;
      _ ← match result with
          | installResultUpdated => restartConsumerd md
          | _ => mret tt
          end;
      _ ← checkConfig (mode_name md) ni;
      active ← try (sd_IsActive md);
      _ ← match active with
          | inr false => startConsumerd md
          | _ => mret tt
          end;
      if sudo sys then mret true
      else
        _ ← lift (dial sys);
        _ ← setupToolchains binPath;
        setupEnv ni binPath rounds
  end.

Definition writeEnvFileOrDie (contents : string) : M unit :=
  match LookupEnv sys "KUBECC_HOME" with
  | None => throw (PlainError "Kubecc is not configured. Try running 'kubecc setup' first.")
  | Some value => WriteFile (path_join [value; "env"]) contents
  end.
Definition EnableCmd : M unit :=
  kubeccHome ← lift (Expand sys "~/.kubecc"); writeEnvFileOrDie (envEnabled kubeccHome).
Definition DisableCmd : M unit :=
  kubeccHome ← lift (Expand sys "~/.kubecc"); writeEnvFileOrDie (envDisabled kubeccHome).

(** ** Teardown *)

(** Errors are printed. *)
Definition ignore {A} (c : M A) : M unit := _ ← try c; mret tt.
Definition succeeds {A} (c : M A) : M bool :=
  r ← try c; mret match r with inr _ => true | inl _ => false end.
Definition active (md : mode) : M bool :=
  r ← try (sd_IsActive md); mret match r with inr true => true | _ => false end.

Definition userServiceFilepath : error + string := Expand sys "~/.config/systemd/user/consumerd.service".

(** [false] when the removal failed, which ends the function. *)
Definition remove_if_there (path : string) : M bool :=
  there ← stat_ok path; if there : bool then succeeds (Remove path) else mret true.

Definition remove_consumerd (md : mode) (unit_file : error + string) : M unit :=
  a ← active md;
  _ ← (if a : bool then _ ← ignore (sd md Stop); ignore (sd md Disable) else mret tt);
  ok ← match unit_file with inr path => remove_if_there path | inl _ => mret true end;
  if ok : bool then ignore (sd md DaemonReload) else mret tt.
Definition removeSystemConsumerd : M unit := remove_consumerd SystemMode (inr systemServiceFilepath).
Definition removeUserConsumerd : M unit := remove_consumerd UserMode userServiceFilepath.

Fixpoint delete_files (paths : list string) : M unit :=
  match paths with
  | [] => mret tt
  | p :: paths => ok ← remove_if_there p; if ok : bool then delete_files paths else mret tt
  end.
Definition config_files (d : string) : list string := (λ f, path_join [d; f]) <$> config_filenames.
Definition deleteConfig : M unit :=
  match Expand sys "~/.kubecc" with
  | inl _ => mret tt
  | inr path => delete_files (config_files path)
  end.
Definition deleteSystemConfig : M unit := delete_files (config_files "/etc/kubecc").
Definition deleteEnv : M unit :=
  match Expand sys "~/.kubecc" with
  | inl _ => mret tt
  | inr path =>
      ok ← remove_if_there (path_join [path; "env"]);
      if ok : bool then
        there ← stat_ok (path_join [path; "bin"]);
        if there : bool then ignore (RemoveAll (path_join [path; "bin"])) else mret tt
      else mret tt
  end.
Definition deleteBinary : M unit :=
  match LookPath sys with
  | Some binFromPath => ignore (Remove binFromPath)
  | None => mret tt
  end.

Inductive td_option : Set :=
  | ConsumerdServiceSystem | ConsumerdServiceUser | LocalConfigurationFiles
  | SystemConfigurationFiles | LocalEnvironmentFiles | KubeccBinary.
#[export] Instance td_option_eq_dec : EqDecision td_option.
Proof. solve_decision. Defined.

Definition td_action (o : td_option) : M unit :=
  match o with
  | ConsumerdServiceSystem => removeSystemConsumerd
  | ConsumerdServiceUser => removeUserConsumerd
  | LocalConfigurationFiles => deleteConfig
  | SystemConfigurationFiles => deleteSystemConfig
  | LocalEnvironmentFiles => deleteEnv
  | KubeccBinary => deleteBinary
  end.

Definition stat_any (r : error + string) : M bool :=
  match r with inr p => stat_ok p | inl _ => mret false end.
(** Whether the question lists the option. *)
Definition td_offered (o : td_option) : M bool :=
  match o with
  | ConsumerdServiceSystem =>
      a ← active SystemMode; if a : bool then mret true else stat_ok systemServiceFilepath
  | ConsumerdServiceUser =>
      a ← active UserMode; if a : bool then mret true else stat_any userServiceFilepath
  | LocalConfigurationFiles =>
      match Expand sys "~/.kubecc" with
      | inr kubeccHome => any_exists (config_files kubeccHome) | inl _ => mret false end
  | SystemConfigurationFiles =>
      match Expand sys "~/.kubecc" with
      | inr _ => any_exists (config_files "/etc/kubecc") | inl _ => mret false end
  | LocalEnvironmentFiles =>
      match Expand sys "~/.kubecc" with
      | inr kubeccHome => any_exists [path_join [kubeccHome; "bin"]; path_join [kubeccHome; "env"]]
      | inl _ => mret false end
  | KubeccBinary => match LookPath sys with Some b => stat_ok b | None => mret false end
  end.

Fixpoint td_options (os : list td_option) : M (list td_option) :=
  match os with
  | [] => mret []
  | o :: os => here ← td_offered o; rest ← td_options os; mret (if here : bool then o :: rest else rest)
  end.
Definition all_options : list td_option :=
  [ConsumerdServiceSystem; ConsumerdServiceUser; LocalConfigurationFiles;
   SystemConfigurationFiles; LocalEnvironmentFiles; KubeccBinary].

(** Calls the chosen functions in order; a name that was not offered is a nil function. *)
Fixpoint td_run (offered chosen : list td_option) : M unit :=
  match chosen with
  | [] => mret tt
  | o :: chosen =>
      if decide (o ∈ offered) then _ ← td_action o; td_run offered chosen
      else panics "invalid memory address or nil pointer dereference"
  end.

Definition TeardownCmd (choose : list td_option → error + list td_option) : M unit :=
  options ← td_options all_options;
  match options with
  | [] => mret tt
  | _ =>
      match choose options with
      | inl _ => mret tt
      | inr selectedOptions =>
          _ ← td_run options selectedOptions;
          match Expand sys "~/.kubecc" with
          | inl _ => mret tt
          | inr kubeccHome =>
              entries ← try (ReadDir kubeccHome);
              match entries with
              | inr [] => ignore (Remove kubeccHome)
              | _ => mret tt
              end
          end
      end
  end.
End setup.
