(* ===== verification/SetupProps.v ===== *)
(** * What [kubecc setup] leaves on the machine

    The configuration that setup writes is the one that the daemon and the compiler
    wrappers then load ([Config.v]); the links it makes are the names of the toolchains;
    the service it writes is the one it later recognises as its own. *)
From S2P Require Import Prelude GoStrings Types Config Finders Setup.

(** ** The file system *)

(** The operating system refuses nothing. *)
Definition Permissive (sys : Sys) : Prop :=
  (∀ op, refuse sys op = None) ∧ (∀ p, stat_err sys p = None).

(** The machine as the loader of [Config.v] sees it. *)
Definition host_of (sys : Sys) (m : Machine) : ConfigHost := {|
  ReadFile p := match ReadFile_ sys p m with Ret (_, r) => r | Panic _ => inl not_exist end;
  exists_ p := match stat_ok sys p m with Ret (_, inr b) => b | _ => false end;
  HomeDir := home sys |}.

Lemma bindM_Ret {A B} (c : M A) (f : A → M B) m m' a :
  c m = Ret (m', inr a) → (c ≫= f) m = f a m'.
Proof. intros E. unfold mbind, M_bind. by rewrite E. Qed.
Lemma bindM_err {A B} (c : M A) (f : A → M B) m m' err :
  c m = Ret (m', inl err) → (c ≫= f) m = Ret (m', inl err).
Proof. intros E. unfold mbind, M_bind. by rewrite E. Qed.

(** Runs the first command of a sequence, whose result is [E]. *)
Ltac mrun E := rewrite (bindM_Ret _ _ _ _ _ E).

Ltac mget := rewrite (bindM_Ret get _ _ _ _ eq_refl).

Section fs.
Context (sys : Sys) (Hp : Permissive sys).

Lemma permitted_ok op m : permitted sys op m = Ret (m, inr tt).
Proof. unfold permitted. by rewrite (proj1 Hp op). Qed.

Lemma resolve_other f p : (∀ t, f !! p ≠ Some (Link t)) → resolve f p = p.
Proof. unfold resolve. destruct (f !! p) as [[]|]; naive_solver. Qed.

Lemma stat_ok_eq p m :
  stat_ok sys p m = Ret (m, inr (bool_decide (is_Some (fs m !! resolve (fs m) p)))).
Proof.
  unfold stat_ok. erewrite bindM_Ret by reflexivity. rewrite (proj2 Hp p). destruct (fs m !! _) eqn:E.
  - rewrite bool_decide_eq_true_2 by by eexists. done.
  - rewrite bool_decide_eq_false_2; [done|]. by intros [? ?].
Qed.

Lemma stat_none p m : fs m !! p = None → stat_ok sys p m = Ret (m, inr false).
Proof.
  intros E. rewrite stat_ok_eq, resolve_other by by rewrite E.
  rewrite E, bool_decide_eq_false_2; [done|]. by intros [? ?].
Qed.

Lemma stat_there p n m :
  fs m !! p = Some n → (∀ t, n ≠ Link t) → stat_ok sys p m = Ret (m, inr true).
Proof.
  intros E Hn. rewrite stat_ok_eq, resolve_other by (rewrite E; naive_solver).
  by rewrite E, bool_decide_eq_true_2 by by eexists.
Qed.

Lemma ReadFile_eq p d m : fs m !! p = Some (File d) → ReadFile_ sys p m = Ret (m, inr d).
Proof.
  intros E. unfold ReadFile_. mrun (permitted_ok (OpOpen p) m). mget.
  rewrite resolve_other by (rewrite E; naive_solver). by rewrite E.
Qed.

Lemma WriteFile_eq p d m :
  fs m !! p = None → fs m !! dir p = Some Dir →
  WriteFile sys p d m = Ret (mkMachine (<[p := File d]> (fs m)) (sd_calls m), inr tt).
Proof.
  intros E Hd. unfold WriteFile. mrun (permitted_ok (OpWrite p) m). mget. cbn zeta.
  rewrite resolve_other by (rewrite E; naive_solver). rewrite E. unfold has_parent.
  by rewrite bool_decide_eq_true_2 by done.
Qed.

(** Creating directories where there is nothing or a directory. *)
Lemma mkdirs_spec ps m :
  (∀ p, p ∈ ps → fs m !! p = None ∨ fs m !! p = Some Dir) →
  ∃ f, mkdirs ps m = Ret (mkMachine f (sd_calls m), inr tt)
    ∧ (∀ p, p ∈ ps → f !! p = Some Dir) ∧ (∀ p, p ∉ ps → f !! p = fs m !! p).
Proof.
  revert m. induction ps as [|q ps IH]; intros m HF.
  { exists (fs m). split; [by destruct m|]. split; [|done]. by intros p ?%not_elem_of_nil. }
  assert (mkdir q m = Ret (mkMachine (<[q := Dir]> (fs m)) (sd_calls m), inr tt)) as E.
  { unfold mkdir. mget. destruct (HF q) as [E|E]; [by left| |];
      rewrite resolve_other by (rewrite E; naive_solver); rewrite E; [done|].
    rewrite insert_id by done. by destruct m. }
  destruct (IH (mkMachine (<[q := Dir]> (fs m)) (sd_calls m))) as (f & Ef & H1 & H2).
  { intros p Hps. cbn. destruct (decide (p = q)) as [->|Hne].
    - right. by simplify_map_eq.
    - rewrite lookup_insert_ne by done. apply HF. by right. }
  exists f. cbn [mkdirs]. mrun E. split; [exact Ef|]. split.
  - intros p [->|Hps]%elem_of_cons; [|by apply H1].
    destruct (decide (q ∈ ps)); [by apply H1|]. rewrite H2 by done. by simplify_map_eq.
  - intros p [Hne Hps]%not_elem_of_cons. rewrite H2 by done. by simplify_map_eq.
Qed.

Lemma MkdirAll_spec d m :
  (∀ p, p ∈ ancestors d → fs m !! p = None ∨ fs m !! p = Some Dir) →
  ∃ f, MkdirAll sys d m = Ret (mkMachine f (sd_calls m), inr tt)
    ∧ (∀ p, p ∈ ancestors d → f !! p = Some Dir) ∧ (∀ p, p ∉ ancestors d → f !! p = fs m !! p).
Proof.
  intros HF. destruct (mkdirs_spec _ _ HF) as (f & E & H). exists f. split; [|done].
  unfold MkdirAll. by mrun (permitted_ok (OpMkdirAll d) m).
Qed.
End fs.

(** ** Paths *)

Lemma abs_path_inj es ks :
  es ≠ [] → ks ≠ [] → Forall elem_ok es → Forall elem_ok ks →
  abs_path es = abs_path ks → es = ks.
Proof.
  intros He Hk HFe HFk E. unfold abs_path in E. apply (f_equal chars) in E.
  rewrite !chars_app in E. apply app_inv_head, chars_inj in E.
  assert (∀ l, Forall elem_ok l → Forall (λ e, slash ∉ chars e) l) as Hs.
  { intros l HF. eapply Forall_impl; [exact HF|]. by intros e (_ & _ & _ & ?). }
  rewrite <- (split_join slash es), <- (split_join slash ks) by auto.
  change (String slash "") with "/". by rewrite E.
Qed.

Lemma split_abs es :
  es ≠ [] → Forall elem_ok es → split (abs_path es) slash = "" :: es.
Proof.
  intros He HF. unfold split, abs_path. rewrite chars_app.
  change (split_on slash (chars "/" ++ ?k)) with ([] :: split_on slash k). rewrite fmap_cons.
  f_equal. apply (split_join slash es); [done|].
  eapply Forall_impl; [exact HF|]. by intros e (_ & _ & _ & ?).
Qed.

Lemma prefixes_cons_fmap b es :
  prefixes ("" :: b) es = (λ ks, "" :: ks) <$> prefixes b es.
Proof. revert b. induction es as [|e es IH]; intros b; [done|]. cbn. by rewrite <- IH. Qed.

Lemma prefixes_app b es ks : ks ∈ prefixes b es → ∃ pre post, pre ≠ [] ∧ ks = b ++ pre ∧ es = pre ++ post.
Proof.
  revert b. induction es as [|e es IH]; intros b; cbn; [by intros ?%not_elem_of_nil|].
  intros [->|H]%elem_of_cons; [by exists [e], es|].
  apply IH in H as (pre & post & Hne & -> & ->).
  exists (e :: pre), post. by rewrite <- (assoc_L (++)).
Qed.

Lemma prefixes_last b es : es ≠ [] → b ++ es ∈ prefixes b es.
Proof.
  revert b. induction es as [|e es IH]; intros b Hne; [done|]. cbn.
  destruct es as [|e' es]; [by left|]. right.
  replace (b ++ e :: e' :: es) with ((b ++ [e]) ++ e' :: es) by by rewrite <- (assoc_L (++)).
  by apply IH.
Qed.

Lemma join_abs_path es : es ≠ [] → join "/" ("" :: es) = abs_path es.
Proof. by destruct es. Qed.

Lemma ancestors_abs es :
  es ≠ [] → Forall elem_ok es →
  (∀ p, p ∈ ancestors (abs_path es) → ∃ ks post, ks ≠ [] ∧ p = abs_path ks ∧ es = ks ++ post)
  ∧ abs_path es ∈ ancestors (abs_path es).
Proof.
  intros He HF. unfold ancestors. rewrite split_abs by done. cbn [prefixes app].
  rewrite prefixes_cons_fmap. split.
  - intros p [Hne Hp]%list_elem_of_filter. apply list_elem_of_fmap in Hp as (ks & -> & Hks).
    apply elem_of_cons in Hks as [->|Hks]; [done|].
    apply list_elem_of_fmap in Hks as (k & -> & Hk).
    apply prefixes_app in Hk as (pre & post & Hpre & -> & ->). exists pre, post.
    rewrite join_abs_path by done. done.
  - apply list_elem_of_filter. split; [done|]. apply list_elem_of_fmap. exists ("" :: es).
    rewrite join_abs_path by done. split; [done|]. right. apply list_elem_of_fmap. exists es.
    split; [done|]. by apply (prefixes_last []).
Qed.

(** The ancestors of a directory end before a file in it. *)
Lemma not_ancestor es n :
  es ≠ [] → Forall elem_ok es → elem_ok n → abs_path (es ++ [n]) ∉ ancestors (abs_path es).
Proof.
  intros He HF Hn Hin. apply ancestors_abs in Hin as (ks & post & Hk & E & ->); [|done..].
  apply Forall_app in HF as [HFk HFp]. apply abs_path_inj in E; [|by destruct ks|done| |done].
  - rewrite <- (assoc_L (++)) in E. apply (f_equal length) in E.
    rewrite !length_app in E. cbn in E. lia.
  - apply Forall_app. split; [by apply Forall_app|]. by constructor.
Qed.

Lemma ancestor_outside es p :
  es ≠ [] → Forall elem_ok es → p ∈ ancestors (abs_path es) → inside (abs_path es) p = false.
Proof.
  intros He HF Hin. apply ancestors_abs in Hin as (ks & post & Hk & -> & ->); [|done..].
  apply not_true_iff_false. intros (t & E)%has_prefix_spec. apply (f_equal (length ∘ chars)) in E.
  cbn [compose] in E. rewrite !chars_app, !length_app in E. unfold abs_path in E.
  destruct post as [|x post]; [rewrite app_nil_r in E; cbn in E; lia|].
  rewrite join_app, !chars_app, !length_app in E by done. cbn in E. lia.
Qed.

Lemma has_suffix_app s t p :
  (String.length p ≤ String.length t)%nat → has_suffix (s +:+ t) p = has_suffix t p.
Proof.
  intros Hle. unfold has_suffix. rewrite <- !length_chars, chars_app, length_app.
  rewrite <- !length_chars in Hle.
  replace (length (chars s) + length (chars t) - length (chars p))%nat
    with (length (chars s) + (length (chars t) - length (chars p)))%nat by lia.
  rewrite <- drop_drop, drop_app_length. f_equal. rewrite !bool_decide_eq_true_2; [done|lia..].
Qed.

(** ** The configuration *)

Definition home_ok (sys : Sys) (hs : list string) : Prop :=
  home sys = abs_path hs ∧ hs ≠ [] ∧ Forall elem_ok hs.

Definition cfg_elems (hs : list string) (md : mode) : list string :=
  match md with SystemMode => ["etc"; "kubecc"] | UserMode => hs ++ [".kubecc"] end.
Definition cfg_path (hs : list string) (md : mode) (name : string) : string :=
  abs_path (cfg_elems hs md ++ [name]).

Section config.
Context (sys : Sys) (ui : Prompts) (hs : list string).
Context (Hp : Permissive sys) (Hh : home_ok sys hs).

Lemma cfg_elems_ok md : cfg_elems hs md ≠ [] ∧ Forall elem_ok (cfg_elems hs md).
Proof.
  destruct Hh as (_ & Hne & HF). destruct md; cbn.
  - split; [done|]. by apply (bool_decide_unpack _).
  - split; [by destruct hs|]. apply Forall_app. split; [done|]. by apply (bool_decide_unpack _).
Qed.

Lemma config_dir_abs md : config_dir sys (mode_name md) = abs_path (cfg_elems hs md).
Proof.
  destruct Hh as (E & Hne & HF). destruct md; [done|]. unfold config_dir. cbn. rewrite E.
  apply (path_join_abs hs [".kubecc"]); [done..|]. by apply (bool_decide_unpack _).
Qed.

Lemma filename_ok name : name ∈ config_filenames → elem_ok name.
Proof. revert name. apply (Forall_forall elem_ok). by apply (bool_decide_unpack _). Qed.

Lemma cfg_path_join md name :
  name ∈ config_filenames → path_join [config_dir sys (mode_name md); name] = cfg_path hs md name.
Proof.
  intros Hn. rewrite config_dir_abs. destruct (cfg_elems_ok md) as [Hne HF].
  apply (path_join_abs _ [name]); [done..|]. constructor; [by apply filename_ok|done].
Qed.

Lemma candidates_eq m :
  candidates (host_of sys m) =
    (cfg_path hs SystemMode <$> config_filenames) ++ (cfg_path hs UserMode <$> config_filenames).
Proof.
  assert (∀ md, (f ← config_filenames; [path_join [config_dir sys (mode_name md); f]])
            = cfg_path hs md <$> config_filenames) as E.
  { intros md. cbn [config_filenames mbind list_bind app fmap list_fmap].
    rewrite !cfg_path_join by set_solver. done. }
  rewrite <- (E SystemMode), <- (E UserMode). done.
Qed.

(** A file of a configuration directory is not a configuration directory. *)
Lemma cfg_path_not_dir md md' name :
  name ∈ config_filenames → cfg_path hs md name ≠ abs_path (cfg_elems hs md').
Proof.
  intros Hn E. destruct (cfg_elems_ok md) as [H1 F1], (cfg_elems_ok md') as [H2 F2].
  apply abs_path_inj in E; [|by destruct (cfg_elems hs md)|done| |done].
  - apply (f_equal last) in E. rewrite last_snoc in E.
    assert (last (cfg_elems hs md') = Some "kubecc" ∨ last (cfg_elems hs md') = Some ".kubecc") as HL.
    { destruct md'; [by left|right]. apply last_snoc. }
    unfold config_filenames in Hn. rewrite !elem_of_cons, elem_of_nil in Hn.
    destruct HL as [HL|HL]; rewrite HL in E; destruct Hn as [->|[->|[->|[]]]]; discriminate.
  - apply Forall_app. split; [done|]. constructor; [by apply filename_ok|done].
Qed.

Lemma any_exists_none paths m :
  (∀ p, p ∈ paths → fs m !! p = None) → any_exists sys paths m = Ret (m, inr false).
Proof.
  induction paths as [|p paths IH]; intros HF; [done|]. cbn [any_exists].
  mrun (stat_none sys Hp p m (HF p ltac:(by left))). apply IH. intros q Hq. apply HF. by right.
Qed.

Lemma configExists_none md m :
  (∀ name, name ∈ config_filenames → fs m !! cfg_path hs md name = None) →
  configExists sys (mode_name md) m = Ret (m, inr false).
Proof.
  intros HF. apply any_exists_none. intros p (f & -> & Hf)%list_elem_of_fmap.
  rewrite cfg_path_join by done. by apply HF.
Qed.
End config.

Lemma Load_first `{MergoLaws} `{Decoders} sys hs md m data cfg0 cfg :
  Permissive sys → home_ok sys hs →
  fs m !! cfg_path hs md "config.yaml" = Some (File data) →
  (∀ p, p ∈ candidates (host_of sys m) → p ≠ cfg_path hs md "config.yaml" → fs m !! p = None) →
  yaml_Unmarshal data = (cfg0, None) → ApplyGlobals cfg0 = Ret cfg →
  Load (host_of sys m) = Ret (Loaded cfg).
Proof.
  intros Hp Hh Hf Hnone Hy Ha. set (h := host_of sys m) in *.
  set (abs := cfg_path hs md "config.yaml") in *.
  assert (∃ l k, candidates h = l ++ abs :: k ∧ abs ∉ l) as (l & k & El & Hl).
  { unfold h. rewrite (candidates_eq sys hs Hp Hh). destruct md.
    - exists [], (drop 1 (cfg_path hs SystemMode <$> config_filenames) ++ (cfg_path hs UserMode <$> config_filenames)).
      split; [done|]. apply not_elem_of_nil.
    - destruct (decide (abs ∈ cfg_path hs SystemMode <$> config_filenames)) as [Hin|Hin].
      + apply list_elem_of_split_l in Hin as (l & k & E & Hl). rewrite E. exists l, (k ++ (cfg_path hs UserMode <$> config_filenames)).
        split; [by rewrite <- (assoc_L (++))|done].
      + by eexists _, _. }
  assert (List.find (exists_ h) (candidates h) = Some abs) as E.
  { rewrite El. assert (∀ p, p ∈ l → exists_ h p = false) as Hfalse.
    { intros p Hin. unfold h, host_of. cbn. rewrite (stat_none sys Hp p m); [done|].
      apply Hnone; [rewrite El; set_solver|]. by intros ->. }
    clear El Hl. induction l as [|p l IH]; cbn [List.find app].
    - change (exists_ h abs) with
        (match stat_ok sys abs m with Ret (_, inr b) => b | _ => false end). by rewrite (stat_there sys Hp abs (File data) m Hf).
    - rewrite Hfalse by by left. apply IH. intros q ?. apply Hfalse. by right. }
  unfold Load. rewrite E. unfold LoadFile.
  assert (ReadFile h abs = inr data) as ->.
  { unfold h, host_of. cbn. by rewrite (ReadFile_eq sys Hp abs data m Hf). }
  assert (has_suffix abs ".json" = false) as ->.
  { unfold abs, cfg_path, abs_path. rewrite join_app by (done || by apply (cfg_elems_ok sys hs Hh)).
    rewrite <- !append_assoc. rewrite has_suffix_app; [done|cbn; lia]. }
  rewrite Hy. cbn [fst]. by rewrite Ha.
Qed.

(** What [installConfig] writes when nothing is in the way. *)
Lemma installConfig_spec sys ui hs md ni m data :
  Permissive sys → home_ok sys hs → Enabled ni = true →
  marshal sys (installed_config (ConsumerdListenPort ni) (SchedulerAddress ni)
                 (MonitorAddress ni) (TLSEnabled ni)) = inr data →
  fs m !! cfg_path hs md "config.yaml" = None →
  (∀ p, p ∈ ancestors (config_dir sys (mode_name md)) → fs m !! p = None ∨ fs m !! p = Some Dir) →
  ∃ f, installConfig sys ui (mode_name md) ni m =
         Ret (mkMachine (<[cfg_path hs md "config.yaml" := File data]> f) (sd_calls m), inr tt)
    ∧ ∀ p, p ∉ ancestors (config_dir sys (mode_name md)) → f !! p = fs m !! p.
Proof.
  intros Hp Hh He Hm Hnone Hanc. destruct (MkdirAll_spec sys Hp _ _ Hanc) as (f & E & H1 & H2).
  destruct (cfg_elems_ok sys hs Hh md) as [Hne HF].
  assert (elem_ok "config.yaml") as Hok by by apply (bool_decide_unpack _).
  exists f. split; [|done]. unfold installConfig. rewrite He.
  erewrite bindM_Ret by reflexivity. cbv beta iota. rewrite Hm.
  erewrite bindM_Ret by reflexivity. mrun E. rewrite (cfg_path_join sys hs Hh md "config.yaml") by by left.
  apply (WriteFile_eq sys Hp _ _ (mkMachine f (sd_calls m))).
  - cbn. rewrite H2; [done|]. rewrite (config_dir_abs sys hs Hh). by apply not_ancestor.
  - cbn. unfold cfg_path. rewrite dir_abs by (done || apply Hok).
    apply H1. rewrite (config_dir_abs sys hs Hh). by apply ancestors_abs.
Qed.

(** C19: The configuration that a non-interactive setup writes, where there was none, is the
    one that the daemon and the compiler wrappers load, in system and in user mode: the
    wrappers dial the address on which the daemon listens, and the daemon dials the given
    scheduler and monitor.  A second setup leaves the file as it is. *)
Theorem installed_config_loads `{MergoLaws} `{Decoders} (sys : Sys) (ui : Prompts)
    (hs : list string) (md : mode) (ni : NonInteractive) (m : Machine) (data : string) :
  Permissive sys → home_ok sys hs → Enabled ni = true →
  marshal sys (installed_config (ConsumerdListenPort ni) (SchedulerAddress ni)
                 (MonitorAddress ni) (TLSEnabled ni)) = inr data →
  yaml_Unmarshal data = (installed_config (ConsumerdListenPort ni) (SchedulerAddress ni)
                           (MonitorAddress ni) (TLSEnabled ni), None) →
  (∀ p, p ∈ candidates (host_of sys m) → fs m !! p = None) →
  (∀ p, p ∈ ancestors (config_dir sys (mode_name md)) →
     fs m !! p = Some Dir ∨ p = config_dir sys (mode_name md) ∧ fs m !! p = None) →
  ∃ m' cfg, checkConfig sys ui (mode_name md) ni m = Ret (m', inr tt)
    ∧ Load (host_of sys m') = Ret (Loaded cfg)
    ∧ ConsumerdAddress (Consumer cfg) = Consumerd_ListenAddress (Consumerd cfg)
    ∧ Consumerd_ListenAddress (Consumerd cfg) = "127.0.0.1:" +:+ ConsumerdListenPort ni
    ∧ Consumerd_SchedulerAddress (Consumerd cfg) = SchedulerAddress ni
    ∧ Consumerd_MonitorAddress (Consumerd cfg) = MonitorAddress ni
    ∧ checkConfig sys ui (mode_name md) ni m' = Ret (m', inr tt).
Proof.
  intros Hp Hh He Hm Hy Hnone Hanc.
  assert (∀ md' name, name ∈ config_filenames → cfg_path hs md' name ∈ candidates (host_of sys m)) as Hcand.
  { intros md' name Hn. rewrite (candidates_eq sys hs Hp Hh). destruct md'; set_solver. }
  destruct (installConfig_spec sys ui hs md ni m data) as (f & E & Hf); [done..| |
    intros p Hin; destruct (Hanc p Hin); naive_solver |].
  { apply Hnone, Hcand. by left. }
  set (m' := mkMachine _ _) in E.
  assert (checkConfig sys ui (mode_name md) ni m = Ret (m', inr tt)) as E1.
  { unfold checkConfig. rewrite (bindM_Ret _ _ m m false); [exact E|].
    apply (configExists_none sys hs Hp Hh). auto. }
  assert (fs m' !! cfg_path hs md "config.yaml" = Some (File data)) as Ef.
  { cbn. by rewrite lookup_insert_eq. }
  eexists m', _. split; [exact E1|]. split.
  { eapply (Load_first sys hs md m' data); [done..| |exact Hy|].
    - intros p Hin Hne. cbn. rewrite lookup_insert_ne by done.
      change (candidates _) with (candidates (host_of sys m)) in Hin. rewrite Hf; [by apply Hnone|].
      intros Ha. destruct (Hanc p Ha) as [Hd|[-> _]]; [by rewrite Hnone in Hd|].
      rewrite (candidates_eq sys hs Hp Hh), (config_dir_abs sys hs Hh) in Hin.
      apply elem_of_app in Hin as [Hin|Hin]; apply list_elem_of_fmap in Hin as (n & Hn & Hin);
        by eapply (cfg_path_not_dir sys hs Hh).
    - unfold ApplyGlobals. rewrite !Merge_spec. reflexivity. }
  do 4 (split; [done|]). unfold checkConfig. rewrite (bindM_Ret _ _ m' m' true); [reflexivity|].
  unfold configExists. cbn [config_filenames fmap list_fmap any_exists].
  rewrite (cfg_path_join sys hs Hh md "config.yaml") by by left.
  by erewrite bindM_Ret by by apply (stat_there sys Hp _ _ m' Ef).
Qed.

(** ** The links *)

Lemma link_name_ok items name : name ∈ link_names items → elem_ok name.
Proof.
  unfold link_names. intros (tc & Hn & _)%list_elem_of_bind. revert name Hn.
  apply (Forall_forall elem_ok). unfold CommonNames.
  destruct (Kind tc), (Lang tc); by apply (bool_decide_unpack _).
Qed.

Section links.
Context (sys : Sys) (Hp : Permissive sys).
Context (bs : list string) (Hbs : bs ≠ []) (Hok : Forall elem_ok bs).
Context (binaryPath binary : string).
Abbreviation binDir := (abs_path bs).
Abbreviation link name := (abs_path (bs ++ [name])).

Lemma link_eq name : elem_ok name → path_join [binDir; name] = link name.
Proof. intros Hn. by apply (path_join_abs bs [name]); [..|constructor]. Qed.

Lemma link_inside name : inside binDir (link name) = true.
Proof.
  apply has_prefix_spec. exists name. unfold abs_path. rewrite join_app by done.
  by rewrite !append_assoc.
Qed.

(** One link replaces what was there, if that resolves. *)
Lemma make_link_spec name m :
  elem_ok name → inside binDir binaryPath = false → fs m !! binDir = Some Dir →
  fs m !! binaryPath = Some (File binary) →
  fs m !! link name = None ∨ fs m !! link name = Some (Link binaryPath) →
  make_link sys binaryPath binDir name m =
    Ret (mkMachine (<[link name := Link binaryPath]> (fs m)) (sd_calls m), inr tt).
Proof.
  intros Hn Hin Hd Hb Hl. unfold make_link. rewrite link_eq by done. cbn zeta.
  assert (link name ≠ binDir) as Hne.
  { intros E. apply abs_path_inj in E; [|by destruct bs|done| |done].
    - apply (f_equal length) in E. rewrite length_app in E. cbn in E. lia.
    - apply Forall_app. split; [done|by constructor]. }
  assert (∀ f, f !! link name = None → f !! binDir = Some Dir →
    Symlink sys binaryPath (link name) (mkMachine f (sd_calls m)) =
      Ret (mkMachine (<[link name := Link binaryPath]> f) (sd_calls m), inr tt)) as HS.
  { intros f Ef Ed. unfold Symlink. mrun (permitted_ok sys Hp (OpSymlink (link name)) (mkMachine f (sd_calls m))).
    mget. cbn. rewrite Ef. unfold has_parent. rewrite dir_abs by (done || apply Hn).
    by rewrite bool_decide_eq_true_2. }
  destruct Hl as [El|El].
  - mrun (stat_none sys Hp _ m El). erewrite bindM_Ret by reflexivity.
    destruct m as [f sd]. by apply HS.
  - assert (stat_ok sys (link name) m = Ret (m, inr true)) as Es.
    { rewrite (stat_ok_eq sys Hp). unfold resolve. rewrite El, Hb. by rewrite bool_decide_eq_true_2. }
    assert (Remove sys (link name) m = Ret (mkMachine (delete (link name) (fs m)) (sd_calls m), inr tt)) as Er.
    { unfold Remove. mrun (permitted_ok sys Hp (OpRemove (link name)) m). mget. by rewrite El. }
    mrun Es. mrun Er. rewrite HS; [by rewrite insert_delete_eq|by rewrite lookup_delete_eq|].
    by rewrite lookup_delete_ne.
Qed.

Lemma make_links_spec names m :
  Forall elem_ok names → inside binDir binaryPath = false → fs m !! binDir = Some Dir →
  fs m !! binaryPath = Some (File binary) →
  (∀ p n, inside binDir p = true → fs m !! p = Some n → n = Link binaryPath) →
  ∃ f, make_links sys binaryPath binDir names m = Ret (mkMachine f (sd_calls m), inr tt)
    ∧ (∀ name, name ∈ names → f !! link name = Some (Link binaryPath))
    ∧ (∀ p, (∀ name, name ∈ names → p ≠ link name) → f !! p = fs m !! p).
Proof.
  revert m. induction names as [|n names IH]; intros m HF Hin Hd Hb Hlinks.
  { exists (fs m). split; [by destruct m|]. split; [|done]. by intros ? ?%not_elem_of_nil. }
  apply Forall_cons in HF as [Hn HF].
  assert (∀ p, inside binDir p = false → p ≠ link n) as Hout.
  { intros p Hpi ->. by rewrite link_inside in Hpi. }
  assert (inside binDir binDir = false) as Hself.
  { apply not_true_iff_false. intros (t & E)%has_prefix_spec. apply (f_equal String.length) in E.
    rewrite <- !length_chars, !chars_app, !length_app in E. cbn in E. lia. }
  pose proof (make_link_spec n m Hn Hin Hd Hb) as E.
  destruct (IH (mkMachine (<[link n := Link binaryPath]> (fs m)) (sd_calls m))) as (f & Ef & H1 & H2);
    cbn [fs sd_calls] in *; [done..| | | |].
  { by rewrite lookup_insert_ne by (symmetry; auto). }
  { by rewrite lookup_insert_ne by (symmetry; auto). }
  { intros p x Hpi. destruct (decide (p = link n)) as [->|Hne].
    - rewrite lookup_insert_eq. by intros [= <-].
    - rewrite lookup_insert_ne by done. by apply Hlinks. }
  exists f. split; [|split].
  - cbn [make_links]. erewrite bindM_Ret; [exact Ef|]. apply E.
    destruct (fs m !! link n) as [x|] eqn:Ex; [right|by left].
    f_equal. eapply Hlinks; [apply link_inside|done].
  - intros name [->|Hnm]%elem_of_cons; [|by apply H1].
    destruct (decide (n ∈ names)); [by apply H1|]. rewrite H2; [by rewrite lookup_insert_eq|].
    intros name' Hn' E'. apply abs_path_inj in E'; [| by destruct bs..| |].
    + apply app_inj_2 in E' as [_ [= ->]]; done.
    + apply Forall_app. split; [done|by constructor].
    + apply Forall_app. split; [done|]. constructor; [|done]. rewrite Forall_forall in HF. by apply HF.
  - intros p Hnp. rewrite H2 by (intros; apply Hnp; by right).
    by rewrite lookup_insert_ne by (apply not_eq_sym, Hnp; by left).
Qed.
End links.

(** The old directory is removed with everything in it, and made again. *)
Lemma fresh_dir sys bs m :
  Permissive sys → bs ≠ [] → Forall elem_ok bs →
  (∀ p, p ∈ ancestors (abs_path bs) → fs m !! p = None ∨ fs m !! p = Some Dir) →
  (∀ p, inside (abs_path bs) p = true → is_Some (fs m !! p) → fs m !! abs_path bs = Some Dir) →
  ∃ f, (there ← stat_ok sys (abs_path bs);
        _ ← (if there : bool then RemoveAll sys (abs_path bs) else mret tt);
        MkdirAll sys (abs_path bs)) m = Ret (mkMachine f (sd_calls m), inr tt)
    ∧ f !! abs_path bs = Some Dir
    ∧ (∀ p, inside (abs_path bs) p = true → f !! p = None)
    ∧ (∀ p, inside (abs_path bs) p = false → p ∉ ancestors (abs_path bs) → f !! p = fs m !! p).
Proof.
  intros Hp Hbs Hok Hanc Htree. destruct (ancestors_abs bs Hbs Hok) as [_ Hlast].
  set (f1 := if decide (is_Some (fs m !! abs_path bs))
             then filter (λ e, below (abs_path bs) (fst e) = false) (fs m) else fs m).
  assert (∀ p, inside (abs_path bs) p = true → f1 !! p = None) as Hin.
  { intros p Hpi. unfold f1. case_decide as Hs.
    - apply map_lookup_filter_None. right. intros x _. cbn. unfold below. rewrite Hpi. by rewrite orb_true_r.
    - destruct (fs m !! p) eqn:E; [|done]. destruct Hs. rewrite (Htree p) by (done || by rewrite E). done. }
  assert (∀ p, f1 !! p = None ∨ f1 !! p = fs m !! p ) as Hsub.
  { intros p. unfold f1. case_decide; [|by right].
    destruct (filter _ _ !! p) eqn:E; [right|by left]. by apply map_lookup_filter_Some in E as [-> _]. }
  assert (∀ p, inside (abs_path bs) p = false → p ≠ abs_path bs → f1 !! p = fs m !! p) as Hout.
  { intros p Hpi Hne. unfold f1. case_decide; [|done]. rewrite map_lookup_filter.
    destruct (fs m !! p) eqn:E; cbn; [|done]. rewrite option_guard_True; [done|].
    unfold below. by rewrite Hpi, bool_decide_eq_false_2. }
  destruct (MkdirAll_spec sys Hp (abs_path bs) (mkMachine f1 (sd_calls m))) as (f & E & H1 & H2).
  { intros p Ha. cbn. destruct (Hsub p) as [-> | -> ]; [by left|]. by apply Hanc. }
  exists f. split; [|split; [by apply H1|split] ].
  - mrun (stat_ok_eq sys Hp (abs_path bs) m).
    rewrite resolve_other by (intros t E'; destruct (Hanc _ Hlast); congruence).
    unfold f1 in E. case_decide as Hs.
    + rewrite bool_decide_eq_true_2 by done. unfold RemoveAll.
      erewrite bindM_Ret; [exact E|]. by mrun (permitted_ok sys Hp (OpRemove (abs_path bs)) m).
    + rewrite bool_decide_eq_false_2 by done. erewrite bindM_Ret by reflexivity.
      by destruct m.
  - intros p Hpi. rewrite H2; [by apply Hin|]. intros Ha.
    by rewrite (ancestor_outside bs p) in Hpi.
  - intros p Hpi Ha. rewrite H2 by done. apply Hout; [done|]. by intros ->.
Qed.

Lemma bindM_assoc {A B C} (c : M A) (f : A → M B) (g : B → M C) m :
  ((c ≫= f) ≫= g) m = (c ≫= λ a, f a ≫= g) m.
Proof. unfold mbind, M_bind, mbind, go_bind. by destruct (c m) as [[m' [e|a] ]|why]. Qed.

(** C20: After [setupToolchains] the directory holds a link to the kubecc binary under every
    common name of the daemon's toolchains (the sleep toolchain has none) and nothing else,
    whatever it held before; no file outside of it changes. *)
Theorem setupToolchains_links (sys : Sys) (bs : list string) (m : Machine)
    (binaryPath binary : string) (items : list Toolchain) :
  Permissive sys → bs ≠ [] → Forall elem_ok bs →
  Expand sys "~/.kubecc/bin" = inr (abs_path bs) → GetToolchains sys = inr items →
  inside (abs_path bs) binaryPath = false → binaryPath ∉ ancestors (abs_path bs) →
  fs m !! binaryPath = Some (File binary) →
  (∀ p, p ∈ ancestors (abs_path bs) → fs m !! p = None ∨ fs m !! p = Some Dir) →
  (∀ p, inside (abs_path bs) p = true → is_Some (fs m !! p) → fs m !! abs_path bs = Some Dir) →
  ∃ m', setupToolchains sys binaryPath m = Ret (m', inr tt)
    ∧ (∀ name, name ∈ link_names items → fs m' !! path_join [abs_path bs; name] = Some (Link binaryPath))
    ∧ (∀ p n, inside (abs_path bs) p = true → fs m' !! p = Some n →
         n = Link binaryPath ∧ ∃ name, name ∈ link_names items ∧ p = path_join [abs_path bs; name])
    ∧ (∀ p, inside (abs_path bs) p = false → p ∉ ancestors (abs_path bs) → fs m' !! p = fs m !! p).
Proof.
  intros Hp Hbs Hok He Hg Hbi Hba Hb Hanc Htree.
  destruct (fresh_dir sys bs m Hp Hbs Hok Hanc Htree) as (f & E & Hd & Hin & Hout).
  assert (Forall elem_ok (link_names items)) as Hns.
  { apply Forall_forall. intros n. apply link_name_ok. }
  assert (∀ name, name ∈ link_names items → path_join [abs_path bs; name] = abs_path (bs ++ [name])) as Hlk.
  { intros name Hn. apply link_eq; [done..|]. by eapply link_name_ok. }
  destruct (make_links_spec sys Hp bs Hbs Hok binaryPath binary (link_names items)
              (mkMachine f (sd_calls m))) as (f' & E' & H1 & H2); cbn [fs] in *; [done..| | |].
  { by rewrite Hout. }
  { intros p n Hpi Hpn. by rewrite Hin in Hpn. }
  exists (mkMachine f' (sd_calls m)). cbn [fs]. split; [|split; [|split]].
  - unfold setupToolchains. rewrite He. erewrite bindM_Ret by reflexivity. rewrite Hg.
    pose proof (bindM_Ret _ (λ _ : unit, items ← lift (inr items); make_links sys binaryPath (abs_path bs) (link_names items)) _ _ _ E) as E2.
    rewrite bindM_assoc in E2. erewrite bindM_Ret in E2 by apply (stat_ok_eq sys Hp).
    rewrite bindM_assoc in E2. erewrite bindM_Ret by apply (stat_ok_eq sys Hp).
    rewrite E2. by erewrite bindM_Ret by reflexivity.
  - intros name Hn. rewrite Hlk by done. by apply H1.
  - intros p n Hpi Hpn.
    destruct (decide (Exists (λ name, p = abs_path (bs ++ [name])) (link_names items))) as [Hx|Hx].
    + apply Exists_exists in Hx as (name & Hn & ->). rewrite H1 in Hpn by done. simplify_eq.
      split; [done|]. exists name. by rewrite Hlk.
    + rewrite H2, Hin in Hpn by (done || (intros name Hn ->; apply Hx, Exists_exists; eauto)). done.
  - intros p Hpi Ha. rewrite H2; [by apply Hout|]. intros name Hn ->.
    by rewrite (link_inside bs) in Hpi.
Qed.

(** ** The service *)

Lemma drop_while_all p l k : Forall (λ c, p c = true) l → drop_while p (l ++ k) = drop_while p k.
Proof. induction 1 as [|x l Hx _ IH]; cbn; [done|]. by rewrite Hx. Qed.

(** White space after a text that neither begins nor ends with it. *)
Lemma TrimSpace_text a s z trail :
  is_space a = false → is_space z = false → Forall (λ c, is_space c = true) (chars trail) →
  TrimSpace (String a s +:+ String z trail) = String a s +:+ String z "".
Proof.
  intros Ha Hz HF. unfold TrimSpace. apply chars_inj. rewrite chars_of_chars, !chars_app.
  change (chars (String z trail)) with ([z] ++ chars trail).
  change (chars (String a s)) with (a :: chars s). cbn [app drop_while]. rewrite Ha.
  change (a :: ?l) with ([a] ++ l). rewrite !rev_app_distr. cbn [rev]. rewrite <- !(assoc_L (++)).
  rewrite drop_while_all.
  - cbn [app drop_while]. rewrite Hz. cbn [rev]. by rewrite !rev_app_distr, rev_involutive.
  - apply Forall_forall. intros c Hc%list_elem_of_In%in_rev%list_elem_of_In.
    rewrite Forall_forall in HF. by apply HF.
Qed.

(** The text of the unit around the path of the binary, up to the last letter. *)
Definition unit_body (binaryPath : string) : string :=
  join newline ["[Unit]"; "Description=Kubecc Consumerd Service"; "After=network.target"; "";
    "[Install]"; "WantedBy=multi-user.target"; ""; "[Service]"; "Type=simple";
    "StandardOutput=journal"; "ExecStart=" +:+ binaryPath +:+ " consumerd"; "Restart=on-failur"].

Lemma unit_body_head b : ∃ s, unit_body b = String "[" s.
Proof. eexists. reflexivity. Qed.

Lemma serviceTmpl_eq b : serviceTmpl b = unit_body b +:+ String "e" newline.
Proof.
  unfold serviceTmpl, unit_body. cbn [join String.concat]. rewrite !append_assoc. reflexivity.
Qed.

Lemma trim_unit b trail :
  Forall (λ c, is_space c = true) (chars trail) →
  TrimSpace (unit_body b +:+ String "e" trail) = unit_body b +:+ "e".
Proof. intros HF. destruct (unit_body_head b) as [s ->]. by apply TrimSpace_text. Qed.

Lemma serviceContents_eq b : serviceContents b = unit_body b +:+ "e".
Proof. unfold serviceContents. rewrite serviceTmpl_eq. apply trim_unit. by constructor. Qed.

(** [systemctl cat] prints the name of the file as a comment and then the file. *)
Definition cat_prints (sys : Sys) (md : mode) (path contents trail : string) : Prop :=
  catUnit_output sys (mode_name md) = inr ("# " +:+ path +:+ newline +:+ contents +:+ trail)
  ∧ nl ∉ chars path ∧ Forall (λ c, is_space c = true) (chars trail).

Lemma catUnit_roundtrip sys md path b trail :
  cat_prints sys md path (serviceContents b) trail →
  catUnit sys (mode_name md) = inr (serviceContents b).
Proof.
  intros (E & Hn & HF). unfold catUnit. rewrite E.
  set (rest := serviceContents b +:+ trail) in *.
  assert (split ("# " +:+ path +:+ newline +:+ rest) nl = ("# " +:+ path) :: split rest nl) as ->.
  { unfold split. rewrite <- append_assoc, chars_app.
    change (chars (newline +:+ rest)) with (nl :: chars rest).
    rewrite split_on_first; [by rewrite fmap_cons, of_chars_chars|].
    rewrite chars_app. apply not_elem_of_app. split; [|done]. by apply (bool_decide_unpack _). }
  assert (TrimSpace rest = serviceContents b) as Ht.
  { unfold rest. rewrite serviceContents_eq, append_assoc. by apply trim_unit. }
  assert (∃ x y l, split rest nl = x :: y :: l) as (x & y & l & Es).
  { unfold rest. rewrite serviceContents_eq. unfold unit_body.
    rewrite join_cons, !append_assoc. unfold split. rewrite chars_app.
    change (chars (newline +:+ ?k)) with (nl :: chars k).
    rewrite split_on_first by by apply (bool_decide_unpack _).
    match goal with |- context [split_on nl ?k] => destruct (split_on_cons_ne nl k) as (w & ws & ->) end.
    by eexists _, _, _. }
  rewrite Es. transitivity (inr (TrimSpace (join (String nl "") (x :: y :: l))) : error + string);
    [done|]. by rewrite <- Es, join_split, Ht.
Qed.

(** A setup recognises the service that an earlier setup wrote for the same binary: when
    the service is active and systemd prints the file, nothing is written and the service is
    not restarted. *)
Theorem service_recognised (sys : Sys) (md : mode) (m : Machine) (b path trail : string) :
  cat_prints sys md path (serviceContents b) trail →
  IsActive sys md (sd_calls m) = inr true →
  (md = UserMode → IsActive sys SystemMode (sd_calls m) = inr false ∧ uid0 sys = false) →
  installConsumerd sys b m = Ret (m, inr md).
Proof.
  intros Hc Ha Hu.
  assert (refresh_service sys md (serviceContents b) m = Ret (m, inr tt)) as E.
  { unfold refresh_service. rewrite (catUnit_roundtrip sys md path b trail) by done.
    by rewrite String.eqb_refl. }
  unfold installConsumerd. destruct md.
  - erewrite bindM_Ret by (unfold sd_IsActive; rewrite Ha; reflexivity). cbv iota. by mrun E.
  - destruct (Hu eq_refl) as [Hs H0].
    erewrite bindM_Ret by (unfold sd_IsActive; rewrite Hs; reflexivity). cbv iota. rewrite H0.
    erewrite bindM_Ret by (unfold sd_IsActive; rewrite Ha; reflexivity). cbv iota. by mrun E.
Qed.

(** Every alias line is undone by the line that [setupEnv] derives from it. *)
Lemma unalias_alias binDir name :
  "="%char ∉ chars name → unalias_line (alias_line binDir name) = "unalias " +:+ name.
Proof.
  intros Hn. unfold unalias_line, alias_line.
  change (replace_first ("alias " +:+ ?s) "alias" "unalias")
    with ("unalias" +:+ of_chars (chars (" " +:+ s))).
  rewrite of_chars_chars. unfold split. rewrite <- !append_assoc.
  change (("unalias" +:+ " ") +:+ name) with ("unalias " +:+ name).
  rewrite !append_assoc.
  match goal with |- context [name +:+ ("='PATH=" +:+ ?s)] =>
    change ("='PATH=" +:+ s) with (String "=" ("'PATH=" +:+ s)); generalize ("'PATH=" +:+ s) end.
  intros s. rewrite <- append_assoc, chars_app.
  change (chars (String "=" s)) with ("="%char :: chars s). rewrite split_on_first.
  - cbn [fmap list_fmap head default]. by rewrite of_chars_chars.
  - rewrite chars_app. apply not_elem_of_app. split; [|done]. by apply (bool_decide_unpack _).
Qed.

(** ** A machine *)

Definition sample_env (install_dir : option string) (k : string) : option string :=
  if String.eqb k "KUBECC_SETUP_SCHEDULER_ADDRESS" then Some "sched:9000"
  else if String.eqb k "KUBECC_SETUP_MONITOR_ADDRESS" then Some "mon:9000"
  else if String.eqb k "KUBECC_HOME" then Some "/home/me/.kubecc"
  else if String.eqb k "KUBECC_SETUP_INSTALL_DIR" then install_dir else None.
Definition sample_expand (p : string) : error + string :=
  match p with
  | String "~" ((String "/" _) as rest) => inr (path_join ["/home/me"; rest])
  | _ => inr p
  end.
Definition sample_tcs : list Toolchain :=
  [mkToolchain Gnu Multi "/usr/bin/gcc" "x86_64" "10" true true;
   mkToolchain Sleep ToolchainLang_Unknown "" "" "" false false].
(** Nothing refuses; the daemon is active as the flag says, and its unit is the one that
    setup writes. *)
Definition sample_sys (install_dir : option string) (running : bool) : Sys := {|
  refuse _ := None; stat_err _ := None; Executable_ := inr "/tmp/kubecc"; LookPath := None;
  uid0 := false; sudo := false; home := "/home/me"; Expand := sample_expand; md5 s := s;
  IsActive md _ := inr (running && bool_decide (md = UserMode)); systemctl _ _ := None;
  catUnit_output _ := inr ("# " +:+ "/home/me/.config/systemd/user/consumerd.service" +:+ newline
    +:+ serviceContents "/home/me/bin/kubecc" +:+ newline);
  marshal _ := inr "config"; GetToolchains := inr sample_tcs;
  dial := inr tt; Shell := inr "/bin/bash"; shell_echo _ := inr ""; LookupEnv := sample_env install_dir |}.
Definition no_ui : Prompts :=
  mkPrompts (λ _, inl not_exist) (λ _, inl not_exist) (inl not_exist) (λ _, inl not_exist) (λ _, inl not_exist).
Definition sample_machine : Machine :=
  mkMachine (list_to_map [("/tmp/kubecc", File "ELF"); ("/home", Dir); ("/home/me", Dir);
    ("/home/me/.bashrc", File "# rc")]) [].
Definition sample_ni : NonInteractive := checkNonInteractiveConfig (sample_sys None false).
Definition sample_decoders : Decoders := {|
  json_Unmarshal _ := (zero_KubeccSpec, None);
  yaml_Unmarshal _ := (installed_config "10991" "sched:9000" "mon:9000" false, None) |}.

Lemma sample_permissive d r : Permissive (sample_sys d r).
Proof. done. Qed.
Lemma sample_home d r : home_ok (sample_sys d r) ["home"; "me"].
Proof. split; [done|]. split; [done|]. by apply (bool_decide_unpack _). Qed.

Lemma installed_config_loads_witness : ∃ m' cfg,
  checkConfig (sample_sys None false) no_ui "user" sample_ni sample_machine = Ret (m', inr tt)
  ∧ @Load _ sample_decoders (host_of (sample_sys None false) m') = Ret (Loaded cfg)
  ∧ ConsumerdAddress (Consumer cfg) = "127.0.0.1:10991".
Proof.
  destruct (@installed_config_loads _ _ sample_decoders (sample_sys None false) no_ui ["home"; "me"]
    UserMode sample_ni sample_machine "config") as (m' & cfg & E1 & E2 & E3 & E4 & _).
  - apply sample_permissive.
  - apply sample_home.
  - done.
  - done.
  - done.
  - apply Forall_forall. apply (bool_decide_unpack _). vm_compute. done.
  - apply Forall_forall. apply (bool_decide_unpack _). vm_compute. done.
  - exists m', cfg. split; [exact E1|]. split; [exact E2|]. rewrite E3, E4. done.
Defined.

Definition linked_machine : Machine :=
  mkMachine (list_to_map [("/home/me/bin/kubecc", File "ELF"); ("/home", Dir); ("/home/me", Dir);
    ("/home/me/.kubecc", Dir); ("/home/me/.kubecc/bin", Dir);
    ("/home/me/.kubecc/bin/clang", Link "/home/me/bin/kubecc")]) [].
Lemma setupToolchains_links_witness : ∃ m',
  setupToolchains (sample_sys None false) "/home/me/bin/kubecc" linked_machine = Ret (m', inr tt)
  ∧ fs m' !! "/home/me/.kubecc/bin/g++" = Some (Link "/home/me/bin/kubecc")
  ∧ fs m' !! "/home/me/.kubecc/bin/clang" = None.
Proof.
  destruct (setupToolchains_links (sample_sys None false) ["home"; "me"; ".kubecc"; "bin"]
    linked_machine "/home/me/bin/kubecc" "ELF" sample_tcs) as (m' & E & H1 & H2 & _).
  - apply sample_permissive.
  - done.
  - by apply (bool_decide_unpack _).
  - done.
  - done.
  - done.
  - by apply (bool_decide_unpack _).
  - done.
  - apply Forall_forall. apply (bool_decide_unpack _). vm_compute. done.
  - done.
  - exists m'. split; [exact E|]. split.
    + apply (H1 "g++"). by apply (bool_decide_unpack _).
    + destruct (fs m' !! "/home/me/.kubecc/bin/clang") as [n|] eqn:En; [|done]. exfalso.
      destruct (H2 "/home/me/.kubecc/bin/clang" n eq_refl En) as (_ & name & Hin & Hn).
      assert (Forall (λ name, "/home/me/.kubecc/bin/clang" ≠ path_join ["/home/me/.kubecc/bin"; name])
                (link_names sample_tcs)) as HF by by apply (bool_decide_unpack _).
      rewrite Forall_forall in HF. by apply (HF name).
Defined.

Lemma service_recognised_witness :
  installConsumerd (sample_sys None true) "/home/me/bin/kubecc" sample_machine
    = Ret (sample_machine, inr UserMode).
Proof.
  apply (service_recognised (sample_sys None true) UserMode sample_machine "/home/me/bin/kubecc"
    "/home/me/.config/systemd/user/consumerd.service" newline).
  - split; [done|]. split; [by apply (bool_decide_unpack _)|]. by constructor.
  - done.
  - done.
Defined.

(** ** Faults *)

(** The default directory "~/.local/bin" is expanded, created, and then not used: the copy
    goes to the path as it was typed, which is relative to the working directory, and setup
    ends with an error.  With an absolute directory the same setup completes. *)
Example default_setup_fails :
  match setup_Run (sample_sys None false) no_ui 1 sample_machine with
  | Ret (m, r) => r = inl not_exist ∧ fs m !! "/home/me/.local/bin" = Some Dir
  | Panic _ => False
  end
  ∧ match setup_Run (sample_sys (Some "/home/me/bin") false) no_ui 1 sample_machine with
    | Ret (m, r) => r = inr true ∧ fs m !! "/home/me/bin/kubecc" = Some (File "ELF")
    | Panic _ => False
    end.
Proof. vm_compute. done. Qed.

(** A directory that cannot be created is asked for again; without a user the loop has no
    other answer, however many rounds it runs. *)
Theorem install_dir_loops sys ui ni m rounds err d :
  Enabled ni = true → LookPath sys = None → (∀ p, stat_err sys p = None) →
  Expand sys (or_default (InstallDir ni) (defaultPath sys)) = inr d → fs m !! d = None →
  refuse sys (OpMkdirAll d) = Some err →
  installOrUpdateBinary sys ui ni rounds m = Ret (m, inr None).
Proof.
  intros He Hl Hs Hx Hd Hr. unfold installOrUpdateBinary. rewrite Hl.
  assert (choose_dir sys ui ni rounds m = Ret (m, inr None)) as E; [|by mrun E].
  induction rounds as [|n IH]; [done|]. cbn [choose_dir]. rewrite He.
  erewrite bindM_Ret by reflexivity. rewrite (bindM_Ret _ _ m m false); [exact IH|].
  unfold install_round. rewrite Hx. erewrite bindM_Ret by reflexivity.
  rewrite (bindM_Ret _ _ m m StatNotExist).
  - rewrite (bindM_Ret _ _ m m (inl err)); [done|].
    unfold try, MkdirAll, permitted. rewrite Hr. done.
  - unfold Stat. rewrite Hs, resolve_other by by rewrite Hd. by rewrite Hd.
Qed.

(** Teardown with every option chosen leaves the file ".env", so the directory of kubecc is
    not removed, and the line in the shell's start file. *)
Example teardown_leaves :
  match setup_Run (sample_sys (Some "/home/me/bin") false) no_ui 1 sample_machine with
  | Ret (m, _) =>
      match TeardownCmd (sample_sys None false) (λ l, inr l) m with
      | Ret (m', _) =>
          is_Some (fs m' !! "/home/me/.kubecc/.env") ∧ fs m' !! "/home/me/.kubecc" = Some Dir
          ∧ fs m' !! "/home/me/.kubecc/env" = None
          ∧ fs m' !! "/home/me/.bashrc" = fs m !! "/home/me/.bashrc"
      | Panic _ => False
      end
  | Panic _ => False
  end.
Proof. vm_compute. split; [by eexists|done]. Qed.
