(* ===== verification/Servers.v ===== *)
(** * Starting the servers

    The constructors of the agent, the consumer daemon and the cache server
    ([pkg/agent/server.go], [pkg/consumerd/server.go], [pkg/cachesrv/server.go]), as the
    commands of [pkg/kubecc/components] call them with the loaded configuration, the limits
    of the host ([pkg/host]), and what the servers post on their timers. *)
From S2P Require Import Prelude GoStrings Types Config Storage S3 Status Toolchains Finders Tasks StreamManager.

(** ** Limits of the host *)

(** The files below /sys/fs/cgroup ([None]: cannot be read), and [runtime.NumCPU]. *)
Record HostInfo := mkHostInfo { cgroup_file : string → option string; NumCPU : Z }.

Section host.
Context (h : HostInfo).

Definition readInt64 (path : string) : go (option Z) :=
  match cgroup_file h (path_join ["/sys/fs/cgroup"; path]) with
  | None => Ret None
  | Some data =>
      match ParseInt (TrimSpace data) with
      | Some value => Ret (Some value)
      | None => Panic "strconv.ParseInt"
      end
  end.

Definition CfsQuota : go Z := v ← readInt64 "cpu/cpu.cfs_quota_us"; Ret (default (NumCPU h) v).
Definition CfsPeriod : go Z := v ← readInt64 "cpu/cpu.cfs_period_us"; Ret (default 1 v).

(** [math.Ceil(float64(quota)/float64(period))]: exact for a positive period and a quota
    below 2^52, where rounding the quotient cannot reach the integer below. *)
Definition ceil_quotient (quota period : Z) : Z := - (- quota / period).

Definition AutoConcurrentProcessLimit : go Z :=
  period ← CfsPeriod;
  quota ← CfsQuota;
  Ret (wrap32 (if bool_decide (quota < 0) then NumCPU h else Z.max 1 (ceil_quotient quota period))).
End host.

(** ** Metrics *)

Inductive metric :=
  | MUsageLimits (ConcurrentProcessLimit : Z)
  | MTaskStatus (NumRunning : Z)
  | MToolchains (Items : list Toolchain)
  | MCpuStats (cfsQuota cfsPeriod : Z)
  | MCacheUsage (ObjectCount TotalSize : Z)
  | MCacheHits (hits misses : Z).

(** [clients.NewNoopMetricsProvider] or [clients.NewMetricsProvider]. *)
Inductive MetricsProvider : Set := NoopProvider | MonitorProvider.

(** What a post adds to the queue of the provider. *)
Definition Post_ (p : MetricsProvider) (m : metric) : list metric :=
  match p with NoopProvider => [] | MonitorProvider => [m] end.

Definition nil_deref : string := "invalid memory address or nil pointer dereference".

(** [util.RunPeriodic]: whether the functions run at the [n]-th tick (the first one comes at
    once). *)
Definition RunPeriodic (now : bool) (n : nat) : bool := now || bool_decide (0 < n)%nat.

(** The status controller of a new server, and the context of the server. *)
Definition zero_controller : StatusController := mkController ∅ [] ∅ false 0 None.
Definition srv_ctx : nat := 1.

(** ** The agent *)

Section agent.
Context {Q : Type} (ask : Q → Querier) (EvalSymlinks : string → option string) (h : HostInfo).
Abbreviation Store := (Toolchains.Store (Q := Q)).
Abbreviation StoreAddFunc := (ToolchainRunnerStore → go ToolchainRunnerStore).

(** A finder is given by the store it returns. *)
Record AgentServerOptions := mkAgentOptions {
  ao_finders : list Store;
  ao_runners : list StoreAddFunc;
  ao_scheduler : bool;
  ao_monitor : bool;
  ao_usageLimits : option Z;
}.
Definition AgentServerOption : Type := AgentServerOptions → AgentServerOptions.
Definition agent_Apply (opts : list AgentServerOption) (o : AgentServerOptions) : AgentServerOptions :=
  foldl (λ o op, op o) o opts.

Definition agent_WithToolchainFinders (args : list Store) : AgentServerOption := λ o,
  mkAgentOptions args (ao_runners o) (ao_scheduler o) (ao_monitor o) (ao_usageLimits o).
Definition agent_WithToolchainRunners (args : list StoreAddFunc) : AgentServerOption := λ o,
  mkAgentOptions (ao_finders o) args (ao_scheduler o) (ao_monitor o) (ao_usageLimits o).
Definition agent_WithSchedulerClient : AgentServerOption := λ o,
  mkAgentOptions (ao_finders o) (ao_runners o) true (ao_monitor o) (ao_usageLimits o).
Definition agent_WithMonitorClient : AgentServerOption := λ o,
  mkAgentOptions (ao_finders o) (ao_runners o) (ao_scheduler o) true (ao_usageLimits o).
Definition agent_WithUsageLimits (limit : option Z) : AgentServerOption := λ o,
  mkAgentOptions (ao_finders o) (ao_runners o) (ao_scheduler o) (ao_monitor o) limit.

Record AgentSrv := mkAgentSrv {
  as_tcStore : Store;
  as_tcRunStore : ToolchainRunnerStore;
  as_metrics : MetricsProvider;
  as_scheduler : bool;
  as_usageLimits : option Z;
  as_runningTasks : Z;
  as_cfsQuota : Z;
  as_cfsPeriod : Z;
  as_status : StatusController;
  as_stream : StatusCtrlKind;    (** how the stream manager reports a missing scheduler *)
}.

(** A nil pointer has the limit 0 (the getter of the generated code). *)
Definition limit_of (u : option Z) : Z := default 0 u.

Definition NewAgentServer (opts : list AgentServerOption) : go AgentSrv :=
  let o := agent_Apply opts (mkAgentOptions [] [] false false None) in
  runStore ← add_runners (ao_runners o);
  usageLimits ← (if bool_decide (limit_of (ao_usageLimits o) = -1)
                 then limit ← AutoConcurrentProcessLimit h; Ret (Some limit)
                 else Ret (ao_usageLimits o));
  tcStore ← Aggregate ask EvalSymlinks (ao_finders o) NewStore;
  quota ← CfsQuota h;
  period ← CfsPeriod h;
  status ← EndInitialize (BeginInitialize zero_controller);
  Ret {| as_tcStore := tcStore; as_tcRunStore := runStore;
         as_metrics := if ao_monitor o then MonitorProvider else NoopProvider;
         as_scheduler := ao_scheduler o; as_usageLimits := usageLimits; as_runningTasks := 0;
         as_cfsQuota := quota; as_cfsPeriod := period; as_status := status; as_stream := Required |}.

Definition agent_postUsageLimits (s : AgentSrv) : go (list metric) :=
  match as_usageLimits s with
  | None => Panic nil_deref
  | Some limit => Ret (Post_ (as_metrics s) (MUsageLimits limit))
  end.
Definition agent_postTaskStatus (s : AgentSrv) : list metric :=
  Post_ (as_metrics s) (MTaskStatus (as_runningTasks s)).
Definition agent_postToolchains (s : AgentSrv) : list metric :=
  Post_ (as_metrics s) (MToolchains (ItemsList (as_tcStore s))).
(** [cpu_ok]: the statistics of the cgroup could be read. *)
Definition agent_postCpuStats (cpu_ok : bool) (s : AgentSrv) : list metric :=
  if cpu_ok then Post_ (as_metrics s) (MCpuStats (as_cfsQuota s) (as_cfsPeriod s)) else [].

(** The command: options from the configuration ([found]: what the two finders return). *)
Definition runAgent (conf : Config.AgentSpec) (found : list Store) : go AgentSrv :=
  NewAgentServer [
    agent_WithUsageLimits (Some (wrap32 (GetConcurrentProcessLimit (Agent_UsageLimits conf))));
    agent_WithToolchainFinders found;
    agent_WithToolchainRunners [cc_AddToStore; sleep_AddToStore];
    agent_WithSchedulerClient;
    agent_WithMonitorClient].
End agent.

(** ** The consumer daemon *)

(** The local usage manager that [runConsumerd] chooses, by the size to which it resizes the
    local worker pool. *)
Definition FixedUsageLimits (limit : Z) : go Z := Ret limit.
Definition AutoUsageLimits (h : HostInfo) : go Z := AutoConcurrentProcessLimit h.
Definition localUsageMgr (h : HostInfo) (conf : ConsumerdSpec) : go Z :=
  let limit := GetConcurrentProcessLimit (Consumerd_UsageLimits conf) in
  if bool_decide (limit < 0) then AutoUsageLimits h else FixedUsageLimits limit.

(** The status controller and the metrics provider of [NewConsumerdServer]. *)
Definition consumerd_status (monitorClient : bool) : go (StatusController * MetricsProvider) :=
  let s := BeginInitialize zero_controller in
  let '(s, p) := if monitorClient then (s, MonitorProvider)
                 else (ApplyCondition srv_ctx MissingOptionalComponent ["No monitor client configured"] s,
                       NoopProvider) in
  s ← EndInitialize s;
  Ret (s, p).

(** ** The cache server *)

Section cache.
Context {S : Type} {SP : StorageProvider S}.

Record CacheSrv := mkCacheSrv {
  cs_storage : option (list S);
  cs_metrics : option MetricsProvider;
  cs_status : StatusController;
}.

Definition NewCacheServer (storageProvider : option (list S)) (monitorClient : bool) : go CacheSrv :=
  let status := BeginInitialize zero_controller in
  let '(storage, metrics, status) :=
    match storageProvider with
    | None => (None, None, ApplyCondition srv_ctx InvalidConfiguration ["No storage provider set"] status)
    | Some chain =>
        let p := if monitorClient then MonitorProvider else NoopProvider in
        match chain_Configure chain with
        | (chain, None) => (Some chain, Some p, status)
        | (chain, Some err) =>
            (Some chain, Some p, ApplyCondition srv_ctx InvalidConfiguration [error_text err] status)
        end
    end in
  status ← EndInitialize status;
  Ret (mkCacheSrv storage metrics status).

(** [UsageInfo] and [CacheHits] of the storage provider are parameters. *)
Definition cache_postStorageInfo (UsageInfo : list S → Z * Z) (s : CacheSrv) : go (list metric) :=
  match cs_metrics s, cs_storage s with
  | Some p, Some chain => let '(n, size) := UsageInfo chain in Ret (Post_ p (MCacheUsage n size))
  | _, _ => Panic nil_deref
  end.

Definition cache_postCacheHits (CacheHits : list S → Z * Z) (s : CacheSrv) : go (list metric) :=
  match cs_metrics s, cs_storage s with
  | Some p, Some chain => let '(hits, misses) := CacheHits chain in Ret (Post_ p (MCacheHits hits misses))
  | _, _ => Panic nil_deref
  end.

(** The command: the providers in the order in which the chain asks them. *)
Definition cache_providers (volatile : VolatileStorageSpec → S) (local : LocalStorageSpec → S)
    (s3 : RemoteStorageSpec → S) (conf : Config.CacheSpec) : list S :=
  (match VolatileStorage conf with Some c => [volatile c] | None => [] end)
  ++ (match LocalStorage conf with Some c => [local c] | None => [] end)
  ++ (match RemoteStorage conf with Some c => [s3 c] | None => [] end).
Definition runCache volatile local s3 (conf : Config.CacheSpec) : go CacheSrv :=
  NewCacheServer (Some (cache_providers volatile local s3 conf)) true.
End cache.

(** ** Properties *)

(** A host whose limits can be computed: the quota in force and its period. *)
Record host_ok (h : HostInfo) (quota period : Z) : Prop := {
  ho_quota : CfsQuota h = Ret quota;
  ho_period : CfsPeriod h = Ret period;
  ho_positive : 0 < period;
  ho_small : quota < 2 ^ 52 ∧ quota ≤ period * (2 ^ 31 - 1);
  ho_cpus : 1 ≤ NumCPU h < 2 ^ 31;
}.

(** The smallest whole number of processors, at least one, that has the quota. *)
Definition is_limit (h : HostInfo) (quota period n : Z) : Prop :=
  1 ≤ n ∧ (if bool_decide (quota < 0) then n = NumCPU h
           else quota ≤ n * period ∧ (n = 1 ∨ (n - 1) * period < quota)).

Lemma ceil_quotient_spec quota period :
  0 < period →
  quota ≤ ceil_quotient quota period * period ∧ (ceil_quotient quota period - 1) * period < quota.
Proof.
  intros Hp. unfold ceil_quotient. pose proof (Z.div_mod (- quota) period ltac:(lia)).
  pose proof (Z.mod_pos_bound (- quota) period Hp). nia.
Qed.

Lemma auto_limit h quota period :
  host_ok h quota period →
  ∃ n, AutoConcurrentProcessLimit h = Ret n ∧ is_limit h quota period n ∧ in_range 32 n.
Proof.
  intros [Hq Hp Hpos [_ Hs] Hc]. unfold AutoConcurrentProcessLimit. rewrite Hp. cbn [mbind go_bind].
  rewrite Hq. cbn [mbind go_bind]. eexists. split; [reflexivity|].
  destruct (ceil_quotient_spec quota period Hpos) as [H1 H2].
  unfold is_limit, in_range. case_bool_decide as Hneg.
  - rewrite wrap_id by (unfold in_range; lia). lia.
  - assert (Z.max 1 (ceil_quotient quota period) < 2 ^ 31) as Hlt by nia.
    rewrite wrap_id by (unfold in_range; lia). nia.
Qed.

Section agent_props.
Context {Q : Type} (ask : Q → Querier) (EvalSymlinks : string → option string) (h : HostInfo).

Lemma runAgent_eq conf found (st : Toolchains.Store (Q := Q)) quota period :
  host_ok h quota period → Aggregate ask EvalSymlinks found NewStore = Ret st →
  in_range 32 (GetConcurrentProcessLimit (Agent_UsageLimits conf)) →
  ∃ s n, runAgent ask EvalSymlinks h conf found = Ret s
    ∧ as_tcStore s = st ∧ as_metrics s = MonitorProvider ∧ as_usageLimits s = Some n
    ∧ conditions (as_status s) !! 0%nat = Some (mkCondition Pending ["Component is initializing"])
    ∧ done_ctxs (as_status s) = {[0%nat]}
    ∧ (if bool_decide (GetConcurrentProcessLimit (Agent_UsageLimits conf) = -1)
       then is_limit h quota period n else n = GetConcurrentProcessLimit (Agent_UsageLimits conf)).
Proof.
  intros Hok HA Hr. destruct (auto_limit h quota period Hok) as (auto & Ea & Hl & _).
  pose proof Hok as [Hq Hp _ _ _]. unfold runAgent, NewAgentServer.
  cbn [agent_Apply foldl ao_runners ao_usageLimits ao_finders agent_WithUsageLimits
    agent_WithToolchainFinders agent_WithToolchainRunners agent_WithSchedulerClient
    agent_WithMonitorClient limit_of default].
  rewrite wrap_id by (done || lia). unfold limit_of. cbn [default from_option id].
  case_bool_decide as E; cbn [mbind go_bind add_runners foldl]; rewrite ?Ea; cbn [mbind go_bind];
    rewrite HA; cbn [mbind go_bind]; rewrite Hq; cbn [mbind go_bind]; rewrite Hp;
    eexists _, _; (split; [reflexivity|]); cbn; split_and!; try done; by rewrite union_empty_r_L.
Qed.

(** The agent started with a loaded configuration always has a limit to report, and never
    one below one when the limit is left to the host: the number of processors, or with a CPU
    quota the smallest whole number of processors that has it.  A limit set in the
    configuration is reported as it is. *)
Theorem agent_limit (conf : Config.AgentSpec) (found : list (Toolchains.Store (Q := Q)))
    (st : Toolchains.Store) (quota period : Z) :
  host_ok h quota period → Aggregate ask EvalSymlinks found NewStore = Ret st →
  in_range 32 (GetConcurrentProcessLimit (Agent_UsageLimits conf)) →
  ∃ s n, runAgent ask EvalSymlinks h conf found = Ret s
    ∧ agent_postUsageLimits s = Ret [MUsageLimits n]
    ∧ agent_postToolchains s = [MToolchains (ItemsList st)]
    ∧ (GetConcurrentProcessLimit (Agent_UsageLimits conf) = -1 → is_limit h quota period n)
    ∧ (GetConcurrentProcessLimit (Agent_UsageLimits conf) ≠ -1 →
         n = GetConcurrentProcessLimit (Agent_UsageLimits conf)).
Proof.
  intros Hok HA Hr. destruct (runAgent_eq _ _ _ _ _ Hok HA Hr) as (s & n & E & Hst & Hm & Hu & _ & _ & Hn).
  exists s, n. split; [done|]. unfold agent_postUsageLimits, agent_postToolchains.
  rewrite Hu, Hm, Hst. split; [done|]. split; [done|]. case_bool_decide; by split.
Qed.

(** An agent without the option has no limits object: its first report dereferences nil. *)
Theorem agent_without_limits (s : AgentSrv (Q := Q)) :
  NewAgentServer ask EvalSymlinks h [] = Ret s → is_ret (agent_postUsageLimits s) = false.
Proof.
  unfold NewAgentServer. cbn. destruct (CfsQuota h); [|done]. destruct (CfsPeriod h); [|done].
  by intros [= <-].
Qed.
End agent_props.

(** ** Health after the start *)

Definition settled (s : StatusController) : StatusController := default s (status_step (TClear 0) s).

Lemma settled_conditions s0 :
  cancelPending s0 = Some 0%nat → 0%nat ∈ watchers s0 →
  ∃ s, EndInitialize s0 = Ret s ∧ conditions (settled s) = delete 0%nat (conditions s0)
    ∧ srv_done (settled s) = srv_done s0.
Proof.
  intros Hp Hw. unfold EndInitialize. rewrite Hp. eexists. split; [done|].
  unfold settled, status_step, awake, cancel. cbn. rewrite !bool_decide_eq_true_2 by set_solver.
  by rewrite orb_true_r.
Qed.

(** Once initialised, the cache server is ready exactly when it has a storage provider whose
    configuration succeeded; otherwise it reports why not. *)
Theorem NewCacheServer_health {S} `{StorageProvider S} (sp : option (list S)) (mon : bool) :
  ∃ s, NewCacheServer sp mon = Ret s
    ∧ GetHealth (settled (cs_status s))
        match sp with
        | None => mkHealth Unavailable_ ["[Invalid Config] No storage provider set"]
        | Some chain => match snd (chain_Configure chain) with
                        | None => mkHealth Ready []
                        | Some err => mkHealth Unavailable_ ["[Invalid Config] " +:+ error_text err]
                        end
        end.
Proof.
  set (s0 := BeginInitialize zero_controller).
  assert (∀ s1, cancelPending s1 = Some 0%nat → 0%nat ∈ watchers s1 → srv_done s1 = false →
    conditions s1 = conditions s0 →
    ∃ s, EndInitialize s1 = Ret s ∧ GetHealth (settled s) (mkHealth Ready [])) as Hready.
  { intros s1 Hp Hw Hd Hc. destruct (settled_conditions s1 Hp Hw) as (s & E & Hs & Hsd).
    exists s. split; [done|]. exists []. split; [|by rewrite Hsd, Hd].
    unfold active. rewrite Hs, Hc. done. }
  assert (∀ m, ∃ s, EndInitialize (ApplyCondition srv_ctx InvalidConfiguration [m] s0) = Ret s
    ∧ GetHealth (settled s) (mkHealth Unavailable_ ["[Invalid Config] " +:+ m])) as Hbad.
  { intros m. destruct (settled_conditions (ApplyCondition srv_ctx InvalidConfiguration [m] s0))
      as (s & E & Hs & Hsd); [done|set_solver|].
    exists s. split; [done|]. exists [mkCondition InvalidConfiguration [m]].
    split; [|by rewrite Hsd]. unfold active. rewrite Hs. done. }
  unfold NewCacheServer. fold s0. destruct sp as [chain|].
  - destruct (chain_Configure chain) as [chain' [err|]]; cbn [snd].
    + destruct (Hbad (error_text err)) as (s & -> & Hh). by eexists.
    + destruct (Hready s0) as (s & -> & Hh); [done|set_solver|done|done|]. by eexists.
  - destruct (Hbad "No storage provider set") as (s & -> & Hh). by eexists.
Qed.

(** A cache server without a provider has no metrics provider either, and its first report
    dereferences nil. *)
Theorem cache_without_provider {S} `{StorageProvider S} (mon : bool) (s : CacheSrv (S := S)) usage :
  NewCacheServer None mon = Ret s →
  is_ret (cache_postStorageInfo usage s) = false ∧ is_ret (cache_postCacheHits usage s) = false.
Proof. by intros [= <-]. Qed.

(** ** Witness and faults *)

Definition files_of (quota period : option string) (path : string) : option string :=
  if String.eqb path "/sys/fs/cgroup/cpu/cpu.cfs_quota_us" then quota
  else if String.eqb path "/sys/fs/cgroup/cpu/cpu.cfs_period_us" then period else None.
Definition limited_host : HostInfo :=
  mkHostInfo (files_of (Some ("250000" +:+ String "010" "")) (Some ("100000" +:+ String "010" ""))) 8.

Lemma limited_host_ok : host_ok limited_host 250000 100000.
Proof. split; [vm_compute; reflexivity|vm_compute; reflexivity|lia|lia|cbn; lia]. Qed.

Definition auto_conf : Config.AgentSpec :=
  mkAgentSpec zero_Global (Some (mkUsageLimitsSpec (-1))) "" "".
Lemma agent_limit_witness : ∃ s n,
  runAgent (λ _ : unit, SleepQuerier (λ _, StatNotExist) (λ _, 0)) Some limited_host auto_conf [] = Ret s
  ∧ agent_postUsageLimits s = Ret [MUsageLimits n] ∧ is_limit limited_host 250000 100000 n.
Proof.
  destruct (agent_limit (λ _ : unit, SleepQuerier (λ _, StatNotExist) (λ _, 0)) Some limited_host auto_conf [] NewStore 250000 100000)
    as (s & n & E & Ep & _ & Hn & _).
  - exact limited_host_ok.
  - done.
  - split; cbn; lia.
  - exists s, n. split; [exact E|]. split; [exact Ep|]. by apply Hn.
Defined.

(** When the quota can be read and its period cannot, the period is taken to be one
    microsecond, and the limit is the quota itself. *)
Example quota_without_period :
  AutoConcurrentProcessLimit (mkHostInfo (files_of (Some "250000") None) 8) = Ret 250000.
Proof. vm_compute. reflexivity. Qed.
