(* ===== verification/LineBuffer.v ===== *)
(** * The line buffer and the log stream: [pkg/stream]

    [RingLineBuffer] keeps the last lines written to it in a ring ([container/ring]). Each
    [Write] cuts its argument into lines with a [bufio.Scanner] and stores the slices that
    the scanner returns, which point into the buffer of the scanner. The model has that
    buffer: a heap of byte arrays, slices into it, and the scanner's refill of its array. *)
From S2P Require Import Prelude.

Abbreviation bytes := (list ascii).
Definition nl : ascii := ascii_of_nat 10.
Definition cr : ascii := ascii_of_nat 13.

(** ** Arrays and slices *)

Record slice := mkSlice { s_arr : nat; s_off : nat; s_len : nat }.
Abbreviation arrays := (list bytes).

Definition array (h : arrays) (a : nat) : bytes := default [] (h !! a).
Definition bytes_of (h : arrays) (s : slice) : bytes := take (s_len s) (drop (s_off s) (array h (s_arr s))).

(** [copy(b[off:], src)] where there is room for [src]. *)
Definition blit (off : nat) (src b : bytes) : bytes := take off b ++ src ++ drop (off + length src) b.

(** ** bufio.Scanner over a bytes.Reader *)

Definition startBufSize : Z := 4096.
Definition MaxScanTokenSize : Z := 65536.

Record Scanner := mkScanner {
  sc_buf : nat;       (** the array, all of which is the buffer *)
  sc_start : nat;
  sc_end : nat;
  sc_eof : bool;      (** the reader has returned [io.EOF] *)
  sc_rest : bytes;    (** what the reader has not returned yet *)
}.

Fixpoint IndexByte (b : bytes) (c : ascii) : option nat :=
  match b with
  | [] => None
  | x :: b => if bool_decide (x = c) then Some 0%nat else S <$> IndexByte b c
  end.

Definition dropCR (data : bytes) : bytes :=
  if bool_decide (last data = Some cr) then removelast data else data.

(** How far to advance and the token, which starts where [data] does. *)
Definition ScanLines (data : bytes) (atEOF : bool) : nat * option bytes :=
  if atEOF && bool_decide (data = []) then (0%nat, None)
  else match IndexByte data nl with
       | Some i => (S i, Some (dropCR (take i data)))
       | None => if atEOF then (length data, Some (dropCR data)) else (0%nat, None)
       end.

(** Moving the unread bytes to the front of the array. *)
Definition shift (sc : Scanner) (h : arrays) : Scanner * arrays :=
  let b := array h (sc_buf sc) in
  if bool_decide (0 < sc_start sc)%nat &&
     (bool_decide (sc_end sc = length b) || bool_decide (Nat.div2 (length b) < sc_start sc)%nat)
  then (mkScanner (sc_buf sc) 0 (sc_end sc - sc_start sc) (sc_eof sc) (sc_rest sc),
        <[sc_buf sc := blit 0 (take (sc_end sc - sc_start sc) (drop (sc_start sc) b)) b]> h)
  else (sc, h).

(** A larger array when the present one is full; [None] is [ErrTooLong]. *)
Definition grow (sc : Scanner) (h : arrays) : option (Scanner * arrays) :=
  let b := array h (sc_buf sc) in
  if bool_decide (sc_end sc = length b) then
    if bool_decide (MaxScanTokenSize ≤ Z.of_nat (length b)) then None
    else
      let newSize := Z.of_nat (length b) * 2 in
      let newSize := if bool_decide (newSize = 0) then startBufSize else newSize in
      let newSize := Z.min newSize MaxScanTokenSize in
      let live := take (sc_end sc - sc_start sc) (drop (sc_start sc) b) in
      Some (mkScanner (length h) 0 (sc_end sc - sc_start sc) (sc_eof sc) (sc_rest sc),
            h ++ [blit 0 live (replicate (Z.to_nat newSize) zero)])
  else Some (sc, h).

(** One call of [Read] on the rest of the array. *)
Definition read (sc : Scanner) (h : arrays) : Scanner * arrays :=
  match sc_rest sc with
  | [] => (mkScanner (sc_buf sc) (sc_start sc) (sc_end sc) true [], h)
  | rest =>
      let b := array h (sc_buf sc) in
      let got := take (length b - sc_end sc) rest in
      (mkScanner (sc_buf sc) (sc_start sc) (sc_end sc + length got) false (drop (length got) rest),
       <[sc_buf sc := blit (sc_end sc) got b]> h)
  end.

Inductive scan_result :=
  | Token (t : slice) (sc : Scanner)
  | Again (sc : Scanner) (h : arrays)
  | Stop (h : arrays).

(** The bytes read and not yet returned. *)
Definition window (sc : Scanner) (h : arrays) : bytes :=
  take (sc_end sc - sc_start sc) (drop (sc_start sc) (array h (sc_buf sc))).

(** The token in them, if there is a whole one. *)
Definition next_token (sc : Scanner) (h : arrays) : nat * option bytes :=
  if bool_decide (sc_start sc < sc_end sc)%nat || sc_eof sc then ScanLines (window sc h) (sc_eof sc)
  else (0%nat, None).

(** More data, when there is none. *)
Definition refill (sc : Scanner) (h : arrays) : scan_result :=
  if sc_eof sc then Stop h
  else let '(sc, h) := shift sc h in
       match grow sc h with
       | None => Stop h
       | Some (sc, h) => let '(sc, h) := read sc h in Again sc h
       end.

(** One iteration of the loop of [Scan]. *)
Definition scan_iter (sc : Scanner) (h : arrays) : scan_result :=
  match next_token sc h with
  | (adv, Some t) =>
      Token (mkSlice (sc_buf sc) (sc_start sc) (length t))
        (mkScanner (sc_buf sc) (sc_start sc + adv) (sc_end sc) (sc_eof sc) (sc_rest sc))
  | (_, None) => refill sc h
  end.

(** ** The ring *)

(** [ring] holds the values of the ring, [first] and [last] are positions in it; [None] is
    the nil ring that [ring.New] makes for no elements. *)
Record RingLineBuffer := mkBuffer {
  maxLines : Z;
  curLines : Z;
  ring : option (list slice);
  first : nat;
  last_ : nat;
  mem : arrays;
}.

Definition NewRingLineBuffer (max : Z) (h : arrays) : RingLineBuffer :=
  mkBuffer max 0 (if bool_decide (max ≤ 0) then None else Some (replicate (Z.to_nat max) (mkSlice 0 0 0)))
    0 0 h.

Definition ring_next (cells : list slice) (i : nat) : nat := (S i mod length cells)%nat.

Definition set_mem (h : arrays) (wb : RingLineBuffer) : RingLineBuffer :=
  mkBuffer (maxLines wb) (curLines wb) (ring wb) (first wb) (last_ wb) h.

Definition writeLine (data : slice) (wb : RingLineBuffer) : go (RingLineBuffer * Z) :=
  match ring wb with
  | None => Panic "invalid memory address or nil pointer dereference"
  | Some cells =>
      let last' := ring_next cells (last_ wb) in
      let cells := <[last_ wb := data]> cells in
      let wb :=
        if bool_decide (curLines wb < maxLines wb)
        then mkBuffer (maxLines wb) (curLines wb + 1) (Some cells) (first wb) last' (mem wb)
        else mkBuffer (maxLines wb) (curLines wb) (Some cells) last' last' (mem wb) in
      Ret (wb, Z.of_nat (s_len data))
  end.

(** The loop of [Write]; [None] when the fuel is used up. *)
Fixpoint write_loop (fuel : nat) (sc : Scanner) (wb : RingLineBuffer) (total : Z) :
    option (go (RingLineBuffer * Z)) :=
  match fuel with
  | O => None
  | S fuel =>
      match scan_iter sc (mem wb) with
      | Stop h => Some (Ret (set_mem h wb, total))
      | Again sc h => write_loop fuel sc (set_mem h wb) total
      | Token t sc =>
          match writeLine t wb with
          | Ret (wb, n) => write_loop fuel sc wb (total + n)
          | Panic why => Some (Panic why)
          end
      end
  end.

(** [Write]; its error is always nil. The scanner starts with an empty buffer. *)
Definition write_fuel (data : bytes) : nat := 2 * length data + 3.
Definition Write (data : bytes) (wb : RingLineBuffer) : option (go (RingLineBuffer * Z)) :=
  write_loop (write_fuel data) (mkScanner (length (mem wb)) 0 0 false data)
    (set_mem (mem wb ++ [[]]) wb) 0.

Definition LineCount (wb : RingLineBuffer) : Z := curLines wb.
Definition MaxLines (wb : RingLineBuffer) : Z := maxLines wb.

(** The calls of [Foreach]: the position and the bytes that the slice shows now. *)
Definition Foreach (wb : RingLineBuffer) : list (nat * bytes) :=
  match ring wb with
  | None => []
  | Some cells =>
      (λ i, (i, bytes_of (mem wb) (default (mkSlice 0 0 0) (cells !! ((first wb + i) mod length cells)%nat))))
        <$> seq 0 (Z.to_nat (LineCount wb))
  end.

(** ** What it promises: the last lines *)

(** The lines of a text, without their ends; the last one may lack its end. *)
Fixpoint lines_from (acc data : bytes) : list bytes :=
  match data with
  | [] => if bool_decide (acc = []) then [] else [dropCR acc]
  | c :: data =>
      if bool_decide (c = nl) then dropCR acc :: lines_from [] data
      else lines_from (acc ++ [c]) data
  end.
Definition lines (data : bytes) : list bytes := lines_from [] data.

Definition last_lines (n : nat) {A} (l : list A) : list A := drop (length l - n) l.
Definition contents (wb : RingLineBuffer) : list bytes := (Foreach wb).*2.

Record buffer_ok (wb : RingLineBuffer) (cells : list slice) : Prop := {
  bo_ring : ring wb = Some cells;
  bo_max : Z.of_nat (length cells) = maxLines wb;
  bo_pos : 0 < maxLines wb;
  bo_cur : 0 ≤ curLines wb ≤ maxLines wb;
  bo_part : curLines wb < maxLines wb → first wb = 0%nat ∧ Z.of_nat (last_ wb) = curLines wb;
  bo_full : curLines wb = maxLines wb → first wb = last_ wb ∧ (last_ wb < length cells)%nat;
  bo_old : ∀ i s, cells !! i = Some s → Z.of_nat i < curLines wb → (s_arr s < length (mem wb))%nat;
}.

(** ** The ring keeps the last lines *)

Definition rotated (f : nat) {A} (l : list A) : list A := drop f l ++ take f l.

Lemma rotated_lookup {A} f (l : list A) i :
  (f < length l)%nat → (i < length l)%nat → rotated f l !! i = l !! ((f + i) mod length l)%nat.
Proof.
  intros Hf Hi. unfold rotated. destruct (decide (f + i < length l)%nat) as [H|H].
  - rewrite lookup_app_l, lookup_drop by (rewrite length_drop; lia). by rewrite Nat.mod_small.
  - rewrite lookup_app_r, length_drop by (rewrite length_drop; lia).
    replace ((f + i) mod length l)%nat with (f + i - length l)%nat.
    2:{ symmetry. rewrite <- (Nat.mod_small (f + i - length l) (length l)) by lia.
        rewrite <- (Nat.Div0.mod_add (f + i - length l) 1 (length l)). f_equal. lia. }
    rewrite lookup_take_lt by lia. f_equal. lia.
Qed.

Lemma contents_rotated wb cells :
  buffer_ok wb cells →
  contents wb = bytes_of (mem wb) <$> take (Z.to_nat (curLines wb)) (rotated (first wb) cells).
Proof.
  intros H. pose proof (bo_cur _ _ H). pose proof (bo_max _ _ H). pose proof (bo_pos _ _ H).
  assert (first wb < length cells)%nat as HF.
  { destruct (decide (curLines wb = maxLines wb)) as [E|E].
    - destruct (bo_full _ _ H E). lia.
    - destruct (bo_part _ _ H) as [-> _]; lia. }
  unfold contents, Foreach, LineCount. rewrite (bo_ring _ _ H). rewrite <- list_fmap_compose.
  apply list_eq. intros i. rewrite !list_lookup_fmap.
  destruct (decide (i < Z.to_nat (curLines wb))%nat) as [Hi|Hi].
  - rewrite lookup_seq_lt, lookup_take_lt, rotated_lookup by lia. cbn.
    destruct (cells !! _) as [s|] eqn:E; [done|]. apply lookup_ge_None in E.
    pose proof (Nat.mod_upper_bound (first wb + i) (length cells)). lia.
  - rewrite lookup_seq_ge, lookup_take_ge by lia. done.
Qed.

Lemma last_lines_snoc {A} n (l : list A) x : (length l < n)%nat → last_lines n (l ++ [x]) = l ++ [x].
Proof. intros H. unfold last_lines. rewrite length_app. cbn. by replace (length l + 1 - n)%nat with 0%nat by lia. Qed.

Lemma last_lines_full {A} n (l : list A) y x : length (y :: l) = n → last_lines n (y :: l ++ [x]) = l ++ [x].
Proof.
  intros <-. unfold last_lines. cbn [length]. rewrite length_app. cbn [length].
  by replace (S (length l + 1) - S (length l))%nat with 1%nat by lia.
Qed.

(** What [writeLine] does to the ring, and how the ring looks afterwards. *)
Definition written (s : slice) (wb wb' : RingLineBuffer) : Prop :=
  writeLine s wb = Ret (wb', Z.of_nat (s_len s)) ∧ mem wb' = mem wb ∧ maxLines wb' = maxLines wb ∧
  contents wb' = last_lines (Z.to_nat (maxLines wb)) (contents wb ++ [bytes_of (mem wb) s]) ∧
  ∃ cells', buffer_ok wb' cells'.

Lemma writeLine_part wb cells s :
  buffer_ok wb cells → (s_arr s < length (mem wb))%nat → curLines wb < maxLines wb → ∃ wb', written s wb wb'.
Proof.
  intros H HS Hlt. pose proof H as [HR HM HP HC HPa HFu HO]. destruct (HPa Hlt) as [HF HL].
  set (k := last_ wb) in *. assert (k < length cells)%nat by lia.
  set (wb' := mkBuffer (maxLines wb) (curLines wb + 1) (Some (<[k:=s]> cells)) (first wb) (ring_next cells k) (mem wb)).
  assert (buffer_ok wb' (<[k:=s]> cells)) as H'.
  { split; cbn; rewrite ?length_insert; try done; try lia.
    - intros Hl. split; [done|]. unfold ring_next. rewrite Nat.mod_small by lia. lia.
    - intros Hl. unfold ring_next. replace (S k) with (length cells) by lia.
      rewrite Nat.Div0.mod_same. lia.
    - intros i t [(<- & <- & _)|[Hne Hi]]%list_lookup_insert_Some Hl; [done|].
      eapply HO; [done|]. lia. }
  exists wb'. unfold written, writeLine. rewrite HR, bool_decide_true by done.
  split_and!; [done|done|done| |by eexists].
  rewrite (contents_rotated _ _ H), (contents_rotated _ _ H').
  unfold rotated. cbn [curLines first mem wb']. rewrite HF. cbn [take]. rewrite !drop_0, !app_nil_r.
  rewrite last_lines_snoc by (rewrite length_fmap, length_take; lia).
  rewrite insert_take_drop by lia. replace (Z.to_nat (curLines wb)) with k by lia.
  replace (Z.to_nat (curLines wb + 1)) with (S k) by lia.
  rewrite take_app_ge by (rewrite length_take; lia).
  rewrite length_take. replace (S k - k `min` length cells)%nat with 1%nat by lia.
  cbn. by rewrite fmap_app.
Qed.

(** Overwriting the oldest cell of a full ring and making the next one the first. *)
Lemma rotated_overwrite (cells : list slice) k s c :
  cells !! k = Some c →
  rotated k cells = c :: drop (S k) cells ++ take k cells ∧
  rotated (ring_next cells k) (<[k:=s]> cells) = drop (S k) cells ++ take k cells ++ [s].
Proof.
  intros Hc. pose proof (lookup_lt_Some _ _ _ Hc) as HL. unfold rotated, ring_next. split; [by rewrite (drop_S _ c k)|].
  rewrite insert_take_drop by done. destruct (decide (S k = length cells)) as [E|E].
  - rewrite E, Nat.Div0.mod_same. cbn [take]. rewrite drop_0, app_nil_r.
    by rewrite (drop_ge cells (length cells)).
  - rewrite Nat.mod_small by lia.
    rewrite drop_app_ge, take_app_ge by (rewrite length_take; lia). rewrite length_take.
    by replace (S k - k `min` length cells)%nat with 1%nat by lia.
Qed.

Lemma writeLine_full wb cells s :
  buffer_ok wb cells → (s_arr s < length (mem wb))%nat → curLines wb = maxLines wb → ∃ wb', written s wb wb'.
Proof.
  intros H HS He. pose proof H as [HR HM HP HC HPa HFu HO]. destruct (HFu He) as [HF HL].
  set (k := last_ wb) in *.
  set (wb' := mkBuffer (maxLines wb) (curLines wb) (Some (<[k:=s]> cells)) (ring_next cells k) (ring_next cells k) (mem wb)).
  assert (buffer_ok wb' (<[k:=s]> cells)) as H'.
  { split; cbn; rewrite ?length_insert; try done; try lia.
    - intros _. split; [done|]. apply Nat.mod_upper_bound. lia.
    - intros i t [(<- & <- & _)|[Hne Hi]]%list_lookup_insert_Some Hl; [done|by eapply HO]. }
  exists wb'. unfold written, writeLine. rewrite HR, bool_decide_false by lia.
  split_and!; [done|done|done| |by eexists].
  rewrite (contents_rotated _ _ H), (contents_rotated _ _ H'). cbn [curLines first mem wb']. rewrite HF.
  assert (∀ f (l : list slice), (length l ≤ Z.to_nat (curLines wb))%nat → take (Z.to_nat (curLines wb)) (rotated f l) = rotated f l) as HT.
  { intros f l Hl. apply take_ge. unfold rotated. rewrite length_app, length_drop, length_take. lia. }
  rewrite !HT by (rewrite ?length_insert; lia).
  destruct (lookup_lt_is_Some_2 cells k HL) as [c Hc]. destruct (rotated_overwrite cells k s c Hc) as [-> ->].
  cbn [fmap list_fmap app]. rewrite last_lines_full.
  - rewrite !fmap_app. by rewrite <- app_assoc.
  - cbn. rewrite length_fmap, length_app, length_drop, length_take. lia.
Qed.

(** [writeLine] appends its line and drops the oldest one when the ring is full. *)
Lemma writeLine_ok wb cells s :
  buffer_ok wb cells → (s_arr s < length (mem wb))%nat → ∃ wb', written s wb wb'.
Proof.
  intros H HS. pose proof (bo_cur _ _ H).
  destruct (decide (curLines wb = maxLines wb)); [by eapply writeLine_full|]. eapply writeLine_part; [done|done|]. lia.
Qed.

(** ** The scanner ends *)

Record scanner_ok (sc : Scanner) (h : arrays) : Prop := {
  so_buf : (sc_buf sc < length h)%nat;
  so_start : (sc_start sc ≤ sc_end sc)%nat;
  so_end : (sc_end sc ≤ length (array h (sc_buf sc)))%nat;
}.

Definition scan_measure (sc : Scanner) : nat :=
  2 * length (sc_rest sc) + (sc_end sc - sc_start sc) + if sc_eof sc then 0 else 1.

Lemma array_insert h a b : (a < length h)%nat → array (<[a:=b]> h) a = b.
Proof. intros H. unfold array. by rewrite list_lookup_insert_eq. Qed.

Lemma array_app_l h h' a : (a < length h)%nat → array (h ++ h') a = array h a.
Proof. intros H. unfold array. by rewrite lookup_app_l. Qed.

Lemma array_snoc h b : array (h ++ [b]) (length h) = b.
Proof. unfold array. by rewrite lookup_app_r, Nat.sub_diag. Qed.

Lemma blit_length off src b : (off + length src ≤ length b)%nat → length (blit off src b) = length b.
Proof. intros H. unfold blit. rewrite !length_app, length_take, length_drop. lia. Qed.

Lemma IndexByte_lt b c i : IndexByte b c = Some i → (i < length b)%nat.
Proof.
  revert i. induction b as [|x b IH]; intros i; cbn; [done|]. case_bool_decide; [intros [= <-]; lia|].
  intros (j & Hj & ->)%fmap_Some. specialize (IH j Hj). lia.
Qed.

Lemma ScanLines_advance data eof adv t :
  ScanLines data eof = (adv, Some t) → (1 ≤ adv ≤ length data)%nat.
Proof.
  unfold ScanLines. destruct eof, data as [|c data]; cbn [andb]; [done| | |].
  all: try (rewrite bool_decide_false by done); try (rewrite bool_decide_true by done).
  all: destruct (IndexByte _ nl) as [i|] eqn:E; intros [= <- <-].
  all: try apply IndexByte_lt in E; cbn in *; lia.
Qed.

Lemma shift_ok sc h :
  scanner_ok sc h → let '(sc', h') := shift sc h in
  scanner_ok sc' h' ∧ scan_measure sc' = scan_measure sc ∧ sc_eof sc' = sc_eof sc ∧ sc_rest sc' = sc_rest sc.
Proof.
  intros [HB HS HE]. unfold shift. destruct (_ && _); [|by split_and!].
  unfold scan_measure. cbn. split_and!; [|f_equal; lia|done|done].
  split; cbn; [by rewrite length_insert|lia|]. rewrite array_insert by done.
  rewrite blit_length; [lia|]. rewrite length_take, length_drop. lia.
Qed.

Lemma grow_ok sc h sc' h' :
  scanner_ok sc h → grow sc h = Some (sc', h') →
  scanner_ok sc' h' ∧ scan_measure sc' = scan_measure sc ∧ sc_eof sc' = sc_eof sc ∧ sc_rest sc' = sc_rest sc ∧
  (sc_end sc' < length (array h' (sc_buf sc')))%nat.
Proof.
  intros [HB HS HE]. unfold grow, startBufSize, MaxScanTokenSize. case_bool_decide as He.
  2:{ intros [= <- <-]. split_and!; [done..|]. lia. }
  case_bool_decide as HM; [done|]. intros [= <- <-]. unfold scan_measure. cbn [sc_buf sc_start sc_end sc_eof sc_rest].
  set (size := Z.to_nat _).
  assert (length (array h (sc_buf sc)) < size)%nat by (subst size; case_bool_decide; lia).
  assert (length (blit 0 (take (sc_end sc - sc_start sc) (drop (sc_start sc) (array h (sc_buf sc)))) (replicate size zero)) = size) as HL.
  { rewrite blit_length; [by rewrite length_replicate|]. rewrite length_replicate, length_take, length_drop. lia. }
  split_and!; [|f_equal; lia|done|done|].
  - split; cbn; [rewrite length_app; cbn; lia|lia|]. rewrite array_snoc, HL. lia.
  - rewrite array_snoc, HL. lia.
Qed.

Lemma read_ok sc h :
  scanner_ok sc h → sc_eof sc = false → (sc_end sc < length (array h (sc_buf sc)))%nat →
  let '(sc', h') := read sc h in scanner_ok sc' h' ∧ (scan_measure sc' < scan_measure sc)%nat.
Proof.
  intros [HB HS HE] Hf Hl. unfold read, scan_measure. rewrite Hf. destruct (sc_rest sc) as [|c rest] eqn:E; cbn [length].
  { split; [by split|]. cbn. lia. }
  set (got := take (length (array h (sc_buf sc)) - sc_end sc) (c :: rest)). assert (length got = (length (array h (sc_buf sc)) - sc_end sc) `min` S (length rest))%nat as HG
    by (subst got; by rewrite length_take).
  cbn [sc_buf sc_start sc_end sc_eof sc_rest]. rewrite length_drop. cbn [length]. split; [|lia].
  split; cbn; [by rewrite length_insert|lia|]. rewrite array_insert, blit_length by (try done; lia). lia.
Qed.

Lemma scan_iter_ok sc h :
  scanner_ok sc h →
  match scan_iter sc h with
  | Token t sc' => scanner_ok sc' h ∧ (scan_measure sc' < scan_measure sc)%nat ∧ (s_arr t < length h)%nat
  | Again sc' h' => scanner_ok sc' h' ∧ (scan_measure sc' < scan_measure sc)%nat
  | Stop _ => True
  end.
Proof.
  intros H. pose proof H as [HB HS HE]. unfold scan_iter.
  destruct (next_token sc h) as [adv [t|]] eqn:E.
  - unfold next_token in E. destruct (_ || _) in E; [|done]. apply ScanLines_advance in E as [E1 E2].
    unfold window in E2. rewrite length_take, length_drop in E2.
    split_and!; [split; cbn; lia| |done]. unfold scan_measure. cbn. lia.
  - unfold refill. destruct (sc_eof sc) eqn:Ef; [done|]. pose proof (shift_ok sc h H) as H1.
    destruct (shift sc h) as [sc1 h1]. destruct H1 as (H1 & M1 & F1 & _).
    destruct (grow sc1 h1) as [[sc2 h2]|] eqn:G; [|done].
    destruct (grow_ok _ _ _ _ H1 G) as (H2 & M2 & F2 & _ & L2).
    pose proof (read_ok sc2 h2 H2) as H3. destruct (read sc2 h2) as [sc3 h3].
    destruct H3 as [H3 M3]; [congruence|done|]. split; [done|]. lia.
Qed.

(** With fuel above the measure the loop returns. *)
Lemma write_loop_returns fuel : ∀ sc wb total,
  scanner_ok sc (mem wb) → (scan_measure sc < fuel)%nat → is_Some (write_loop fuel sc wb total).
Proof.
  induction fuel as [|fuel IH]; intros sc wb total H HM; [lia|]. cbn.
  pose proof (scan_iter_ok sc (mem wb) H) as HI. destruct (scan_iter sc (mem wb)) as [t sc'|sc' h'|h']; [| |by eexists].
  - destruct HI as (H' & HM' & _). unfold writeLine. destruct (ring wb); [|by eexists].
    apply IH; [|lia]. by case_bool_decide.
  - destruct HI as (H' & HM'). apply IH; [done|]. lia.
Qed.

(** ** Lines and tokens *)

Lemma lines_found acc data i :
  IndexByte data nl = Some i → lines_from acc data = dropCR (acc ++ take i data) :: lines (drop (S i) data).
Proof.
  revert acc i. induction data as [|c data IH]; intros acc i; cbn [IndexByte]; [done|].
  cbn [lines_from]. case_bool_decide; [intros [= <-]; by rewrite take_0, app_nil_r|].
  intros (j & Hj & ->)%fmap_Some. rewrite (IH _ _ Hj). cbn. by rewrite <- app_assoc.
Qed.

Lemma lines_rest acc data :
  IndexByte data nl = None →
  lines_from acc data = if bool_decide (acc ++ data = []) then [] else [dropCR (acc ++ data)].
Proof.
  revert acc. induction data as [|c data IH]; intros acc; cbn [IndexByte lines_from]; [by rewrite app_nil_r|].
  case_bool_decide; [done|]. destruct (IndexByte data nl) eqn:E; [done|]. intros _. rewrite IH by done.
  by rewrite <- app_assoc.
Qed.

Lemma dropCR_prefix t : ∃ k, t = dropCR t ++ k.
Proof.
  unfold dropCR. case_bool_decide as H; [|exists []; by rewrite app_nil_r].
  destruct t as [|c t] using rev_ind; [done|]. exists [c]. by rewrite removelast_last.
Qed.

Lemma dropCR_take t : take (length (dropCR t)) t = dropCR t.
Proof. destruct (dropCR_prefix t) as [k Hk]. rewrite Hk at 2. by rewrite take_app_length. Qed.

Lemma dropCR_length t : (length (dropCR t) ≤ length t)%nat.
Proof. destruct (dropCR_prefix t) as [k Hk]. rewrite Hk at 2. rewrite length_app. lia. Qed.

Lemma last_lines_app {A} n (l m : list A) : last_lines n (last_lines n l ++ m) = last_lines n (l ++ m).
Proof.
  unfold last_lines. rewrite !length_app, length_drop.
  destruct (decide (length l ≤ n)%nat) as [H|H].
  - replace (length l - n)%nat with 0%nat by lia. by rewrite drop_0, Nat.sub_0_r.
  - set (k := (length l - n)%nat). set (j := (length l - k + length m - n)%nat).
    replace (length l + length m - n)%nat with (length (take k l) + j)%nat by (rewrite length_take; lia).
    replace (l ++ m) with (take k l ++ drop k l ++ m) by (by rewrite app_assoc, take_drop).
    by rewrite <- drop_drop, drop_app_length.
Qed.

Definition total_length (ls : list bytes) : Z := foldr (λ l n, Z.of_nat (length l) + n) 0 ls.

(** ** A short text is written line by line *)

Section short_text.
Context (data pad : bytes) (b : nat)
  (Hshort : (length data ≤ 2048)%nat) (Hfull : length (data ++ pad) = Z.to_nat startBufSize).

(** The scanner at [start] of a text that fills at most half of its array. *)
Definition at_text (start : nat) (eof : bool) : Scanner := mkScanner b start (length data) eof [].

Lemma window_text h start eof :
  array h b = data ++ pad → (start ≤ length data)%nat → window (at_text start eof) h = drop start data.
Proof.
  intros HA HS. unfold window. cbn. rewrite HA, drop_app_le by done.
  by rewrite <- length_drop, take_app_length.
Qed.

Lemma bytes_text h start n :
  array h b = data ++ pad → (start ≤ length data)%nat → (n ≤ length (drop start data))%nat →
  bytes_of h (mkSlice b start n) = take n (drop start data).
Proof. intros HA HS Hn. unfold bytes_of. cbn. rewrite HA, drop_app_le, take_app_le by done. done. Qed.

Lemma refill_text h start :
  array h b = data ++ pad → (start ≤ length data)%nat → refill (at_text start false) h = Again (at_text start true) h.
Proof.
  intros HA HS. unfold startBufSize in Hfull.
  assert (length (array h b) = 4096)%nat as HL by (rewrite HA, Hfull; lia).
  unfold refill, shift, grow, read. cbn [at_text sc_buf sc_start sc_end sc_eof sc_rest].
  rewrite HL, (bool_decide_false (length data = 4096%nat)) by lia.
  rewrite (bool_decide_false (Nat.div2 4096 < start)%nat) by (cbn; lia). rewrite andb_false_r.
  cbn [sc_buf sc_start sc_end sc_eof sc_rest at_text]. by rewrite ?HL, ?(bool_decide_false (length data = 4096%nat)) by lia.
Qed.

(** One iteration in terms of the lines that are left. *)
Lemma scan_text h start eof :
  array h b = data ++ pad → (start ≤ length data)%nat →
  match lines (drop start data) with
  | [] => scan_iter (at_text start eof) h = if eof then Stop h else Again (at_text start true) h
  | l :: ls =>
      scan_iter (at_text start eof) h = Again (at_text start true) h ∧ eof = false ∨
      ∃ next, scan_iter (at_text start eof) h = Token (mkSlice b start (length l)) (at_text next eof) ∧
        (start < next ≤ length data)%nat ∧ lines (drop next data) = ls ∧
        bytes_of h (mkSlice b start (length l)) = l
  end.
Proof.
  intros HA HS. pose proof (length_drop data start) as HD.
  pose proof (window_text h start eof HA HS) as HW. unfold lines, scan_iter, next_token. rewrite HW.
  cbn [at_text sc_start sc_end sc_eof]. unfold ScanLines.
  destruct (IndexByte (drop start data) nl) as [i|] eqn:E.
  - pose proof (IndexByte_lt _ _ _ E) as Hi. rewrite (lines_found _ _ _ E). cbn [app]. right. exists (start + S i)%nat.
    rewrite bool_decide_true by lia. rewrite (bool_decide_false (drop start data = [])) by (intros N; rewrite N in Hi; cbn in Hi; lia).
    cbn [orb]. rewrite andb_false_r. rewrite drop_drop. split_and!; [done|lia|lia|done|].
    pose proof (dropCR_length (take i (drop start data))) as HC. rewrite length_take in HC.
    rewrite bytes_text by (try done; lia).
    rewrite <- (dropCR_take (take i (drop start data))) at 2. rewrite take_take. f_equal. lia.
  - rewrite (lines_rest _ _ E). cbn [app]. case_bool_decide as HN.
    + rewrite bool_decide_false by (rewrite HN in HD; cbn in HD; lia). cbn [orb].
      destruct eof; cbn [andb]; [done|]. by apply refill_text.
    + destruct eof; cbn [andb orb].
      * rewrite orb_true_r. right. exists (start + length (drop start data))%nat.
        assert (0 < length (drop start data))%nat by (destruct (drop start data); [done|cbn; lia]).
        pose proof (dropCR_length (drop start data)).
        split_and!; [done|lia|lia|rewrite drop_ge by lia; done|].
        rewrite bytes_text by (try done; lia). apply dropCR_take.
      * left. split; [|done]. destruct (bool_decide _ || _); by apply refill_text.
Qed.

Lemma write_text fuel : ∀ start eof wb cells total,
  array (mem wb) b = data ++ pad → (b < length (mem wb))%nat → (start ≤ length data)%nat → buffer_ok wb cells →
  (scan_measure (at_text start eof) < fuel)%nat →
  ∃ wb' cells', write_loop fuel (at_text start eof) wb total = Some (Ret (wb', total + total_length (lines (drop start data)))) ∧
    buffer_ok wb' cells' ∧ maxLines wb' = maxLines wb ∧
    contents wb' = last_lines (Z.to_nat (maxLines wb)) (contents wb ++ lines (drop start data)).
Proof.
  induction fuel as [|fuel IH]; intros start eof wb cells total HA HB HS HO HM; [lia|].
  cbn [write_loop]. pose proof (scan_text (mem wb) start eof HA HS) as HT.
  assert (∀ wb, set_mem (mem wb) wb = wb) as Hset by (by intros []).
  destruct (lines (drop start data)) as [|l ls] eqn:EL.
  - rewrite HT. destruct eof.
    + exists wb, cells. rewrite Hset, Z.add_0_r, app_nil_r. split_and!; [done|done|done|].
      unfold last_lines. rewrite (contents_rotated _ _ HO), length_fmap, length_take.
      pose proof (bo_cur _ _ HO). match goal with |- _ = drop ?k _ => replace k with 0%nat by lia end. done.
    + rewrite Hset. rewrite <- EL. apply (IH start true wb cells); try done. unfold scan_measure in *. cbn in *. lia.
  - destruct HT as [[-> ->]|(next & -> & Hn & <- & Hl)].
    + rewrite Hset, <- EL. apply (IH start true wb cells); try done. unfold scan_measure in *. cbn in *. lia.
    + destruct (writeLine_ok wb cells (mkSlice b start (length l)) HO HB) as (wb1 & -> & E1 & E2 & E3 & cells1 & O1). cbn [s_len].
      destruct (IH next eof wb1 cells1 (total + Z.of_nat (length l))) as (wb2 & cells2 & -> & O2 & E4 & E5).
      { by rewrite E1. } { by rewrite E1. } { lia. } { done. } { unfold scan_measure in *. cbn in *. lia. }
      exists wb2, cells2. split_and!; [|done|congruence|].
      * by rewrite <- Z.add_assoc.
      * by rewrite E5, E3, E2, last_lines_app, <- app_assoc, Hl.
Qed.
End short_text.

(** The first iteration allocates the array and reads a short text at once. *)
Lemma scan_first (data : bytes) (m : arrays) :
  (length data ≤ 2048)%nat →
  let text := data ++ drop (length data) (replicate (Z.to_nat startBufSize) zero) in
  length text = Z.to_nat startBufSize ∧
  scan_iter (mkScanner (length m) 0 0 false data) (m ++ [[]]) =
    Again (at_text data (S (length m)) 0 (bool_decide (data = []))) ((m ++ [[]]) ++ [text]).
Proof.
  intros HS. cbn zeta. unfold startBufSize.
  assert (length (m ++ [[]]) = S (length m)) as HL by (rewrite length_app; cbn; lia).
  split; [rewrite length_app, length_drop, length_replicate; lia|].
  unfold scan_iter, next_token, refill, shift, grow. cbn [sc_buf sc_start sc_end sc_eof sc_rest].
  rewrite !(bool_decide_false (0 < 0)%nat) by lia. cbn [orb andb sc_buf sc_start sc_end sc_eof sc_rest].
  rewrite array_snoc. cbn [length take drop]. rewrite !bool_decide_true by done.
  rewrite bool_decide_false by (unfold MaxScanTokenSize; cbn; lia).
  change (Z.min _ MaxScanTokenSize) with 4096. change (0 - 0)%nat with 0%nat. cbn [take].
  assert (blit 0 [] (replicate (Z.to_nat 4096) zero) = replicate (Z.to_nat 4096) zero) as -> by (unfold blit; cbn [take app length Nat.add]; by rewrite drop_0).
  unfold read. cbn [sc_buf sc_start sc_end sc_eof sc_rest]. rewrite array_snoc, length_replicate.
  destruct data as [|c data]; [by rewrite HL, bool_decide_true|]. rewrite bool_decide_false by done.
  rewrite Nat.sub_0_r, (take_ge (c :: data)), drop_ge by lia. unfold at_text. rewrite Nat.add_0_l.
  rewrite insert_app_r_alt, Nat.sub_diag by lia. by rewrite HL.
Qed.

(** Allocations do not change what the lines show. *)
Lemma contents_alloc wb cells extra :
  buffer_ok wb cells →
  buffer_ok (set_mem (mem wb ++ extra) wb) cells ∧ contents (set_mem (mem wb ++ extra) wb) = contents wb.
Proof.
  intros HO. assert (buffer_ok (set_mem (mem wb ++ extra) wb) cells) as HO'.
  { destruct HO. split; cbn; try done. intros i s Hi Hc. rewrite length_app. specialize (bo_old0 i s Hi Hc). lia. }
  split; [done|]. rewrite (contents_rotated _ _ HO), (contents_rotated _ _ HO'). cbn [set_mem mem curLines first].
  apply list_fmap_ext. intros j s [Hj Hl]%lookup_take_Some.
  pose proof (bo_cur _ _ HO). pose proof (bo_max _ _ HO). pose proof (bo_pos _ _ HO).
  assert (∃ i, cells !! i = Some s ∧ Z.of_nat i < curLines wb) as (i & Hi & Hc).
  { destruct (decide (curLines wb = maxLines wb)) as [E|E].
    - destruct (bo_full _ _ HO E) as [HF HL]. rewrite rotated_lookup in Hj by lia. eexists; split; [done|].
      apply lookup_lt_Some in Hj. lia.
    - destruct (bo_part _ _ HO) as [HF HL]; [lia|]. rewrite rotated_lookup, HF, Nat.add_0_l, Nat.mod_small in Hj by lia.
      exists j. split; [done|]. lia. }
  unfold bytes_of. by rewrite array_app_l by (by eapply (bo_old _ _ HO)).
Qed.

Lemma write_short data wb cells :
  buffer_ok wb cells → (length data ≤ 2048)%nat →
  ∃ wb' cells', Write data wb = Some (Ret (wb', total_length (lines data))) ∧ buffer_ok wb' cells' ∧
    maxLines wb' = maxLines wb ∧
    contents wb' = last_lines (Z.to_nat (maxLines wb)) (contents wb ++ lines data).
Proof.
  intros HO HS. destruct (scan_first data (mem wb) HS) as [HT HI].
  set (pad := drop (length data) _) in *. unfold Write, write_fuel.
  replace (2 * length data + 3)%nat with (S (2 * length data + 2)) by lia. cbn [write_loop].
  change (mem (set_mem (mem wb ++ [[]]) wb)) with (mem wb ++ [[]]).
  rewrite HI. rewrite <- (app_assoc (mem wb)).
  destruct (contents_alloc wb cells ([[]] ++ [data ++ pad]) HO) as [HO' HC]. set (h := mem wb ++ [[]] ++ [data ++ pad]) in *.
  change (set_mem h (set_mem (mem wb ++ [[]]) wb)) with (set_mem h wb).
  destruct (write_text data pad (S (length (mem wb))) HS HT (2 * length data + 2) 0 (bool_decide (data = [])) (set_mem h wb) cells 0)
    as (wb' & cells' & -> & H1 & H2 & H3); try done.
  - subst h. unfold array. cbn [set_mem mem]. rewrite lookup_app_r by lia.
    by replace (S (length (mem wb)) - length (mem wb))%nat with 1%nat by lia.
  - subst h. cbn [set_mem mem]. rewrite length_app. cbn. lia.
  - lia.
  - unfold scan_measure. cbn. destruct (bool_decide _); lia.
  - exists wb', cells'. rewrite Z.add_0_l, drop_0 in *. split_and!; [done|done|done|]. rewrite H3, HC. done.
Qed.

Lemma new_buffer_ok max h : 0 < max → buffer_ok (NewRingLineBuffer max h) (replicate (Z.to_nat max) (mkSlice 0 0 0)).
Proof.
  intros H. split; cbn; rewrite ?bool_decide_false, ?length_replicate by lia; try done; try lia.
Qed.

Lemma new_contents max h : contents (NewRingLineBuffer max h) = [].
Proof. unfold contents, Foreach. cbn. by destruct (bool_decide (max ≤ 0)). Qed.

(** A history of writes; the buffer is one that never ran out of fuel and never panicked. *)
Fixpoint write_all (texts : list bytes) (wb : RingLineBuffer) : option (go RingLineBuffer) :=
  match texts with
  | [] => Some (Ret wb)
  | t :: texts =>
      match Write t wb with
      | Some (Ret (wb, _)) => write_all texts wb
      | Some (Panic w) => Some (Panic w)
      | None => None
      end
  end.

Lemma write_all_short texts : ∀ wb cells,
  buffer_ok wb cells → Forall (λ t : bytes, (length t ≤ 2048)%nat) texts →
  ∃ wb' cells', write_all texts wb = Some (Ret wb') ∧ buffer_ok wb' cells' ∧ maxLines wb' = maxLines wb ∧
    contents wb' = last_lines (Z.to_nat (maxLines wb)) (contents wb ++ concat (lines <$> texts)).
Proof.
  induction texts as [|t texts IH]; intros wb cells HO HF.
  - exists wb, cells. cbn. rewrite app_nil_r. split_and!; [done..|]. unfold last_lines.
    rewrite (contents_rotated _ _ HO), length_fmap, length_take. pose proof (bo_cur _ _ HO).
    match goal with |- _ = drop ?k _ => replace k with 0%nat by lia end. done.
  - apply Forall_cons in HF as [Ht HF]. destruct (write_short t wb cells HO Ht) as (wb1 & cells1 & E1 & O1 & M1 & C1).
    destruct (IH wb1 cells1 O1 HF) as (wb2 & cells2 & E2 & O2 & M2 & C2). exists wb2, cells2. cbn [write_all]. rewrite E1.
    split_and!; [done|done|congruence|]. by rewrite C2, C1, M1, last_lines_app, <- app_assoc.
Qed.

(** ** Properties *)

(** C37: The buffer refines "the last [max] lines". After any sequence of writes of texts of
    at most 2048 bytes (which is half of the scanner's first array) into a new buffer with
    room for [max > 0] lines, nothing panicked, [LineCount] is the number of lines written
    or [max] if that is less, and [Foreach] calls its function, with the positions in
    order, with exactly the last [max] lines of everything written. *)
Theorem line_buffer_refines (max : Z) (texts : list bytes) (HM : 0 < max)
    (HT : Forall (λ t : bytes, (length t ≤ 2048)%nat) texts) :
  let all := concat (lines <$> texts) in
  ∃ wb, write_all texts (NewRingLineBuffer max []) = Some (Ret wb) ∧
    MaxLines wb = max ∧ LineCount wb = Z.min max (Z.of_nat (length all)) ∧
    (Foreach wb).*2 = last_lines (Z.to_nat max) all ∧
    (Foreach wb).*1 = seq 0 (length (Foreach wb)).
Proof.
  cbn zeta. destruct (write_all_short texts _ _ (new_buffer_ok max [] HM) HT) as (wb & cells & E & O & M & C).
  rewrite new_contents in C. cbn [app maxLines NewRingLineBuffer] in M, C.
  exists wb. split_and!; [done|done| |done|].
  - apply (f_equal length) in C. rewrite (contents_rotated _ _ O) in C.
    pose proof (bo_cur _ _ O). pose proof (bo_max _ _ O).
    unfold rotated in C. rewrite length_fmap, length_take, length_app, length_drop, length_take in C.
    unfold last_lines in C. rewrite length_drop in C. unfold LineCount. lia.
  - unfold Foreach. rewrite (bo_ring _ _ O), <- list_fmap_compose, length_fmap, length_seq.
    rewrite <- (list_fmap_id (seq 0 (Z.to_nat (LineCount wb)))) at 2. by apply list_fmap_ext.
Qed.

Definition text_of (s : string) : bytes := String.list_ascii_of_string s.
Definition abc : list bytes := [text_of "one"; text_of "two" ++ [nl] ++ text_of "three" ++ [cr; nl]; text_of "four"].

Lemma line_buffer_refines_witness :
  ∃ wb, write_all abc (NewRingLineBuffer 2 []) = Some (Ret wb) ∧
    (Foreach wb).*2 = [text_of "three"; text_of "four"].
Proof.
  destruct (line_buffer_refines 2 abc) as (wb & H1 & _ & _ & H2 & _); [lia| |].
  - repeat (apply Forall_cons_2; [apply Nat.leb_le; vm_compute; done|]). apply Forall_nil_2.
  - exists wb. split; [done|]. rewrite H2. by vm_compute.
Defined.

(** Every [Write] returns, whatever the text: the scanner reads on or returns a token that
    is not behind it, and the loop has fuel for all of that. *)
Theorem Write_returns (data : bytes) (wb : RingLineBuffer) : is_Some (Write data wb).
Proof.
  unfold Write. apply write_loop_returns.
  - split; cbn; [rewrite length_app; cbn; lia|lia|lia].
  - unfold scan_measure, write_fuel. cbn. lia.
Qed.

(** The returned count leaves out the line ends, with a nil error: a text of one line with
    its end is reported as a short write, which [io.Copy] and its like turn into an error. *)
Theorem Write_short_count :
  ∃ wb, Write (text_of "hello" ++ [nl]) (NewRingLineBuffer 4 []) = Some (Ret (wb, 5)).
Proof. eexists. vm_compute. done. Qed.

(** A buffer for no lines panics at the first line. *)
Theorem no_lines_panics (max : Z) (HM : max ≤ 0) :
  Write (text_of "x") (NewRingLineBuffer max []) = Some (Panic "invalid memory address or nil pointer dereference").
Proof. unfold Write, NewRingLineBuffer. rewrite bool_decide_true by done. vm_compute. done. Qed.

(** Larger texts are damaged, because the lines alias the scanner's array: when the text
    fills more than half of it and its last line has no end, that line is moved to the
    front of the array before the end of the input is known, over the first line stored. *)
Definition long_text : bytes := text_of "first" ++ [nl] ++ replicate 2100 (ascii_of_nat 46) ++ [nl] ++ text_of "LAST!".

Theorem Write_overwrites :
  ∃ wb n, Write long_text (NewRingLineBuffer 3 []) = Some (Ret (wb, n)) ∧
    head (contents wb) = Some (text_of "LAST!") ∧ head (lines long_text) = Some (text_of "first").
Proof. eexists _, _. split_and!; vm_compute; done. Qed.

(** ** The log stream

    [NewLogStream] redraws a frame in place: it moves the cursor up by the lines of the last
    frame, lets the renderer fill header, contents and footer, and prints the three, each
    line with an end. *)

(** The tokens of a text; each is used before the scanner goes on. *)
Fixpoint scan_all (fuel : nat) (sc : Scanner) (h : arrays) : option (list bytes) :=
  match fuel with
  | O => None
  | S fuel =>
      match scan_iter sc h with
      | Stop _ => Some []
      | Again sc h => scan_all fuel sc h
      | Token t sc => (bytes_of h t ::.) <$> scan_all fuel sc h
      end
  end.
Definition scan_text_lines (data : bytes) : option (list bytes) :=
  scan_all (write_fuel data) (mkScanner 0 0 0 false data) [[]].

Inductive console_op :=
  | CursorUp
  | Column0
  | HideCursor
  | ShowCursor
  | Print (line : bytes)
  | NewLine.

Record LogStreamOptions := mkLogOptions { lo_height : Z; lo_delay : Z }.
Definition defaultLogStreamOptions : LogStreamOptions := mkLogOptions 5 125000000.
Definition WithMaxHeight (height : Z) (o : LogStreamOptions) : LogStreamOptions := mkLogOptions height (lo_delay o).
Definition WithDelay (delay : Z) (o : LogStreamOptions) : LogStreamOptions := mkLogOptions (lo_height o) delay.

(** What the renderer writes in one call. *)
Record rendering := mkRendering { r_header : bytes; r_contents : list bytes; r_footer : bytes }.

Record log_stream := mkLogStream { renderedLines : Z; ls_contents : RingLineBuffer }.

Definition NewLogStream (opts : list (LogStreamOptions → LogStreamOptions)) : log_stream :=
  let options := fold_left (λ o op, op o) opts defaultLogStreamOptions in
  mkLogStream 0 (NewRingLineBuffer (lo_height options) []).

Section log_stream.
(** The error of writing a line to the console. *)
Context (console_err : bytes → option error).

(** Header and footer: an error of the console is a panic. *)
Definition print_checked (ls : list bytes) : go (list console_op) :=
  foldr (λ l ops, match console_err l with
                  | Some err => Panic (error_text err)
                  | None => ops ≫= λ ops, Ret (Print l :: NewLine :: ops)
                  end) (Ret []) ls.

(** The contents: errors are ignored. *)
Definition print_contents (ls : list bytes) : list console_op := l ← ls; [Print l; NewLine].

(** One round of the loop, up to the wait; [None] only without fuel, which the scanner
    never is. *)
Definition draw_frame (r : rendering) (s : log_stream) : option (go (list console_op * log_stream)) :=
  match write_all (r_contents r) (ls_contents s), scan_text_lines (r_header r), scan_text_lines (r_footer r) with
  | Some contents', Some hs, Some fs => Some (
      wb ← contents';
      h ← print_checked hs;
      f ← print_checked fs;
      let shown := contents wb in
      Ret (replicate (Z.to_nat (renderedLines s)) CursorUp ++ [Column0; HideCursor] ++
             h ++ print_contents shown ++ f ++ [ShowCursor],
           mkLogStream (Z.of_nat (length hs) + Z.of_nat (length shown) + Z.of_nat (length fs)) wb))
  | _, _, _ => None
  end.

(** The row of the cursor, on a console with enough rows and columns. *)
Definition cursor_row (ops : list console_op) (row : Z) : Z :=
  fold_left (λ row op, match op with CursorUp => row - 1 | NewLine => row + 1 | _ => row end) ops row.

Lemma cursor_app o1 o2 row : cursor_row (o1 ++ o2) row = cursor_row o2 (cursor_row o1 row).
Proof. apply fold_left_app. Qed.

Lemma cursor_up n row : cursor_row (replicate n CursorUp) row = row - Z.of_nat n.
Proof. revert row. induction n as [|n IH]; intros row; cbn; [lia|]. unfold cursor_row in IH. rewrite IH. lia. Qed.

Lemma cursor_contents ls row : cursor_row (print_contents ls) row = row + Z.of_nat (length ls).
Proof.
  revert row. induction ls as [|l ls IH]; intros row; [cbn; lia|].
  change (print_contents (l :: ls)) with ([Print l; NewLine] ++ print_contents ls). rewrite cursor_app, IH. cbn. lia.
Qed.

Lemma cursor_checked ls ops row : print_checked ls = Ret ops → cursor_row ops row = row + Z.of_nat (length ls).
Proof.
  intros H. assert (ops = print_contents ls) as ->; [|apply cursor_contents].
  revert ops H. induction ls as [|l ls IH]; intros ops H; cbn in H; [by inv_ret|].
  destruct (console_err l); [done|]. inv_ret. rewrite (IH x) by done. done.
Qed.

(** Every frame is drawn over the last one: when the cursor stands [renderedLines] rows below
    the place where the frames begin, the next frame begins there too, and leaves the cursor
    as many rows below it as it reports. *)
Theorem frame_in_place (r : rendering) (s s' : log_stream) (ops : list console_op) (top : Z)
    (HD : draw_frame r s = Some (Ret (ops, s'))) (HP : 0 ≤ renderedLines s) :
  cursor_row ops (top + renderedLines s) = top + renderedLines s' ∧ 0 ≤ renderedLines s' ∧
  ∃ up rest, ops = up ++ rest ∧ cursor_row up (top + renderedLines s) = top ∧ CursorUp ∉ rest.
Proof.
  unfold draw_frame in HD. destruct (write_all _ _) as [c|], (scan_text_lines (r_header r)) as [hs|], (scan_text_lines (r_footer r)) as [fs|]; try done.
  injection HD as HD. inv_ret. cbn [renderedLines].
  assert (∀ ls o, print_checked ls = Ret o → CursorUp ∉ o) as HN.
  { intros ls. induction ls as [|l ls IH]; intros o E; cbn in E; [inv_ret; set_solver|].
    destruct (console_err l); [done|]. apply go_bind_Ret_inv in E as (o' & Eo & [= <-]).
    specialize (IH _ Eo). set_solver. }
  assert (∀ ls, CursorUp ∉ print_contents ls) as HC.
  { intros ls. induction ls as [|l ls IH]; [set_solver|].
    change (print_contents (l :: ls)) with ([Print l; NewLine] ++ print_contents ls). set_solver. }
  split_and!; [|lia|].
  - change (Column0 :: HideCursor :: x0 ++ ?l) with ([Column0; HideCursor] ++ x0 ++ l).
    rewrite !cursor_app, cursor_up, (cursor_checked fs x1), cursor_contents, (cursor_checked hs x0) by done.
    cbn. lia.
  - eexists (replicate _ CursorUp), _. split_and!; [done| |].
    + rewrite cursor_up. lia.
    + specialize (HN _ _ H0) as N1. specialize (HN _ _ H1) as N2. specialize (HC (contents x)). set_solver.
Qed.
End log_stream.

Lemma frame_in_place_witness :
  ∃ ops s', draw_frame (λ _, None) (mkRendering (text_of "building") [text_of "a.c"; text_of "b.c"] (text_of "50%"))
      (mkLogStream 3 (NewRingLineBuffer 5 [])) = Some (Ret (ops, s')) ∧
    cursor_row ops (10 + 3) = 10 + renderedLines s'.
Proof.
  destruct (draw_frame (λ _, None) (mkRendering (text_of "building") [text_of "a.c"; text_of "b.c"] (text_of "50%"))
      (mkLogStream 3 (NewRingLineBuffer 5 []))) as [[[ops s']|w]|] eqn:E.
  2, 3: exfalso; vm_compute in E; discriminate E.
  exists ops, s'. split; [done|]. by apply (frame_in_place _ _ _ _ _ 10 E).
Defined.
