(* ===== verification/Followers.v ===== *)
(** * Handlers of providers that keep a table: users of [clients.MetricsListener]

    Several parts start a goroutine for each provider of the monitor
    ([MetricsClient.doUpdate]); the goroutine enters the provider into a table and removes it
    when its context ends. This file has what they share: the table lists exactly the
    providers whose handler is between the two. *)
From S2P Require Import Prelude MetricsClient.

Lemma run_labels_compose {St Lb} (f : Lb → St → option St) l1 l2 s s1 s2 :
  run_labels f l1 s = Some s1 → run_labels f l2 s1 = Some s2 → run_labels f (l1 ++ l2) s = Some s2.
Proof.
  revert s. induction l1 as [|l l1 IH]; intros s; cbn; [by intros [= ->]|].
  intros (x & -> & Hx)%bind_Some Hl. cbn. by apply IH.
Qed.

Section followers.
(** The program points of a handler, and those between entering the table and leaving it. *)
Context {PC A : Type} (holding : PC → bool).

Definition attached (p : provider_listener) (hs : list PC) (i : nat) (uuid : string) : Prop :=
  ∃ pc, hs !! i = Some pc ∧ holding pc = true ∧ started p !! i = Some (uuid, i).

(** The part of the invariant about providers, handlers and records. *)
Record followed (p : provider_listener) (hs : list PC) (ag : gmap string A) : Prop := {
  fo_prov : listener_ok p;
  fo_len : length hs = length (started p);
  fo_agents : ∀ u, is_Some (ag !! u) ↔ ∃ i, attached p hs i u;
  fo_uniq : ∀ i j u, attached p hs i u → attached p hs j u → i = j;
}.

Lemma started_self p i u c : listener_ok p → started p !! i = Some (u, c) → c = i.
Proof. intros H. apply (lo_ctx _ H). Qed.

Lemma attached_put p hs i pc k u :
  (i < length hs)%nat →
  attached p (<[i:=pc]> hs) k u ↔
    (k = i ∧ holding pc = true ∧ started p !! i = Some (u, i)) ∨ (k ≠ i ∧ attached p hs k u).
Proof.
  intros Hi. unfold attached. destruct (decide (k = i)) as [->|Hne].
  - rewrite list_lookup_insert_eq by done. naive_solver.
  - rewrite list_lookup_insert_ne by done. naive_solver.
Qed.

(** A handler that is not attached before or after a step. *)
Lemma followed_put p hs ag i pc pc' :
  followed p hs ag → hs !! i = Some pc → holding pc' = holding pc → followed p (<[i:=pc']> hs) ag.
Proof.
  intros [HP HL HA HU] Hi He. pose proof (lookup_lt_Some _ _ _ Hi) as Hlt.
  assert (∀ k u, attached p (<[i:=pc']> hs) k u ↔ attached p hs k u) as E.
  { intros k u. rewrite attached_put by done. unfold attached. split.
    - intros [(-> & Hh & Hs)|[_ ?]]; [|done]. exists pc. by rewrite <- He.
    - intros Ha. destruct (decide (k = i)) as [->|]; [left|by right]. destruct Ha as (q & Hq & Hh & Hs).
      assert (q = pc) as -> by congruence. by rewrite He. }
  split; [done|by rewrite length_insert| |].
  - intros u. rewrite HA. by setoid_rewrite E.
  - intros a b u. rewrite !E. apply HU.
Qed.

(** A record is stored for a handler that had none, and nobody else has one. *)
Lemma followed_store p hs ag i pc0 pc u c a :
  followed p hs ag → hs !! i = Some pc0 → holding pc0 = false → started p !! i = Some (u, c) → ag !! u = None →
  holding pc = true → followed p (<[i:=pc]> hs) (<[u:=a]> ag).
Proof.
  intros [HP HL HA HU] Hi Hh0 Hs Hn Hh. pose proof (lookup_lt_Some _ _ _ Hi) as Hlt.
  assert (c = i) as -> by (by eapply started_self).
  assert (∀ k, ¬ attached p hs k u) as Hno.
  { intros k Hk. assert (is_Some (ag !! u)) as [? ?] by (apply HA; by exists k). congruence. }
  split; [done|by rewrite length_insert| |].
  - intros v. destruct (decide (v = u)) as [->|Hne].
    + rewrite lookup_insert_eq. split; [|by eauto]. intros _. exists i. rewrite attached_put by done. by left.
    + rewrite lookup_insert_ne, HA by done. apply exist_proper. intros k. rewrite attached_put by done.
      split; [|intros [(-> & _ & Hv)|[_ ?]]; [congruence|done]]. intros Hk. right. split; [|done]. intros ->.
      destruct Hk as (q & Hq & Hhq & _). rewrite Hi in Hq. injection Hq as <-. congruence.
  - intros k k' v. rewrite !attached_put by done.
    intros [(-> & _ & E1)|[N1 H1]] [(-> & _ & E2)|[N2 H2]]; [done| | |by eapply HU].
    + assert (v = u) as -> by congruence. by destruct (Hno k').
    + assert (v = u) as -> by congruence. by destruct (Hno k).
Qed.

(** A handler removes its record and is not attached any more. *)
Lemma followed_remove p hs ag i pc pc' u c :
  followed p hs ag → hs !! i = Some pc → holding pc = true → started p !! i = Some (u, c) → holding pc' = false →
  followed p (<[i:=pc']> hs) (delete u ag) ∧ is_Some (ag !! u).
Proof.
  intros [HP HL HA HU] Hi Hh Hs Hh'. pose proof (lookup_lt_Some _ _ _ Hi) as Hlt.
  assert (c = i) as -> by (by eapply started_self).
  assert (attached p hs i u) as Ha by (by exists pc).
  split; [|apply HA; by exists i]. split; [done|by rewrite length_insert| |].
  - intros v. destruct (decide (v = u)) as [->|Hne].
    + rewrite lookup_delete_eq. split; [by intros [? ?]|]. intros [k Hk]. rewrite attached_put in Hk by done.
      destruct Hk as [(_ & ? & _)|[Hne Hk]]; [congruence|]. destruct Hne. by eapply HU.
    + rewrite lookup_delete_ne, HA by done. apply exist_proper. intros k. rewrite attached_put by done.
      split; [|intros [(_ & ? & _)|[_ ?]]; [congruence|done]]. intros Hk. right. split; [|done]. intros ->.
      destruct Hk as (q & _ & _ & Hq). congruence.
  - intros k k' v. rewrite !attached_put by done.
    intros [(_ & ? & _)|[N1 H1]] [(_ & ? & _)|[N2 H2]]; [congruence|congruence|congruence|by eapply HU].
Qed.

(** New handlers have no record. *)
Lemma foldr_started (f : string → provider_listener → provider_listener) us s :
  (∀ u s, ∃ new, started (f u s) = started s ++ new) → ∃ new, started (foldr f s us) = started s ++ new.
Proof.
  intros H. induction us as [|u us [new IH]]; cbn; [exists []; by rewrite app_nil_r|].
  destruct (H u (foldr f s us)) as [new' ->]. exists (new ++ new'). by rewrite IH, app_assoc.
Qed.

Lemma doUpdate_started order upd p : ∃ new, started (doUpdate order upd p) = started p ++ new.
Proof.
  unfold doUpdate. cbn zeta. set (a := rev _). set (b := rev _).
  destruct (foldr_started remove_provider a p) as [n1 E1]; [intros; exists []; by rewrite app_nil_r|].
  destruct (foldr_started add_provider b (foldr remove_provider p a)) as [n2 E2]; [intros; by eexists|].
  exists (n1 ++ n2). by rewrite E2, E1, app_assoc.
Qed.

Lemma followed_providers order upd p hs ag pc0 :
  holding pc0 = false → (∀ X, order X ≡ₚ elements X) → followed p hs ag →
  let p' := doUpdate order upd p in
  followed p' (hs ++ replicate (length (started p') - length hs) pc0) ag.
Proof.
  intros H0 HO [HP HL HA HU]. cbn zeta. destruct (doUpdate_ok order p upd HO HP) as (HP' & _).
  destruct (doUpdate_started order upd p) as [new Hnew]. set (p' := doUpdate order upd p) in *.
  assert (∀ k u, attached p' (hs ++ replicate (length (started p') - length hs) pc0) k u ↔ attached p hs k u) as E.
  { intros k u. unfold attached. rewrite Hnew. split.
    - intros (pc & Hk & Hh & Hs). apply lookup_app_Some in Hk as [Hk|[Hk Hr]].
      + exists pc. split_and!; [done|done|]. rewrite lookup_app_l in Hs; [done|]. apply lookup_lt_Some in Hk. lia.
      + apply lookup_replicate in Hr as [-> _]. congruence.
    - intros (pc & Hk & Hh & Hs). exists pc. split_and!; [by apply lookup_app_l_Some|done|by apply lookup_app_l_Some]. }
  split; [done| | |].
  - rewrite length_app, length_replicate, Hnew, length_app. lia.
  - intros u. rewrite HA. by setoid_rewrite E.
  - intros i j u. rewrite !E. apply HU.
Qed.

(** A change of an entry. *)
Lemma followed_update p hs ag u (a b : A) : followed p hs ag → ag !! u = Some a → followed p hs (<[u:=b]> ag).
Proof.
  intros [F1 F2 F3 F4] Ea. split; [done|done| |done]. intros v. rewrite <- F3.
  destruct (decide (v = u)) as [->|]; [rewrite lookup_insert_eq, Ea; naive_solver|by rewrite lookup_insert_ne].
Qed.

Lemma followed_new : followed new_listener [] ∅.
Proof.
  split; [apply new_listener_ok|done| |].
  - intros u. rewrite lookup_empty. split; [by intros [? ?]|]. intros (i & pc & Hi & _). done.
  - intros i j u (pc & Hi & _). done.
Qed.
End followers.
