(* ===== verification/DataSources.v ===== *)
(** * The status display: [pkg/ui]

    Each table of the display has a data source. The sources of agents and consumer daemons
    follow the providers of the monitor ([MetricsClient.doUpdate]): one goroutine for each
    provider asks who it is, stores a record in a [sync.Map], registers three listeners and
    waits until the provider is gone; the goroutine of each listener decodes values into
    one message that it reuses, stores the pointer to it in the record and sends all rows,
    and then their styles, to the table. The model has these goroutines, the shared messages
    and the two unbuffered channels. *)
From stdpp Require Import sorting.
From S2P Require Import Prelude GoStrings Types Status MetricsClient S3 Followers.

(** ** Messages *)

Record TaskStatus := mkTaskStatus { NumRunning : Z; NumQueued : Z; NumDelegated : Z }.
Record UsageLimits := mkUsageLimits { ConcurrentProcessLimit : Z; DelegatedTaskLimit : Z }.
Definition zero_Health : Health := mkHealth UnknownStatus [].
Definition zero_TaskStatus : TaskStatus := mkTaskStatus 0 0 0.
Definition zero_UsageLimits : UsageLimits := mkUsageLimits 0 0.

Inductive message :=
  | MHealth (h : Health)
  | MTaskStatus (t : TaskStatus)
  | MUsageLimits (u : UsageLimits).

(** The type of the argument of a handler. *)
Inductive kind : Set := KHealth | KTaskStatus | KUsageLimits.
#[export] Instance kind_eq_dec : EqDecision kind.
Proof. solve_decision. Defined.

Definition kind_of (m : message) : kind :=
  match m with MHealth _ => KHealth | MTaskStatus _ => KTaskStatus | MUsageLimits _ => KUsageLimits end.

Definition zero_message (k : kind) : message :=
  match k with
  | KHealth => MHealth zero_Health
  | KTaskStatus => MTaskStatus zero_TaskStatus
  | KUsageLimits => MUsageLimits zero_UsageLimits
  end.

(** Pointers to messages are positions in a list of all messages allocated. *)
Abbreviation messages := (list message).

Definition the_health (h : messages) (p : nat) : Health :=
  match h !! p with Some (MHealth x) => x | _ => zero_Health end.
Definition the_status (h : messages) (p : nat) : TaskStatus :=
  match h !! p with Some (MTaskStatus x) => x | _ => zero_TaskStatus end.
Definition the_limits (h : messages) (p : nat) : UsageLimits :=
  match h !! p with Some (MUsageLimits x) => x | _ => zero_UsageLimits end.

(** ** Records and their rows *)

Record agent := mkAgent {
  address : string;
  agent_uuid : string;
  health_ptr : nat;
  status_ptr : nat;
  limits_ptr : nat;
}.
Definition consumerd : Type := agent.

Definition get_ptr (k : kind) (a : agent) : nat :=
  match k with KHealth => health_ptr a | KTaskStatus => status_ptr a | KUsageLimits => limits_ptr a end.

Definition set_ptr (k : kind) (p : nat) (a : agent) : agent :=
  match k with
  | KHealth => mkAgent (address a) (agent_uuid a) p (status_ptr a) (limits_ptr a)
  | KTaskStatus => mkAgent (address a) (agent_uuid a) (health_ptr a) p (limits_ptr a)
  | KUsageLimits => mkAgent (address a) (agent_uuid a) (health_ptr a) (status_ptr a) p
  end.

Definition OverallStatus_String (s : OverallStatus) : string :=
  match s with
  | UnknownStatus => "UnknownStatus" | Ready => "Ready" | Initializing => "Initializing"
  | Degraded => "Degraded" | Unavailable_ => "Unavailable"
  end.

Abbreviation row := (list string).

Section rows.
Context (uuid_ok : string → bool).

Definition agent_rowData (h : messages) (a : agent) : go row :=
  id ← FormatShortID uuid_ok (agent_uuid a) 6 ElideCenter;
  Ret [address a; id; OverallStatus_String (Status (the_health h (health_ptr a)));
       FormatInt (NumRunning (the_status h (status_ptr a))) +:+ "/" +:+
         FormatInt (ConcurrentProcessLimit (the_limits h (limits_ptr a)))].

Definition consumerd_rowData (h : messages) (c : consumerd) : go row :=
  id ← FormatShortID uuid_ok (agent_uuid c) 6 ElideCenter;
  Ret [address c; id; OverallStatus_String (Status (the_health h (health_ptr c)));
       FormatInt (NumRunning (the_status h (status_ptr c))) +:+ "/" +:+
         FormatInt (ConcurrentProcessLimit (the_limits h (limits_ptr c)));
       FormatInt (NumDelegated (the_status h (status_ptr c))) +:+ "/" +:+
         FormatInt (DelegatedTaskLimit (the_limits h (limits_ptr c)));
       FormatInt (NumQueued (the_status h (status_ptr c)))].
End rows.

Inductive style : Set := ColorClear | ColorGreen | ColorYellow | ColorRed | BoldWhite.
#[export] Instance style_eq_dec : EqDecision style.
Proof. solve_decision. Defined.

Definition healthStyle (h : OverallStatus) : style :=
  match h with
  | UnknownStatus => ColorClear
  | Ready => ColorGreen
  | Initializing => ColorClear
  | Degraded => ColorYellow
  | Unavailable_ => ColorRed
  end.

(** ** The table *)

Inductive title_color : Set := TitleDefault | TitleBlue | TitleRed.
Record Table := mkTable { Rows : list row; RowStyles : gmap nat style; TitleFg : title_color }.

Definition NewTable (headers : row) : Table := mkTable [headers] {[ 0%nat := BoldWhite ]} TitleDefault.

(** The two cases of [readFromDataSource]. *)
Definition table_data (headers : row) (data : list row) (t : Table) : Table :=
  mkTable (headers :: data) (RowStyles t) (if bool_decide (0 < length data)%nat then TitleBlue else TitleRed).
Definition table_style (st : gmap nat style) (t : Table) : Table :=
  mkTable (Rows t) (st ∪ RowStyles t) (TitleFg t).

Definition agent_headers : row := ["Address"; "ID"; "Health"; "Running"].
Definition consumerd_headers : row := ["Address"; "ID"; "Health"; "Local"; "Remote"; "Queued"].

(** ** The goroutines *)

(** An update that [doUpdate] has computed and is sending. *)
Record update := mkUpdate { u_rows : list row; u_style : gmap nat style; u_sent : bool }.

Inductive handler_pc :=
  | HWhois                       (** waiting for the answer of Whois *)
  | HRegister (n l : nat)        (** [n] of the six registering calls made, the last for listener [l] *)
  | HWait                        (** [<-c.Done()] *)
  | HUpdate (u : update)         (** in the last [doUpdate] *)
  | HEnded.

Inductive listener_pc :=
  | LIdle                              (** no stream; the stream manager connects *)
  | LRecv (c : nat)                    (** in [Recv]; the message of this stream *)
  | LReset (c : nat) (m : message)     (** decoding: the message is reset, not yet filled *)
  | LDecoded (c : nat)                 (** decoded, before the handler *)
  | LUpdate (next : option nat) (u : update)  (** in [doUpdate], then [Recv] or the end *)
  | LEnded.

Record listener := mkListener {
  l_uuid : string;
  l_kind : kind;
  l_expired : bool;      (** whether [OrExpired] has been called *)
  l_pc : listener_pc;
}.

Record source := mkSource {
  providers : provider_listener;
  handlers : list handler_pc;        (** by the number of their context *)
  listeners : list listener;
  agents : gmap string agent;
  heap : messages;
  table : Table;
  crashed : bool;
}.

Definition with_handlers (hs : list handler_pc) (s : source) : source :=
  mkSource (providers s) hs (listeners s) (agents s) (heap s) (table s) (crashed s).
Definition with_listeners (ls : list listener) (s : source) : source :=
  mkSource (providers s) (handlers s) ls (agents s) (heap s) (table s) (crashed s).
Definition with_agents (m : gmap string agent) (s : source) : source :=
  mkSource (providers s) (handlers s) (listeners s) m (heap s) (table s) (crashed s).
Definition with_heap (h : messages) (s : source) : source :=
  mkSource (providers s) (handlers s) (listeners s) (agents s) h (table s) (crashed s).
Definition with_table (t : Table) (s : source) : source :=
  mkSource (providers s) (handlers s) (listeners s) (agents s) (heap s) t (crashed s).
Definition crash (s : source) : source :=
  mkSource (providers s) (handlers s) (listeners s) (agents s) (heap s) (table s) true.

Definition put_handler (i : nat) (pc : handler_pc) (s : source) : source := with_handlers (<[i := pc]> (handlers s)) s.
Definition put_listener (j : nat) (pc : listener_pc) (s : source) : source :=
  with_listeners (alter (λ l, mkListener (l_uuid l) (l_kind l) (l_expired l) pc) j (listeners s)) s.

Inductive goroutine : Set := GHandler (i : nat) | GListener (j : nat).

Inductive label :=
  | Providers (upd : option (gset string))              (** a value of the providers, or their end *)
  | Whois (i : nat) (r : option (Component * string))   (** its answer; [None] is an error *)
  | Register (i : nat)
  | Connect (j : nat)
  | Drop (j : nat)                     (** the stream breaks and is retried *)
  | Receive (j : nat) (m : message)
  | Decode (j : nat)
  | Handle (j : nat)
  | Expire (j : nat)                   (** the stream ends because the key expired *)
  | Done (i : nat)
  | SendRows (g : goroutine)
  | SendStyle (g : goroutine).

Section data_source.
(** The component whose providers are shown, its rows, and its header. [order] is the order of
    iteration over a set of providers, [range] that over the map, [sortRows] is
    [sort.Slice] by the second column, which need not be stable. *)
Context (Comp : Component) (rowData : messages → agent → go row) (headers : row)
  (order : gset string → list string) (range : gmap string agent → list (string * agent))
  (sortRows : list row → list row).

Definition NewDataSource : source := mkSource new_listener [] [] ∅ [] (NewTable headers) false.

(** Rows and styles: the style has the position of the row before the rows are sorted. *)
Fixpoint collect_agents (h : messages) (l : list (string * agent)) (rows : list row) (st : gmap nat style) :
    go (list row * gmap nat style) :=
  match l with
  | [] => Ret (rows, st)
  | (_, a) :: l =>
      r ← rowData h a;
      let rows := rows ++ [r] in
      collect_agents h l rows (<[length rows := healthStyle (Status (the_health h (health_ptr a)))]> st)
  end.

(** [doUpdate] up to its first send. *)
Definition compute_update (s : source) : go update :=
  '(rows, st) ← collect_agents (heap s) (range (agents s)) [] ∅;
  Ret (mkUpdate (sortRows rows) st false).

(** The rows are computed and the goroutine goes on to send them. *)
Definition do_update (k : update → source → source) (s : source) : source :=
  match compute_update s with
  | Ret u => k u s
  | Panic _ => crash s
  end.

(** [updateHealth], [updateTaskStatus], [updateUsageLimits] with a pointer to a message;
    [next] is where the listener goes on afterwards. *)
Definition update_field (j : nat) (l : listener) (p : nat) (next : option nat) (s : source) : source :=
  match agents s !! l_uuid l with
  | None => put_listener j (match next with Some c => LRecv c | None => LEnded end) s
  | Some a =>
      do_update (λ u, put_listener j (LUpdate next u))
        (with_agents (<[l_uuid l := set_ptr (l_kind l) p a]> (agents s)) s)
  end.

Definition nth_kind (n : nat) : kind :=
  match n with 0%nat => KHealth | 1%nat => KTaskStatus | _ => KUsageLimits end.

(** The answer of Whois: anything but an agent ends the handler; else a record with three new
    messages is stored. *)
Definition whois_answer (i : nat) (uuid : string) (r : option (Component * string)) (s : source) : source :=
  match r with
  | None => put_handler i HEnded s
  | Some (c, addr) =>
      if bool_decide (c ≠ Comp) then put_handler i HEnded s
      else
        let n := length (heap s) in
        put_handler i (HRegister 0 0)
          (with_agents (<[uuid := mkAgent addr uuid n (n + 1) (n + 2)]> (agents s))
             (with_heap (heap s ++ [zero_message KHealth; zero_message KTaskStatus; zero_message KUsageLimits]) s))
  end.

(** The six calls: [OnValueChanged] and [OrExpired] for each of the three kinds. *)
Definition register (i : nat) (uuid : string) (n l : nat) (s : source) : source :=
  if Nat.even n
  then put_handler i (HRegister (S n) (length (listeners s)))
         (with_listeners (listeners s ++ [mkListener uuid (nth_kind (Nat.div2 n)) false LIdle]) s)
  else put_handler i (if bool_decide (n = 5)%nat then HWait else HRegister (S n) l)
         (with_listeners (alter (λ x, mkListener (l_uuid x) (l_kind x) true (l_pc x)) l (listeners s)) s).

(** The end of the wait: the record is removed, and all rows are sent. *)
Definition handler_done (i : nat) (uuid : string) (s : source) : source :=
  match agents s !! uuid with
  | None => crash s                    (** "deleted nonexistent agent" *)
  | Some _ => do_update (λ u, put_handler i (HUpdate u)) (with_agents (delete uuid (agents s)) s)
  end.

Definition send_rows (u : update) (s : source) : source := with_table (table_data headers (u_rows u) (table s)) s.
Definition send_style (u : update) (s : source) : source := with_table (table_style (u_style u) (table s)) s.
Definition sent (u : update) : update := mkUpdate (u_rows u) (u_style u) true.

(** The steps of the goroutines; after a panic there are none. *)
Definition live_step (lb : label) (s : source) : option source :=
  match lb with
  | Providers upd =>
      let p := doUpdate order upd (providers s) in
      Some (mkSource p (handlers s ++ replicate (length (started p) - length (handlers s)) HWhois)
              (listeners s) (agents s) (heap s) (table s) (crashed s))
  | Whois i r =>
      match handlers s !! i, started (providers s) !! i with
      | Some HWhois, Some (uuid, _) => Some (whois_answer i uuid r s)
      | _, _ => None
      end
  | Register i =>
      match handlers s !! i, started (providers s) !! i with
      | Some (HRegister n l), Some (uuid, _) => Some (register i uuid n l s)
      | _, _ => None
      end
  | Connect j =>
      l ← listeners s !! j;
      match l_pc l with
      | LIdle => Some (put_listener j (LRecv (length (heap s))) (with_heap (heap s ++ [zero_message (l_kind l)]) s))
      | _ => None
      end
  | Drop j =>
      l ← listeners s !! j;
      match l_pc l with LRecv _ => Some (put_listener j LIdle s) | _ => None end
  | Receive j m =>
      l ← listeners s !! j;
      match l_pc l with
      | LRecv c =>
          if bool_decide (kind_of m = l_kind l)
          then Some (put_listener j (LReset c m) (with_heap (<[c := zero_message (l_kind l)]> (heap s)) s)) else None
      | _ => None
      end
  | Decode j =>
      l ← listeners s !! j;
      match l_pc l with
      | LReset c m => Some (put_listener j (LDecoded c) (with_heap (<[c := m]> (heap s)) s))
      | _ => None
      end
  | Handle j =>
      l ← listeners s !! j;
      match l_pc l with LDecoded c => Some (update_field j l c (Some c) s) | _ => None end
  | Expire j =>
      l ← listeners s !! j;
      match l_pc l with
      | LRecv _ =>
          if l_expired l
          then Some (update_field j l (length (heap s)) None (with_heap (heap s ++ [zero_message (l_kind l)]) s))
          else Some (put_listener j LEnded s)
      | _ => None
      end
  | Done i =>
      match handlers s !! i, started (providers s) !! i with
      | Some HWait, Some (uuid, _) =>
          if bool_decide (i ∈ cancelled (providers s)) then Some (handler_done i uuid s) else None
      | _, _ => None
      end
  | SendRows (GHandler i) =>
      match handlers s !! i with
      | Some (HUpdate u) => if u_sent u then None else Some (put_handler i (HUpdate (sent u)) (send_rows u s))
      | _ => None
      end
  | SendRows (GListener j) =>
      l ← listeners s !! j;
      match l_pc l with
      | LUpdate next u => if u_sent u then None else Some (put_listener j (LUpdate next (sent u)) (send_rows u s))
      | _ => None
      end
  | SendStyle (GHandler i) =>
      match handlers s !! i with
      | Some (HUpdate u) => if u_sent u then Some (put_handler i HEnded (send_style u s)) else None
      | _ => None
      end
  | SendStyle (GListener j) =>
      l ← listeners s !! j;
      match l_pc l with
      | LUpdate next u =>
          if u_sent u
          then Some (put_listener j (match next with Some c => LRecv c | None => LEnded end) (send_style u s)) else None
      | _ => None
      end
  end.

Definition step (lb : label) (s : source) : option source := if crashed s then None else live_step lb s.
End data_source.

(** The two sources. *)
Definition agentDataSource_Data (uuid_ok : string → bool) := step Agent (agent_rowData uuid_ok) agent_headers.
Definition consumerdDataSource_Data (uuid_ok : string → bool) :=
  step Consumerd (consumerd_rowData uuid_ok) consumerd_headers.
Definition NewAgentDataSource : source := NewDataSource agent_headers.
Definition NewConsumerdDataSource : source := NewDataSource consumerd_headers.

(** ** Who is shown *)

(** A handler between the store of its record and its removal. *)
Definition holding (pc : handler_pc) : bool :=
  match pc with HRegister _ _ | HWait => true | _ => false end.
Abbreviation attached := (attached holding).
Abbreviation followed := (followed (A := agent) holding).

(** ** Whose messages they are *)

Lemma alter_none {A} (f : A → A) i (l : list A) : l !! i = None → alter f i l = l.
Proof.
  revert i. induction l as [|x l IH]; intros [|i] H; cbn in *; [done..|]. by rewrite IH.
Qed.

(** The message that a listener decodes into. *)
Definition cell_of (pc : listener_pc) : option nat :=
  match pc with
  | LRecv c | LReset c _ | LDecoded c | LUpdate (Some c) _ => Some c
  | LIdle | LUpdate None _ | LEnded => None
  end.

(** Each message belongs to one provider and one field: [own] says whose it is. *)
Record owned (own : list (string * kind)) (ls : list listener) (ag : gmap string agent) (h : messages) : Prop := {
  ow_heap : Forall2 (λ o m, kind_of m = o.2) own h;
  ow_agents : ∀ u a, ag !! u = Some a → agent_uuid a = u ∧ ∀ k, own !! get_ptr k a = Some (u, k);
  ow_cells : ∀ j l c, ls !! j = Some l → cell_of (l_pc l) = Some c → own !! c = Some (l_uuid l, l_kind l);
  ow_reset : ∀ j l c m, ls !! j = Some l → l_pc l = LReset c m → kind_of m = l_kind l;
}.

Lemma owned_alloc own new ls ag h ms :
  owned own ls ag h → Forall2 (λ o m, kind_of m = o.2) new ms → owned (own ++ new) ls ag (h ++ ms).
Proof.
  intros [H1 H2 H3 H4] Hn. split; [by apply Forall2_app| | |done].
  - intros u a Ha. destruct (H2 u a Ha) as [E Hk]. split; [done|]. intros k. by apply lookup_app_l_Some.
  - intros j l c Hj Hc. apply lookup_app_l_Some. by eapply H3.
Qed.

Lemma owned_write own ls ag h c u k m :
  owned own ls ag h → own !! c = Some (u, k) → kind_of m = k → owned own ls ag (<[c:=m]> h).
Proof.
  intros [H1 H2 H3 H4] Hc Hm. split; [|done..].
  rewrite <- (list_insert_id own c (u, k)) by done. by apply Forall2_insert.
Qed.

Lemma owned_put own ls ag h j l f :
  owned own ls ag h → ls !! j = Some l → l_uuid (f l) = l_uuid l → l_kind (f l) = l_kind l →
  (∀ c, cell_of (l_pc (f l)) = Some c → own !! c = Some (l_uuid l, l_kind l)) →
  (∀ c m, l_pc (f l) = LReset c m → kind_of m = l_kind l) →
  owned own (alter f j ls) ag h.
Proof.
  intros [H1 H2 H3 H4] Hj Eu Ek Hc Hr. split; [done|done| |].
  - intros i x c Hi. destruct (decide (i = j)) as [->|Hne].
    + rewrite list_lookup_alter_eq, Hj in Hi. injection Hi as <-. rewrite Eu, Ek. apply Hc.
    + rewrite list_lookup_alter_ne in Hi by done. by apply (H3 i).
  - intros i x c m Hi. destruct (decide (i = j)) as [->|Hne].
    + rewrite list_lookup_alter_eq, Hj in Hi. injection Hi as <-. rewrite Ek. apply Hr.
    + rewrite list_lookup_alter_ne in Hi by done. by apply (H4 i).
Qed.

Lemma owned_new_listener own ls ag h u k e : owned own ls ag h → owned own (ls ++ [mkListener u k e LIdle]) ag h.
Proof.
  intros [H1 H2 H3 H4]. split; [done|done| |].
  - intros i x c [Hi|[_ Hi]]%lookup_app_Some; [by eauto|]. by apply list_lookup_singleton_Some in Hi as [_ <-].
  - intros i x c m [Hi|[_ Hi]]%lookup_app_Some; [by eauto|]. by apply list_lookup_singleton_Some in Hi as [_ <-].
Qed.

Lemma owned_agent own ls ag h u a :
  owned own ls ag h → agent_uuid a = u → (∀ k, own !! get_ptr k a = Some (u, k)) → owned own ls (<[u:=a]> ag) h.
Proof.
  intros [H1 H2 H3 H4] Hu Hk. split; [done| |done|done].
  intros v b [[<- <-]|[Hne Hb]]%lookup_insert_Some; [done|by apply H2].
Qed.

Lemma owned_delete own ls ag h u : owned own ls ag h → owned own ls (delete u ag) h.
Proof. intros [H1 H2 H3 H4]. split; [done| |done|done]. intros v b [_ Hb]%lookup_delete_Some. by apply H2. Qed.

Lemma get_set_ptr k k' p a : get_ptr k (set_ptr k' p a) = if decide (k = k') then p else get_ptr k a.
Proof. by destruct k, k'. Qed.

Lemma owned_set own ls ag h u a k p :
  owned own ls ag h → ag !! u = Some a → own !! p = Some (u, k) → owned own ls (<[u:=set_ptr k p a]> ag) h.
Proof.
  intros H Ha Hp. pose proof (ow_agents _ _ _ _ H u a Ha) as [E Hk]. apply owned_agent; [done|by destruct k|].
  intros k'. rewrite get_set_ptr. by case_decide as K; [rewrite K|].
Qed.

(** A write to one's message changes no other field of the table. *)
Lemma owned_frame own ls ag h c u k m v b k' :
  owned own ls ag h → own !! c = Some (u, k) → ag !! v = Some b → (v, k') ≠ (u, k) →
  <[c:=m]> h !! get_ptr k' b = h !! get_ptr k' b.
Proof.
  intros H Hc Hb Hne. apply list_lookup_insert_ne. intros E.
  destruct (ow_agents _ _ _ _ H v b Hb) as [_ Hk]. specialize (Hk k'). congruence.
Qed.

(** ** The invariant *)

Definition source_ok (s : source) : Prop :=
  crashed s = false ∧ followed (providers s) (handlers s) (agents s) ∧
  ∃ own, owned own (listeners s) (agents s) (heap s).

(** A handler stores its record only when the one of an earlier handler of the same provider
    has been removed. *)
Definition orderly (lb : label) (s : source) : bool :=
  match lb with
  | Whois i _ =>
      match started (providers s) !! i with
      | Some (uuid, _) => match agents s !! uuid with None => true | Some _ => false end
      | None => true
      end
  | _ => true
  end.

(** The order of the rows: by the second column. *)
Definition row_id (r : row) : string := default "" (r !! 1%nat).
Definition id_le (r1 r2 : row) : Prop := String.le (row_id r1) (row_id r2).

Section invariant.
Context (Comp : Component) (rowData : messages → agent → go row) (headers : row)
  (order : gset string → list string) (range : gmap string agent → list (string * agent))
  (sortRows : list row → list row).
Context (Horder : ∀ X, order X ≡ₚ elements X) (Hrange : ∀ m, range m ≡ₚ map_to_list m)
  (Hrow : ∀ h a, is_ret (rowData h a) = true).
Abbreviation step := (step Comp rowData headers order range sortRows).

Definition orderly_step (lb : label) (s : source) : option source :=
  if orderly lb s then step lb s else None.

Definition row_of (h : messages) (a : agent) : row := match rowData h a with Ret r => r | Panic _ => [] end.

Lemma collect_rows h l : ∀ rows st, ∃ st', collect_agents rowData h l rows st = Ret (rows ++ (row_of h <$> l.*2), st').
Proof.
  induction l as [|[u a] l IH]; intros rows st; cbn; [eexists; by rewrite app_nil_r|].
  unfold row_of at 1. pose proof (Hrow h a) as Hr. destruct (rowData h a) as [r|]; [|done]. cbn.
  destruct (IH (rows ++ [r]) (<[length (rows ++ [r]) := healthStyle (Status (the_health h (health_ptr a)))]> st)) as [st' ->].
  exists st'. by rewrite <- app_assoc.
Qed.

(** The rows of an update are those of the records, in some order before sorting. *)
Lemma compute_rows s :
  ∃ rows st, compute_update rowData range sortRows s = Ret (mkUpdate (sortRows rows) st false) ∧
    rows ≡ₚ row_of (heap s) <$> (map_to_list (agents s)).*2.
Proof.
  unfold compute_update. destruct (collect_rows (heap s) (range (agents s)) [] ∅) as [st ->].
  eexists _, st. split; [done|]. cbn. by rewrite Hrange.
Qed.

Lemma do_update_eq k s : ∃ u, do_update rowData range sortRows k s = k u s.
Proof. unfold do_update. destruct (compute_rows s) as (rows & st & -> & _). by eexists. Qed.

Lemma update_field_ok own j l p next s :
  crashed s = false → followed (providers s) (handlers s) (agents s) →
  owned own (listeners s) (agents s) (heap s) → listeners s !! j = Some l →
  own !! p = Some (l_uuid l, l_kind l) → (∀ c, next = Some c → own !! c = Some (l_uuid l, l_kind l)) →
  source_ok (update_field rowData range sortRows j l p next s).
Proof.
  intros HC HF HO Hj Hp Hn. unfold update_field. destruct (agents s !! l_uuid l) as [a|] eqn:Ea.
  - match goal with |- source_ok (do_update _ _ _ ?k ?s) => destruct (do_update_eq k s) as [u ->] end.
    split; [done|]. split; cbn.
    + by eapply followed_update.
    + exists own. eapply owned_put; [by apply owned_set|done|done|done| |done].
      intros c Hc. apply Hn. by destruct next.
  - split; [done|]. split; [done|]. exists own. eapply owned_put; [done|done|done|done| |]; cbn.
    + intros c Hc. apply Hn. by destruct next.
    + by destruct next.
Qed.

Lemma register_ok i u n l c s :
  source_ok s → handlers s !! i = Some (HRegister n l) → started (providers s) !! i = Some (u, c) →
  source_ok (register i u n l s).
Proof.
  intros (HC & HF & own & HO) Hi Hs. unfold register. destruct (Nat.even n).
  - split; [done|]. split; [by eapply followed_put|]. exists own. by apply owned_new_listener.
  - split; [done|]. split; [eapply followed_put; [done|done|by case_bool_decide]|]. exists own. cbn.
    destruct (listeners s !! l) as [x|] eqn:Ex.
    + eapply owned_put; [done|done|done|done| |]; cbn.
      * intros c'. by apply (ow_cells _ _ _ _ HO l).
      * intros c' m. by apply (ow_reset _ _ _ _ HO l).
    + rewrite alter_none by done. done.
Qed.

Lemma put_listener_ok own j l pc h s :
  source_ok s → owned own (listeners s) (agents s) h → listeners s !! j = Some l →
  (∀ c, cell_of pc = Some c → own !! c = Some (l_uuid l, l_kind l)) →
  (∀ c m, pc = LReset c m → kind_of m = l_kind l) →
  source_ok (put_listener j pc (with_heap h s)).
Proof.
  intros (HC & HF & _) HO Hj Hc Hr. split; [done|]. split; [done|]. exists own. by eapply owned_put.
Qed.

Lemma with_heap_id s : with_heap (heap s) s = s.
Proof. by destruct s. Qed.

Lemma whois_ok i u c r s :
  source_ok s → handlers s !! i = Some HWhois → started (providers s) !! i = Some (u, c) →
  agents s !! u = None → source_ok (whois_answer Comp i u r s).
Proof.
  intros (HC & HF & own & HO) Hi Hs Hn. unfold whois_answer. destruct r as [[comp addr]|].
  2:{ split; [done|]. split; [by eapply followed_put|by exists own]. }
  case_bool_decide. { split; [done|]. split; [by eapply followed_put|by exists own]. }
  split; [done|]. split; cbn; [by eapply followed_store|].
  exists (own ++ [(u, KHealth); (u, KTaskStatus); (u, KUsageLimits)]).
  assert (length own = length (heap s)) as HL by (eapply Forall2_length, ow_heap, HO).
  apply owned_agent; [apply owned_alloc; [done|by repeat constructor]|done|].
  intros k. rewrite <- HL. destruct k; cbn; rewrite lookup_app_r by lia.
  - by rewrite Nat.sub_diag.
  - by replace (length own + 1 - length own)%nat with 1%nat by lia.
  - by replace (length own + 2 - length own)%nat with 2%nat by lia.
Qed.

Lemma done_ok i u c s :
  source_ok s → handlers s !! i = Some HWait → started (providers s) !! i = Some (u, c) →
  source_ok (handler_done rowData range sortRows i u s).
Proof.
  intros (HC & HF & own & HO) Hi Hs. unfold handler_done.
  destruct (followed_remove _ _ _ _ i HWait HEnded u c HF Hi eq_refl Hs eq_refl) as [_ [a Ha]]. rewrite Ha.
  match goal with |- source_ok (do_update _ _ _ ?k ?s) => destruct (do_update_eq k s) as [w ->] end.
  split; [done|]. split; cbn; [by eapply (followed_remove _ _ _ _ i HWait)|]. exists own. by apply owned_delete.
Qed.

(** Connecting, receiving, decoding, handling, expiring. *)
Definition listens (lb : label) : bool :=
  match lb with
  | Connect _ | Drop _ | Receive _ _ | Decode _ | Handle _ | Expire _ => true
  | _ => false
  end.

Lemma listener_step_ok lb s s' :
  source_ok s → listens lb = true →
  live_step Comp rowData headers order range sortRows lb s = Some s' → source_ok s'.
Proof.
  intros HS HLb. pose proof HS as (HC & HF & own & HO).
  assert (length own = length (heap s)) as HL by (eapply Forall2_length, ow_heap, HO).
  destruct lb as [upd|i r|i|j|j|j m|j|j|j|i|g|g]; try done; cbn [live_step].
  - intros (l & Hj & Hl)%bind_Some. destruct (l_pc l) eqn:El; try done. injection Hl as <-.
    eapply (put_listener_ok (own ++ [(l_uuid l, l_kind l)])); [done| |done| |done].
    + apply owned_alloc; [done|]. constructor; [by destruct (l_kind l)|done].
    + intros c [= <-]. by rewrite <- HL, lookup_app_r, Nat.sub_diag.
  - intros (l & Hj & Hl)%bind_Some. destruct (l_pc l) eqn:El; try done. injection Hl as <-.
    rewrite <- (with_heap_id s). by eapply put_listener_ok.
  - intros (l & Hj & Hl)%bind_Some. destruct (l_pc l) as [|c| | | |] eqn:El; try done. case_bool_decide; [|done]. injection Hl as <-.
    assert (own !! c = Some (l_uuid l, l_kind l)) as Hc by (eapply (ow_cells _ _ _ _ HO); [done|by rewrite El]).
    eapply put_listener_ok; [done| |done| |]; [eapply owned_write; [done|done|by destruct (l_kind l)]| |].
    + by intros ? [= <-].
    + by intros ? ? [= <- <-].
  - intros (l & Hj & Hl)%bind_Some. destruct (l_pc l) as [| |c m| | |] eqn:El; try done. injection Hl as <-.
    assert (own !! c = Some (l_uuid l, l_kind l)) as Hc by (eapply (ow_cells _ _ _ _ HO); [done|by rewrite El]).
    eapply put_listener_ok; [done| |done| |done]; [eapply owned_write; [done|done|by eapply (ow_reset _ _ _ _ HO)]|].
    by intros ? [= <-].
  - intros (l & Hj & Hl)%bind_Some. destruct (l_pc l) as [| | |c| |] eqn:El; try done. injection Hl as <-.
    assert (own !! c = Some (l_uuid l, l_kind l)) as Hc by (eapply (ow_cells _ _ _ _ HO); [done|by rewrite El]).
    eapply update_field_ok; [done..|]. by intros ? [= <-].
  - intros (l & Hj & Hl)%bind_Some. destruct (l_pc l) eqn:El; try done. destruct (l_expired l); injection Hl as <-.
    + eapply (update_field_ok (own ++ [(l_uuid l, l_kind l)])); [done|done| |done| |done]; cbn.
      * apply owned_alloc; [done|]. constructor; [by destruct (l_kind l)|done].
      * by rewrite <- HL, lookup_app_r, Nat.sub_diag.
    + rewrite <- (with_heap_id s). by eapply put_listener_ok.
Qed.

Lemma orderly_step_ok lb s s' : source_ok s → orderly_step lb s = Some s' → source_ok s'.
Proof.
  intros HS. pose proof HS as (HC & HF & own & HO). unfold orderly_step. destruct (orderly lb s) eqn:Eo; [|done].
  unfold DataSources.step. rewrite HC.
  destruct (listens lb) eqn:HLb; [by apply listener_step_ok|].
  destruct lb as [upd|i r|i|j|j|j m|j|j|j|i|[i|j]|[i|j]]; try done; cbn [live_step].
  - intros [= <-]. split; [done|]. split; [by apply (followed_providers holding)|by exists own].
  - destruct (handlers s !! i) as [[|n l| |w|]|] eqn:Ei, (started (providers s) !! i) as [[u c]|] eqn:Es; try done.
    intros [= <-]. cbn in Eo. rewrite Es in Eo. eapply whois_ok; [done..|]. by destruct (agents s !! u).
  - destruct (handlers s !! i) as [[|n l| |w|]|] eqn:Ei, (started (providers s) !! i) as [[u c]|] eqn:Es; try done.
    intros [= <-]. by eapply register_ok.
  - destruct (handlers s !! i) as [[|n l| |w|]|] eqn:Ei, (started (providers s) !! i) as [[u c]|] eqn:Es; try done.
    case_bool_decide; [|done]. intros [= <-]. by eapply done_ok.
  - destruct (handlers s !! i) as [[|n l| |w|]|] eqn:Ei; try done. destruct (u_sent w); [done|]. intros [= <-].
    split; [done|]. split; [by eapply followed_put|by exists own].
  - intros (l & Hj & Hl)%bind_Some. destruct (l_pc l) as [| | | |next w|] eqn:El; try done. destruct (u_sent w); [done|]. injection Hl as <-.
    split; [done|]. split; [done|]. exists own. eapply owned_put; [done|done|done|done| |done].
    intros c Hc. eapply (ow_cells _ _ _ _ HO); [done|]. by rewrite El.
  - destruct (handlers s !! i) as [[|n l| |w|]|] eqn:Ei; try done. destruct (u_sent w); [|done]. intros [= <-].
    split; [done|]. split; [by eapply followed_put|by exists own].
  - intros (l & Hj & Hl)%bind_Some. destruct (l_pc l) as [| | | |next w|] eqn:El; try done. destruct (u_sent w); [|done]. injection Hl as <-.
    split; [done|]. split; [done|]. exists own. eapply owned_put; [done|done|done|done| |].
    + intros c Hc. eapply (ow_cells _ _ _ _ HO); [done|]. rewrite El. by destruct next.
    + by destruct next.
Qed.

Lemma new_source_ok : source_ok (NewDataSource headers).
Proof.
  split; [done|]. split; cbn; [apply followed_new|].
  exists []. split; [done|done| |]; cbn; intros; done.
Qed.

Abbreviation reached := (reach orderly_step (.= NewDataSource headers) (λ _, True)).

Lemma reached_ok s : reached s → source_ok s.
Proof.
  apply (reach_inv orderly_step _ _ source_ok); [intros ? ->; apply new_source_ok|].
  intros x lb y Hx _. by apply orderly_step_ok.
Qed.

(** What a table must show: one row for each record, in the order of the identifiers. *)
Definition shows (s : source) : Prop :=
  ∃ rows, Rows (table s) = headers :: rows ∧ StronglySorted id_le rows ∧
    rows ≡ₚ row_of (heap s) <$> (map_to_list (agents s)).*2.

Lemma put_listener_lookup j pc l s :
  listeners s !! j = Some l →
  listeners (put_listener j pc s) !! j = Some (mkListener (l_uuid l) (l_kind l) (l_expired l) pc).
Proof. intros H. cbn. by rewrite list_lookup_alter_eq, H. Qed.

Lemma put_listener_again j pc pc' s : put_listener j pc (put_listener j pc' s) = put_listener j pc s.
Proof. unfold put_listener, with_listeners. cbn. by rewrite list_alter_alter_eq. Qed.

Lemma step_live lb s : crashed s = false → step lb s = live_step Comp rowData headers order range sortRows lb s.
Proof. intros H. unfold DataSources.step. by rewrite H. Qed.

Lemma run_cons lb ls s s1 s2 :
  crashed s = false → live_step Comp rowData headers order range sortRows lb s = Some s1 →
  run_labels step ls s1 = Some s2 → run_labels step (lb :: ls) s = Some s2.
Proof. intros HC H1 H2. cbn [run_labels]. rewrite (step_live lb s HC), H1. exact H2. Qed.

(** The sends of an update that nothing else disturbs. *)
Lemma flush_listener j l next u s :
  crashed s = false → listeners s !! j = Some l → l_pc l = LUpdate next u → u_sent u = false →
  ∃ s', run_labels step [SendRows (GListener j); SendStyle (GListener j)] s = Some s' ∧
    agents s' = agents s ∧ heap s' = heap s ∧ crashed s' = false ∧
    Rows (table s') = headers :: u_rows u.
Proof.
  intros HC Hj El Hu. eexists. split.
  - eapply run_cons; [done| |eapply run_cons; [| |done]].
    + cbn [live_step]. rewrite Hj. cbn. by rewrite El, Hu.
    + done.
    + cbn. by rewrite list_lookup_alter_eq, Hj.
  - by split_and!.
Qed.

Lemma flush_handler i u s :
  crashed s = false → handlers s !! i = Some (HUpdate u) → u_sent u = false →
  ∃ s', run_labels step [SendRows (GHandler i); SendStyle (GHandler i)] s = Some s' ∧
    agents s' = agents s ∧ heap s' = heap s ∧ crashed s' = false ∧
    Rows (table s') = headers :: u_rows u.
Proof.
  intros HC Hi Hu. eexists. split.
  - eapply run_cons; [done| |eapply run_cons; [| |done]].
    + cbn [live_step]. by rewrite Hi, Hu.
    + done.
    + cbn. by rewrite list_lookup_insert_eq by (by eapply lookup_lt_Some).
  - by split_and!.
Qed.

(** What holds in every orderly interleaving. *)
Lemma records_ok (s : source) : reached s →
  crashed s = false ∧
  (∀ u, is_Some (agents s !! u) ↔ ∃ i, attached (providers s) (handlers s) i u) ∧
  (∀ i j u, attached (providers s) (handlers s) i u → attached (providers s) (handlers s) j u → i = j) ∧
  (∀ u a, agents s !! u = Some a → agent_uuid a = u) ∧
  (∀ u v a b k k', agents s !! u = Some a → agents s !! v = Some b → get_ptr k a = get_ptr k' b → u = v ∧ k = k') ∧
  (∀ j l c u a k, listeners s !! j = Some l → cell_of (l_pc l) = Some c → agents s !! u = Some a →
     c = get_ptr k a → l_uuid l = u ∧ l_kind l = k).
Proof.
  intros HR. destruct (reached_ok s HR) as (HC & HF & own & HO). pose proof (ow_agents _ _ _ _ HO) as HA.
  split_and!; [done|apply (fo_agents _ _ _ _ HF)|apply (fo_uniq _ _ _ _ HF)| | |].
  - intros u a Ha. by apply HA.
  - intros u v a b k k' Ha Hb E. destruct (HA u a Ha) as [_ Ka], (HA v b Hb) as [_ Kb].
    specialize (Ka k). specialize (Kb k'). rewrite E, Kb in Ka. naive_solver.
  - intros j l c u a k Hj Hc Ha ->. destruct (HA u a Ha) as [_ Ka].
    pose proof (ow_cells _ _ _ _ HO j l _ Hj Hc) as E. rewrite (Ka k) in E. naive_solver.
Qed.

Lemma computed_unsent s u : compute_update rowData range sortRows s = Ret u → u_sent u = false.
Proof. destruct (compute_rows s) as (rows & st & -> & _). by intros [= <-]. Qed.

(** A received value up to the sends: the state it leads to. *)
Lemma receive_run s j c l m a :
  crashed s = false → listeners s !! j = Some l → l_pc l = LRecv c → kind_of m = l_kind l →
  agents s !! l_uuid l = Some a →
  let s3 := put_listener j (LDecoded c) (with_agents (<[l_uuid l := set_ptr (l_kind l) c a]> (agents s))
              (with_heap (<[c := m]> (heap s)) s)) in
  ∃ u, compute_update rowData range sortRows s3 = Ret u ∧
    run_labels step [Receive j m; Decode j; Handle j] s = Some (put_listener j (LUpdate (Some c) u) s3).
Proof.
  intros HC Hj El Hm Ha. cbn zeta.
  set (s1 := put_listener j (LReset c m) (with_heap (<[c := zero_message (l_kind l)]> (heap s)) s)).
  set (s2 := put_listener j (LDecoded c) (with_heap (<[c := m]> (heap s1)) s1)).
  set (s3 := put_listener _ _ _).
  assert (with_agents (<[l_uuid l := set_ptr (l_kind l) c a]> (agents s)) s2 = s3) as E3.
  { subst s3 s2 s1. unfold put_listener, with_listeners, with_agents, with_heap. cbn.
    by rewrite list_alter_alter_eq, list_insert_insert_eq. }
  destruct (compute_rows s3) as (rows & st & Eu & _). eexists. split; [done|].
  eapply run_cons; [done| |eapply (run_cons _ _ s1 s2); [done| |eapply (run_cons _ _ s2); [done| |done]]].
  - cbn [live_step]. rewrite Hj. cbn [mbind option_bind]. by rewrite El, bool_decide_true.
  - cbn [live_step].
    assert (listeners s1 !! j = Some (mkListener (l_uuid l) (l_kind l) (l_expired l) (LReset c m))) as -> by (by apply put_listener_lookup).
    done.
  - cbn [live_step].
    assert (listeners s2 !! j = Some (mkListener (l_uuid l) (l_kind l) (l_expired l) (LDecoded c))) as ->
      by (apply (put_listener_lookup _ _ (mkListener (l_uuid l) (l_kind l) (l_expired l) (LReset c m))); by apply (put_listener_lookup j)).
    cbn [mbind option_bind l_pc]. unfold update_field. cbn [l_uuid l_kind]. change (agents s2) with (agents s). rewrite Ha.
    rewrite E3. unfold do_update. by rewrite Eu.
Qed.

(** [sort.Slice] sorts. *)
Context (Hsort : ∀ rows, sortRows rows ≡ₚ rows ∧ StronglySorted id_le (sortRows rows)).

(** The rows of an update are exact for the state it was computed in. *)
Lemma update_exact s s' u :
  compute_update rowData range sortRows s = Ret u → agents s' = agents s → heap s' = heap s →
  Rows (table s') = headers :: u_rows u → shows s'.
Proof.
  intros Eu Ea Eh Et. destruct (compute_rows s) as (rows & st & Eu' & Hp). rewrite Eu in Eu'. injection Eu' as ->.
  destruct (Hsort rows) as [Hs1 Hs2]. exists (sortRows rows). rewrite Ea, Eh. split_and!; [done|done|]. by rewrite Hs1.
Qed.

(** An update that nothing disturbs makes the table exact. From every state reached as
    above, when a listener of a shown provider receives a value, decodes it, calls its
    handler and sends, the table shows one row for each record, ordered by identifier; the
    field of that provider holds the received value, and no other field of any record has
    changed. *)
Theorem update_shown (s : source) (HR : reached s) (j c : nat) (l : listener) (m : message)
    (Hj : listeners s !! j = Some l) (El : l_pc l = LRecv c) (Hm : kind_of m = l_kind l)
    (Ha : is_Some (agents s !! l_uuid l)) :
  ∃ s', run_labels step [Receive j m; Decode j; Handle j; SendRows (GListener j); SendStyle (GListener j)] s = Some s' ∧
    shows s' ∧ dom (agents s') = dom (agents s) ∧
    (∃ a, agents s' !! l_uuid l = Some a ∧ heap s' !! get_ptr (l_kind l) a = Some m) ∧
    (∀ v b k, agents s !! v = Some b → (v, k) ≠ (l_uuid l, l_kind l) →
       ∃ b', agents s' !! v = Some b' ∧ address b' = address b ∧ get_ptr k b' = get_ptr k b ∧
         heap s' !! get_ptr k b' = heap s !! get_ptr k b).
Proof.
  destruct (reached_ok s HR) as (HC & HF & own & HO). destruct Ha as [a Ha].
  assert (own !! c = Some (l_uuid l, l_kind l)) as Hc by (eapply (ow_cells _ _ _ _ HO); [done|by rewrite El]).
  assert (c < length (heap s))%nat as Hcl by (rewrite <- (Forall2_length _ _ _ (ow_heap _ _ _ _ HO)); by eapply lookup_lt_Some).
  destruct (receive_run s j c l m a HC Hj El Hm Ha) as (u & Eu & HRun). set (s3 := put_listener j (LDecoded c) _) in *.
  set (s4 := put_listener j (LUpdate (Some c) u) s3) in *.
  destruct (flush_listener j (mkListener (l_uuid l) (l_kind l) (l_expired l) (LUpdate (Some c) u)) (Some c) u s4)
    as (s' & HRun' & Eag & Ehp & _ & Etb); [done| |done|by eapply computed_unsent|].
  { subst s4 s3. unfold put_listener, with_listeners. cbn. by rewrite !list_lookup_alter_eq, Hj. }
  exists s'. split; [by apply (run_labels_compose _ _ _ _ _ _ HRun)|].
  split; [by eapply (update_exact s3)|]. rewrite Eag, Ehp. cbn [s3 s4 put_listener with_listeners with_agents with_heap agents heap].
  split_and!.
  - rewrite dom_insert_L. assert (l_uuid l ∈ dom (agents s)) by (apply elem_of_dom; by exists a). set_solver.
  - eexists. rewrite lookup_insert_eq. split; [done|]. rewrite get_set_ptr, decide_True by done.
    by rewrite list_lookup_insert_eq.
  - intros v b k Hb Hne. rewrite <- (owned_frame _ _ _ _ c _ _ m v b k HO Hc Hb Hne).
    destruct (decide (v = l_uuid l)) as [->|Hv].
    + rewrite Ha in Hb. injection Hb as <-. eexists. rewrite lookup_insert_eq. split; [done|].
      rewrite get_set_ptr, decide_False by congruence. by destruct (l_kind l).
    + exists b. by rewrite lookup_insert_ne.
Qed.

(** The end of a provider: its handler removes the record, and the table shows the others. *)
Theorem removal_shown (s : source) (HR : reached s) (i c : nat) (uuid : string)
    (Hi : handlers s !! i = Some HWait) (Hs : started (providers s) !! i = Some (uuid, c))
    (Hc : i ∈ cancelled (providers s)) :
  ∃ s', run_labels step [Done i; SendRows (GHandler i); SendStyle (GHandler i)] s = Some s' ∧
    shows s' ∧ agents s' = delete uuid (agents s) ∧ heap s' = heap s ∧ is_Some (agents s !! uuid).
Proof.
  destruct (reached_ok s HR) as (HC & HF & own & HO).
  destruct (followed_remove _ _ _ _ i HWait HEnded uuid c HF Hi eq_refl Hs eq_refl) as [_ [a Ha]].
  set (s1 := with_agents (delete uuid (agents s)) s).
  destruct (compute_rows s1) as (rows & st & Eu & _). set (u := mkUpdate _ st false) in Eu.
  destruct (flush_handler i u (put_handler i (HUpdate u) s1)) as (s' & HRun & Ea & Eh & _ & Et); [done| |done|].
  { cbn. apply list_lookup_insert_eq. by eapply lookup_lt_Some. }
  exists s'. split_and!; [|by eapply (update_exact s1)|done|done|by exists a].
  apply (run_cons _ _ _ (put_handler i (HUpdate u) s1)); [done| |done]. cbn [live_step]. rewrite Hi, Hs, bool_decide_true by done.
  unfold handler_done. rewrite Ha. fold s1. unfold do_update. by rewrite Eu.
Qed.
End invariant.

(** The rows of both sources can always be computed: a string accepted as UUID is long enough
    to be shortened. *)
Lemma FormatShortID_total uuid_ok id :
  (∀ id, uuid_ok id = true → 3 ≤ slen id) → is_ret (FormatShortID uuid_ok id 6 ElideCenter) = true.
Proof.
  intros H. unfold FormatShortID. destruct (uuid_ok id) eqn:E; [|done]. cbn. specialize (H _ E).
  unfold slice_to, slice_from. change (6 `quot` 2) with 3. by rewrite !bool_decide_true by lia.
Qed.

Lemma agent_rows_total uuid_ok :
  (∀ id, uuid_ok id = true → 3 ≤ slen id) → ∀ h a, is_ret (agent_rowData uuid_ok h a) = true.
Proof.
  intros H h a. unfold agent_rowData. pose proof (FormatShortID_total uuid_ok (agent_uuid a) H).
  by destruct (FormatShortID _ _ _ _).
Qed.

Lemma consumerd_rows_total uuid_ok :
  (∀ id, uuid_ok id = true → 3 ≤ slen id) → ∀ h a, is_ret (consumerd_rowData uuid_ok h a) = true.
Proof.
  intros H h a. unfold consumerd_rowData. pose proof (FormatShortID_total uuid_ok (agent_uuid a) H).
  by destruct (FormatShortID _ _ _ _).
Qed.

(** The two sources, by the component they show. *)
Inductive source_kind : Set := AgentSource | ConsumerdSource.
Definition source_step (uuid_ok : string → bool) (order : gset string → list string)
    (range : gmap string agent → list (string * agent)) (sortRows : list row → list row) (k : source_kind) :
    label → source → option source :=
  match k with
  | AgentSource => agentDataSource_Data uuid_ok order range sortRows
  | ConsumerdSource => consumerdDataSource_Data uuid_ok order range sortRows
  end.
Definition new_source (k : source_kind) : source :=
  match k with AgentSource => NewAgentDataSource | ConsumerdSource => NewConsumerdDataSource end.

(** C36: The sources of agents and consumer daemons follow the monitor, in every interleaving in
    which a handler stores its record only after an earlier handler of the same provider has
    removed its own. (A provider that comes back while its earlier handler has not ended yet
    is not such an interleaving, and can make the display panic: [reconnect_panics].) Then the
    display does not panic; there is a record for exactly the providers that have a handler
    between its store and its removal, one handler each; a record is filed under its own UUID;
    and no two fields of records share a message, so that a value decoded for one provider
    never shows up in the row of another. Of the UUID parser it is used that it accepts only
    strings of at least three characters. *)
Theorem records_follow (uuid_ok : string → bool) (order : gset string → list string)
    (range : gmap string agent → list (string * agent)) (sortRows : list row → list row) (k : source_kind)
    (Hid : ∀ id, uuid_ok id = true → 3 ≤ slen id)
    (Horder : ∀ X, order X ≡ₚ elements X) (Hrange : ∀ m, range m ≡ₚ map_to_list m) (s : source)
    (HR : reach (λ lb s, if orderly lb s then source_step uuid_ok order range sortRows k lb s else None)
            (.= new_source k) (λ _, True) s) :
  crashed s = false ∧
  (∀ u, is_Some (agents s !! u) ↔ ∃ i, attached (providers s) (handlers s) i u) ∧
  (∀ i j u, attached (providers s) (handlers s) i u → attached (providers s) (handlers s) j u → i = j) ∧
  (∀ u a, agents s !! u = Some a → agent_uuid a = u) ∧
  (∀ u v a b k k', agents s !! u = Some a → agents s !! v = Some b → get_ptr k a = get_ptr k' b → u = v ∧ k = k') ∧
  (∀ j l c u a k, listeners s !! j = Some l → cell_of (l_pc l) = Some c → agents s !! u = Some a →
     c = get_ptr k a → l_uuid l = u ∧ l_kind l = k).
Proof.
  destruct k.
  - by eapply (records_ok Agent (agent_rowData uuid_ok) agent_headers order range sortRows Horder Hrange (agent_rows_total uuid_ok Hid)).
  - by eapply (records_ok Consumerd (consumerd_rowData uuid_ok) consumerd_headers order range sortRows Horder Hrange (consumerd_rows_total uuid_ok Hid)).
Qed.

(** ** Runs *)

(** Instances of the parameters, for runs: strings of 36 characters are UUIDs. *)
Definition uuid36 (id : string) : bool := bool_decide (slen id = 36).
Lemma uuid36_long id : uuid36 id = true → 3 ≤ slen id.
Proof. unfold uuid36. case_bool_decide; [lia|done]. Qed.

#[export] Instance id_le_dec : RelDecision id_le.
Proof. intros r1 r2. unfold id_le. apply _. Defined.
#[export] Instance id_le_total : Total id_le.
Proof. intros r1 r2. unfold id_le. apply (total String.le). Qed.
#[export] Instance id_le_trans : Transitive id_le.
Proof. intros r1 r2 r3. unfold id_le. by transitivity (row_id r2). Qed.

Definition sort_rows : list row → list row := merge_sort id_le.
Lemma sort_rows_ok rows : sort_rows rows ≡ₚ rows ∧ StronglySorted id_le (sort_rows rows).
Proof. split; [apply merge_sort_Permutation|apply (StronglySorted_merge_sort id_le)]. Qed.

Definition agents_run (range : gmap string agent → list (string * agent)) (ls : list label) : option source :=
  run_labels (agentDataSource_Data uuid36 elements range sort_rows) ls NewAgentDataSource.

Definition uuidA : string := "aaaaaaaa-0000-0000-0000-00000000000a".
Definition uuidB : string := "bbbbbbbb-0000-0000-0000-00000000000b".

(** Handler [i] learns that it is an agent's and registers everything. *)
Definition attach (i : nat) (addr : string) : list label := Whois i (Some (Agent, addr)) :: replicate 6 (Register i).
Definition post_value (j : nat) (m : message) : list label :=
  [Receive j m; Decode j; Handle j].
Definition flush (j : nat) : list label := [SendRows (GListener j); SendStyle (GListener j)].
Definition healthy (st : OverallStatus) : message := MHealth (mkHealth st []).

Definition one_agent : list label := [Providers (Some {[uuidA]})] ++ attach 0 "10.0.0.1" ++ [Connect 0; Connect 1; Connect 2].
Definition agents_witness : source := after_run (agentDataSource_Data uuid36 elements map_to_list sort_rows) NewAgentDataSource one_agent.

Lemma agents_witness_reached :
  reach (orderly_step Agent (agent_rowData uuid36) agent_headers elements map_to_list sort_rows)
    (.= NewDataSource agent_headers) (λ _, True) agents_witness.
Proof.
  assert (run_labels (orderly_step Agent (agent_rowData uuid36) agent_headers elements map_to_list sort_rows)
            one_agent (NewDataSource agent_headers) = Some agents_witness) as E by (vm_compute; reflexivity).
  eapply reach_run; [by apply reach_init|by apply Forall_true|exact E].
Qed.

Lemma records_follow_witness : crashed agents_witness = false ∧ is_Some (agents agents_witness !! uuidA).
Proof.
  split; [|vm_compute; by eexists].
  apply (records_follow uuid36 elements map_to_list sort_rows AgentSource uuid36_long
    ltac:(done) ltac:(done) agents_witness agents_witness_reached).
Defined.

Lemma update_shown_witness :
  ∃ s', run_labels (agentDataSource_Data uuid36 elements map_to_list sort_rows) (post_value 0 (healthy Ready) ++ flush 0) agents_witness = Some s' ∧
    shows (agent_rowData uuid36) agent_headers s'.
Proof.
  destruct (update_shown Agent (agent_rowData uuid36) agent_headers elements map_to_list sort_rows
    ltac:(done) ltac:(done) (agent_rows_total uuid36 uuid36_long) sort_rows_ok agents_witness agents_witness_reached
    0 3 (mkListener uuidA KHealth true (LRecv 3)) (healthy Ready)) as (s' & H1 & H2 & _).
  - vm_compute. reflexivity.
  - reflexivity.
  - reflexivity.
  - vm_compute. by eexists.
  - exists s'. split; [exact H1|exact H2].
Defined.

(** ** Faults *)

(** A provider that leaves and comes back (which is what happens to all of them when the stream
    of the listener breaks) has two handlers at once. If the new one stores its record before
    the old one wakes up, the old one deletes the new record, the agent is not shown although
    it is connected, and when it leaves the display panics. *)
Theorem reconnect_panics :
  ∃ s s', agents_run map_to_list (one_agent ++ [Providers None; Providers (Some {[uuidA]})] ++ attach 1 "10.0.0.1" ++
      [Done 0; SendRows (GHandler 0); SendStyle (GHandler 0)]) = Some s ∧
    agents s = ∅ ∧ running (providers s) uuidA 1 ∧ Rows (table s) = [agent_headers] ∧
    run_labels (agentDataSource_Data uuid36 elements map_to_list sort_rows) [Providers None; Done 1] s = Some s' ∧ crashed s' = true.
Proof.
  eexists _, _. split; [vm_compute; reflexivity|]. split; [reflexivity|]. split.
  { split; [apply (bool_decide_unpack _); vm_compute; exact I|apply (bool_decide_unpack _); vm_compute; exact I]. }
  split; [reflexivity|]. split; [vm_compute; reflexivity|reflexivity].
Qed.

(** Two updates may be sent in the other order than they were computed in: the table then
    shows the older one, until some metric changes again. *)
Theorem stale_rows :
  ∃ s, agents_run map_to_list (one_agent ++ post_value 0 (healthy Ready) ++ post_value 1 (MTaskStatus (mkTaskStatus 3 0 0)) ++
      flush 1 ++ flush 0) = Some s ∧
    Forall (λ l, match l_pc l with LRecv _ => True | _ => False end) (listeners s) ∧
    (λ a, row_of (agent_rowData uuid36) (heap s) a !! 3%nat) <$> (agents s !! uuidA) = Some (Some "3/0") ∧
    (λ r : row, r !! 3%nat) <$> Rows (table s) !! 1%nat = Some (Some "0/0").
Proof. eexists. split; [vm_compute; reflexivity|]. split; [repeat constructor|]. by split; vm_compute. Qed.

(** The listener decodes into the message that the record points to, and decoding begins with
    a reset: an update for another field in between shows an agent that has only ever
    reported "Ready" as unknown. *)
Theorem torn_row :
  ∃ s, agents_run map_to_list (one_agent ++ post_value 0 (healthy Ready) ++ flush 0 ++
      [Receive 0 (healthy Ready)] ++ post_value 1 (MTaskStatus (mkTaskStatus 3 0 0)) ++ flush 1) = Some s ∧
    (λ r : row, r !! 2%nat) <$> Rows (table s) !! 1%nat = Some (Some "UnknownStatus").
Proof. eexists. split; vm_compute; reflexivity. Qed.

(** Styles have the positions that the rows had before they were sorted. When the map is
    iterated over in another order than that of the identifiers, the healthy agent is shown in
    red and the unavailable one in green. *)
Definition two_agents : list label :=
  [Providers (Some {[uuidA; uuidB]})] ++ attach 0 "10.0.0.2" ++ attach 1 "10.0.0.1" ++ [Connect 0; Connect 3].
Definition by_address (m : gmap string agent) : list (string * agent) :=
  merge_sort (λ x y : string * agent, String.le (address x.2) (address y.2)) (map_to_list m).

Theorem styles_misplaced :
  ∃ s r1 r2, agents_run by_address (two_agents ++ post_value 0 (healthy Ready) ++ flush 0 ++ post_value 3 (healthy Unavailable_) ++ flush 3) = Some s ∧
    Rows (table s) = [agent_headers; r1; r2] ∧
    (r1 !! 2%nat, RowStyles (table s) !! 1%nat) = (Some "Ready", Some ColorRed) ∧
    (r2 !! 2%nat, RowStyles (table s) !! 2%nat) = (Some "Unavailable", Some ColorGreen).
Proof. eexists _, _, _. split; [vm_compute; reflexivity|]. split; [reflexivity|]. split; reflexivity. Qed.
