(* ===== verification/StatusDisplay.v ===== *)
(** * The other panels of the status display: [pkg/ui/sources.go], [tree.go]

    The panels of scheduler and monitor show totals: a listener for each total sets a field
    under the lock of the source, and sends the rows computed under the lock again. The panel
    of routes asks the scheduler periodically and shows a tree. *)
From stdpp Require Import sorting.
From S2P Require Import Prelude GoStrings Types S3 DataSources.

(** ** Panels of totals *)

Section totals.
(** The fields of the source with their zero values, a received value and the field it sets,
    and the rows. *)
Context {F V : Type} (zero : F) (set : V → F → F) (rows : F → list row) (headers : row).

(** A goroutine (of a listener, or of the handler of a provider) between its steps. *)
Inductive totals_pc := TIdle | TCompute | TSend (rs : list row).

Record totals := mkTotals { fields : F; pcs : gmap nat totals_pc; panel : Table }.

Definition new_totals : totals := mkTotals zero ∅ (NewTable headers).

Inductive totals_label :=
  | TValue (g : nat) (v : V)   (** a value: its field is set under the lock *)
  | TRows (g : nat)            (** [doUpdate] computes the rows under the lock *)
  | TSent (g : nat)            (** the table receives them *)
  | TGone (g : nat).           (** the provider is gone: fields reset, no rows to be sent *)

Definition totals_step (lb : totals_label) (s : totals) : option totals :=
  match lb with
  | TValue g v =>
      match default TIdle (pcs s !! g) with
      | TIdle => Some (mkTotals (set v (fields s)) (<[g := TCompute]> (pcs s)) (panel s))
      | _ => None
      end
  | TRows g =>
      match default TIdle (pcs s !! g) with
      | TCompute => Some (mkTotals (fields s) (<[g := TSend (rows (fields s))]> (pcs s)) (panel s))
      | _ => None
      end
  | TSent g =>
      match default TIdle (pcs s !! g) with
      | TSend rs => Some (mkTotals (fields s) (<[g := TIdle]> (pcs s)) (table_data headers rs (panel s)))
      | _ => None
      end
  | TGone g =>
      match default TIdle (pcs s !! g) with
      | TIdle => Some (mkTotals zero (<[g := TSend []]> (pcs s)) (panel s))
      | _ => None
      end
  end.

(** The fields that a history of steps leaves: the last value of each metric since the
    provider was last gone. *)
Definition last_fields (lbs : list totals_label) : F :=
  fold_left (λ f lb, match lb with TValue _ v => set v f | TGone _ => zero | _ => f end) lbs zero.

Lemma totals_fields lbs : ∀ s s',
  run_labels totals_step lbs s = Some s' →
  fields s' = fold_left (λ f lb, match lb with TValue _ v => set v f | TGone _ => zero | _ => f end) lbs (fields s).
Proof.
  induction lbs as [|lb lbs IH]; intros s s'; cbn [run_labels fold_left]; [by intros [= <-]|].
  intros (s1 & H1 & H2)%bind_Some. rewrite (IH _ _ H2). f_equal.
  destruct lb; cbn in H1; destruct (default TIdle _); simplify_eq; done.
Qed.

(** Whatever the interleaving of the listeners, a send that is the last one of all those
    computed, and was computed when no field changed any more, shows the last values. *)
Theorem totals_shown (lbs : list totals_label) (g : nat) (s s' : totals)
    (H1 : run_labels totals_step lbs new_totals = Some s)
    (H2 : run_labels totals_step [TRows g; TSent g] s = Some s') :
  Rows (panel s') = headers :: rows (last_fields lbs) ∧ fields s' = last_fields lbs.
Proof.
  pose proof (totals_fields _ _ _ H1) as E. cbn in E. fold (last_fields lbs) in E.
  cbn in H2. destruct (default TIdle (pcs s !! g)); try done. cbn in H2.
  rewrite lookup_insert_eq in H2. cbn in H2. injection H2 as <-. cbn. by rewrite E.
Qed.
End totals.
Arguments new_totals {F} zero headers.
Arguments totals_label V : clear implicits.

(** *** The scheduler *)

Record schedulerDataSource := mkSchedulerSource { tasksCompleted : Z; tasksFailed : Z; requests : Z }.
Definition zero_scheduler : schedulerDataSource := mkSchedulerSource 0 0 0.

Inductive scheduler_value :=
  | TasksCompletedTotal (total : Z)
  | TasksFailedTotal (total : Z)
  | SchedulingRequestsTotal (total : Z).

Definition scheduler_set (v : scheduler_value) (a : schedulerDataSource) : schedulerDataSource :=
  match v with
  | TasksCompletedTotal n => mkSchedulerSource n (tasksFailed a) (requests a)
  | TasksFailedTotal n => mkSchedulerSource (tasksCompleted a) n (requests a)
  | SchedulingRequestsTotal n => mkSchedulerSource (tasksCompleted a) (tasksFailed a) n
  end.

Definition scheduler_rows (a : schedulerDataSource) : list row :=
  [["Completed"; FormatInt (tasksCompleted a)]; ["Failed"; FormatInt (tasksFailed a)];
   ["Requests"; FormatInt (requests a)]].

Definition total_headers : row := ["Metric"; "Value"].

(** [Data]: only providers that are schedulers get listeners. *)
Definition schedulerDataSource_Data : totals_label scheduler_value → totals → option totals :=
  totals_step zero_scheduler scheduler_set scheduler_rows total_headers.

(** *** The monitor *)

Record monitorDataSource := mkMonitorSource { metricsPosted : Z; m_listeners : Z; m_providers : Z }.
Definition zero_monitor : monitorDataSource := mkMonitorSource 0 0 0.

Inductive monitor_value :=
  | MetricsPostedTotal (total : Z)
  | ListenerCount (count : Z)
  | ProviderCount (count : Z).

Definition monitor_set (v : monitor_value) (a : monitorDataSource) : monitorDataSource :=
  match v with
  | MetricsPostedTotal n => mkMonitorSource n (m_listeners a) (m_providers a)
  | ListenerCount n => mkMonitorSource (metricsPosted a) n (m_providers a)
  | ProviderCount n => mkMonitorSource (metricsPosted a) (m_listeners a) n
  end.

Definition monitor_rows (a : monitorDataSource) : list row :=
  [["Metrics Posted"; FormatInt (metricsPosted a)]; ["Listeners"; FormatInt (m_listeners a)];
   ["Providers"; FormatInt (m_providers a)]].

Definition monitorDataSource_Data : totals_label monitor_value → totals → option totals :=
  totals_step zero_monitor monitor_set monitor_rows total_headers.

Lemma totals_shown_witness :
  ∃ s s', run_labels schedulerDataSource_Data
      [TValue 0 (TasksCompletedTotal 4); TValue 1 (TasksFailedTotal 2); TRows 0; TSent 0] (new_totals zero_scheduler total_headers) = Some s ∧
    run_labels schedulerDataSource_Data [TRows 1; TSent 1] s = Some s' ∧
    Rows (panel s') = [total_headers; ["Completed"; "4"]; ["Failed"; "2"]; ["Requests"; "0"]].
Proof.
  eexists _, _. split; [reflexivity|]. split; [reflexivity|].
  refine (proj1 (totals_shown zero_scheduler scheduler_set scheduler_rows total_headers
    [TValue 0 (TasksCompletedTotal 4); TValue 1 (TasksFailedTotal 2); TRows 0; TSent 0] 1 _ _ eq_refl eq_refl)).
Defined.

(** The listeners are not tied to their provider: a value that is handled after the provider
    was gone leaves its total in the fields, and the panel shows it, for ever or until the
    next scheduler reports. *)
Theorem totals_after_gone :
  ∃ s, run_labels schedulerDataSource_Data
      [TGone 0; TSent 0; TValue 1 (TasksCompletedTotal 7); TRows 1; TSent 1] (new_totals zero_scheduler total_headers) = Some s ∧
    Rows (panel s) = [total_headers; ["Completed"; "7"]; ["Failed"; "0"]; ["Requests"; "0"]].
Proof. eexists. by split. Qed.

(** ** Routes *)

Definition friendlyName (tc : Toolchain) : string :=
  let named s := s +:+ " " +:+ Version tc +:+ " (" +:+ TargetArch tc +:+ ")" in
  match Kind tc with
  | Clang => named "Clang"
  | Gnu =>
      match Lang tc with
      | C => named "GCC"
      | CXX => named "G++"
      | _ => "Unknown"
      end
  | Sleep => named "Sleep"
  | _ => "Unknown"
  end.

Inductive TreeNode := mkNode { Value : string; Expanded : bool; Nodes : list TreeNode }.

Record RouteInfo := mkRouteInfo { route_toolchain : Toolchain; route_consumerds : list string; route_agents : list string }.

Definition sort_Strings : list string → list string := merge_sort String.le.
Definition leaf (s : string) : TreeNode := mkNode s false [].

(** The node of a route. *)
Definition route_node (r : RouteInfo) : TreeNode :=
  mkNode (friendlyName (route_toolchain r)) true
    [mkNode ("Agents (" +:+ FormatInt (Z.of_nat (length (route_agents r))) +:+ ")") true
       (leaf <$> sort_Strings (route_agents r));
     mkNode ("Consumerds (" +:+ FormatInt (Z.of_nat (length (route_consumerds r))) +:+ ")") true
       (leaf <$> sort_Strings (route_consumerds r))].

Definition node_le (a b : TreeNode) : Prop := String.le (Value a) (Value b).

(** What the tree widget shows, with the colour of its title. *)
Record Tree := mkTree { t_nodes : list TreeNode; t_title : title_color }.
Definition tree_data (data : list TreeNode) : Tree :=
  mkTree data (if bool_decide (0 < length data)%nat then TitleBlue else TitleRed).

Section routes.
(** [sort.Sort] on nodes: it need not be stable. *)
Context (sortNodes : list TreeNode → list TreeNode)
  (HS : ∀ l, sortNodes l ≡ₚ l ∧ StronglySorted node_le (sortNodes l)).

(** The nodes are sorted again after each one. *)
Definition route_nodes (routes : list RouteInfo) : list TreeNode :=
  fold_left (λ nodes r, sortNodes (nodes ++ [route_node r])) routes [].

(** One round of the loop: what is sent, and whether it then waits for the ticker. *)
Definition routes_round (answer : error + list RouteInfo) : list TreeNode * bool :=
  match answer with
  | inl _ => ([], false)
  | inr routes => (route_nodes routes, true)
  end.

(** The rounds until the [n]-th tick, or the last answer: what they send. *)
Fixpoint routes_rounds (answers : list (error + list RouteInfo)) (ticks : nat) : list (list TreeNode) :=
  match answers with
  | [] => []
  | a :: answers =>
      let '(nodes, wait) := routes_round a in
      nodes :: (if wait then match ticks with O => [] | S ticks => routes_rounds answers ticks end
                else routes_rounds answers ticks)
  end.

Lemma route_nodes_from routes : ∀ nodes,
  StronglySorted node_le nodes →
  let out := fold_left (λ nodes r, sortNodes (nodes ++ [route_node r])) routes nodes in
  out ≡ₚ nodes ++ (route_node <$> routes) ∧ StronglySorted node_le out.
Proof.
  induction routes as [|r routes IH]; intros nodes HN; cbn; [by rewrite app_nil_r|].
  destruct (HS (nodes ++ [route_node r])) as [H1 H2]. destruct (IH _ H2) as [H3 H4].
  split; [|done]. rewrite H3, H1. by rewrite <- app_assoc.
Qed.

(** The tree has one node for each route, in the order of their names; each has its two
    groups, whose labels count the members listed below them, in order. *)
Theorem routes_tree (routes : list RouteInfo) :
  route_nodes routes ≡ₚ route_node <$> routes ∧ StronglySorted node_le (route_nodes routes) ∧
  ∀ n, n ∈ route_nodes routes → ∃ r agents cds, r ∈ routes ∧ Value n = friendlyName (route_toolchain r) ∧
    Nodes n = [agents; cds] ∧
    Value agents = "Agents (" +:+ FormatInt (Z.of_nat (length (Nodes agents))) +:+ ")" ∧
    Value cds = "Consumerds (" +:+ FormatInt (Z.of_nat (length (Nodes cds))) +:+ ")" ∧
    Value <$> Nodes agents ≡ₚ route_agents r ∧ StronglySorted String.le (Value <$> Nodes agents) ∧
    Value <$> Nodes cds ≡ₚ route_consumerds r ∧ StronglySorted String.le (Value <$> Nodes cds).
Proof.
  destruct (route_nodes_from routes []) as [HP HO]; [constructor|]. split_and!; [done|done|].
  intros n Hn. unfold route_nodes in Hn. rewrite HP in Hn. apply list_elem_of_fmap in Hn as (r & -> & Hr).
  assert (∀ l, Value <$> (leaf <$> sort_Strings l) = sort_Strings l) as E.
  { intros l. rewrite <- list_fmap_compose. apply list_fmap_id. }
  eexists r, _, _. split_and!; [done|done|reflexivity|..]; cbn [Nodes Value].
  1, 2: rewrite length_fmap; do 3 f_equal; unfold sort_Strings; by rewrite (merge_sort_Permutation String.le).
  all: rewrite E; unfold sort_Strings; first [apply merge_sort_Permutation|apply (StronglySorted_merge_sort String.le)].
Qed.

(** While the scheduler cannot be reached the loop does not wait for its ticker: any number
    of failing calls is made before the next tick. *)
Theorem routes_busy (n : nat) (err : error) :
  length (routes_rounds (replicate n (inl err)) 0) = n.
Proof. induction n as [|n IH]; cbn; [done|]. by rewrite IH. Qed.
End routes.

(** A GNU compiler found for both languages has no name. *)
Theorem gnu_multi_unnamed (tc : Toolchain) (HK : Kind tc = Gnu) (HL : Lang tc = Multi) : friendlyName tc = "Unknown".
Proof. unfold friendlyName. by rewrite HK, HL. Qed.
