(* ===== verification/Prometheus.v ===== *)
(** * The Prometheus exporter: [pkg/monitor/prometheus.go]

    The monitor can export metrics: a listener of its own follows the providers, asks who each
    one is, and copies the values it posts to gauges of the Prometheus client library, some of
    them with the address of the provider as label. The gauges are a map from name and label
    to a number. *)
From S2P Require Import Prelude GoStrings Types MetricsClient Monitor Followers.

(** ** Gauges *)

(** Those of the variables that are set from posted metrics. *)
Inductive family : Set :=
  | tasksCompletedTotal | tasksFailedTotal | schedulingRequestsTotal | agentCount | cdCount
  | agentWeight | cdRemoteReqTotal | agentTasksTotal
  | agentTasksMax | agentTasksActive | agentTasksQueued
  | cdLocalTasksTotal | cdTasksMax | cdLocalTasksActive | cdLocalTasksQueued | cdRemoteTasksActive.
#[export] Instance family_eq_dec : EqDecision family.
Proof. solve_decision. Defined.

Definition families : list family :=
  [tasksCompletedTotal; tasksFailedTotal; schedulingRequestsTotal; agentCount; cdCount; agentWeight;
   cdRemoteReqTotal; agentTasksTotal; agentTasksMax; agentTasksActive; agentTasksQueued;
   cdLocalTasksTotal; cdTasksMax; cdLocalTasksActive; cdLocalTasksQueued; cdRemoteTasksActive].

Definition family_index (f : family) : nat :=
  match f with
  | tasksCompletedTotal => 0 | tasksFailedTotal => 1 | schedulingRequestsTotal => 2 | agentCount => 3
  | cdCount => 4 | agentWeight => 5 | cdRemoteReqTotal => 6 | agentTasksTotal => 7
  | agentTasksMax => 8 | agentTasksActive => 9 | agentTasksQueued => 10
  | cdLocalTasksTotal => 11 | cdTasksMax => 12 | cdLocalTasksActive => 13 | cdLocalTasksQueued => 14
  | cdRemoteTasksActive => 15
  end%nat.
#[export] Instance family_countable : Countable family.
Proof. apply (inj_countable family_index (λ n, families !! n)). by intros []. Defined.

(** The full name: namespace and name of the options. *)
Definition gauge_name (f : family) : string :=
  "kubecc_" +:+
  match f with
  | tasksCompletedTotal => "tasks_completed_total"
  | tasksFailedTotal => "tasks_failed_total"
  | schedulingRequestsTotal => "scheduling_requests_total"
  | agentCount => "agent_count"
  | cdCount => "cd_count"
  | agentWeight => "agent_weight"
  | cdRemoteReqTotal => "cd_remote_req_total"
  | agentTasksTotal => "agent_tasks_total"
  | agentTasksMax => "agent_tasks_max"
  | agentTasksActive => "agent_tasks_active"
  | agentTasksQueued => "agent_tasks_queued"
  | cdLocalTasksTotal => "cd_local_tasks_total"
  | cdTasksMax => "cd_tasks_max"
  | cdLocalTasksActive => "cd_local_tasks_active"
  | cdLocalTasksQueued => "cd_local_tasks_queued"
  | cdRemoteTasksActive => "cd_remote_tasks_active"
  end.

(** The name of the label of a vector of gauges. *)
Definition label_name (f : family) : option string :=
  match f with
  | agentWeight | agentTasksTotal | agentTasksMax | agentTasksActive | agentTasksQueued => Some "agent"
  | cdRemoteReqTotal | cdLocalTasksTotal | cdTasksMax | cdLocalTasksActive | cdLocalTasksQueued
  | cdRemoteTasksActive => Some "consumerd"
  | _ => None
  end.

(** [float64(n)], rounded to the nearest of 53 bits, to the even one when two are as near. *)
Definition float64 (n : Z) : Z :=
  let a := Z.abs n in
  let e := Z.log2 a - 52 in
  if bool_decide (e ≤ 0) then n
  else
    let q := a / 2 ^ e in
    let r := a mod 2 ^ e in
    let q := if bool_decide (2 ^ (e - 1) < r) || (bool_decide (r = 2 ^ (e - 1)) && Z.odd q) then q + 1 else q in
    Z.sgn n * (q * 2 ^ e).

Lemma float64_small n : Z.abs n < 2 ^ 53 → float64 n = n.
Proof.
  intros H. unfold float64. rewrite bool_decide_true; [done|].
  destruct (decide (Z.abs n = 0)) as [E|E]; [by rewrite E|].
  assert (Z.log2 (Z.abs n) < 53); [|lia]. apply Z.log2_lt_pow2; lia.
Qed.

(** ** Values and the gauges they set *)

Inductive posted :=
  | TaskStatus (running queued delegated : Z)
  | UsageLimits (concurrent delegated : Z)
  | AgentCount (n : Z)
  | AgentTasksTotal (uuid : string) (total : Z)
  | ConsumerdCount (n : Z)
  | ConsumerdTasksTotal (uuid : string) (total : Z)
  | SchedulingRequestsTotal (total : Z)
  | TasksCompletedTotal (total : Z)
  | TasksFailedTotal (total : Z)
  | LocalTasksCompleted (total : Z).

Abbreviation gauge_writes := (list (family * string * Z)).

(** The handlers of [watchAgentKeys]; [None] when there is none for the value. *)
Definition watchAgentKeys (info : ProviderInfo) (v : posted) : option gauge_writes :=
  let labels := Address info in
  match v with
  | TaskStatus r q _ => Some [(agentTasksActive, labels, r); (agentTasksActive, labels, r); (agentTasksQueued, labels, q)]
  | UsageLimits c _ => Some [(agentTasksMax, labels, c)]
  | _ => None
  end.

Definition watchConsumerdKeys (info : ProviderInfo) (v : posted) : option gauge_writes :=
  let labels := Address info in
  match v with
  | TaskStatus r q d =>
      Some [(cdLocalTasksActive, labels, r); (cdRemoteTasksActive, labels, d); (cdLocalTasksQueued, labels, q)]
  | UsageLimits c _ => Some [(cdTasksMax, labels, c)]
  | LocalTasksCompleted t => Some [(cdLocalTasksTotal, labels, t)]
  | _ => None
  end.

(** Totals of agents and consumer daemons come from the scheduler with a UUID, for which the
    address is looked up. *)
Definition watchSchedulerKeys (providerInfo : gmap string ProviderInfo) (v : posted) : option gauge_writes :=
  let known uuid f t :=
    match providerInfo !! uuid with Some info => [(f, Address info, t)] | None => [] end in
  match v with
  | AgentCount n => Some [(agentCount, "", n)]
  | AgentTasksTotal uuid t => Some (known uuid agentTasksTotal t)
  | ConsumerdCount n => Some [(cdCount, "", n)]
  | ConsumerdTasksTotal uuid t => Some (known uuid cdRemoteReqTotal t)
  | SchedulingRequestsTotal t => Some [(schedulingRequestsTotal, "", t)]
  | TasksCompletedTotal t => Some [(tasksCompletedTotal, "", t)]
  | TasksFailedTotal t => Some [(tasksFailedTotal, "", t)]
  | _ => None
  end.

(** ** The exporter *)

Inductive handler :=
  | EWhois                    (** waiting for the answer of Whois *)
  | EWait (stored : bool)     (** [<-ctx.Done()]; whether the provider was entered *)
  | EEnded.

Record exporter := mkExporter {
  e_providers : provider_listener;
  e_handlers : list handler;
  providerInfo : gmap string ProviderInfo;
  watchers : list ProviderInfo;                (** one for each call of a watch function *)
  gauges : gmap (family * string) Z;
  e_crashed : bool;
}.

Definition new_exporter : exporter := mkExporter new_listener [] ∅ [] ∅ false.

Inductive elabel :=
  | EProviders (upd : option (gset string))
  | EAnswer (i : nat) (r : error + ProviderInfo)   (** the answer of Whois *)
  | EValue (j : nat) (v : posted)                  (** a value at a listener of watcher [j] *)
  | EDone (i : nat).

Definition with_gauges (g : gmap (family * string) Z) (e : exporter) : exporter :=
  mkExporter (e_providers e) (e_handlers e) (providerInfo e) (watchers e) g (e_crashed e).

Definition write_gauges (ws : gauge_writes) (g : gmap (family * string) Z) : gmap (family * string) Z :=
  fold_left (λ g w, <[(w.1.1, w.1.2) := float64 w.2]> g) ws g.

Definition watch (e : exporter) (info : ProviderInfo) (v : posted) : option gauge_writes :=
  match ProviderComponent info with
  | Agent => watchAgentKeys info v
  | Scheduler => watchSchedulerKeys (providerInfo e) v
  | Consumerd => watchConsumerdKeys info v
  | _ => None
  end.

(** The handler after Whois: an error is logged, and then the nil answer is dereferenced. *)
Definition answered (i : nat) (uuid : string) (r : error + ProviderInfo) (e : exporter) : exporter :=
  match r with
  | inl _ => mkExporter (e_providers e) (e_handlers e) (providerInfo e) (watchers e) (gauges e) true
  | inr info =>
      let put stored infos ws :=
        mkExporter (e_providers e) (<[i := EWait stored]> (e_handlers e)) infos ws (gauges e) (e_crashed e) in
      match ProviderComponent info with
      | Agent | Consumerd => put true (<[uuid := info]> (providerInfo e)) (watchers e ++ [info])
      | Scheduler => put false (providerInfo e) (watchers e ++ [info])
      | _ => put false (providerInfo e) (watchers e)
      end
  end.

Section exporter.
Context (order : gset string → list string).

(** [servePrometheusMetrics]. *)
Definition estep (lb : elabel) (e : exporter) : option exporter :=
  if e_crashed e then None
  else match lb with
  | EProviders upd =>
      let p := doUpdate order upd (e_providers e) in
      Some (mkExporter p (e_handlers e ++ replicate (length (started p) - length (e_handlers e)) EWhois)
              (providerInfo e) (watchers e) (gauges e) (e_crashed e))
  | EAnswer i r =>
      match e_handlers e !! i, started (e_providers e) !! i with
      | Some EWhois, Some (uuid, _) => Some (answered i uuid r e)
      | _, _ => None
      end
  | EValue j v =>
      info ← watchers e !! j;
      ws ← watch e info v;
      Some (with_gauges (write_gauges ws (gauges e)) e)
  | EDone i =>
      match e_handlers e !! i, started (e_providers e) !! i with
      | Some (EWait _), Some (uuid, _) =>
          if bool_decide (i ∈ cancelled (e_providers e))
          then Some (mkExporter (e_providers e) (<[i := EEnded]> (e_handlers e)) (delete uuid (providerInfo e))
                       (watchers e) (gauges e) (e_crashed e))
          else None
      | _, _ => None
      end
  end.

(** ** The gauges are current *)

(** The gauges that a provider sets about itself, by component. *)
Definition own_family (f : family) : option Component :=
  match f with
  | agentTasksMax | agentTasksActive | agentTasksQueued => Some Agent
  | cdLocalTasksTotal | cdTasksMax | cdLocalTasksActive | cdLocalTasksQueued | cdRemoteTasksActive => Some Consumerd
  | _ => None
  end.

(** What a posted value says about such a gauge. *)
Definition reading (f : family) (v : posted) : option Z :=
  match f, v with
  | agentTasksActive, TaskStatus r _ _ => Some r
  | agentTasksQueued, TaskStatus _ q _ => Some q
  | agentTasksMax, UsageLimits c _ => Some c
  | cdLocalTasksActive, TaskStatus r _ _ => Some r
  | cdLocalTasksQueued, TaskStatus _ q _ => Some q
  | cdRemoteTasksActive, TaskStatus _ _ d => Some d
  | cdTasksMax, UsageLimits c _ => Some c
  | cdLocalTasksTotal, LocalTasksCompleted t => Some t
  | _, _ => None
  end.

(** The reading of a step for the gauge of an address, given the watchers. *)
Definition step_reading (ws : list ProviderInfo) (c : Component) (f : family) (addr : string) (lb : elabel) : option Z :=
  match lb with
  | EValue j v =>
      info ← ws !! j;
      if bool_decide (ProviderComponent info = c) && bool_decide (Address info = addr) then reading f v else None
  | _ => None
  end.

Lemma write_other ws g k : (∀ w, w ∈ ws → w.1 ≠ k) → write_gauges ws g !! k = g !! k.
Proof.
  revert g. induction ws as [|[[f l] z] ws IH]; intros g H; cbn; [done|].
  unfold write_gauges in IH. rewrite IH by set_solver. apply lookup_insert_ne. intros E.
  apply (H (f, l, z)); [by left|exact E].
Qed.

(** One value: the gauge of its address takes the reading, all others stay. *)
Lemma watch_reading e info v ws f c addr :
  own_family f = Some c → watch e info v = Some ws →
  write_gauges ws (gauges e) !! (f, addr) =
    match (if bool_decide (ProviderComponent info = c) && bool_decide (Address info = addr) then reading f v else None) with
    | Some z => Some (float64 z)
    | None => gauges e !! (f, addr)
    end.
Proof.
  intros Hf HW. destruct (decide (ProviderComponent info = c ∧ Address info = addr)) as [[<- <-]|Hne].
  - rewrite !bool_decide_true by done. cbn [andb]. unfold watch in HW.
    destruct (ProviderComponent info), f; try done; destruct v; try done; injection HW as <-; cbn.
    all: repeat first [rewrite lookup_insert_eq | rewrite lookup_insert_ne by done]; done.
  - assert (bool_decide (ProviderComponent info = c) && bool_decide (Address info = addr) = false) as ->.
    { apply andb_false_iff. rewrite !bool_decide_eq_false. destruct (decide (ProviderComponent info = c)); [right|left]; naive_solver. }
    apply write_other. intros [[f' l'] z] Hw [= -> ->]. unfold watch in HW.
    destruct (ProviderComponent info) eqn:EC; try done.
    + destruct v; try done; injection HW as <-; set_unfold; destruct_or?; simplify_eq; naive_solver.
    + destruct v as [| |?|u ?|?|u ?| | | |]; try done; injection HW as <-.
      all: try destruct (providerInfo e !! u); set_unfold; destruct_or?; simplify_eq; done.
    + destruct v; try done; injection HW as <-; set_unfold; destruct_or?; simplify_eq; naive_solver.
Qed.

(** Watchers are only added. *)
Lemma estep_watchers lb e e' : estep lb e = Some e' → watchers e `prefix_of` watchers e'.
Proof.
  unfold estep. destruct (e_crashed e); [done|]. destruct lb as [upd|i r|j v|i].
  - by intros [= <-].
  - destruct (e_handlers e !! i) as [[]|], (started (e_providers e) !! i) as [[]|]; try done. intros [= <-].
    destruct r as [|info]; [done|]. unfold answered. destruct (ProviderComponent info); cbn; first [done | by eexists].
  - intros (info & _ & (ws & _ & [= <-])%bind_Some)%bind_Some. done.
  - destruct (e_handlers e !! i) as [[]|], (started (e_providers e) !! i) as [[]|]; try done. case_bool_decide; [|done]. by intros [= <-].
Qed.

(** A step sets the gauge of an address to its reading, if it has one. *)
Lemma estep_gauge lb e e' f c addr :
  own_family f = Some c → estep lb e = Some e' →
  gauges e' !! (f, addr) =
    match step_reading (watchers e) c f addr lb with
    | Some z => Some (float64 z)
    | None => gauges e !! (f, addr)
    end.
Proof.
  intros Hf. unfold estep. destruct (e_crashed e); [done|]. destruct lb as [upd|i r|j v|i]; cbn [step_reading].
  - by intros [= <-].
  - destruct (e_handlers e !! i) as [[]|], (started (e_providers e) !! i) as [[]|]; try done. intros [= <-].
    destruct r as [|info]; [done|]. unfold answered. by destruct (ProviderComponent info).
  - intros (info & -> & (ws & HW & [= <-])%bind_Some)%bind_Some. cbn [mbind option_bind]. cbn. by apply watch_reading.
  - destruct (e_handlers e !! i) as [[]|], (started (e_providers e) !! i) as [[]|]; try done. case_bool_decide; [|done]. by intros [= <-].
Qed.

Definition readings (ws : list ProviderInfo) (c : Component) (f : family) (addr : string) (lbs : list elabel) : list Z :=
  omap (step_reading ws c f addr) lbs.

(** A value is only handled by a watcher that exists. *)
Lemma step_reading_prefix ws ws' c f addr lb e e' :
  watchers e = ws → ws `prefix_of` ws' → estep lb e = Some e' → step_reading ws' c f addr lb = step_reading ws c f addr lb.
Proof.
  intros <- [k ->] He. destruct lb as [| |j v|]; try done. cbn. unfold estep in He. destruct (e_crashed e); [done|].
  apply bind_Some in He as (info & Hj & _). by rewrite (lookup_app_l_Some _ _ _ _ Hj), Hj.
Qed.

Lemma run_readings lbs : ∀ e e' f c addr,
  own_family f = Some c → run_labels estep lbs e = Some e' →
  watchers e `prefix_of` watchers e' ∧
  gauges e' !! (f, addr) =
    match last (readings (watchers e') c f addr lbs) with
    | Some z => Some (float64 z)
    | None => gauges e !! (f, addr)
    end.
Proof.
  induction lbs as [|lb lbs IH]; intros e e' f c addr Hf; cbn [run_labels]; [by intros [= <-]|].
  intros (e1 & H1 & H2)%bind_Some. destruct (IH e1 e' f c addr Hf H2) as [IH1 IH2].
  pose proof (estep_watchers _ _ _ H1) as HP. pose proof (transitivity HP IH1) as HP'. split; [done|].
  rewrite IH2, (estep_gauge _ _ _ _ _ addr Hf H1), <- (step_reading_prefix _ _ c f addr _ _ _ eq_refl HP' H1).
  unfold readings. cbn. destruct (step_reading _ c f addr lb) as [z|]; cbn; [|done].
  destruct (omap _ lbs) as [|y ys]; cbn; [done|]. by destruct (last (y :: ys)) eqn:E; [|apply last_None in E].
Qed.
End exporter.

(** C35: The gauges of agents and consumer daemons are current. After any interleaving of
    connects, disconnects and posts, the gauge of an address holds the last value of its
    metric that any agent (or consumer daemon) with this address has posted, as a float64,
    and is absent if there was none; below 2^53 it is the posted number itself. *)
Theorem gauges_current (order : gset string → list string) (lbs : list elabel) (e : exporter) (f : family)
    (c : Component) (addr : string) (HR : run_labels (estep order) lbs new_exporter = Some e)
    (HF : own_family f = Some c) :
  gauges e !! (f, addr) = float64 <$> last (readings (watchers e) c f addr lbs) ∧
  ∀ z, last (readings (watchers e) c f addr lbs) = Some z → Z.abs z < 2 ^ 53 → gauges e !! (f, addr) = Some z.
Proof.
  destruct (run_readings order lbs new_exporter e f c addr HF HR) as [_ E].
  assert (gauges e !! (f, addr) = float64 <$> last (readings (watchers e) c f addr lbs)) as E'.
  { rewrite E. by destruct (last _). }
  split; [done|]. intros z Hz Hb. rewrite E', Hz. cbn. by rewrite float64_small.
Qed.

Definition an_agent (u addr : string) : ProviderInfo := mkProviderInfo u Agent addr.
Definition export_run : list elabel :=
  [EProviders (Some {["a"]}); EAnswer 0 (inr (an_agent "a" "10.0.0.1")); EValue 0 (TaskStatus 3 1 0);
   EValue 0 (UsageLimits 8 0); EValue 0 (TaskStatus 5 0 0)].

Definition export_state : exporter := after_run (estep elements) new_exporter export_run.

Lemma export_state_run : run_labels (estep elements) export_run new_exporter = Some export_state.
Proof. vm_compute. reflexivity. Qed.

Lemma gauges_current_witness : gauges export_state !! (agentTasksActive, "10.0.0.1") = Some 5.
Proof.
  apply (gauges_current elements export_run export_state agentTasksActive Agent "10.0.0.1" export_state_run eq_refl); [|done].
  vm_compute. reflexivity.
Defined.

(** ** The table of providers *)

Definition e_holding (pc : handler) : bool := match pc with EWait b => b | _ => false end.

(** Whois answers, and a provider that comes back is entered after its earlier handler left. *)
Definition e_orderly (lb : elabel) (e : exporter) : bool :=
  match lb with
  | EAnswer i (inl _) => false
  | EAnswer i (inr info) =>
      match started (e_providers e) !! i with
      | Some (uuid, _) =>
          bool_decide (ProviderUUID info = uuid) && match providerInfo e !! uuid with None => true | Some _ => false end
      | None => true
      end
  | EDone i =>      (** a handler that entered nothing finds nothing to delete *)
      match e_handlers e !! i, started (e_providers e) !! i with
      | Some (EWait false), Some (uuid, _) => match providerInfo e !! uuid with None => true | Some _ => false end
      | _, _ => true
      end
  | _ => true
  end.

Definition e_orderly_step (order : gset string → list string) (lb : elabel) (e : exporter) : option exporter :=
  if e_orderly lb e then estep order lb e else None.

Definition exporter_ok (e : exporter) : Prop :=
  e_crashed e = false ∧ followed e_holding (e_providers e) (e_handlers e) (providerInfo e) ∧
  ∀ u info, providerInfo e !! u = Some info → ProviderUUID info = u.

Lemma e_orderly_ok order lb e e' :
  (∀ X, order X ≡ₚ elements X) → exporter_ok e → e_orderly_step order lb e = Some e' → exporter_ok e'.
Proof.
  intros HO (HC & HF & HU). unfold e_orderly_step. destruct (e_orderly lb e) eqn:Eo; [|done]. unfold estep. rewrite HC.
  destruct lb as [upd|i r|j v|i].
  - intros [= <-]. split_and!; [done| |done]. by apply (followed_providers e_holding).
  - destruct (e_handlers e !! i) as [[]|] eqn:Ei, (started (e_providers e) !! i) as [[u c]|] eqn:Es; try done. intros [= <-].
    cbn in Eo. destruct r as [|info]; [done|]. rewrite Es in Eo. apply andb_true_iff in Eo as [Eu En].
    apply bool_decide_eq_true in Eu. assert (providerInfo e !! u = None) as Hn by (by destruct (providerInfo e !! u)).
    assert (exporter_ok (mkExporter (e_providers e) (<[i := EWait true]> (e_handlers e)) (<[u := info]> (providerInfo e))
      (watchers e ++ [info]) (gauges e) (e_crashed e))) as Hyes.
    { split_and!; [done|by eapply followed_store|]. cbn. intros v x [[<- <-]|[_ Hx]]%lookup_insert_Some; [done|by apply HU]. }
    assert (∀ ws, exporter_ok (mkExporter (e_providers e) (<[i := EWait false]> (e_handlers e)) (providerInfo e) ws (gauges e) (e_crashed e))) as Hno.
    { intros ws. split_and!; [done|by eapply followed_put|done]. }
    unfold answered. by destruct (ProviderComponent info).
  - intros (info & _ & (ws & _ & [= <-])%bind_Some)%bind_Some. done.
  - destruct (e_handlers e !! i) as [[| [] | ]|] eqn:Ei, (started (e_providers e) !! i) as [[u c]|] eqn:Es; try done; (case_bool_decide; [|done]); intros [= <-].
    + split_and!; [done|by eapply (followed_remove e_holding _ _ _ i (EWait true))|]. cbn.
      intros v x [_ Hx]%lookup_delete_Some. by apply HU.
    + cbn in Eo. rewrite Ei, Es in Eo. assert (providerInfo e !! u = None) as Hn by (by destruct (providerInfo e !! u)).
      rewrite delete_id by done. split_and!; [done|by eapply followed_put|done].
Qed.

(** As long as Whois answers, and providers that come back are entered after their earlier
    handler left, the exporter does not panic, its table has exactly the agents and consumer
    daemons whose handler waits, each under its own UUID, and totals that the scheduler posts
    are exported under the address of exactly those. *)
Theorem exporter_table (order : gset string → list string) (e : exporter) (HO : ∀ X, order X ≡ₚ elements X)
    (HR : reach (e_orderly_step order) (.= new_exporter) (λ _, True) e) :
  e_crashed e = false ∧
  (∀ u, is_Some (providerInfo e !! u) ↔ ∃ i, attached e_holding (e_providers e) (e_handlers e) i u) ∧
  (∀ u info, providerInfo e !! u = Some info → ProviderUUID info = u) ∧
  (∀ u total, watchSchedulerKeys (providerInfo e) (AgentTasksTotal u total) =
     Some (match providerInfo e !! u with Some info => [(agentTasksTotal, Address info, total)] | None => [] end)).
Proof.
  assert (exporter_ok e) as (HC & HF & HU).
  { revert HR. apply reach_inv; [intros ? ->; split_and!; [done|apply followed_new|done]|].
    intros x lb y Hx _. by apply e_orderly_ok. }
  split_and!; [done|apply (fo_agents _ _ _ _ HF)|done|done].
Qed.

Lemma export_state_orderly : run_labels (e_orderly_step elements) export_run new_exporter = Some export_state.
Proof. vm_compute. reflexivity. Qed.

Lemma exporter_table_witness : e_crashed export_state = false ∧ is_Some (providerInfo export_state !! "a").
Proof.
  split; [|vm_compute; by eexists]. apply (exporter_table elements export_state); [done|].
  eapply reach_run; [by apply reach_init|by apply Forall_true|exact export_state_orderly].
Defined.

(** ** Faults *)

(** A provider that is gone before it was asked about stops the monitor: Whois answers with an
    error, and the handler goes on with a nil answer. *)
Theorem whois_error_crashes {Msg : Type} (m : @MonitorServer Msg) (order : gset string → list string)
    (e e' : exporter) (i c : nat) (uuid : string)
    (Hgone : Monitor.providers m !! uuid = None) (Hi : e_handlers e !! i = Some EWhois)
    (Hs : started (e_providers e) !! i = Some (uuid, c)) (He : estep order (EAnswer i (Whois uuid m)) e = Some e') :
  e_crashed e' = true ∧ ∀ lb, estep order lb e' = None.
Proof.
  unfold estep in He. destruct (e_crashed e); [done|]. unfold Whois in He. rewrite Hi, Hs, Hgone in He.
  injection He as <-. by split.
Qed.

(** The gauges of a provider stay after it is gone, and two providers behind one address (the
    monitor takes the address of the connection) share their gauges. *)
Theorem gauges_stay :
  (let run := [EProviders (Some ∅); EDone 0] in let e := after_run (estep elements) export_state run in
   is_Some (run_labels (estep elements) run export_state) ∧ map_to_list (providerInfo e) = [] ∧
   gauges e !! (agentTasksActive, "10.0.0.1") = Some 5) ∧
  (let run := [EProviders (Some {["a"; "b"]}); EAnswer 1 (inr (an_agent "b" "10.0.0.1")); EValue 1 (TaskStatus 0 0 0)] in
   let e := after_run (estep elements) export_state run in
   is_Some (run_labels (estep elements) run export_state) ∧ gauges e !! (agentTasksActive, "10.0.0.1") = Some 0).
Proof. split; cbn zeta; split_and!; vm_compute; first [reflexivity | by eexists]. Qed.

(** No value sets the weight of an agent. *)
Theorem agent_weight_unset (e : exporter) (info : ProviderInfo) (v : posted) (ws : gauge_writes) (addr : string)
    (HW : watch e info v = Some ws) (g : gmap (family * string) Z) :
  write_gauges ws g !! (agentWeight, addr) = g !! (agentWeight, addr).
Proof.
  apply write_other. intros [[f' l'] z] Hw [= -> ->]. unfold watch in HW.
  destruct (ProviderComponent info); try done; destruct v as [| |?|u ?|?|u ?| | | |]; try done; injection HW as <-.
  all: try destruct (providerInfo e !! u); set_unfold; destruct_or?; simplify_eq; done.
Qed.
