(* ===== verification/MonitorQueries.v ===== *)
(** * What the monitor reports, and who asks: [pkg/monitor/server.go], [pkg/kubecc/commands/get.go]

    The monitor posts metrics about itself into a bucket of its own. The commands "kubecc get"
    query it through its client; here the client is an interface (a record of the four calls),
    and the server of [Monitor] implements it. *)
From S2P Require Import Prelude GoStrings Types Monitor MonitorProps.

(** ** The client of the monitor *)

Class MonitorClient := {
  client_GetMetric : Key → error + Any;
  client_GetBuckets : error + list string;
  client_GetKeys : string → error + list Key;
  client_Whois : string → error + ProviderInfo;
}.

Definition ProvidersUrl : string := "type.googleapis.com/metrics.Providers".
Definition HealthUrl : string := "type.googleapis.com/metrics.Health".

(** What a command prints and logs. *)
Inductive output := Println (line : string) | LogError (err : error).
Inductive outputKind : Set := OutText | OutJson | OutJsonfmt | OutOther.

Section commands.
(** The messages of the generated code and the formats of the protobuf library: the text
    forms cannot fail, the plain JSON form can. [paint] colours the name of a component, and
    [order] is the order of iteration over the provider map. *)
Context {Msg : Type} (UnmarshalNew : Any → error + Msg) (as_providers : Msg → option (gmap string ProviderInfo)).
Context (format_text format_jsonfmt : Any → string) (marshal_json : Any → error + string)
  (info_any : ProviderInfo → Any) (metric_any : Key → Any → Any).
Context (paint : Component → string → string)
  (order : gmap string ProviderInfo → list (string * ProviderInfo)).

Definition formatOutput (kind : outputKind) (msgs : list Any) : list output :=
  msg ← msgs;
  match kind with
  | OutText => [Println (format_text msg)]
  | OutJson => match marshal_json msg with inl err => [LogError err] | inr data => [Println data] end
  | OutJsonfmt => [Println (format_jsonfmt msg)]
  | OutOther => []
  end.

Section with_client.
Context (client : MonitorClient) (kind : outputKind).

(** The type assertion comes before the look at the error. *)
Definition getProviders : go (error + gmap string ProviderInfo) :=
  match client_GetMetric (mkKey MetaBucket ProvidersUrl) with
  | inl err => Ret (inl err)
  | inr m =>
      match UnmarshalNew m with
      | inl _ => Panic "interface conversion: interface is nil, not *metrics.Providers"
      | inr msg =>
          match as_providers msg with
          | Some ps => Ret (inr ps)
          | None => Panic "interface conversion: interface is not *metrics.Providers"
          end
      end
  end.

Definition filterProviders (ps : gmap string ProviderInfo) (c : Component) : list ProviderInfo :=
  List.filter (λ p, bool_decide (ProviderComponent p = c)) (order ps).*2.

(** [getAgents], [getConsumerds], [getSchedulers], [getMonitors] and [getCaches]; with
    arguments they print nothing. *)
Definition get_component (c : Component) (args : list string) : go (list output) :=
  r ← getProviders;
  match r with
  | inl err => Ret [LogError err]
  | inr ps =>
      let all := filterProviders ps c in
      Ret (if bool_decide (args = []) then formatOutput kind (info_any <$> all) else [])
  end.
Definition getAgents : list string → go (list output) := get_component Agent.
Definition getConsumerds : list string → go (list output) := get_component Consumerd.
Definition getSchedulers : list string → go (list output) := get_component Scheduler.
Definition getMonitors : list string → go (list output) := get_component Monitor.
Definition getCaches : list string → go (list output) := get_component Cache.

Definition getComponents (args : list string) : go (list output) :=
  r ← getProviders;
  match r with
  | inl err => Ret [LogError err]
  | inr ps => Ret (if bool_decide (args = []) then formatOutput kind (info_any <$> (order ps).*2) else [])
  end.

(** All keys are parsed before the first query. *)
Fixpoint parse_keys (args : list string) : error + list Key :=
  match args with
  | [] => inr []
  | a :: args =>
      match ParseKey a with
      | inl err => inl err
      | inr k => match parse_keys args with inl err => inl err | inr ks => inr (k :: ks) end
      end
  end.

Definition getMetrics (args : list string) : list output :=
  match parse_keys args with
  | inl err => [LogError err]
  | inr keys =>
      key ← keys;
      match client_GetMetric key with
      | inl err => [LogError err]
      | inr metric => formatOutput kind [metric_any key metric]
      end
  end.

Definition getBuckets : list output :=
  match client_GetBuckets with
  | inl err => [LogError err]
  | inr bs => Println <$> bs
  end.

Definition getKeys (arg : string) : list output :=
  match client_GetKeys arg with
  | inl err => [LogError err]
  | inr keys => (Println ∘ Canonical) <$> keys
  end.

(** One key of a bucket in [getHealth]. *)
Definition health_key (bucket : string) (key : Key) : list output :=
  if bool_decide (Name key = HealthUrl) then
    match client_GetMetric key with
    | inl err => [LogError err]
    | inr metric =>
        match client_Whois bucket with
        | inl err => [LogError err]
        | inr whois =>
            Println (paint (ProviderComponent whois) (Component_Name (ProviderComponent whois)) +:+ " [" +:+ ProviderUUID whois +:+ "]")
            :: formatOutput kind [metric]
        end
    end
  else [].

Definition getHealth : list output :=
  match client_GetBuckets with
  | inl err => [LogError err]
  | inr bs =>
      bucket ← bs;
      match client_GetKeys bucket with
      | inl err => [LogError err]
      | inr keys => key ← keys; health_key bucket key
      end
  end.
End with_client.
End commands.

(** ** The monitor behind the client *)

Section monitor.
Context {Msg : Type} `{EqDecision Msg}.
Context (UnmarshalNew : Any → error + Msg) (anypb_New : Msg → Any) (Providers : gmap string ProviderInfo → Msg).

(** The answers of the server, once a query has the provider mutex: Whois returns the UUID it
    was asked for. *)
Definition query_answers (m : @MonitorServer Msg) : MonitorClient := {|
  client_GetMetric := λ key, GetMetric anypb_New key m;
  client_GetBuckets := inr (GetBuckets m);
  client_GetKeys := λ b, GetKeys b m;
  client_Whois := λ uuid,
    match Whois uuid m with
    | inl err => inl err
    | inr info => inr (mkProviderInfo uuid (ProviderComponent info) (Address info))
    end;
|}.

(** Every query takes the provider mutex for reading first: when a call has returned without
    releasing it, no query is ever answered. *)
Definition server_client (m : @MonitorServer Msg) : option MonitorClient :=
  if locked m then None else Some (query_answers m).

(** *** Its own metrics *)

Context (MetricsPostedTotal ListenerCount ProviderCount : Z → Msg).

(** [postInternal]: an error is only logged. *)
Definition postInternal (any : Any) (m : @MonitorServer Msg) : MonitorServer :=
  (post UnmarshalNew (mkKey (m_uuid m) (TypeUrl any)) (Some any) m).1.

Definition postTotals (m : @MonitorServer Msg) : MonitorServer :=
  postInternal (anypb_New (MetricsPostedTotal (metricsTotal m))) m.
Definition postListeners (m : @MonitorServer Msg) : MonitorServer :=
  postInternal (anypb_New (ListenerCount (wrap32 (Z.of_nat (length (listeners m)))))) m.
Definition postProviders (m : @MonitorServer Msg) : MonitorServer :=
  postInternal (anypb_New (ProviderCount (wrap32 (Z.of_nat (size (providers m)))))) m.

(** One round of [startMetricsProvider]'s timer. *)
Definition post_metrics (m : @MonitorServer Msg) : MonitorServer := postProviders (postListeners (postTotals m)).

(** *** Facts about posts *)

Context (unmarshal_new : ∀ msg, UnmarshalNew (anypb_New msg) = inr msg).

(** What [post] does to the server, apart from what it sends. *)
Lemma post_effect (b name : string) (msg : Msg) (m : @MonitorServer Msg) s :
  buckets m !! b = Some s →
  let m' := (post UnmarshalNew (mkKey b name) (Some (anypb_New msg)) m).1 in
  buckets m' = <[b := <[name := msg]> s]> (buckets m) ∧
  m_uuid m' = m_uuid m ∧ providers m' = providers m ∧ listeners m' = listeners m.
Proof.
  intros Hb. unfold post. cbn [Bucket Name]. rewrite Hb, unmarshal_new. unfold store_CAS.
  destruct (s !! name) as [v|] eqn:Hv; [case_bool_decide as E|]; cbn; split_and!; try done.
  f_equal. symmetry. apply insert_id. congruence.
Qed.

Lemma postInternal_effect (msg : Msg) (m : @MonitorServer Msg) s :
  buckets m !! m_uuid m = Some s →
  let m' := postInternal (anypb_New msg) m in
  buckets m' !! m_uuid m' = Some (<[TypeUrl (anypb_New msg) := msg]> s) ∧
  m_uuid m' = m_uuid m ∧ providers m' = providers m ∧ listeners m' = listeners m.
Proof.
  intros Hb. destruct (post_effect _ (TypeUrl (anypb_New msg)) msg m s Hb) as (H1 & H2 & H3 & H4).
  cbn zeta. unfold postInternal. rewrite H2, H1. split_and!; [by rewrite lookup_insert_eq|done..].
Qed.

Lemma post_providers key value (x : @MonitorServer Msg) :
  providers (post UnmarshalNew key value x).1 = providers x ∧ m_uuid (post UnmarshalNew key value x).1 = m_uuid x.
Proof. unfold post, store_CAS. repeat case_match; simplify_eq/=; done. Qed.

Lemma updated_providers (x : @MonitorServer Msg) :
  let y := providersUpdated UnmarshalNew anypb_New Providers x in providers y = providers x ∧ m_uuid y = m_uuid x.
Proof. apply post_providers. Qed.

(** The monitor is always one of its providers. *)
Lemma own_step lb (m m' : @MonitorServer Msg) :
  is_Some (providers m !! m_uuid m) → mstep UnmarshalNew anypb_New Providers lb m = Some m' →
  is_Some (providers m' !! m_uuid m') ∧ m_uuid m' = m_uuid m.
Proof.
  intros HS. unfold mstep. destruct (locked m); [done|].
  destruct lb as [uuid c addr|key value|uuid|l|l|].
  - intros [= <-]. unfold Stream_connect. destruct (buckets m !! uuid); [done|]. cbn [fst].
    destruct (updated_providers (mkMonitor (m_uuid m) (<[uuid := NewStore]> (buckets m))
      (<[uuid := mkProviderInfo uuid c addr]> (providers m)) (listeners m) (metricsTotal m) (sent m) (locked m))) as [-> ->].
    cbn. split; [|done]. apply lookup_insert_is_Some'. by right.
  - intros [= <-]. destruct (post_providers key value m) as [-> ->]. done.
  - intros (_ & Hne & [= <-])%andb_if. apply bool_decide_eq_true in Hne. unfold Stream_disconnect.
    match goal with |- context [providersUpdated _ _ _ ?x] => destruct (updated_providers x) as [-> ->] end. cbn.
    split; [|done]. by rewrite lookup_delete_ne.
  - case_bool_decide; [done|]. intros [= <-]. unfold Listen. by case_match.
  - case_bool_decide; [|done]. by intros [= <-].
  - by intros [= <-].
Qed.

Context (url_const : ∀ p q, TypeUrl (anypb_New (Providers p)) = TypeUrl (anypb_New (Providers q))).
Abbreviation reachable := (monitor_reachable UnmarshalNew anypb_New Providers no_meta).

Lemma reachable_meta (m : @MonitorServer Msg) :
  reachable m → meta_ok anypb_New Providers m ∧ is_Some (providers m !! m_uuid m).
Proof.
  apply (reach_inv _ _ _ (λ m, meta_ok anypb_New Providers m ∧ is_Some (providers m !! m_uuid m))).
  - intros x (uuid & _ & Hu & ->). split; [by apply meta_new|].
    unfold NewMonitorServer.
    match goal with |- context [providersUpdated _ _ _ ?x] => destruct (updated_providers x) as [-> ->] end. cbn.
    rewrite lookup_singleton_eq. by eexists.
  - intros x lb y [H1 H2] HP Hs. split; [by eapply meta_step|by eapply own_step].
Qed.

(** The three messages are of different types. *)
Context (url_total : ∀ n, TypeUrl (anypb_New (MetricsPostedTotal n)) = TypeUrl (anypb_New (MetricsPostedTotal 0)))
  (url_listeners : ∀ n, TypeUrl (anypb_New (ListenerCount n)) = TypeUrl (anypb_New (ListenerCount 0)))
  (url_providers : ∀ n, TypeUrl (anypb_New (ProviderCount n)) = TypeUrl (anypb_New (ProviderCount 0)))
  (url_distinct : NoDup [TypeUrl (anypb_New (MetricsPostedTotal 0)); TypeUrl (anypb_New (ListenerCount 0));
                         TypeUrl (anypb_New (ProviderCount 0))]).

(** The monitor reports about itself. Whatever providers and listeners did before, after a
    round of its timer the metrics in its own bucket are the number of metrics posted before
    the round, the number of active listeners and the number of connected providers (itself
    included), the latter two as 32-bit integers. (The round takes the provider mutex: after a
    refused connection has left it locked there is none.) *)
Theorem monitor_reports (m : @MonitorServer Msg) (HR : reachable m) :
  let m' := post_metrics m in
  let own msg := mkKey (m_uuid m) (TypeUrl (anypb_New (msg 0))) in
  GetMetric anypb_New (own MetricsPostedTotal) m' = inr (anypb_New (MetricsPostedTotal (metricsTotal m))) ∧
  GetMetric anypb_New (own ListenerCount) m' = inr (anypb_New (ListenerCount (wrap32 (Z.of_nat (length (listeners m)))))) ∧
  GetMetric anypb_New (own ProviderCount) m' = inr (anypb_New (ProviderCount (wrap32 (Z.of_nat (size (providers m)))))).
Proof.
  destruct (reachable_meta m HR) as [Hm Ho]. cbn zeta.
  destruct (proj2 (meta_dom _ _ _ Hm (m_uuid m)) (or_intror Ho)) as [s Hs].
  assert (TypeUrl (anypb_New (MetricsPostedTotal 0)) ≠ TypeUrl (anypb_New (ListenerCount 0)) ∧
    TypeUrl (anypb_New (MetricsPostedTotal 0)) ≠ TypeUrl (anypb_New (ProviderCount 0)) ∧
    TypeUrl (anypb_New (ListenerCount 0)) ≠ TypeUrl (anypb_New (ProviderCount 0))) as (U1 & U2 & U3).
  { apply NoDup_cons in url_distinct as [N1 [N2 _]%NoDup_cons]. set_solver. }
  unfold post_metrics, postTotals.
  destruct (postInternal_effect (MetricsPostedTotal (metricsTotal m)) m s Hs) as (A1 & A2 & A3 & A4). set (m1 := postInternal _ m) in *.
  unfold postListeners. rewrite A4.
  destruct (postInternal_effect (ListenerCount (wrap32 (Z.of_nat (length (listeners m))))) m1 _ A1) as (B1 & B2 & B3 & B4). set (m2 := postInternal _ m1) in *.
  unfold postProviders. rewrite B3, A3.
  destruct (postInternal_effect (ProviderCount (wrap32 (Z.of_nat (size (providers m))))) m2 _ B1) as (C1 & C2 & C3 & C4). set (m3 := postInternal _ m2) in *.
  unfold GetMetric, store_Get. cbn [Bucket Name]. rewrite <- A2, <- B2, <- C2, C1.
  rewrite (url_total (metricsTotal m)), (url_listeners (wrap32 _)), (url_providers (wrap32 _)).
  split_and!; repeat first [rewrite lookup_insert_eq | rewrite lookup_insert_ne by (by apply not_eq_sym)]; done.
Qed.

(** *** The commands *)

Context (as_providers : Msg → option (gmap string ProviderInfo)) (format_text format_jsonfmt : Any → string)
  (marshal_json : Any → error + string) (info_any : ProviderInfo → Any) (paint : Component → string → string)
  (order : gmap string ProviderInfo → list (string * ProviderInfo)).
Context (providers_as : ∀ p, as_providers (Providers p) = Some p)
  (providers_url : TypeUrl (anypb_New (Providers ∅)) = ProvidersUrl)
  (order_perm : ∀ p, order p ≡ₚ map_to_list p).

Lemma getProviders_meta (m : @MonitorServer Msg) :
  meta_ok anypb_New Providers m → getProviders UnmarshalNew as_providers (query_answers m) = Ret (inr (providers m)).
Proof.
  intros [(s & Hs & Hv) _ _]. unfold getProviders. cbn [client_GetMetric query_answers].
  unfold GetMetric. cbn [Bucket Name]. rewrite Hs. unfold store_Get.
  unfold meta_key in Hv. cbn [Name] in Hv. rewrite providers_url in Hv. by rewrite Hv, unmarshal_new, providers_as.
Qed.

(** C34: What "kubecc get" lists is who is connected. In every state that the monitor can reach
    while providers post only to their own buckets and not to the meta bucket, and in which it
    answers queries at all (that is, no connection with an identity in use was refused before:
    such a refusal leaves the provider mutex locked, and every query hangs), the commands that
    list a kind of component do not panic and print, for each connected provider of that kind
    and for nobody else, one text with its UUID, component and address. *)
Theorem get_component_lists (m : @MonitorServer Msg) (HR : reachable m) (client : MonitorClient)
    (HC : server_client m = Some client) (c : Component) :
  ∃ out, get_component UnmarshalNew as_providers format_text format_jsonfmt marshal_json info_any order
      client OutText c [] = Ret out ∧
    out ≡ₚ (λ i, Println (format_text (info_any i))) <$> List.filter (λ p, bool_decide (ProviderComponent p = c)) (map_to_list (providers m)).*2 ∧
    ∀ uuid info, providers m !! uuid = Some info → ProviderComponent info = c → Println (format_text (info_any info)) ∈ out.
Proof.
  unfold server_client in HC. destruct (locked m); [done|]. injection HC as <-.
  destruct (reachable_meta m HR) as [Hm _]. unfold get_component. rewrite (getProviders_meta m Hm). cbn [mbind go_bind].
  rewrite bool_decide_true by done. eexists. split; [reflexivity|]. unfold formatOutput, filterProviders.
  assert (∀ l, (msg ← info_any <$> l; [Println (format_text msg)]) = (λ i, Println (format_text (info_any i))) <$> l) as E.
  { intros l. induction l as [|i l IH]; cbn; [done|]. by f_equal. }
  rewrite E. set (f := λ p, bool_decide (ProviderComponent p = c)).
  assert (∀ l, List.filter f l = filter (λ p, ProviderComponent p = c) l) as EF.
  { intros l. induction l as [|p l IH]; [done|]. cbn [List.filter]. rewrite filter_cons, IH. unfold f.
    case_bool_decide; by case_decide. }
  rewrite !EF. split; [by rewrite order_perm|].
  intros uuid info Hi Hc. apply list_elem_of_fmap. exists info. split; [done|]. apply list_elem_of_filter. split; [done|].
  rewrite order_perm. apply list_elem_of_fmap. exists (uuid, info). by rewrite elem_of_map_to_list.
Qed.

Definition health_title (uuid : string) (info : ProviderInfo) : string :=
  paint (ProviderComponent info) (Component_Name (ProviderComponent info)) +:+ " [" +:+ uuid +:+ "]".

Abbreviation health_of m := (health_key format_text format_jsonfmt marshal_json paint (query_answers m) OutText).

(** What [getHealth] prints for a key of a bucket. *)
Lemma health_key_eq (m : @MonitorServer Msg) b name s :
  buckets m !! b = Some s →
  health_of m b (mkKey b name) =
    if bool_decide (name = HealthUrl) then
      match s !! name, providers m !! b with
      | None, _ => [LogError (StatusError NotFound "No such key")]
      | Some _, None => [LogError (StatusError NotFound "The requested provider was not found.")]
      | Some h, Some info => [Println (health_title b info); Println (format_text (anypb_New h))]
      end
    else [].
Proof.
  intros Hb. unfold health_key. cbn [Name Bucket client_GetMetric client_Whois query_answers].
  destruct (bool_decide (name = HealthUrl)); [|done]. unfold GetMetric, store_Get, Whois. cbn [Bucket Name]. rewrite Hb.
  destruct (s !! name); [|done]. by destruct (providers m !! b).
Qed.

Lemma elem_of_buckets (m : @MonitorServer Msg) b : b ∈ GetBuckets m ↔ is_Some (buckets m !! b).
Proof.
  unfold GetBuckets. rewrite list_elem_of_fmap. split.
  - intros ([b' s] & -> & Hs%elem_of_map_to_list). by exists s.
  - intros [s Hs]. exists (b, s). by rewrite elem_of_map_to_list.
Qed.

Lemma elem_of_store_keys (s : gmap string Msg) k : k ∈ store_Keys s ↔ is_Some (s !! k).
Proof.
  unfold store_Keys. rewrite list_elem_of_fmap. split.
  - intros ([k' v] & -> & Hv%elem_of_map_to_list). by exists v.
  - intros [v Hv]. exists (k, v). by rewrite elem_of_map_to_list.
Qed.

Lemma bind_at {A B} (f : A → list B) l x : x ∈ l → ∃ o1 o2, l ≫= f = o1 ++ f x ++ o2.
Proof.
  intros (l1 & l2 & ->)%list_elem_of_split. exists (l1 ≫= f), (l2 ≫= f). by rewrite bind_app, bind_cons.
Qed.

(** The output of one bucket. *)
Definition bucket_health (m : @MonitorServer Msg) (b : string) : list output :=
  match GetKeys b m with
  | inl err => [LogError err]
  | inr keys => key ← keys; health_of m b key
  end.

Lemma bucket_health_eq (m : @MonitorServer Msg) b s :
  buckets m !! b = Some s → bucket_health m b = (mkKey b <$> store_Keys s) ≫= health_of m b.
Proof. intros Hb. unfold bucket_health, GetKeys. by rewrite Hb. Qed.

(** "kubecc get health" prints the health of exactly those components that have posted one.
    In every state of the monitor in which it answers queries, for every provider with a health metric the output has a line with
    its component and UUID followed by the value of the metric; and every line printed belongs to
    such a provider. *)
Theorem get_health_lists (m : @MonitorServer Msg) (client : MonitorClient) (HC : server_client m = Some client) :
  let out := getHealth format_text format_jsonfmt marshal_json paint client OutText in
  (∀ uuid info s h, providers m !! uuid = Some info → buckets m !! uuid = Some s → s !! HealthUrl = Some h →
     ∃ o1 o2, out = o1 ++ [Println (health_title uuid info); Println (format_text (anypb_New h))] ++ o2) ∧
  (∀ line, Println line ∈ out → ∃ uuid info s h, providers m !! uuid = Some info ∧ buckets m !! uuid = Some s ∧
     s !! HealthUrl = Some h ∧ (line = health_title uuid info ∨ line = format_text (anypb_New h))).
Proof.
  unfold server_client in HC. destruct (locked m); [done|]. injection HC as <-.
  cbn zeta. change (getHealth _ _ _ _ _ _) with (GetBuckets m ≫= bucket_health m). split.
  - intros uuid info s h Hp Hb Hh.
    destruct (bind_at (bucket_health m) (GetBuckets m) uuid) as (o1 & o2 & ->); [apply elem_of_buckets; by exists s|].
    rewrite (bucket_health_eq m uuid s Hb).
    destruct (bind_at (health_of m uuid) (mkKey uuid <$> store_Keys s) (mkKey uuid HealthUrl)) as (k1 & k2 & ->).
    { apply list_elem_of_fmap_2. apply elem_of_store_keys. by exists h. }
    rewrite (health_key_eq m uuid HealthUrl s Hb), bool_decide_true, Hh, Hp by reflexivity.
    exists (o1 ++ k1), (k2 ++ o2). by rewrite <- !app_assoc.
  - intros line (b & Hl & [s Hb]%elem_of_buckets)%list_elem_of_bind. rewrite (bucket_health_eq m b s Hb) in Hl.
    apply list_elem_of_bind in Hl as (key & Hl & (name & -> & Hk)%list_elem_of_fmap). rewrite (health_key_eq m b name s Hb) in Hl.
    case_bool_decide as E; [|by apply not_elem_of_nil in Hl]. rewrite E in Hl.
    destruct (s !! HealthUrl) as [h|] eqn:Hh, (providers m !! b) as [info|] eqn:Hp.
    2-4: apply list_elem_of_singleton in Hl; discriminate Hl.
    exists b, info, s, h. split_and!; [done|done|done|].
    apply elem_of_cons in Hl as [[= ->]|Hl]; [by left|]. apply list_elem_of_singleton in Hl as [= ->]. by right.
Qed.
End monitor.

(** ** Witnesses: messages encoded as strings of bits *)

Definition component_index (c : Component) : nat :=
  match c with
  | Component_Unknown => 0 | Agent => 1 | Scheduler => 2 | Controller => 3 | Consumer => 4 | Consumerd => 5
  | Make => 6 | TestComponent => 7 | Dashboard => 8 | CLI => 9 | Monitor => 10 | Cache => 11
  end%nat.
#[local] Instance component_countable : Countable Component.
Proof.
  apply (inj_countable component_index (λ n, [Component_Unknown; Agent; Scheduler; Controller; Consumer; Consumerd;
    Make; TestComponent; Dashboard; CLI; Monitor; Cache] !! n)). by intros [].
Defined.
#[local] Instance info_countable : Countable ProviderInfo.
Proof.
  apply (inj_countable' (λ i, (ProviderUUID i, ProviderComponent i, Address i)) (λ x, mkProviderInfo x.1.1 x.1.2 x.2)). by intros [].
Defined.

Inductive wmsg := WProviders (p : gmap string ProviderInfo) | WNumber (url : string) (n : Z).
#[local] Instance wmsg_eq_dec : EqDecision wmsg.
Proof. solve_decision. Defined.
#[local] Instance wmsg_countable : Countable wmsg.
Proof.
  apply (inj_countable' (λ m, match m with WProviders p => inl p | WNumber u n => inr (u, n) end)
    (λ x, match x with inl p => WProviders p | inr y => WNumber y.1 y.2 end)). by intros [].
Defined.

Fixpoint pos_bits (p : positive) : string :=
  match p with
  | xH => EmptyString
  | xO p => String "0" (pos_bits p)
  | xI p => String "1" (pos_bits p)
  end.
Fixpoint bits_pos (s : string) : positive :=
  match s with
  | EmptyString => xH
  | String c s => if bool_decide (c = "0"%char) then xO (bits_pos s) else xI (bits_pos s)
  end.
Lemma bits_pos_bits p : bits_pos (pos_bits p) = p.
Proof. induction p as [p IH|p IH|]; cbn; by rewrite ?IH. Qed.

Definition w_new (m : wmsg) : Any :=
  mkAny (match m with WProviders _ => ProvidersUrl | WNumber url _ => url end) (pos_bits (encode m)).
Definition w_unmarshal (a : Any) : error + wmsg :=
  match decode (bits_pos (AnyValue a)) with Some m => inr m | None => inl (PlainError "proto") end.
Lemma w_unmarshal_new m : w_unmarshal (w_new m) = inr m.
Proof. unfold w_unmarshal, w_new. cbn. by rewrite bits_pos_bits, decode_encode. Qed.
Definition w_providers (m : wmsg) : option (gmap string ProviderInfo) :=
  match m with WProviders p => Some p | _ => None end.

Definition w_state : MonitorServer :=
  after_run (mstep w_unmarshal w_new WProviders) (NewMonitorServer w_unmarshal w_new WProviders "mon")
    [MConnect "a1" Agent "10.0.0.1"; MConnect "s1" Scheduler "10.0.0.2"; MListen (mkListener (mkKey "a1" "t") "ui" "n1")].

Lemma w_reachable : monitor_reachable w_unmarshal w_new WProviders no_meta w_state.
Proof.
  apply after_run_reach; [|by repeat constructor]. exists "mon". split_and!; [|done|done].
  unfold no_dot. by apply (bool_decide_unpack _).
Qed.

Lemma monitor_reports_witness :
  GetMetric w_new (mkKey "mon" "P") (post_metrics w_unmarshal w_new (WNumber "T") (WNumber "L") (WNumber "P") w_state) =
    inr (w_new (WNumber "P" 3)).
Proof.
  refine (proj2 (proj2 (monitor_reports w_unmarshal w_new WProviders (WNumber "T") (WNumber "L") (WNumber "P")
    w_unmarshal_new (λ _ _, eq_refl) (λ _, eq_refl) (λ _, eq_refl) (λ _, eq_refl) _ w_state w_reachable))).
  apply (bool_decide_unpack _). reflexivity.
Defined.

Lemma get_component_lists_witness :
  ∃ out, getAgents w_unmarshal w_providers AnyValue AnyValue (λ a, inr (AnyValue a)) (λ i, mkAny "" (ProviderUUID i)) map_to_list
      (query_answers w_new w_state) OutText [] = Ret out ∧ Println "a1" ∈ out.
Proof.
  destruct (get_component_lists w_unmarshal w_new WProviders w_unmarshal_new (λ _ _, eq_refl) w_providers AnyValue AnyValue
    (λ a, inr (AnyValue a)) (λ i, mkAny "" (ProviderUUID i)) map_to_list (λ _, eq_refl) eq_refl (λ _, reflexivity _)
    w_state w_reachable (query_answers w_new w_state) eq_refl Agent) as (out & H1 & _ & H2).
  exists out. split; [exact H1|]. apply (H2 "a1" (mkProviderInfo "a1" Agent "10.0.0.1")); [|done]. vm_compute. reflexivity.
Defined.

(** ** Faults *)

(** Nobody deletes for a deleter: the message that [PostContext] posts when the context of a
    metric ends is stored under its own name, and the metric stays. *)
Theorem deleter_ignored {Msg : Type} `{EqDecision Msg} (UnmarshalNew : Any → error + Msg) (m m' : @MonitorServer Msg)
    (b name : string) (deleter : Any) (r : option error) (Hne : TypeUrl deleter ≠ name)
    (HP : post UnmarshalNew (mkKey b (TypeUrl deleter)) (Some deleter) m = (m', r)) :
  (buckets m' !! b ≫= λ s, s !! name) = (buckets m !! b ≫= λ s, s !! name).
Proof.
  unfold post, store_CAS in HP. cbn in HP. destruct (buckets m !! b) as [s|] eqn:Hb; [|by injection HP as <- <-; rewrite Hb].
  repeat case_match; simplify_eq/=; rewrite ?lookup_insert_eq, ?Hb; cbn; by rewrite ?lookup_insert_ne.
Qed.

(** A connection with an identity in use is refused, and from then on no query is answered. *)
Theorem duplicate_blocks_queries {Msg : Type} `{EqDecision Msg} (UnmarshalNew : Any → error + Msg) (anypb_New : Msg → Any)
    (Providers : gmap string ProviderInfo → Msg) (m : @MonitorServer Msg) (uuid : string) (c : Component) (addr : string)
    (Hdup : is_Some (buckets m !! uuid)) :
  server_client anypb_New (Stream_connect UnmarshalNew anypb_New Providers uuid c addr m).1 = None.
Proof. unfold Stream_connect. by destruct Hdup as [s ->]. Qed.

(** A value of the meta bucket that cannot be decoded is a panic, not an error. *)
Theorem getProviders_panics {Msg : Type} (as_providers : Msg → option (gmap string ProviderInfo)) (client : MonitorClient) (a : Any)
    (UnmarshalNew : Any → error + Msg) (err : error) (HG : client_GetMetric (mkKey MetaBucket ProvidersUrl) = inr a)
    (HU : UnmarshalNew a = inl err) :
  is_ret (getProviders UnmarshalNew as_providers client) = false.
Proof. unfold getProviders. by rewrite HG, HU. Qed.
