(* ===== verification/SchedulerStats.v ===== *)
(** * Statistics of the scheduler: [pkg/scheduler/optimizer.go], [server.go], [broker.go]

    The scheduler periodically posts how many tasks were done, and the number of tasks that
    consumer daemons should send to the cluster at once: the sum of the limits of all agents,
    times a multiplier that the optimizer derives from the hits of the cache. The consumer
    daemon resizes its pool of remote workers to that number. Numbers of type float64 are
    rationals, rounded after each operation. *)
From Stdlib Require Import QArith.
From S2P Require Import Prelude Types Broker.
#[local] Open Scope Z_scope.

(** ** float64 *)

(** [n / d] rounded to an integer, to the even one in the middle. *)
Definition round_even (n d : Z) : Z :=
  let q := n / d in
  let r := n mod d in
  if bool_decide (d < 2 * r) || (bool_decide (2 * r = d) && Z.odd q) then q + 1 else q.

(** The exponent of a positive rational: [2 ^ expo x ≤ x < 2 ^ (expo x + 1)]. *)
Definition expo (x : Q) : Z :=
  let n := Qnum x in
  let d := Zpos (Qden x) in
  if bool_decide (d ≤ n) then Z.log2 (n / d) else - Z.log2_up ((d + n - 1) / n).

(** The nearest number with 53 significant bits, of a number that is not negative; all
    numbers of this file are far from overflow and underflow. *)
Definition rnd (x : Q) : Q :=
  let n := Qnum x in
  let d := Zpos (Qden x) in
  if bool_decide (n ≤ 0) then 0%Q
  else
    let e := expo x - 52 in
    if bool_decide (e ≤ 0)
    then round_even (n * 2 ^ (- e)) d # Z.to_pos (2 ^ (- e))
    else inject_Z (round_even n (d * 2 ^ e) * 2 ^ e).

Definition float64 (n : Z) : Q := rnd (inject_Z n).
Definition fadd (x y : Q) : Q := rnd (x + y).
Definition fmul (x y : Q) : Q := rnd (x * y).
Definition fdiv (x y : Q) : Q := rnd (x / y).

(** [int64(math.Round(x))]: the middle is rounded away from zero. *)
Definition round_int (x : Q) : Z := (2 * Qnum x + Zpos (Qden x)) / (2 * Zpos (Qden x)).

(** *** Rounding does not cross integers *)

Lemma round_even_ge n d c : 0 < d → c * d ≤ n → c ≤ round_even n d.
Proof.
  intros Hd Hc. unfold round_even. assert (c ≤ n / d) by (apply Z.div_le_lower_bound; lia).
  destruct (_ || _); lia.
Qed.

Lemma round_even_le n d c : 0 < d → n ≤ c * d → round_even n d ≤ c.
Proof.
  intros Hd Hc. unfold round_even. pose proof (Z.div_mod n d) as E. pose proof (Z.mod_pos_bound n d Hd) as M.
  assert (n / d ≤ c) as Hq by (apply Z.div_le_upper_bound; lia).
  destruct (decide (n / d = c)) as [Ec|]; [|destruct (_ || _); lia].
  assert (n mod d = 0) as -> by nia. rewrite !bool_decide_false by lia. cbn. lia.
Qed.

Lemma expo_large x : 0 < Qnum x → 0 < expo x → 2 ^ expo x * Zpos (Qden x) ≤ Qnum x.
Proof.
  intros Hn. unfold expo. case_bool_decide as H.
  - intros _. set (d := Zpos (Qden x)) in *. assert (0 < Qnum x / d) as Hq by (apply Z.div_str_pos; lia).
    pose proof (Z.log2_spec (Qnum x / d) Hq) as [HL _].
    assert (d * (Qnum x / d) ≤ Qnum x) by (apply Z.mul_div_le; lia). nia.
  - pose proof (Z.log2_up_nonneg ((Zpos (Qden x) + Qnum x - 1) / Qnum x)). lia.
Qed.

(** The result is on the same side of any integer up to [2 ^ 53] as the argument. *)
Lemma rnd_ge x c : 0 ≤ c ≤ 2 ^ 53 → (inject_Z c <= x)%Q → (inject_Z c <= rnd x)%Q.
Proof.
  intros Hc. unfold Qle. cbn [Qnum Qden inject_Z]. rewrite Z.mul_1_r. intros Hx. unfold rnd.
  case_bool_decide as H0. { cbn. nia. }
  pose proof (expo_large x ltac:(lia)) as HE. set (e := expo x - 52) in *. case_bool_decide as He.
  - assert (0 < 2 ^ (- e)) by (apply Z.pow_pos_nonneg; lia). cbn [Qnum Qden]. rewrite Z2Pos.id, Z.mul_1_r by lia.
    apply round_even_ge; [lia|]. nia.
  - cbn [Qnum Qden inject_Z]. rewrite !Z.mul_1_r. assert (0 < 2 ^ e) as P by (apply Z.pow_pos_nonneg; lia).
    assert (2 ^ expo x = 2 ^ 52 * 2 ^ e) as E2 by (rewrite <- Z.pow_add_r by lia; f_equal; lia).
    assert (2 ^ 52 ≤ round_even (Qnum x) (Zpos (Qden x) * 2 ^ e)) by (apply round_even_ge; nia).
    assert (2 ≤ 2 ^ e) by (change 2 with (2 ^ 1) at 1; apply Z.pow_le_mono_r; lia). nia.
Qed.

Lemma rnd_le x c : 0 ≤ c ≤ 2 ^ 53 → (x <= inject_Z c)%Q → (rnd x <= inject_Z c)%Q.
Proof.
  intros Hc. unfold Qle. cbn [Qnum Qden inject_Z]. rewrite Z.mul_1_r. intros Hx. unfold rnd.
  case_bool_decide as H0. { cbn. lia. }
  pose proof (expo_large x ltac:(lia)) as HE. set (e := expo x - 52) in *. case_bool_decide as He.
  - assert (0 < 2 ^ (- e)) by (apply Z.pow_pos_nonneg; lia). cbn [Qnum Qden]. rewrite Z2Pos.id, Z.mul_1_r by lia.
    apply round_even_le; [lia|]. nia.
  - cbn [Qnum Qden inject_Z]. rewrite !Z.mul_1_r. assert (0 < 2 ^ e) as P by (apply Z.pow_pos_nonneg; lia).
    assert (2 ^ expo x = 2 ^ 52 * 2 ^ e) as E2 by (rewrite <- Z.pow_add_r by lia; f_equal; lia).
    assert (2 ^ 1 ≤ 2 ^ e) as P1 by (apply Z.pow_le_mono_r; lia).
    assert (2 ^ 53 = 2 ^ 52 * 2) as P2 by done.
    assert (2 ^ e = 2) as E1 by nia. rewrite E1 in *.
    assert (round_even (Qnum x) (Zpos (Qden x) * 2) ≤ 2 ^ 52) by (apply round_even_le; nia). nia.
Qed.

Lemma rnd_range x a b : 0 ≤ a → b ≤ 2 ^ 53 → (inject_Z a <= x <= inject_Z b)%Q → (inject_Z a <= rnd x <= inject_Z b)%Q.
Proof.
  intros Ha Hb [H1 H2]. assert (a ≤ b) by (rewrite Zle_Qle; by apply (Qle_trans _ x)).
  split; [apply rnd_ge; [lia|done]|apply rnd_le; [lia|done]].
Qed.

(** Integers up to [2 ^ 53] are floating-point numbers. *)
Lemma float64_exact n : 0 ≤ n ≤ 2 ^ 53 → (float64 n == inject_Z n)%Q.
Proof.
  intros Hn. unfold float64. apply Qle_antisym; [apply rnd_le|apply rnd_ge]; try done; apply Qle_refl.
Qed.

Lemma round_int_range x a b : (inject_Z a <= x <= inject_Z b)%Q → a ≤ round_int x ≤ b.
Proof.
  intros [H1 H2]. unfold Qle in *. cbn [Qnum Qden inject_Z] in *. rewrite Z.mul_1_r in *. unfold round_int. split.
  - apply Z.div_le_lower_bound; lia.
  - apply Z.lt_succ_r, Z.div_lt_upper_bound; lia.
Qed.

(** ** Hits of the cache *)

(** The ratio in [CacheHits] of the memory and S3 providers. *)
Definition hit_percent (hitTotal missTotal : Z) : Q :=
  if bool_decide (hitTotal + missTotal = 0) then 0%Q
  else fdiv (float64 hitTotal) (float64 (hitTotal + missTotal)).

Lemma hit_percent_range h m : 0 ≤ h → 0 ≤ m → h + m ≤ 2 ^ 53 → (0 <= hit_percent h m <= 1)%Q.
Proof.
  intros Hh Hm Hs. unfold hit_percent. case_bool_decide as H0; [split; discriminate|].
  apply (rnd_range _ 0 1); [lia|lia|]. rewrite !float64_exact by lia.
  assert (0 < inject_Z (h + m))%Q as HP by (change 0%Q with (inject_Z 0); rewrite <- Zlt_Qlt; lia).
  split.
  - apply Qle_shift_div_l; [done|]. rewrite Qmult_0_l. change 0%Q with (inject_Z 0). rewrite <- Zle_Qle. lia.
  - apply Qle_shift_div_r; [done|]. rewrite Qmult_1_l, <- Zle_Qle. lia.
Qed.

(** ** The optimizer *)

Record Optimizer := mkOptimizer {
  usageC : list Q;                 (** a channel for one value *)
  o_senders : gmap nat Q;          (** goroutines in a send to it *)
  usageLimitMultiplier : Q;
}.

(** [NewOptimizer] and the field of the server, which starts at 0.0. *)
Definition NewOptimizer : Optimizer := mkOptimizer [1%Q] ∅ 0%Q.

Inductive olabel :=
  | OHits (g : nat) (percent : Q)   (** a [CacheHits] at the listener of a cache *)
  | OGone (g : nat)                 (** the handler of a cache that is gone *)
  | OSend (g : nat)                 (** a send that finds room *)
  | OAdjust.                        (** the goroutine of the server receives and stores *)

Definition ostep (lb : olabel) (o : Optimizer) : option Optimizer :=
  match lb with
  | OHits g p =>
      match o_senders o !! g with
      | None => Some (mkOptimizer (usageC o) (<[g := fadd 1 p]> (o_senders o)) (usageLimitMultiplier o))
      | Some _ => None
      end
  | OGone g =>
      match o_senders o !! g with
      | None => Some (mkOptimizer (usageC o) (<[g := 1%Q]> (o_senders o)) (usageLimitMultiplier o))
      | Some _ => None
      end
  | OSend g =>
      match o_senders o !! g, usageC o with
      | Some v, [] => Some (mkOptimizer [v] (delete g (o_senders o)) (usageLimitMultiplier o))
      | _, _ => None
      end
  | OAdjust =>
      match usageC o with
      | v :: c => Some (mkOptimizer c (o_senders o) v)
      | [] => None
      end
  end.

(** ** What is posted *)

(** [calcPreferredUsageLimits]: the limits of the connected agents. In the code they are of
    type int32, taken from the agent's description of its system; here, as in [Broker], the
    agents are those that do not report a negative number. The sum is an int64. *)
Definition agent_limits (b : Broker) : list Z :=
  omap (λ '(_, p), Z.of_nat ∘ a_limit <$> agent_heap b !! p) (map_to_list (agents b)).
Definition calcPreferredUsageLimits (b : Broker) : Z := fold_left (λ total l, wrap64 (total + l)) (agent_limits b) 0.

(** The value of [postPreferredUsageLimits]. *)
Definition PreferredUsageLimits (b : Broker) (o : Optimizer) : Z :=
  round_int (fmul (float64 (calcPreferredUsageLimits b)) (usageLimitMultiplier o)).

(** The counters of [TaskStats], and the list of [CalcAgentStats]. *)
Definition TaskStats (b : Broker) : Z * Z * Z := (completedTasks b, failedTasks b, requestCount b).
Definition CalcAgentStats (b : Broker) : list (string * Z) :=
  omap (λ '(uuid, p), (λ a, (uuid, CompletedTasks a)) <$> agent_heap b !! p) (map_to_list (agents b)).

Lemma sum_nonneg ls : Forall (λ l, 0 ≤ l) ls → 0 ≤ foldr Z.add 0 ls.
Proof. induction 1; cbn; lia. Qed.

Lemma sum_no_wrap ls t :
  Forall (λ l, 0 ≤ l) ls → 0 ≤ t → t + foldr Z.add 0 ls < 2 ^ 63 →
  fold_left (λ total l, wrap64 (total + l)) ls t = t + foldr Z.add 0 ls.
Proof.
  revert t. induction ls as [|l ls IH]; intros t HF Ht HB; cbn [fold_left foldr]; [lia|].
  apply Forall_cons in HF as [Hl HF]. pose proof (sum_nonneg ls HF). cbn [foldr] in HB. rewrite wrap_id by (unfold in_range; lia). rewrite IH by (try done; lia). lia.
Qed.

Lemma limits_nonneg b : Forall (λ l, 0 ≤ l) (agent_limits b).
Proof.
  apply Forall_forall. unfold agent_limits.
  intros l Hl. apply list_elem_of_omap in Hl as ([u p] & _ & Hp). apply fmap_Some in Hp as (a & _ & ->). cbn. lia.
Qed.

(** ** The posted limit *)

Definition hits_ok (lb : olabel) : Prop := match lb with OHits _ p => (0 <= p <= 1)%Q | _ => True end.

Definition multiplier_ok (v : Q) : Prop := (1 <= v <= 2)%Q.

Record optimizer_ok (o : Optimizer) : Prop := {
  oo_chan : Forall multiplier_ok (usageC o) ∧ (length (usageC o) ≤ 1)%nat;
  oo_senders : ∀ g v, o_senders o !! g = Some v → multiplier_ok v;
  oo_mult : (usageLimitMultiplier o = 0%Q ∧ usageC o ≠ []) ∨ multiplier_ok (usageLimitMultiplier o);
}.

Lemma fadd_ok p : (0 <= p <= 1)%Q → multiplier_ok (fadd 1 p).
Proof.
  intros [H1 H2]. apply (rnd_range _ 1 2); [lia|lia|]. split.
  - rewrite <- (Qplus_0_r (inject_Z 1)) at 1. by apply Qplus_le_compat; [apply Qle_refl|].
  - change (inject_Z 2) with (1 + 1)%Q. by apply Qplus_le_compat; [apply Qle_refl|].
Qed.

Lemma one_ok : multiplier_ok 1.
Proof. split; discriminate. Qed.

Lemma ostep_ok lb o o' : optimizer_ok o → hits_ok lb → ostep lb o = Some o' → optimizer_ok o'.
Proof.
  intros [[HC HL] HS HM] HP. destruct lb as [g p|g|g|]; cbn.
  - destruct (o_senders o !! g); [done|]. intros [= <-]. split; [done| |done]. cbn.
    intros k v [[_ <-]|[_ Hv]]%lookup_insert_Some; [by apply fadd_ok|by eapply HS].
  - destruct (o_senders o !! g); [done|]. intros [= <-]. split; [done| |done]. cbn.
    intros k v [[_ <-]|[_ Hv]]%lookup_insert_Some; [apply one_ok|by eapply HS].
  - destruct (o_senders o !! g) as [v|] eqn:Ev; [|done]. destruct (usageC o); [|done]. intros [= <-]. split; cbn.
    + split; [constructor; [by eapply HS|done]|lia].
    + intros k x [_ Hx]%lookup_delete_Some. by eapply HS.
    + destruct HM as [[_ ?]|?]; [done|by right].
  - destruct (usageC o) as [|v c] eqn:Ec; [done|]. intros [= <-]. apply Forall_cons in HC as [Hv HC]. cbn in HL. split; cbn.
    + split; [done|lia].
    + done.
    + by right.
Qed.

Lemma optimizer_reach_ok o : reach ostep (.= NewOptimizer) hits_ok o → optimizer_ok o.
Proof.
  apply reach_inv; [|intros x lb y Hx HP; by apply ostep_ok]. intros ? ->. split.
  - split; [constructor; [apply one_ok|done]|cbn; lia].
  - intros g v Hv. cbn in Hv. by rewrite lookup_empty in Hv.
  - by left.
Qed.

(** C29: The limit that the scheduler posts is between once and twice what the agents can run.
    Under any interleaving of cache reports, caches that leave and receives, with hit ratios
    between 0 and 1, and any connected agents with a total limit of at most 2^52: either no
    multiplier has been received yet (then one waits in the channel, and 0 is posted), or
    total ≤ posted ≤ 2 * total, computed with the rounding of 64-bit floating point. *)
Theorem preferred_limits (o : Optimizer) (b : Broker) (HR : reach ostep (.= NewOptimizer) hits_ok o)
    (HT : foldr Z.add 0 (agent_limits b) ≤ 2 ^ 52) :
  let total := foldr Z.add 0 (agent_limits b) in
  (usageLimitMultiplier o = 0%Q ∧ PreferredUsageLimits b o = 0 ∧ is_Some (ostep OAdjust o)) ∨
  total ≤ PreferredUsageLimits b o ≤ 2 * total.
Proof.
  cbn zeta. set (total := foldr Z.add 0 (agent_limits b)) in *. pose proof (sum_nonneg _ (limits_nonneg b)) as H0. fold total in H0.
  assert (calcPreferredUsageLimits b = total) as HC.
  { unfold calcPreferredUsageLimits. rewrite sum_no_wrap; [lia|apply limits_nonneg|lia|]. fold total. lia. }
  unfold PreferredUsageLimits. rewrite HC.
  destruct (oo_mult o (optimizer_reach_ok o HR)) as [[E Hc]|[H1 H2]].
  - left. rewrite E. split_and!; [done| |].
    + unfold fmul, rnd. rewrite bool_decide_true; [done|]. cbn. lia.
    + cbn. by destruct (usageC o).
  - right. apply round_int_range, (rnd_range _ total (2 * total)); [lia|lia|].
    rewrite float64_exact by lia. assert (0 <= inject_Z total)%Q as HP by (change 0%Q with (inject_Z 0); rewrite <- Zle_Qle; lia).
    split.
    + rewrite <- (Qmult_1_r (inject_Z total)) at 1. rewrite (Qmult_comm _ 1), (Qmult_comm _ (usageLimitMultiplier o)). by apply Qmult_le_compat_r.
    + rewrite inject_Z_mult, (Qmult_comm (inject_Z total)). by apply Qmult_le_compat_r.
Qed.

Definition one_agent_broker : Broker :=
  set_agents {["a" := 0%nat]} {[0%nat := mkAgent "a" 8 8 0 TxIdle [] [] [] 0 true false]} 1 NewBroker.
Definition warm_run : list olabel := [OAdjust; OHits 1 (hit_percent 1 3); OSend 1; OAdjust].

Lemma preferred_limits_witness :
  8 ≤ PreferredUsageLimits one_agent_broker (after_run ostep NewOptimizer warm_run) ≤ 16 ∧
  PreferredUsageLimits one_agent_broker (after_run ostep NewOptimizer warm_run) = 10.
Proof.
  split; [|vm_compute; reflexivity].
  destruct (preferred_limits (after_run ostep NewOptimizer warm_run) one_agent_broker) as [[H _]|H].
  - apply after_run_reach; [done|]. repeat constructor; cbn; vm_compute; discriminate.
  - vm_compute. discriminate.
  - vm_compute in H. discriminate H.
  - exact H.
Defined.

(** The first post, at the start, can come before the goroutine of the server has received
    the initial multiplier: then the limit is 0 although agents are connected. *)
Theorem first_limit_zero : PreferredUsageLimits one_agent_broker NewOptimizer = 0 ∧ agent_limits one_agent_broker = [8].
Proof. by split; vm_compute. Qed.

(** A report that is handled after the cache was gone stays in force: the listener is not
    stopped by the end of the provider. *)
Theorem multiplier_after_gone :
  (usageLimitMultiplier (after_run ostep NewOptimizer
     [OAdjust; OGone 0; OSend 0; OAdjust; OHits 1 1; OSend 1; OAdjust]) == 2)%Q.
Proof. vm_compute. reflexivity. Qed.

(** ** The pool of a consumer daemon: [RemoteUsageManager] in clients/scheduler.go *)

(** A handler: waiting for Whois, listening to the scheduler until its context ends, ended. *)
Inductive usage_pc : Set := UWhois | UWait | UEnded.

Record RemoteUsageManager := mkUsage { u_handlers : list usage_pc; u_listeners : nat; u_pool : Z }.

Definition NewRemoteUsageManager (pool : Z) : RemoteUsageManager := mkUsage [] 0 pool.

Inductive ulabel :=
  | UAdded                                          (** a provider is added *)
  | UAnswer (i : nat) (r : option Component)        (** the answer of Whois; [None] is an error *)
  | ULimit (j : nat) (limit : Z)                    (** a value at listener [j] *)
  | UGone (i : nat).                                (** the context of the handler ends *)

Definition Manage (lb : ulabel) (m : RemoteUsageManager) : option RemoteUsageManager :=
  match lb with
  | UAdded => Some (mkUsage (u_handlers m ++ [UWhois]) (u_listeners m) (u_pool m))
  | UAnswer i r =>
      match u_handlers m !! i with
      | Some UWhois =>
          if bool_decide (r = Some Scheduler)
          then Some (mkUsage (<[i := UWait]> (u_handlers m)) (S (u_listeners m)) (u_pool m))
          else Some (mkUsage (<[i := UEnded]> (u_handlers m)) (u_listeners m) (u_pool m))
      | _ => None
      end
  | ULimit j limit =>
      if bool_decide (j < u_listeners m)%nat then Some (mkUsage (u_handlers m) (u_listeners m) limit) else None
  | UGone i =>
      match u_handlers m !! i with
      | Some UWait => Some (mkUsage (<[i := UEnded]> (u_handlers m)) (u_listeners m) 0)
      | _ => None
      end
  end.

(** The size after a history: that of the last limit, or 0 after the end of a scheduler. *)
Definition last_resize (lbs : list ulabel) : option Z :=
  last (omap (λ lb, match lb with ULimit _ n => Some n | UGone _ => Some 0 | _ => None end) lbs).

(** The pool of remote workers has the size of the limit received last, and is empty after
    the scheduler is gone, for every history of providers, answers and values; providers that
    are not schedulers never change it. *)
Theorem pool_follows (lbs : list ulabel) (size : Z) (m : RemoteUsageManager)
    (HR : run_labels Manage lbs (NewRemoteUsageManager size) = Some m) :
  u_pool m = default size (last_resize lbs) ∧
  (Forall (λ lb, match lb with UAnswer _ r => r ≠ Some Scheduler | _ => True end) lbs → u_pool m = size).
Proof.
  assert (∀ l s s', run_labels Manage l s = Some s' →
    u_pool s' = default (u_pool s) (last_resize l) ∧
    (Forall (λ lb, match lb with UAnswer _ r => r ≠ Some Scheduler | _ => True end) l → u_listeners s = 0%nat → UWait ∉ u_handlers s →
     u_pool s' = u_pool s)) as H.
  { clear. induction l as [|lb l IH]; intros s s'; cbn [run_labels]; [by intros [= <-]|].
    intros (s1 & H1 & H2)%bind_Some. destruct (IH _ _ H2) as [IH1 IH2]. split.
    - rewrite IH1. unfold last_resize. cbn.
      destruct lb as [|i r|j n|i]; cbn in H1.
      + by injection H1 as <-.
      + destruct (u_handlers s !! i) as [[]|]; try done. destruct (bool_decide _); by injection H1 as <-.
      + destruct (bool_decide _); [|done]. injection H1 as <-. cbn. destruct (omap _ l) as [|y ys] eqn:E; [done|].
        cbn [last]. by destruct (last (y :: ys)) eqn:E2; [|apply last_None in E2].
      + destruct (u_handlers s !! i) as [[]|]; try done. injection H1 as <-. cbn. destruct (omap _ l) as [|y ys] eqn:E; [done|].
        cbn [last]. by destruct (last (y :: ys)) eqn:E2; [|apply last_None in E2].
    - intros [HF1 HF2]%Forall_cons HL HW. specialize (IH2 HF2).
      destruct lb as [|i r|j n|i]; cbn in H1.
      + injection H1 as <-. apply IH2; [done|]. cbn. set_solver.
      + destruct (u_handlers s !! i) as [[]|]; try done. rewrite bool_decide_false in H1 by done. injection H1 as <-.
        apply IH2; [done|]. cbn. intros [k Hk]%list_elem_of_lookup. apply list_lookup_insert_Some in Hk as [(_ & ? & _)|[_ Hk]]; [done|].
        apply HW, list_elem_of_lookup. by exists k.
      + rewrite HL, bool_decide_false in H1 by lia. done.
      + destruct (u_handlers s !! i) as [[]|] eqn:Ei; try done. destruct HW. apply list_elem_of_lookup. by exists i. }
  destruct (H _ _ _ HR) as [H1 H2]. split; [done|]. intros HF. apply H2; [done|done|]. cbn. set_solver.
Qed.

Lemma pool_follows_witness :
  ∃ m, run_labels Manage [UAdded; UAnswer 0 (Some Scheduler); ULimit 0 10; UAdded; UAnswer 1 (Some Types.Agent)] (NewRemoteUsageManager 1) = Some m ∧
    u_pool m = 10.
Proof.
  eexists. split; [reflexivity|].
  apply (pool_follows [UAdded; UAnswer 0 (Some Scheduler); ULimit 0 10; UAdded; UAnswer 1 (Some Types.Agent)] 1). reflexivity.
Defined.

(** A scheduler that comes back has two handlers: when the old one wakes up after the new one
    has received the limit, the pool is emptied, and stays so until the limit changes, since
    the monitor only sends changes. *)
Theorem reconnect_empties :
  ∃ m, run_labels Manage [UAdded; UAnswer 0 (Some Scheduler); ULimit 0 10; UAdded; UAnswer 1 (Some Scheduler); ULimit 1 10; UGone 0]
      (NewRemoteUsageManager 1) = Some m ∧
    u_pool m = 0 ∧ u_handlers m !! 1%nat = Some UWait.
Proof. eexists. by split. Qed.

(** ** Totals per agent *)

(** The totals of the agents are posted one after the other under the name of their type: the
    bucket keeps only the last one, whatever agent that is. *)
Definition post_agent_stats (url : string) (stats : list (string * Z)) (bucket : gmap string (string * Z)) : gmap string (string * Z) :=
  fold_left (λ s st, <[url := st]> s) stats bucket.

Theorem agent_totals_share_key (url : string) (b : Broker) (bucket : gmap string (string * Z)) (st : string * Z)
    (HL : last (CalcAgentStats b) = Some st) :
  post_agent_stats url (CalcAgentStats b) bucket !! url = Some st ∧
  ∀ name, name ≠ url → post_agent_stats url (CalcAgentStats b) bucket !! name = bucket !! name.
Proof.
  revert HL. generalize (CalcAgentStats b) as l. intros l. revert bucket. induction l as [|x l IH]; intros bucket; [done|].
  intros HL. cbn. destruct l as [|y l].
  - injection HL as <-. cbn. split; [by rewrite lookup_insert_eq|]. intros name Hn. by rewrite lookup_insert_ne.
  - destruct (IH (<[url := x]> bucket) HL) as [H1 H2]. split; [done|]. intros name Hn. cbn in H2. rewrite H2 by done. by rewrite lookup_insert_ne.
Qed.
