(* ===== verification/Tools.v ===== *)
(** * The command-line tools: [pkg/consumer/dispatch.go], [pkg/kubecc/tools],
    [pkg/kubecc/components/run.go]

    The consumer is what a build calls instead of its compiler: it sends its command line,
    environment, directory and input to the consumer daemon and ends with the answer. The
    other tools run a command with the wrappers in front ("kubecc exec"), make ("kubecc make"),
    or a load of sleep commands ("kubecc makesleep"); "kubecc run" starts components. *)
From S2P Require Import Prelude GoStrings Types CcArgs CcController SplitQueue Toolchains Consumerd Finders.


(** ** The consumer *)



Section dispatch.
Context (stat : string → StatResult) (EvalSymlinks : string → option string) (PATH : string).



End dispatch.


Section transparent.
Context {Q : Type} (ask : Q → Querier) (EvalSymlinks : string → option string) (ExecQuerier : Q).
Context (hosts : nat → Host) (ids : nat → string) (picks : nat → SplitTaskLocation).
Context (stat : string → StatResult) (PATH : string).





End transparent.

Definition tool_stat (p : string) : StatResult := StatOk (mkMode false false true).



(** ** kubecc exec *)

Section exec.
Context (stat : string → StatResult).

(** [exec.LookPath]: a name with a slash is taken as it is, others are looked up in the path of
    the moment. *)
Fixpoint look_path_dirs (file : string) (dirs : list string) : option string :=
  match dirs with
  | [] => None
  | dir :: dirs =>
      match findExecutable stat (candidate file dir) with
      | None => Some (candidate file dir)
      | Some _ => look_path_dirs file dirs
      end
  end.
Definition LookPath (PATH file : string) : option string :=
  if contains file "/" then match findExecutable stat file with None => Some file | Some _ => None end
  else look_path_dirs file (SplitList PATH).

(** What "kubecc exec" starts: the file and the path variable of the new process. *)
Inductive exec_start :=
  | ExecFatal
  | ExecRun (file : option string) (args : list string) (dir PATH : string).

(** The command is made, and so looked up, before the path is changed. *)
Definition ExecCmd (args : list string) (wd : option string) (KUBECC_HOME : option string) (PATH : string) : go exec_start :=
  match args with
  | [] => Panic "index out of range [0] with length 0"
  | name :: rest =>
      let file := LookPath PATH name in
      match wd, KUBECC_HOME with
      | Some wd, Some home => Ret (ExecRun file rest wd (path_join [home; "bin"] +:+ ":" +:+ PATH))
      | _, _ => Ret ExecFatal
      end
  end.

(** The exit code: that of the command, or -1 when it could not be started. *)
Definition exec_exit (r : option Z) : Z := match r with None => -1 | Some code => code end.

Lemma look_path_dirs_in file dirs p : look_path_dirs file dirs = Some p → ∃ dir, dir ∈ dirs ∧ p = candidate file dir.
Proof.
  induction dirs as [|d dirs IH]; cbn; [done|]. destruct (findExecutable _ _).
  - intros H. destruct (IH H) as (dir & Hd & ->). exists dir. by split; [right|].
  - intros [= <-]. exists d. by split; [left|].
Qed.

(** The processes that the command starts see the wrappers first. The command itself does
    not: it is looked up in the path as it was, so that "kubecc exec gcc" runs the gcc that was
    in the path anyway. *)
Theorem exec_looks_in_old_path (name : string) (rest : list string) (wd home PATH newPATH dir : string) (file : string) (args : list string)
    (HN : contains name "/" = false)
    (HE : ExecCmd (name :: rest) (Some wd) (Some home) PATH = Ret (ExecRun (Some file) args dir newPATH)) :
  newPATH = path_join [home; "bin"] +:+ ":" +:+ PATH ∧
  ∃ d, d ∈ SplitList PATH ∧ file = candidate name d.
Proof.
  unfold ExecCmd, LookPath in HE. rewrite HN in HE. injection HE as HF <- <- <-. split; [done|]. by apply look_path_dirs_in.
Qed.
End exec.

(** Where the wrappers are installed but not in the path, "kubecc exec gcc" runs the compiler. *)
Theorem exec_bypasses_wrapper :
  ExecCmd tool_stat ["gcc"; "-c"; "a.c"] (Some "/work") (Some "/home/u/.kubecc") "/usr/bin" =
    Ret (ExecRun (Some "/usr/bin/gcc") ["-c"; "a.c"] "/work" "/home/u/.kubecc/bin:/usr/bin").
Proof. vm_compute. reflexivity. Qed.

(** ** kubecc make *)

(** The first of the two usual places; [None] ends the process. *)
Definition pathToMake (there : string → bool) : option string :=
  if there "/usr/bin/make" then Some "/usr/bin/make"
  else if there "/bin/make" then Some "/bin/make" else None.

(** The outcome of [cmd.Run], which starts the command and waits for it; a second [Wait] is
    always an error. *)
Definition wait_error : string := "exec: Wait was already called".
Definition MakeCmd (there : string → bool) (run : string → list string → option error) (args : list string) : Z * list string :=
  match pathToMake there with
  | None => (1, ["make not found (checked /usr/bin/make, /bin/make)"])
  | Some make =>
      match run make args with
      | Some err => (1, ["Error running make: " +:+ error_text err])
      | None => (0, [wait_error])
      end
  end.

(** A make that succeeded is reported with an error text; one that failed ends with 1 and not
    with the code of make. *)
Theorem make_always_complains (there : string → bool) (run : string → list string → option error) (args : list string) :
  (MakeCmd there run args).2 ≠ [] ∧
  ((MakeCmd there run args).1 = 0 ↔ ∃ make, pathToMake there = Some make ∧ run make args = None).
Proof.
  unfold MakeCmd. destruct (pathToMake there) as [make|]; [|split; [done|]; split; [done|by intros (? & ? & _)]].
  destruct (run make args) eqn:E; (split; [done|]); split; try done.
  - intros (m & [= <-] & H). congruence.
  - intros _. by exists make.
Qed.

(** ** kubecc run *)

Inductive server : Set := SAgent | SConsumerd | SMonitor | SScheduler | SController | SCache.
#[export] Instance server_eq_dec : EqDecision server.
Proof. solve_decision. Defined.

(** The table of components: what each name starts. *)
Definition run_component (name : string) : option (list server) :=
  if bool_decide (name = "agent") then Some [SAgent]
  else if bool_decide (name = "consumerd") then Some [SConsumerd]
  else if bool_decide (name = "monitor") then Some [SMonitor]
  else if bool_decide (name = "scheduler") then Some [SScheduler]
  else if bool_decide (name = "controller") then Some [SController]
  else if bool_decide (name = "cache") then Some [SCache]
  else if bool_decide (name = "all") then Some [SAgent; SConsumerd; SMonitor; SScheduler; SCache]
  else if bool_decide (name = "servers") then Some [SMonitor; SScheduler; SCache]
  else None.

(** [Args] checks the names; [RunE] starts each name of the set once. *)
Definition RunCmd (args : list string) : option (list server) :=
  if bool_decide (args = []) then None
  else if forallb (λ a, match run_component a with Some _ => true | None => false end) args
  then Some (a ← remove_dups args; default [] (run_component a)) else None.

(** Names given twice are started once, but the groups are not expanded before duplicates are
    removed: "run all agent" starts two agents. And "all" starts the cache as well, which its
    description leaves out. *)
Theorem run_duplicates :
  RunCmd ["agent"; "agent"] = Some [SAgent] ∧
  (∃ l, RunCmd ["all"; "agent"] = Some l ∧ length (List.filter (λ s, bool_decide (s = SAgent)) l) = 2%nat) ∧
  (∃ l, RunCmd ["all"] = Some l ∧ SCache ∈ l).
Proof.
  split; [reflexivity|]. split; [eexists; split; reflexivity|]. eexists. split; [reflexivity|].
  apply (bool_decide_unpack _). reflexivity.
Qed.

(** ** kubecc makesleep *)

(** [Duration.Round]: to a multiple of [m], the middle away from zero; 64 bits. *)
Definition max_duration : Z := 2 ^ 63 - 1.
Definition min_duration : Z := - 2 ^ 63.
Definition duration_Round (d m : Z) : Z :=
  if bool_decide (m ≤ 0) then d
  else
    let r := Z.rem d m in
    if bool_decide (d < 0) then
      let r := - r in
      if bool_decide (r + r < m) then d + r
      else let d1 := wrap64 (d - m + r) in if bool_decide (d1 < d) then d1 else min_duration
    else if bool_decide (r + r < m) then d - r
    else let d1 := wrap64 (d + m - r) in if bool_decide (d < d1) then d1 else max_duration.

(** The duration of a task; [rand.Int63n] panics unless its argument is positive, and returns
    some number below it. *)
Definition sleep_duration (min max granularity rand : Z) : go Z :=
  if bool_decide (max - min ≤ 0) then Panic "invalid argument to Int63n"
  else Ret (duration_Round (rand + min) granularity).

Lemma duration_Round_nearest x g :
  0 ≤ x → 0 < g → x + g < 2 ^ 63 → ∃ k, duration_Round x g = g * k ∧ 2 * Z.abs (g * k - x) ≤ g.
Proof.
  intros Hx Hg Hb. unfold duration_Round. rewrite (bool_decide_false (g ≤ 0)), (bool_decide_false (x < 0)) by lia. cbn zeta.
  pose proof (Z.quot_rem x g) as E. pose proof (Z.rem_bound_pos x g) as B.
  case_bool_decide.
  - exists (Z.quot x g). lia.
  - exists (Z.quot x g + 1). rewrite wrap_id, bool_decide_true by (unfold in_range; lia). lia.
Qed.

(** A duration is a multiple of the granularity, off by at most half of it from one in the
    range; hence it lies between [min] and [max], both included, when these are multiples. *)
Theorem sleep_duration_range (min max g rand d : Z) (Hmin : 0 ≤ min) (Hmax : max + g < 2 ^ 63) (Hg : 0 < g)
    (Hr : 0 ≤ rand < max - min) (Hd : sleep_duration min max g rand = Ret d) :
  (g | d) ∧ 2 * Z.abs (d - (rand + min)) ≤ g ∧ ((g | min) → (g | max) → min ≤ d ≤ max).
Proof.
  unfold sleep_duration in Hd. rewrite bool_decide_false in Hd by lia. injection Hd as <-.
  destruct (duration_Round_nearest (rand + min) g) as (k & -> & Hk); [lia|lia|lia|].
  split_and!; [exists k; lia|done|]. intros [a ->] [b ->].
  assert (a ≤ k) by (apply Z.nlt_ge; intros Hlt; assert (g * k ≤ g * (a - 1)) by (apply Z.mul_le_mono_nonneg_l; lia); lia).
  assert (k ≤ b) by (apply Z.nlt_ge; intros Hlt; assert (g * (b + 1) ≤ g * k) by (apply Z.mul_le_mono_nonneg_l; lia); lia).
  nia.
Qed.

Lemma sleep_duration_range_witness : (100 | 400) ∧ 100 ≤ 400 ≤ 400.
Proof.
  destruct (sleep_duration_range 100 400 100 299 400) as (H1 & _ & H3); [lia|lia|lia|lia|reflexivity|].
  split; [exact H1|]. apply H3; [by exists 1|by exists 4].
Defined.

(** The maximum is described as exclusive, but rounding reaches it; and with equal bounds every
    worker panics. *)
Theorem sleep_duration_edges :
  sleep_duration 1000000000 4000000000 100000000 2999999999 = Ret 4000000000 ∧
  is_ret (sleep_duration 1000000000 1000000000 100000000 0) = false.
Proof. by split. Qed.

(** *** The workers *)

(** [SJob ok] is a worker with a job and what its call will return. *)
Inductive sleeper := SReady | SJob | SDone (failed : bool).
Record sleepers := mkSleepers { s_queue : nat; s_workers : list sleeper; s_runs : nat; s_lost : nat }.

Definition MakeSleep (numTasks jobs : nat) : sleepers := mkSleepers numTasks (replicate jobs SReady) 0 0.

Inductive slabel :=
  | STake (i : nat)                 (** the select: a job, or the end when there is none *)
  | SRun (i : nat) (ok : bool).     (** the call of the daemon returns *)

Definition sleep_step (lb : slabel) (s : sleepers) : option sleepers :=
  match lb with
  | STake i =>
      match s_workers s !! i with
      | Some SReady =>
          match s_queue s with
          | O => Some (mkSleepers 0 (<[i := SDone false]> (s_workers s)) (s_runs s) (s_lost s))
          | S n => Some (mkSleepers n (<[i := SJob]> (s_workers s)) (s_runs s) (s_lost s))
          end
      | _ => None
      end
  | SRun i ok =>
      match s_workers s !! i with
      | Some SJob =>
          Some (if ok then mkSleepers (s_queue s) (<[i := SReady]> (s_workers s)) (S (s_runs s)) (s_lost s)
                else mkSleepers (s_queue s) (<[i := SDone true]> (s_workers s)) (s_runs s) (S (s_lost s)))
      | _ => None
      end
  end.

Definition is_job (w : sleeper) : nat := match w with SJob => 1 | _ => 0 end.
Definition busy (ws : list sleeper) : nat := foldr (λ w n, is_job w + n)%nat 0%nat ws.

Lemma busy_put ws i w w' :
  ws !! i = Some w → (busy (<[i := w']> ws) + is_job w = busy ws + is_job w')%nat.
Proof.
  revert i. induction ws as [|x ws IH]; intros [|i] H; [done|done| |].
  - injection H as ->. cbn. lia.
  - specialize (IH i H). change (<[S i := w']> (x :: ws)) with (x :: <[i := w']> ws). unfold busy in *. cbn [foldr]. lia.
Qed.

Definition sleepers_ok (numTasks jobs : nat) (s : sleepers) : Prop :=
  (s_queue s + busy (s_workers s) + s_runs s + s_lost s = numTasks)%nat ∧
  (∀ i, s_workers s !! i = Some (SDone false) → s_queue s = 0%nat) ∧ length (s_workers s) = jobs.

Lemma sleepers_reach numTasks jobs s :
  reach sleep_step (.= MakeSleep numTasks jobs) (λ _, True) s → sleepers_ok numTasks jobs s.
Proof.
  unfold sleepers_ok. apply (reach_inv sleep_step _ _ (sleepers_ok numTasks jobs)); unfold sleepers_ok.
  - intros ? ->. cbn [MakeSleep s_queue s_workers s_runs s_lost]. rewrite length_replicate. split_and!; [|by intros i [? _]%lookup_replicate|done].
    assert (busy (replicate jobs SReady) = 0%nat) as -> by (induction jobs; done). lia.
  - intros x lb y (I1 & I2 & I3) _ Hs. destruct lb as [i|i ok]; cbn in Hs.
    + destruct (s_workers x !! i) as [[| |]|] eqn:Ei; try done. destruct (s_queue x) as [|n] eqn:Eq; injection Hs as <-; cbn [s_queue s_workers s_runs s_lost].
      * pose proof (busy_put _ _ _ (SDone false) Ei). cbn [is_job] in *. rewrite length_insert. split_and!; [lia|done|done].
      * pose proof (busy_put _ _ _ SJob Ei). cbn [is_job] in *. rewrite length_insert. split_and!; [lia| |done].
        intros j [(_ & ? & _)|[_ Hj]]%list_lookup_insert_Some; [done|]. by specialize (I2 _ Hj).
    + destruct (s_workers x !! i) as [[| |]|] eqn:Ei; try done. injection Hs as <-. destruct ok; cbn [s_queue s_workers s_runs s_lost].
      * pose proof (busy_put _ _ _ SReady Ei). cbn [is_job] in *. rewrite length_insert. split_and!; [lia| |done].
        intros j [(_ & ? & _)|[_ Hj]]%list_lookup_insert_Some; [done|by eapply I2].
      * pose proof (busy_put _ _ _ (SDone true) Ei). cbn [is_job] in *. rewrite length_insert. split_and!; [lia| |done].
        intros j [(_ & ? & _)|[_ Hj]]%list_lookup_insert_Some; [done|by eapply I2].
Qed.

(** No job is lost or done twice: jobs waiting, in hand, done and failed are always all the
    jobs, whatever the interleaving; so when all workers have ended without a failed call, each
    job was run once. *)
Theorem sleep_conserves (numTasks jobs : nat) (s : sleepers)
    (HR : reach sleep_step (.= MakeSleep numTasks jobs) (λ _, True) s) :
  (s_queue s + busy (s_workers s) + s_runs s + s_lost s = numTasks)%nat ∧
  (Forall (.= SDone false) (s_workers s) → (0 < jobs)%nat → s_lost s = 0%nat → s_runs s = numTasks).
Proof.
  destruct (sleepers_reach _ _ _ HR) as (H1 & H2 & H3).
  split; [done|]. intros HF Hj HL. destruct (s_workers s) as [|w ws] eqn:Ew; [cbn in H3; lia|].
  apply Forall_cons in HF as [-> HF]. specialize (H2 0%nat eq_refl).
  assert (busy (SDone false :: ws) = 0%nat) as Hb; [|lia].
  clear -HF. induction HF as [|x l -> _ IH]; [done|]. done.
Qed.

Lemma sleep_conserves_witness :
  let s := after_run sleep_step (MakeSleep 1 1) [STake 0; SRun 0 true; STake 0] in s_runs s = 1%nat.
Proof.
  apply (sleep_conserves 1 1); [by apply after_run_reach; [|repeat constructor]|by repeat constructor|lia|reflexivity].
Defined.
