(* ===== verification/ToolchainWatcher.v ===== *)
(** * Watching the toolchains of a provider: [pkg/scheduler/tcwatcher.go]

    [WatchToolchains] starts a listener for the [Toolchains] metric of one provider and hands
    each value to the broker over an unbuffered channel. A listener decodes all values of
    one stream into one message ([clients/monitor.go], [HandleStream]) and sends a pointer to
    it, so that the model has a heap of messages, one for each stream opened. The broker keeps
    the first pointer as the toolchains of the consumer daemon, adds the daemon to the router,
    and applies one update ([broker.go], [NewConsumerdTaskStream]). *)
From S2P Require Import Prelude GoStrings Types MetricsClient Router.

Abbreviation Toolchains := (list Toolchain).

(** Where the goroutine of a change listener is; the argument is its message. *)
Inductive wpc : Set :=
  | WConnecting
  | WRecv (c : nat)      (** at [stream.Recv()] *)
  | WSend (c : nat)      (** in the handler, at [ch <- tc] *)
  | WEnded.

Record change_listener := mkChange { l_pc : wpc; l_stream : list Toolchains }.

(** Where the call of the broker is, with the pointers it holds. *)
Inductive bpc : Set :=
  | BWait                       (** at [tcs = <-tcChan], for at most five seconds *)
  | BTimedOut
  | BAdd (cd : nat)             (** about to call [AddSender] *)
  | BServe (cd : nat)           (** the goroutine waits for an update *)
  | BApply (cd new : nat)       (** about to call [UpdateSenderToolchains] *)
  | BDone.                      (** the goroutine has ended *)

Record tcWatcher := mkWatcher {
  w_cancelled : bool;                 (** [cancel] was called *)
  w_listeners : list change_listener; (** one for each handler called with the UUID *)
  w_heap : list Toolchains;           (** the messages, one for each stream *)
  w_broker : bpc;
  w_router : Router;
}.

Definition NewWatcher (r : Router) : tcWatcher := mkWatcher false [] [] BWait r.

Inductive wlabel :=
  | WProvider (u : string)                                 (** the handler of a provider starts *)
  | WGone                                                  (** the context of the handler ends *)
  | WConnect (j : nat) (current : option Toolchains)       (** [Listen] answers, with the current value if there is one *)
  | WConnectFailed (j : nat)
  | WPost (j : nat) (v : Toolchains)                       (** the monitor sends a new value *)
  | WDecode (j : nat)
  | WGarbled (j : nat)                                     (** a value that cannot be decoded *)
  | WBreak (j : nat) (err : error)                         (** [Recv] fails *)
  | BTake (j : nat)                                        (** the broker receives from the channel *)
  | BTimeout
  | BAddSender
  | BUpdate
  | BClose                                                 (** the stream of the daemon ends *)
  | WRouter (r : Router).                                  (** other calls have changed the router *)

Section watcher.
Context (md5 : string → string) (uuid : string).

Definition put_listener (j : nat) (l : change_listener) (w : tcWatcher) : tcWatcher :=
  mkWatcher (w_cancelled w) (<[j := l]> (w_listeners w)) (w_heap w) (w_broker w) (w_router w).
Definition set_broker (b : bpc) (r : Router) (w : tcWatcher) : tcWatcher :=
  mkWatcher (w_cancelled w) (w_listeners w) (w_heap w) b r.
Definition deref (w : tcWatcher) (c : nat) : Toolchains := default [] (w_heap w !! c).

(** What the stream manager does when [HandleStream] has returned. *)
Definition handled (err : option error) (w : tcWatcher) : wpc :=
  match err with
  | None => WEnded
  | Some _ => if w_cancelled w then WEnded else WConnecting
  end.

(** [UpdateSenderToolchains] reads the old toolchains through the pointer in the record. *)
Definition update_sender (old new : Toolchains) (r : Router) : Router :=
  UpdateSenderToolchains md5 uuid new
    (match senders r !! uuid with Some _ => set_senders (<[uuid := old]> (senders r)) r | None => r end).

Definition wstep (lb : wlabel) (w : tcWatcher) : option tcWatcher :=
  match lb with
  | WProvider u =>
      if decide (u = uuid) then
        Some (mkWatcher (w_cancelled w) (w_listeners w ++ [mkChange WConnecting []]) (w_heap w) (w_broker w) (w_router w))
      else Some w
  | WGone =>
      match w_listeners w with
      | [] => None
      | _ => Some (mkWatcher true (w_listeners w) (w_heap w) (w_broker w) (w_router w))
      end
  | WConnect j current =>
      l ← w_listeners w !! j;
      match l_pc l, w_cancelled w with
      | WConnecting, false =>
          Some (mkWatcher false (<[j := mkChange (WRecv (length (w_heap w))) (option_list current)]> (w_listeners w))
                  (w_heap w ++ [[]]) (w_broker w) (w_router w))
      | _, _ => None
      end
  | WConnectFailed j =>
      l ← w_listeners w !! j;
      match l_pc l with
      | WConnecting => Some (put_listener j (mkChange (if w_cancelled w then WEnded else WConnecting) []) w)
      | _ => None
      end
  | WPost j v =>
      l ← w_listeners w !! j;
      match l_pc l with
      | WRecv _ | WSend _ => Some (put_listener j (mkChange (l_pc l) (l_stream l ++ [v])) w)
      | _ => None
      end
  | WDecode j =>
      l ← w_listeners w !! j;
      match l_pc l, l_stream l with
      | WRecv c, v :: rest =>
          Some (mkWatcher (w_cancelled w) (<[j := mkChange (WSend c) rest]> (w_listeners w))
                  (<[c := v]> (w_heap w)) (w_broker w) (w_router w))
      | _, _ => None
      end
  | WGarbled j =>
      l ← w_listeners w !! j;
      match l_pc l with
      | WRecv _ => Some (put_listener j (mkChange (if w_cancelled w then WEnded else WConnecting) []) w)
      | _ => None
      end
  | WBreak j err =>
      l ← w_listeners w !! j;
      match l_pc l with
      | WRecv _ =>
          match recv_failed None (w_cancelled w) err tt with
          | (_, ListenEnded res) => Some (put_listener j (mkChange (handled res w) []) w)
          | _ => None
          end
      | _ => None
      end
  | BTake j =>
      l ← w_listeners w !! j;
      match l_pc l, w_broker w with
      | WSend c, BWait => Some (set_broker (BAdd c) (w_router w) (put_listener j (mkChange (WRecv c) (l_stream l)) w))
      | WSend c, BServe cd => Some (set_broker (BApply cd c) (w_router w) (put_listener j (mkChange (WRecv c) (l_stream l)) w))
      | _, _ => None
      end
  | BTimeout =>
      match w_broker w with BWait => Some (set_broker BTimedOut (w_router w) w) | _ => None end
  | BAddSender =>
      match w_broker w with
      | BAdd cd => Some (set_broker (BServe cd) (AddSender md5 uuid (deref w cd) (w_router w)) w)
      | _ => None
      end
  | BUpdate =>
      match w_broker w with
      | BApply cd new => Some (set_broker BDone (update_sender (deref w cd) (deref w new) (w_router w)) w)
      | _ => None
      end
  | BClose =>
      match w_broker w with BServe _ => Some (set_broker BDone (w_router w) w) | _ => None end
  | WRouter r => Some (set_broker (w_broker w) r w)
  end.
End watcher.

(** ** Pointers *)

(** The message whose pointer was sent or is about to be, and all messages in use. *)
Definition l_handed (l : change_listener) : option nat := match l_pc l with WSend c => Some c | _ => None end.
Definition l_cell (l : change_listener) : option nat := match l_pc l with WSend c | WRecv c => Some c | _ => None end.
Definition b_cells (b : bpc) : list nat :=
  match b with BAdd c | BServe c => [c] | BApply c c' => [c; c'] | _ => [] end.

(** The values that a step brings from the monitor. *)
Definition brought (lb : wlabel) : list Toolchains :=
  match lb with WConnect _ cur => option_list cur | WPost _ v => [v] | _ => [] end.

Section invariant.
Context (md5 : string → string) (uuid : string) (mine : Toolchains → Prop).

(** Only values of the provider arrive. *)
Definition own_values (lb : wlabel) : Prop := Forall mine (brought lb).

(** The message was decoded. *)
Definition decoded (h : list Toolchains) (c : nat) : Prop := ∃ v, h !! c = Some v ∧ mine v.

Definition listener_fine (h : list Toolchains) (l : change_listener) : Prop :=
  Forall mine (l_stream l) ∧ (∀ c, l_cell l = Some c → (c < length h)%nat) ∧ (∀ c, l_handed l = Some c → decoded h c).

Record watcher_ok (w : tcWatcher) : Prop := {
  wo_listeners : Forall (listener_fine (w_heap w)) (w_listeners w);
  wo_broker : Forall (decoded (w_heap w)) (b_cells (w_broker w));
}.

(** Messages are added and overwritten with values of the provider. *)
Definition grows (h h' : list Toolchains) : Prop :=
  (length h ≤ length h')%nat ∧ ∀ c, decoded h c → decoded h' c.

Lemma grows_refl h : grows h h.
Proof. by split. Qed.

Lemma grows_snoc h v : grows h (h ++ [v]).
Proof.
  split; [rewrite length_app; lia|]. intros c (x & Hc & Hx). exists x. split; [|done]. by apply lookup_app_l_Some.
Qed.

Lemma grows_insert h c v : mine v → grows h (<[c := v]> h).
Proof.
  intros Hv. split; [by rewrite length_insert|]. intros d (x & Hd & Hx). destruct (decide (d = c)) as [->|Hne].
  - exists v. rewrite list_lookup_insert_eq; [done|by eapply lookup_lt_Some].
  - exists x. by rewrite list_lookup_insert_ne.
Qed.

Lemma listener_grows h h' l : grows h h' → listener_fine h l → listener_fine h' l.
Proof. intros [HL HD] (H1 & H2 & H3). split_and!; [done| |by eauto]. intros c Hc. specialize (H2 c Hc). lia. Qed.

Lemma listeners_put h h' j l ls :
  grows h h' → Forall (listener_fine h) ls → listener_fine h' l → Forall (listener_fine h') (<[j := l]> ls).
Proof.
  intros Hg Hls Hl. apply Forall_insert; [|done]. eapply Forall_impl; [done|]. intros. by eapply listener_grows.
Qed.

Lemma broker_grows h h' cs : grows h h' → Forall (decoded h) cs → Forall (decoded h') cs.
Proof. intros [_ Hg] H. eapply Forall_impl; [done|]. auto. Qed.
#[local] Hint Resolve grows_refl grows_snoc grows_insert listeners_put broker_grows : core.

(** Listeners at each of their program points. *)
Lemma fine_idle h pc : match pc with WRecv _ | WSend _ => False | _ => True end → listener_fine h (mkChange pc []).
Proof. by destruct pc. Qed.
Lemma fine_recv h c vs : Forall mine vs → (c < length h)%nat → listener_fine h (mkChange (WRecv c) vs).
Proof. intros Hv Hc. split; [done|]. split; [by intros ? [= <-]|done]. Qed.
Lemma fine_send h c vs : Forall mine vs → decoded h c → listener_fine h (mkChange (WSend c) vs).
Proof.
  intros Hv Hd. split; [done|]. split; [intros ? [= <-]|by intros ? [= <-]]. destruct Hd as (? & Hc & _). by eapply lookup_lt_Some.
Qed.
#[local] Hint Resolve fine_idle fine_recv fine_send : core.

Lemma watcher_step lb w w' : watcher_ok w → own_values lb → wstep md5 uuid lb w = Some w' → watcher_ok w'.
Proof.
  intros [HL HB] HV Hs. unfold own_values in HV.
  assert (∀ j l, w_listeners w !! j = Some l → listener_fine (w_heap w) l) as HF
    by (intros j l Hj; by eapply Forall_lookup_1).
  destruct lb; cbn in Hs, HV;
    repeat first [ apply bind_Some in Hs as (? & ? & Hs) | case_match; try discriminate ]; simplify_eq;
    try match goal with Hj : w_listeners w !! _ = Some ?l |- _ => pose proof (HF _ _ Hj) as (F1 & F2 & F3) end;
    unfold l_cell, l_handed in *.
  all: try match goal with E : l_pc _ = _ |- _ => rewrite E in * end.
  all: try match goal with E : l_stream _ = _ :: _ |- _ => rewrite E in F1; apply Forall_cons in F1 as [? ?] end.
  all: split; cbn; eauto 4.
  all: try (eapply listeners_put; [| |]; eauto 2; apply fine_idle; unfold handled; by repeat case_match).
  - apply Forall_app. auto.
  - eapply listeners_put; [apply grows_snoc|done|]. apply fine_recv; [done|]. rewrite length_app. cbn. lia.
  - eapply listeners_put; [done|done|]. apply fine_recv; [by apply Forall_app|auto].
  - eapply listeners_put; [done|done|]. apply fine_send; [by apply Forall_app|auto].
  - eapply listeners_put; [by apply grows_insert|done|]. apply fine_send; [done|].
    eexists. rewrite list_lookup_insert_eq by auto. done.
  - cbn in HB. apply Forall_cons. inversion_clear HB. auto.
Qed.

Definition watch_reached : tcWatcher → Prop :=
  reach (wstep md5 uuid) (λ w, ∃ r, w = NewWatcher r) own_values.

Lemma watcher_inv w : watch_reached w → watcher_ok w.
Proof.
  intros HR. pattern w. refine (reach_inv _ _ _ _ w _ _ HR); [by intros ? [r ->]|].
  intros s lb s' IH HP Hs. by eapply watcher_step.
Qed.

(** The broker adds a consumer daemon to the router with toolchains that this daemon has
    posted (and never with an empty message or those of another provider), and compares
    such lists for an update, in every interleaving of posts, reconnects and receives. *)
Theorem watched_values (w : tcWatcher) (HR : watch_reached w) :
  (∀ cd, w_broker w = BAdd cd → mine (deref w cd)) ∧
  (∀ cd new, w_broker w = BApply cd new → mine (deref w cd) ∧ mine (deref w new)).
Proof.
  destruct (watcher_inv w HR) as [_ HB]. unfold deref.
  split; [intros cd E|intros cd new E]; rewrite E in HB; decompose_Forall; unfold decoded in *; destruct_and?;
    repeat match goal with H : ∃ _, _ ∧ _ |- _ => destruct H as (? & -> & ?) end; done.
Qed.
End invariant.

(** ** Updates *)

Lemma equivalent_in_self tc tcs : tc ∈ tcs → equivalent_in tc tcs = true.
Proof.
  intros H. apply existsb_exists. exists tc. split; [by apply list_elem_of_In|]. by apply EquivalentTo_spec.
Qed.

Lemma cancel_removed_none md5 old new r : (∀ tc, tc ∈ old → tc ∈ new) → cancel_removed md5 old new r = r.
Proof.
  induction old as [|tc old IH]; intros H; cbn; [done|].
  rewrite equivalent_in_self by (apply H; left). apply IH. intros x Hx. apply H. by right.
Qed.

(** Updating with the toolchains of the record changes nothing. *)
Lemma nothing_added tcs : filter (λ tc, equivalent_in tc tcs = false) tcs = [].
Proof.
  destruct (filter _ tcs) as [|x l] eqn:E; [done|]. assert (x ∈ filter (λ tc, equivalent_in tc tcs = false) tcs) as Hx
    by (rewrite E; left).
  apply list_elem_of_filter in Hx as [Hf Hx]. by rewrite equivalent_in_self in Hf.
Qed.

Lemma update_sender_same md5 uuid tcs r : ∃ m, update_sender md5 uuid tcs tcs r = set_senders m r.
Proof.
  unfold update_sender, UpdateSenderToolchains. destruct (senders r !! uuid) as [old|] eqn:E.
  - cbn. rewrite lookup_insert_eq, cancel_removed_none, nothing_added by done.
    exists (<[uuid:=tcs]> (senders r)). destruct (last tcs); cbn; unfold set_senders; cbn; by rewrite insert_insert_eq.
  - rewrite E. exists (senders r). by destruct r.
Qed.

(** An update of the toolchains is not seen. As long as the listener has had one stream, the
    record of the daemon and the update are one message, so that the comparison of the old
    toolchains with the new ones finds no difference, whatever was posted: the routes and
    what is attached to them stay as they were. *)
Theorem update_not_applied md5 uuid (w w' : tcWatcher) (HR : watch_reached md5 uuid (λ _, True) w)
    (H1 : (length (w_heap w) ≤ 1)%nat) (Hs : wstep md5 uuid BUpdate w = Some w') :
  routes (w_router w') = routes (w_router w) ∧ route_heap (w_router w') = route_heap (w_router w) ∧
  attached (w_router w') = attached (w_router w).
Proof.
  destruct (watcher_inv _ _ _ w HR) as [_ HB]. cbn in Hs. destruct (w_broker w) as [| | | |cd new|]; try discriminate.
  simplify_eq. cbn in *. inversion_clear HB as [|? ? (v & Hc & _) HB']. inversion_clear HB' as [|? ? (v' & Hn & _) _].
  apply lookup_lt_Some in Hc as Lc. apply lookup_lt_Some in Hn as Ln.
  assert (cd = new) as -> by lia. by destruct (update_sender_same md5 uuid (deref w new) (w_router w)) as [m ->].
Qed.

(** A daemon with gcc that finds clang later. *)
Definition watch_start : list wlabel :=
  [WProvider "other"; WProvider "cd"; WConnect 0 (Some [tc_a]); WDecode 0; BTake 0; BAddSender].
Definition watched (ls : list wlabel) : tcWatcher := after_run (wstep id "cd") (NewWatcher NewRouter) ls.
Definition found_clang : list wlabel := [WPost 0 [tc_a; tc_b]; WDecode 0; BTake 0].
Definition sent_from (w : tcWatcher) (tc : Toolchain) : bool :=
  match routes (w_router w) !! tcHash id tc with
  | Some rp => bool_decide (GSender rp "cd" ∈ attached (w_router w))
  | None => false
  end.

(** After the update the record lists clang, and the router has no route for it; had the
    stream of the listener been opened again in between, there would be one. *)
Theorem update_lost :
  let w := watched (watch_start ++ found_clang ++ [BUpdate]) in
  let w' := watched (watch_start ++ [WBreak 0 (StatusError Internal "transport"); WConnect 0 None] ++ found_clang ++ [BUpdate]) in
  deref w 0 = [tc_a; tc_b] ∧ sent_from w tc_a = true ∧ sent_from w tc_b = false ∧ sent_from w' tc_b = true.
Proof. by vm_compute. Qed.

Lemma watched_values_witness :
  let mine tcs := tcs = [tc_a] ∨ tcs = [tc_a; tc_b] in
  let w := watched (watch_start ++ found_clang) in
  w_broker w = BApply 0 0 ∧ mine (deref w 0).
Proof.
  cbn zeta. split; [by vm_compute|].
  refine (proj1 (proj2 (watched_values id "cd" (λ tcs, tcs = [tc_a] ∨ tcs = [tc_a; tc_b]) (watched (watch_start ++ found_clang)) _) 0%nat 0%nat _)); [|by vm_compute].
  apply after_run_reach; [by eexists|]. unfold own_values, watch_start, found_clang.
  repeat (apply Forall_cons_2; [cbn; first [by apply Forall_nil | apply Forall_singleton; tauto]|]). by apply Forall_nil.
Defined.

Lemma update_not_applied_witness :
  attached (w_router (watched (watch_start ++ found_clang ++ [BUpdate]))) =
  attached (w_router (watched (watch_start ++ found_clang))).
Proof.
  apply (update_not_applied id "cd" (watched (watch_start ++ found_clang))); [|by vm_compute|by vm_compute].
  apply after_run_reach; [by eexists|]. unfold own_values. apply Forall_true. intros lb. by apply Forall_true.
Defined.
