(* ===== verification/Recorder.v ===== *)
(** * Telemetry recording and the metrics of the consumer daemon

    [pkg/consumerd/telemetry.go]: goroutines with a ticker sample the counters of the split
    queue ([SplitQueue.v]) into the history ([Telemetry.v]); [pkg/consumerd/queue.go] and
    [server.go]: what the daemon posts about itself. Each atomic load, test and append is a
    step. Numbers of type float64 are rationals, rounded after each operation
    ([SchedulerStats.v]); times are nanoseconds. *)
From Stdlib Require Import QArith.
From S2P Require Import Prelude Types Toolchains Telemetry WorkerPool SplitQueue SchedulerStats Servers.
#[local] Open Scope Z_scope.

(** float64 with a sign: rounding is symmetric. *)
Definition sfloat (x : Q) : Q := if bool_decide (Qnum x < 0) then (- rnd (- x))%Q else rnd x.

Lemma sfloat_exact x z : Z.abs z ≤ 2 ^ 53 → (x == inject_Z z)%Q → (sfloat x == inject_Z z)%Q.
Proof.
  intros Hz Hx. unfold sfloat.
  assert (∀ y c, 0 ≤ c ≤ 2 ^ 53 → (y == inject_Z c)%Q → (rnd y == inject_Z c)%Q) as Hr.
  { intros y c Hc Hy. apply Qle_antisym; [apply rnd_le|apply rnd_ge]; try done; rewrite Hy; apply Qle_refl. }
  case_bool_decide as Hn.
  - assert (z < 0) as Hz0 by (unfold Qeq in Hx; cbn in Hx; nia).
    rewrite (Hr _ (- z)); [|lia|rewrite Hx, inject_Z_opp; reflexivity]. by rewrite inject_Z_opp, Qopp_opp.
  - apply Hr; [|done]. unfold Qeq in Hx; cbn in Hx; nia.
Qed.

(** ** The recorder *)

(** The samples of [recordValues], in order. *)
Definition recorded_kinds : list EntryKind :=
  [CompletedTasksLocal; CompletedTasksRemote; DelegatedTasks; RunningTasks; QueuedTasks].

(** Where a ticker goroutine is, with the samples still to take in this round. *)
Inductive tick_pc :=
  | TWait
  | TLoad (k : EntryKind) (rest : list EntryKind)
  | TTest (k : EntryKind) (y : Q) (rest : list EntryKind)     (** in [RecordEntry] *)
  | TAppend (k : EntryKind) (y : Q) (rest : list EntryKind)   (** after its test *)
  | TStopped.

Definition tick_next (rest : list EntryKind) : tick_pc :=
  match rest with [] => TWait | k :: rest => TLoad k rest end.

Record ticker := mkTicker { tk_pc : tick_pc; tk_cancelled : bool }.

Record Recorder := mkRecorder {
  rc_queue : SplitQueue;
  rc_log : @History Q;
  rc_now : Z;
  startTime : Z;
  rc_tickers : list ticker;
  tickCancel : option nat;      (** the ticker that the stored function cancels; nil at first *)
  rc_crashed : bool;
}.

Inductive rlabel :=
  | RQueue (l : queue_label)
  | RTime (d : Z)
  | RStartRecording
  | RStopRecording
  | RClear
  | RTick (i : nat)
  | RLoadValue (i : nat)
  | RTestRecording (i : nat)
  | RAppendEntry (i : nat)
  | RDone (i : nat).

Section recorder.
Context (capacity : positive) (RecordInterval : Z).

(** The value of a sample. *)
Definition load (k : EntryKind) (t : SplitQueue.Telemetry) : Q :=
  match k with
  | CompletedTasksLocal => sfloat (inject_Z (numCompletedLocal t))
  | CompletedTasksRemote => sfloat (inject_Z (numCompletedRemote t))
  | DelegatedTasks => sfloat (inject_Z (numDelegated t))
  | RunningTasks => sfloat (inject_Z (numRunning t))
  | QueuedTasks => sfloat (sfloat (sfloat (inject_Z (numQueued t)) / sfloat (inject_Z (Zpos capacity))) * 10)
  | Invalid => 0
  end.

(** [StartRecording]; [time.NewTicker] panics for an interval that is not positive. *)
Definition StartRecording (r : Recorder) : Recorder :=
  let log := mkHistory true (history (rc_log r)) in
  if bool_decide (RecordInterval ≤ 0) then
    mkRecorder (rc_queue r) log (rc_now r) (rc_now r) (rc_tickers r) (tickCancel r) true
  else
    mkRecorder (rc_queue r) log (rc_now r) (rc_now r) (rc_tickers r ++ [mkTicker TWait false])
      (Some (length (rc_tickers r))) (rc_crashed r).

Definition set_log (log : @History Q) (r : Recorder) : Recorder :=
  mkRecorder (rc_queue r) log (rc_now r) (startTime r) (rc_tickers r) (tickCancel r) (rc_crashed r).
Definition set_tickers (ts : list ticker) (r : Recorder) : Recorder :=
  mkRecorder (rc_queue r) (rc_log r) (rc_now r) (startTime r) ts (tickCancel r) (rc_crashed r).
Definition rc_panic (r : Recorder) : Recorder :=
  mkRecorder (rc_queue r) (rc_log r) (rc_now r) (startTime r) (rc_tickers r) (tickCancel r) true.
Definition cancel_ticker (t : ticker) : ticker := mkTicker (tk_pc t) true.

(** [StopRecording] calls [tickCancel], which is nil before the first [StartRecording]. *)
Definition StopRecording_ (r : Recorder) : Recorder :=
  let r := set_log (StopRecording (rc_log r)) r in
  match tickCancel r with
  | None => rc_panic r
  | Some i => set_tickers (alter cancel_ticker i (rc_tickers r)) r
  end.

(** [t.history = append(t.history, i)] with the time of the append. *)
Definition append_entry (k : EntryKind) (y : Q) (r : Recorder) : Recorder :=
  set_log (mkHistory (recording (rc_log r)) (history (rc_log r) ++ [mkEntry (rc_now r) y k])) r.

(** A step of a ticker goroutine. *)
Definition tick_step (lb : rlabel) (t : ticker) (r : Recorder) : option (tick_pc * Recorder) :=
  match lb, tk_pc t with
  | RTick _, TWait => Some (tick_next recorded_kinds, r)
  | RLoadValue _, TLoad k rest => Some (TTest k (load k (telemetry (rc_queue r))) rest, r)
  | RTestRecording _, TTest k y rest =>
      Some (if recording (rc_log r) then TAppend k y rest else tick_next rest, r)
  | RAppendEntry _, TAppend k y rest => Some (tick_next rest, append_entry k y r)
  | RDone _, TWait => if tk_cancelled t then Some (TStopped, r) else None
  | _, _ => None
  end.

Definition at_ticker (i : nat) (lb : rlabel) (r : Recorder) : option Recorder :=
  t ← rc_tickers r !! i;
  '(pc, r) ← tick_step lb t r;
  Some (set_tickers (<[i := mkTicker pc (tk_cancelled t)]> (rc_tickers r)) r).

Definition rec_live (lb : rlabel) (r : Recorder) : option Recorder :=
  match lb with
  | RQueue l =>
      q ← queue_step (Pos.to_nat capacity) l (rc_queue r);
      Some (mkRecorder q (rc_log r) (rc_now r) (startTime r) (rc_tickers r) (tickCancel r) (rc_crashed r))
  | RTime d =>
      if bool_decide (0 ≤ d) then
        Some (mkRecorder (rc_queue r) (rc_log r) (rc_now r + d) (startTime r) (rc_tickers r) (tickCancel r) (rc_crashed r))
      else None
  | RStartRecording => Some (StartRecording r)
  | RStopRecording => Some (StopRecording_ r)
  | RClear => Some (set_log (Clear (rc_log r)) r)
  | RTick i | RLoadValue i | RTestRecording i | RAppendEntry i | RDone i => at_ticker i lb r
  end.

(** After a panic nothing happens. *)
Definition rec_step (lb : rlabel) (r : Recorder) : option Recorder :=
  if rc_crashed r then None else rec_live lb r.

(** The telemetry of [NewSplitQueue]: recording starts when it is enabled. *)
Definition new_recorder (enabled : bool) (now : Z) : Recorder :=
  let r := mkRecorder NewSplitQueue (mkHistory false []) now 0 [] None false in
  if enabled then StartRecording r else r.
End recorder.

(** ** What the history holds *)

Lemma queue_counters capacity q : reach (queue_step capacity) new_queue any_label q → counters_ok q.
Proof.
  intros HR. pattern q. refine (reach_inv _ _ _ _ q _ _ HR); [by intros ? ->; vm_compute|].
  intros s l s' IH _ Hs. by eapply counters_step.
Qed.

Section history.
Context (capacity : positive) (RecordInterval : Z).
Abbreviation qstep := (queue_step (Pos.to_nat capacity)).
Abbreviation queue_reached := (reach qstep new_queue any_label).
Abbreviation step := (rec_step capacity RecordInterval).

(** The value was right at some moment not after the present one: in a state of the queue
    from which the present one was reached, and in which the counters were right. *)
Definition sampled (now : SplitQueue) (k : EntryKind) (y : Q) : Prop :=
  ∃ q ls, queue_reached q ∧ counters_ok q ∧ run_labels qstep ls q = Some now ∧ y = load capacity k (telemetry q).

Lemma sampled_now q k : queue_reached q → sampled q k (load capacity k (telemetry q)).
Proof. intros HR. exists q, []. by split_and!; [|eapply queue_counters| |]. Qed.

Lemma sampled_step l q q' k y : qstep l q = Some q' → sampled q k y → sampled q' k y.
Proof.
  intros Hs (q0 & ls & HR & HC & Hrun & Hy). exists q0, (ls ++ [l]). split_and!; [done|done| |done].
  clear HR HC Hy. revert q0 Hrun. induction ls as [|l0 ls IH]; intros q0; cbn -[queue_step].
  - intros [= ->]. by rewrite Hs.
  - intros (q1 & -> & H)%bind_Some. cbn -[queue_step]. by apply IH.
Qed.

Definition entry_ok (q : SplitQueue) (now : Z) (e : @Entry Q) : Prop :=
  X e ≤ now ∧ Kind e ∈ recorded_kinds ∧ sampled q (Kind e) (Y e).

Definition ticker_ok (q : SplitQueue) (t : ticker) : Prop :=
  match tk_pc t with
  | TLoad k rest => Forall (.∈ recorded_kinds) (k :: rest)
  | TTest k y rest | TAppend k y rest => Forall (.∈ recorded_kinds) (k :: rest) ∧ sampled q k y
  | TWait | TStopped => True
  end.

Record rec_ok (r : Recorder) : Prop := {
  ro_queue : queue_reached (rc_queue r);
  ro_sorted : sorted (history (rc_log r));
  ro_entries : Forall (entry_ok (rc_queue r) (rc_now r)) (history (rc_log r));
  ro_tickers : Forall (ticker_ok (rc_queue r)) (rc_tickers r);
}.

Lemma sorted_snoc (e : list (@Entry Q)) x : sorted e → Forall (λ y, X y ≤ X x) e → sorted (e ++ [x]).
Proof.
  intros Hs Hx i j a b Hij Ha Hb. apply lookup_app_Some in Ha as [Ha|[Li Ha]], Hb as [Hb|[Lj Hb]].
  - by eapply Hs.
  - apply list_lookup_singleton_Some in Hb as [_ <-]. by eapply Forall_lookup_1 in Hx.
  - apply lookup_lt_Some in Hb. lia.
  - apply list_lookup_singleton_Some in Ha as [_ <-], Hb as [_ <-]. done.
Qed.

Lemma tick_next_ok q rest b : Forall (.∈ recorded_kinds) rest → ticker_ok q (mkTicker (tick_next rest) b).
Proof. by destruct rest. Qed.

Lemma recorded_self : Forall (.∈ recorded_kinds) recorded_kinds.
Proof. by apply Forall_forall. Qed.

(** A step of a ticker appends at most one good entry. *)
Lemma tick_step_ok lb t r pc r' :
  rec_ok r → ticker_ok (rc_queue r) t → tick_step capacity lb t r = Some (pc, r') →
  rec_ok r' ∧ ticker_ok (rc_queue r') (mkTicker pc (tk_cancelled t)).
Proof.
  intros Hok Ht Hs. pose proof Hok as [H1 H2 H3 H4]. unfold ticker_ok in Ht.
  destruct lb; cbn in Hs; try discriminate; destruct (tk_pc t) as [|k rest|k y rest|k y rest|]; try discriminate.
  - simplify_eq. split; [done|exact recorded_self].
  - simplify_eq. split; [done|]. cbn. split; [done|by apply sampled_now].
  - destruct Ht as [Hk Hy]. destruct (recording (rc_log r)); simplify_eq; (split; [done|]); cbn; [done|].
    inversion_clear Hk. by apply tick_next_ok.
  - destruct Ht as [Hk Hy]. inversion_clear Hk. simplify_eq. split; [|by apply tick_next_ok]. split; cbn; [done| | |done].
    + apply sorted_snoc; [done|]. eapply Forall_impl; [done|]. by intros e [? _].
    + apply Forall_app. split; [done|]. apply Forall_singleton. split_and!; cbn; [lia|done|done].
  - destruct (tk_cancelled t); simplify_eq. by split.
Qed.

Lemma rec_ok_step lb r r' : rec_ok r → step lb r = Some r' → rec_ok r'.
Proof.
  intros Hok Hs. pose proof Hok as [H1 H2 H3 H4]. unfold rec_step in Hs. destruct (rc_crashed r); [discriminate|].
  assert (∀ i, at_ticker capacity i lb r = Some r' → rec_ok r') as HT.
  { intros i (t & Ht & Hs')%bind_Some. apply bind_Some in Hs' as ([pc r1] & Hst & [= <-]).
    destruct (tick_step_ok lb t r pc r1 Hok) as ([G1 G2 G3 G4] & Hpc); [by eapply Forall_lookup_1|done|].
    split; cbn; [done|done|done|by apply Forall_insert]. }
  destruct lb; cbn -[queue_step at_ticker] in Hs; try by eapply HT.
  - apply bind_Some in Hs as (q & Hq & [= <-]). split; cbn; [by econstructor|done| |]; (eapply Forall_impl; [done|]).
    + intros e (E1 & E2 & E3). split_and!; [done|done|by eapply sampled_step].
    + intros t. unfold ticker_ok. destruct (tk_pc t); intuition eauto using sampled_step.
  - case_bool_decide; simplify_eq. split; cbn; [done|done| |done]. eapply Forall_impl; [done|].
    intros e (? & ? & ?). split_and!; [lia|done|done].
  - simplify_eq. unfold StartRecording. case_bool_decide; split; cbn; try done. apply Forall_app. split; [done|].
    by apply Forall_singleton.
  - simplify_eq. unfold StopRecording_. cbn. destruct (tickCancel r) as [i|]; split; cbn; try done.
    apply Forall_alter; [done|]. by intros t _ Ht.
  - simplify_eq. split; cbn; [done|by intros ? ?|done|done].
Qed.

Definition recorder_reached (enabled : bool) (now : Z) : Recorder → Prop :=
  reach step (.= new_recorder RecordInterval enabled now) (λ _, True).

Lemma recorder_inv enabled now r : recorder_reached enabled now r → rec_ok r.
Proof.
  intros HR. pattern r. refine (reach_inv _ _ _ _ r _ _ HR).
  - intros ? ->. unfold new_recorder, StartRecording. destruct enabled; [case_bool_decide|];
      (split; cbn; [by constructor|by intros ? ?|done|]); try done. by apply Forall_singleton.
  - intros s lb s' IH _ Hs. by eapply rec_ok_step.
Qed.

(** The history is a faithful record. Whatever the queue, the tickers, starts, stops and
    clears did, every entry has the value that its counter had at a moment when the counters
    agreed with the tasks of the queue, no later than now; and because the time is taken
    where the entry is appended, the entries are in time order, so that [TimeRange] returns
    exactly those of any interval. *)
Theorem recorder_history (enabled : bool) (now : Z) (r : Recorder) (HR : recorder_reached enabled now r) :
  (∀ e, e ∈ history (rc_log r) → X e ≤ rc_now r ∧ Kind e ∈ recorded_kinds ∧ sampled (rc_queue r) (Kind e) (Y e)) ∧
  (∀ begin end_, begin ≠ 0 → end_ ≠ 0 → begin ≤ end_ →
     TimeRange (history (rc_log r)) begin end_ =
     Ret (Filter (λ e, bool_decide (begin ≤ X e < end_)) (history (rc_log r)))).
Proof.
  destruct (recorder_inv _ _ _ HR) as [_ HS HE _]. split.
  - intros e He. by apply (proj1 (Forall_forall _ _) HE).
  - intros. by apply TimeRange_spec.
Qed.

(** ** Samples come in rounds *)

(** The samples that the only ticker has still to record in its round. *)
Definition round_rest (ts : list ticker) : list EntryKind :=
  match ts with
  | [t] => match tk_pc t with TLoad k rest | TTest k _ rest | TAppend k _ rest => k :: rest | _ => [] end
  | _ => []
  end.

Definition undisturbed (lb : rlabel) : Prop :=
  match lb with RStartRecording | RStopRecording | RClear => False | _ => True end.

Record round_ok (r : Recorder) : Prop := {
  rr_on : recording (rc_log r) = true;
  rr_one : length (rc_tickers r) = 1%nat;
  rr_len : (length (round_rest (rc_tickers r)) ≤ 5)%nat;
  rr_kinds : ∃ n, (Kind <$> history (rc_log r)) ++ round_rest (rc_tickers r) = concat (replicate n recorded_kinds);
}.

Lemma concat_replicate_snoc {A} n (l : list A) : concat (replicate n l) ++ l = concat (replicate (S n) l).
Proof. induction n as [|n IH]; cbn; [by rewrite app_nil_r|]. by rewrite <- app_assoc, IH. Qed.

Lemma round_step lb r r' : round_ok r → undisturbed lb → step lb r = Some r' → round_ok r'.
Proof.
  intros [H1 H2 HL [n Hn]] HU Hs. unfold rec_step in Hs. destruct (rc_crashed r); [discriminate|].
  destruct (rc_tickers r) as [|t [|]] eqn:Et; try discriminate.
  assert (∀ i, at_ticker capacity i lb r = Some r' → round_ok r') as HT.
  { intros i (t' & Ht & Hs')%bind_Some. rewrite Et in Ht. apply list_lookup_singleton_Some in Ht as [-> <-].
    apply bind_Some in Hs' as ([pc r1] & Hst & [= <-]).
    destruct (tk_cancelled t) eqn:Ec;
    destruct lb; cbn in Hst; rewrite ?Ec in Hst; try discriminate; destruct (tk_pc t) as [|k rest|k y rest|k y rest|] eqn:Ep; try discriminate;
      cbn in HL, Hn; rewrite ?Ep, ?H1 in *; simplify_eq; cbn in *;
      (split; cbn; [done|by rewrite Et|rewrite Et; cbn; try lia; by destruct rest; cbn in *; lia|]); rewrite Et; cbn.
    all: try by exists n.
    all: try (exists n; rewrite fmap_app, <- app_assoc, <- Hn; by destruct rest).
    all: exists (S n); by rewrite <- concat_replicate_snoc, <- Hn, app_nil_r. }
  destruct lb; cbn -[queue_step at_ticker] in Hs, HU; try done; try by eapply HT.
  - apply bind_Some in Hs as (q & Hq & [= <-]). split; cbn; [done|by rewrite Et|by rewrite Et|rewrite Et; by exists n].
  - case_bool_decide; simplify_eq. split; cbn; [done|by rewrite Et|by rewrite Et|rewrite Et; by exists n].
Qed.

(** With one recording that is not stopped or cleared, the entries come in rounds of the five
    samples, always in the same order: each kind has as many entries as any other, or one
    more. *)
Theorem recorder_rounds (now : Z) (r : Recorder) (HI : 0 < RecordInterval)
    (HR : reach step (.= new_recorder RecordInterval true now) undisturbed r) :
  ∃ n rest, (Kind <$> history (rc_log r)) ++ rest = concat (replicate n recorded_kinds) ∧ (length rest ≤ 5)%nat.
Proof.
  cut (round_ok r); [by intros [_ _ Hl [n Hn]]; eauto|].
  pattern r. refine (reach_inv _ _ _ _ r _ _ HR).
  - intros ? ->. unfold new_recorder, StartRecording. rewrite bool_decide_false by lia.
    split; cbn; [done|done|lia|by exists 0%nat].
  - intros s lb s' IH HP Hs. by eapply round_step.
Qed.
End history.

(** ** Differences *)

(** [Deltas]: the [Kind] of the results is not set. *)
Definition Deltas (e : list (@Entry Q)) : list (@Entry Q) :=
  imap (λ i v, match i with
               | O => mkEntry (X v) 0%Q Invalid
               | S j => mkEntry (X v) (sfloat (Y v - from_option Y 0%Q (e !! j))) Invalid
               end) e.

(** [ToXYs]: milliseconds, rounded towards zero. *)
Definition ToXYs (e : list (@Entry Q)) : list (Q * Q) :=
  (λ v, (sfloat (inject_Z (X v ÷ 10 ^ 6)), Y v)) <$> e.

Definition qsum : list Q → Q := foldr Qplus 0%Q.

Lemma qsum_snoc l x : (qsum (l ++ [x]) == qsum l + x)%Q.
Proof. induction l as [|y l IH]; cbn; [ring|]. rewrite IH. ring. Qed.

(** The value of a counter: an integer of 32 bits. *)
Definition counted (e : @Entry Q) : Prop := ∃ z, - 2 ^ 31 ≤ z < 2 ^ 31 ∧ (Y e == inject_Z z)%Q.

Lemma Deltas_snoc e x :
  Deltas (e ++ [x]) = Deltas e ++
    [mkEntry (X x) (match last e with Some v => sfloat (Y x - Y v) | None => 0%Q end) Invalid].
Proof.
  unfold Deltas. rewrite imap_app. f_equal.
  - apply imap_ext. intros i v Hi. destruct i as [|j]; [done|]. rewrite lookup_app_l; [done|].
    apply lookup_lt_Some in Hi. lia.
  - cbn. rewrite Nat.add_0_r. destruct e as [|v e _] using rev_ind; [done|].
    rewrite last_snoc, length_app. cbn [length]. rewrite Nat.add_1_r, <- app_assoc, lookup_app_r by lia.
    by rewrite Nat.sub_diag.
Qed.

Lemma Deltas_times e : X <$> Deltas e = X <$> e.
Proof. induction e as [|x e IH] using rev_ind; [done|]. by rewrite Deltas_snoc, !fmap_app, IH. Qed.

Lemma counted_diff x y : counted x → counted y → (sfloat (Y x - Y y) == Y x - Y y)%Q.
Proof.
  intros (a & Ha & Ea) (b & Hb & Eb).
  assert (Y x - Y y == inject_Z (a - b))%Q as E.
  { rewrite Ea, Eb. unfold Z.sub, Qminus. by rewrite inject_Z_plus, inject_Z_opp. }
  transitivity (inject_Z (a - b)); [apply sfloat_exact; [lia|done]|by symmetry].
Qed.

(** The differences of the samples of a counter are exact: they are at the times of the
    samples, and up to any sample they add up to its change since the first one, although
    they are computed in floating point. *)
Theorem Deltas_sum (first x : @Entry Q) (e : list (@Entry Q)) (HC : Forall counted (first :: e))
    (HL : last (first :: e) = Some x) :
  X <$> Deltas (first :: e) = X <$> first :: e ∧ (qsum (Y <$> Deltas (first :: e)) == Y x - Y first)%Q.
Proof.
  split; [apply Deltas_times|]. revert x HL. induction e as [|y e IH] using rev_ind; intros x HL.
  - injection HL as ->. cbn. ring.
  - rewrite app_comm_cons in *. apply Forall_app in HC as [HC Hy]. rewrite Forall_singleton in Hy.
    rewrite last_snoc in HL. injection HL as ->. rewrite Deltas_snoc, fmap_app, list_fmap_singleton, qsum_snoc.
    destruct (last (first :: e)) as [v|] eqn:El; [|by apply last_None in El].
    rewrite (IH HC v eq_refl). cbn [Y]. rewrite counted_diff; [ring|exact Hy|].
    apply (proj1 (Forall_forall _ _) HC). by apply last_Some_elem_of.
Qed.

(** The samples that the recorder takes of four of the counters are such values. *)
Lemma load_counted capacity k t z :
  (k, z) ∈ [(CompletedTasksLocal, numCompletedLocal t); (CompletedTasksRemote, numCompletedRemote t);
            (DelegatedTasks, numDelegated t); (RunningTasks, numRunning t)] →
  - 2 ^ 31 ≤ z < 2 ^ 31 → (load capacity k t == inject_Z z)%Q.
Proof.
  intros H Hz. repeat (apply elem_of_cons in H as [[= -> ->]|H]); [..|by apply elem_of_nil in H];
    cbn; (apply sfloat_exact; [lia|reflexivity]).
Qed.

(** ** Faults *)

(** A second [StartRecording] forgets how to stop the first ticker: after [StopRecording] only
    the second one is cancelled, and when recording starts again two tickers sample. *)
Theorem start_twice_leaks :
  ∃ r, run_labels (rec_step 1000 1) [RStartRecording; RStopRecording; RStartRecording] (new_recorder 1 true 5) = Some r ∧
    tk_cancelled <$> rc_tickers r = [false; true; false].
Proof. eexists. split; [by vm_compute|done]. Qed.

(** [StopRecording] of telemetry that was never started calls a nil function, and enabling
    telemetry without an interval panics in [NewSplitQueue]. *)
Theorem recorder_panics :
  rc_crashed <$> rec_step 1000 1 RStopRecording (new_recorder 1 false 5) = Some true ∧
  rc_crashed (new_recorder 0 true 5) = true.
Proof. by vm_compute. Qed.

(** ** Metrics of the consumer daemon *)

Inductive cd_metric :=
  | CdUsageLimits (ConcurrentProcessLimit DelegatedTaskLimit : Z)
  | CdTaskStatus (NumQueued NumRunning NumDelegated : Z)
  | CdLocalTasksCompleted (Total : Z)
  | CdDelegatedTasksCompleted (Total : Z)
  | CdToolchains (Items : list Toolchain).

Definition post_to {M} (p : MetricsProvider) (m : M) : list M :=
  match p with NoopProvider => [] | MonitorProvider => [m] end.

(** The values are read one after the other: each from the state of the queue at that moment. *)
Definition CompleteUsageLimits (q1 q2 : SplitQueue) : cd_metric :=
  CdUsageLimits (wrap32 (Size (localWorkers q1))) (wrap32 (Size (remoteWorkers q2))).
Definition CompleteTaskStatus (q1 q2 q3 : SplitQueue) : cd_metric :=
  CdTaskStatus (numQueued (telemetry q1)) (numRunning (telemetry q2)) (numDelegated (telemetry q3)).
Definition CompleteLocalTasksCompleted (q : SplitQueue) : cd_metric :=
  CdLocalTasksCompleted (numCompletedLocal (telemetry q)).
Definition CompleteDelegatedTasksCompleted (q : SplitQueue) : cd_metric :=
  CdDelegatedTasksCompleted (numCompletedRemote (telemetry q)).

Definition cd_postUsageLimits p q1 q2 : list cd_metric := post_to p (CompleteUsageLimits q1 q2).
Definition cd_postTaskStatus p q1 q2 q3 : list cd_metric := post_to p (CompleteTaskStatus q1 q2 q3).
Definition cd_postTotals p q1 q2 : list cd_metric :=
  post_to p (CompleteLocalTasksCompleted q1) ++ post_to p (CompleteDelegatedTasksCompleted q2).
Definition cd_postToolchains {Qr} p (s : @Toolchains.Store Qr) : list cd_metric := post_to p (CdToolchains (ItemsList s)).

(** What the daemon posts is true of its queue: the numbers are those of the tasks at the
    moments they were read (as 32-bit integers, which they are below 2^31), and the totals
    count the tasks that ran, less those whose deferred call is under way. *)
Theorem posts_true (capacity : nat) (q1 q2 q3 : SplitQueue)
    (H1 : reach (queue_step capacity) new_queue any_label q1)
    (H2 : reach (queue_step capacity) new_queue any_label q2)
    (H3 : reach (queue_step capacity) new_queue any_label q3)
    (HQ : Z.of_nat (queued q1) < 2 ^ 31) (HR : Z.of_nat (running false q2) < 2 ^ 31)
    (HD : Z.of_nat (running true q3) < 2 ^ 31) :
  cd_postTaskStatus MonitorProvider q1 q2 q3 =
    [CdTaskStatus (Z.of_nat (queued q1)) (Z.of_nat (running false q2)) (Z.of_nat (running true q3))] ∧
  cd_postTotals MonitorProvider q1 q2 =
    [CdLocalTasksCompleted (wrap32 (Z.of_nat (length (ranLocal q1)) - Z.of_nat (finishing false q1)));
     CdDelegatedTasksCompleted (wrap32 (Z.of_nat (length (ranRemote q2)) - Z.of_nat (finishing true q2)))].
Proof.
  destruct (queue_counters _ _ H1) as (A & _ & _ & D & _). destruct (queue_counters _ _ H2) as (_ & B & _ & _ & E).
  destruct (queue_counters _ _ H3) as (_ & _ & C & _).
  unfold cd_postTaskStatus, cd_postTotals, CompleteTaskStatus, CompleteLocalTasksCompleted, CompleteDelegatedTasksCompleted.
  rewrite A, B, C, D, E. rewrite (wrap_id 32 (Z.of_nat (queued q1))), (wrap_id 32 (Z.of_nat (running false q2))),
    (wrap_id 32 (Z.of_nat (running true q3))) by (unfold in_range; lia). done.
Qed.

(** ** Witnesses *)

Definition one_sample : list rlabel := [RLoadValue 0; RTestRecording 0; RAppendEntry 0].
Definition recording_run : list rlabel :=
  [RTick 0] ++ one_sample ++ [RTime 3] ++ (RQueue <$> demo) ++ one_sample ++ [RTime 2] ++ one_sample ++ one_sample.
Definition recorded : Recorder := after_run (rec_step 10 1) (new_recorder 1 true 5) recording_run.

Lemma recorder_history_witness :
  (X <$> history (rc_log recorded), Kind <$> history (rc_log recorded), (λ e, Qred (Y e)) <$> history (rc_log recorded)) =
    ([5; 8; 10; 10], [CompletedTasksLocal; CompletedTasksRemote; DelegatedTasks; RunningTasks], [0; 0; 1; 1]%Q) ∧
  TimeRange (history (rc_log recorded)) 6 10 =
    Ret (Filter (λ e, bool_decide (6 ≤ X e < 10)) (history (rc_log recorded))).
Proof.
  split; [by vm_compute|].
  apply (recorder_history 10 1 true 5 recorded); [|lia..].
  apply after_run_reach; [done|by apply Forall_true].
Defined.

Lemma recorder_rounds_witness :
  ∃ n rest, (Kind <$> history (rc_log recorded)) ++ rest = concat (replicate n recorded_kinds) ∧ (length rest ≤ 5)%nat.
Proof.
  apply (recorder_rounds 10 1 5 recorded); [lia|]. apply after_run_reach; [done|].
  unfold recording_run, one_sample. rewrite !Forall_app. split_and!; by repeat constructor.
Defined.

Definition totals_seen : list (@Entry Q) := [mkEntry 1 2%Q RunningTasks; mkEntry 2 5%Q RunningTasks; mkEntry 3 4%Q RunningTasks].

Lemma Deltas_sum_witness :
  (qsum (Y <$> Deltas totals_seen) == 4 - 2)%Q.
Proof.
  apply (Deltas_sum (mkEntry 1 2%Q RunningTasks) (mkEntry 3 4%Q RunningTasks)); [|done].
  repeat (apply Forall_cons_2; [eexists; split; [|cbn; apply Qeq_sym, Qeq_refl]; lia|]). by apply Forall_nil.
Defined.

Lemma posts_true_witness :
  cd_postTaskStatus MonitorProvider demo_state demo_state demo_state = [CdTaskStatus 0 1 1].
Proof.
  etransitivity; [apply (posts_true 10 demo_state demo_state demo_state); [apply demo_reach..|by vm_compute|by vm_compute|by vm_compute]|].
  by vm_compute.
Defined.
